(* ===== verification/_CoqProject ===== *)
-Q . S2P
Prelude.v
GoStrings.v
Packet.v
Flv.v
Rtsp.v
Ownership.v
Subscriber.v
Stream.v
Engine.v
Pull.v
Sinks.v
Idempotency.v
Tracectx.v
Protocol.v
Base64.v
Redis.v
Lease.v
Health.v
Urls.v
Session.v
RelaySession.v
Node.v
Rbac.v
RbacRedis.v
Auth.v
Camera.v
Api.v
Supervisor.v
Pion.v
Streams.v
Recordings.v
Onvif.v
Playback.v
Priority.v
Paths.v
Ingest.v
Logging.v
Server.v
Startup.v
Creation.v
