(* ===== verification/Prelude.v ===== *)
(** * go-cam-server: a verification library

    go-cam-server is a Go media gateway. Cameras publish to a MediaMTX server;
    the gateway pulls each stream over RTSP, turns it into FLV packets and fans
    them out to subscribers: an FLV archive, an HLS directory, an object store,
    websocket viewers, and other gateway nodes that relay the stream. Around that
    pipeline there is a control plane: stream start-up on demand, sessions with
    leases, relay sessions with tokens, users with roles, cameras, a registry of
    cluster nodes in Redis, and an HTTP API.

    ** How the program is put together, and where each part is

    Each file names at its top the Go files it models; a definition has the name
    of the function it models, after the receiver or the component where two
    functions share a name.

    The media path, in the order a packet travels:

    - [Packet] ([internal/stream/types.go]): packets live in an explicit memory
      with reference counts and a free list, so that aliasing, double release and
      use after free can be stated. [Ownership] says which component holds how
      many references.
    - [Rtsp] ([internal/rtsp/ingester.go]): access units to FLV bodies, and the two
      RTP callbacks with their clocks. [Flv] ([internal/flv]): the container, both
      ways.
    - [Stream] ([internal/stream/fanout.go], [manager.go]): the bounded ingest
      channel, the pump that retains a packet for each subscriber, closing, and
      the registry of live streams; the whole pipeline is the step relation at
      its end, whose invariants are proved by rule induction.
    - [Subscriber] and [Sinks] ([internal/subscriber], [internal/api/relay.go]): the
      queues, the viewer cache, and the bytes each consumer writes.
    - [Pull] ([internal/node/relay.go], [IngestManager]): the goroutines that feed a
      stream, as state machines. [Engine] ([internal/stream/engine.go], [key.go]):
      start-up on demand, with its polling loop.

    The control plane:

    - [Idempotency], [Lease], [Health] ([internal/ha]): concurrent execution of keyed
      requests, leases and their tokens, dependency checks and retries; [Base64],
      [Tracectx] and [Protocol] are the encodings and tables they use.
    - [Redis]: what the program relies on of its Redis server, a class with laws.
      [Node] ([internal/node/registry.go], [selector.go]) and [Lease] are clients.
    - [Urls], [Session], [RelaySession] ([internal/api], [internal/relay]): live URLs,
      viewer sessions over leases, relay sessions over the stream engine. [Creation]
      runs concurrent session requests through [Idempotency], [Session] and [Lease].
    - [Rbac], [Auth] ([internal/auth]): stores of roles and permissions behind one
      class, users, tokens, the service and the middleware. [Camera]
      ([internal/camera]): the camera aggregate, its validation, store and service.
    - [RbacRedis] is the Redis store of roles behind the class of [Rbac]; [Api]
      ([internal/auth/handlers.go], [internal/api/user_handler.go],
      [camera_registry.go], [server.go]): the route table, the guards and the
      handlers over these services, request by request.
    - [Streams], [Recordings], [Playback], [Paths] ([internal/api/streams.go],
      [live.go], [playback.go], [hooks.go], [internal/minio], [internal/mediamtx]): the
      stream lists, playlists, hooks and pins; recordings and their URLs; which files
      are served and written. [Priority] ([internal/stream/priority.go]): the ranking
      of streams, in binary64.

    Sources, bridges and the process:

    - [Ingest] ([internal/rtsp/ingester.go], [internal/subscriber/factory.go]): the body
      of an ingest goroutine between the start and the end [Pull] has as steps, and the
      stream it prepares. [Pion] ([internal/pionbridge]): WebRTC sessions and what they
      hold open. [Onvif] ([internal/onvif]): the choice of profiles and what the handlers
      make of a device's answers. [Supervisor] ([internal/mediamtxproc]): the MediaMTX
      child process, its readiness, restarts and delays.
    - [Server] ([internal/api/middleware.go], [control.go], [nodes.go], [relay.go],
      [live.go]): the response writer every handler gets, the health and control
      endpoints over the checks of [Health], and the two endpoints that attach
      subscribers of [Stream]: the relay of another node and a viewer's WebSocket.
    - [Logging] ([internal/logging]): the files an entry goes to, and telemetry as a queue
      and a worker. [Startup] ([config], [cmd/server], [NewServer]): the defaults, [main]
      as a computation that starts parts, defers their end and may exit, and what the
      other files' components are given.

    ** Conventions

    - A Go integer is a [Z] kept in its width by [u8] … [i64] where the code can
      overflow; bytes are [byte], strings [string] of bytes, times nanoseconds.
    - [(value, error)] is [result]; an [error] alone is an option.
    - An operation on a mutable object takes and returns its state; goroutines
      are steps of a relation, so a theorem on reachable states holds of every
      interleaving of the steps. A step is what runs under one lock, or between
      two blocking operations.
    - What is not in the repository is an argument: client libraries, codecs,
      cryptography, random identifiers, clocks and JSON. A law about one of them is
      a class ([RedisLaws], [JWTLaws], …) or a hypothesis, and has an instance.
    - Loops without a structural measure take fuel: [Engine] polls every 50 ms for
      5 s, so 102 rounds suffice; [Supervisor.waitReady] sleeps 300 ms a round, so
      two more rounds than fit its timeout do; [Flv.pull_packets] consumes a byte per unit; the
      loop of [Idempotency] and the one of [Health.Retry] are bounded by their
      keys and attempts. The theorems say the fuel given is enough.

    ** What the theorems show

    Memory safety of the pipeline (exact reference counts, no packet changed
    while held, the leak when [Ingest] drops); end-to-end order of what the sinks
    write; round trips of the FLV, AVC, trace and URL encodings, with the inputs on
    which they fail; the exact contents of HLS directories and uploaded objects;
    single flight, replay and expiry of idempotent requests; authenticity and
    liveness of leases and relay sessions; who is let through by the middleware
    and when access ends; the exact conditions of camera creation; discovery and
    placement in the cluster; that no file outside the served directories is served,
    that scores are within their bounds, that telemetry is drained, and what a start
    and a fatal exit leave running; which relay peers and viewers are fed; and for
    each service the effect of every outcome, errors included.

    ** Not modelled

    The texts of log lines and of most messages; the delays of [ha.Retry]
    ([internal/ha/retry.go]), which are powers in floating point with random jitter
    and matter only through whether the context ended meanwhile; the decoding of YAML,
    JSON, XML and PEM and the rendering of HTML and SOAP: what they give is an
    argument. What client and server libraries do (RTSP, WebRTC, WebSocket, MinIO,
    Redis, JWT, bcrypt, the log library, the router) is an argument or a class. Floating
    point is one rounding per operation, as on amd64; a fused multiply-add, which the
    language allows elsewhere, is not modelled.
*)

From stdpp Require Export gmultiset.
From stdpp Require Export base tactics option list gmap strings fin_maps fin_sets sorting.
From Stdlib Require Export ZArith Lia.
From Stdlib Require Export Init.Byte.
From Stdlib Require Strings.Byte.

Open Scope Z_scope.

(** [lia] also decides goals with division and modulo by constants. *)
Ltac Zify.zify_post_hook ::= Z.div_mod_to_equations.

(** ** Errors: Go's [(value, error)] pairs *)

Inductive result (E A : Type) : Type :=
  | Ok (a : A)
  | Err (e : E).
Arguments Ok {E A} a.
Arguments Err {E A} e.

Definition is_ok {E A} (r : result E A) : bool :=
  match r with Ok _ => true | Err _ => false end.

Declare Scope go_scope.
Delimit Scope go_scope with go.
Notation "'let?' x := c 'in' k" :=
  (match c with Ok x => k | Err e => Err e end)
  (at level 10, x pattern, c at level 200, k at level 200) : go_scope.
Open Scope go_scope.

(** ** Machine integers

    A Go integer of width [w] is a [Z]; the conversions below are the
    wrap-around of the language. *)

Definition u8 (z : Z) : Z := z mod 2 ^ 8.
Definition u16 (z : Z) : Z := z mod 2 ^ 16.
Definition u32 (z : Z) : Z := z mod 2 ^ 32.
Definition u64 (z : Z) : Z := z mod 2 ^ 64.
Definition i32 (z : Z) : Z := (z + 2 ^ 31) mod 2 ^ 32 - 2 ^ 31.
Definition i64 (z : Z) : Z := (z + 2 ^ 63) mod 2 ^ 64 - 2 ^ 63.

(** Bytes: [b2z] is the value of a byte, [z2b] is Go's [byte(x)]. *)

Definition b2z (b : byte) : Z := Z.of_N (Byte.to_N b).
Definition z2b (z : Z) : byte :=
  match Byte.of_N (Z.to_N (z mod 256)) with Some b => b | None => x00 end.

#[export] Instance byte_eq_dec : EqDecision byte := Byte.byte_eq_dec.

(** ** Time: nanoseconds since the epoch; [zero_time] is Go's [time.Time{}] *)

Definition Time := Z.
Definition Duration := Z.
Definition zero_time : Time := -62135596800 * 1000000000.
Definition IsZero (t : Time) : bool := bool_decide (t = zero_time).
Definition Millisecond : Duration := 1000000.
Definition Second : Duration := 1000 * Millisecond.
Definition Minute : Duration := 60 * Second.
Definition Hour : Duration := 60 * Minute.
(** [t.Unix()] *)
Definition Unix (t : Time) : Z := t / Second.
(** [time.Unix(s, 0)] *)
Definition FromUnix (s : Z) : Time := s * Second.

(** ** Tactics *)

(** Split every conjunction of the context and every record equality. *)
Ltac crush :=
  repeat match goal with
         | H : _ /\ _ |- _ => destruct H
         | H : ex _ |- _ => destruct H
         end; simplify_eq/=; try done; try lia.

(** Case analysis on the scrutinee of the first [match] of the goal. *)
Ltac case_goal :=
  match goal with
  | |- context [match ?x with _ => _ end] => destruct x eqn:?
  end.

(** Case analysis on the scrutinee of a [match] in a hypothesis. *)
Ltac case_hyp H :=
  match type of H with
  | context [match ?x with _ => _ end] => destruct x eqn:?
  end.

Create HintDb goint.

(** ** Lemmas on integers and bytes *)

Lemma u32_range z : 0 <= u32 z < 2 ^ 32.
Proof. unfold u32. lia. Qed.

Lemma u32_small z : 0 <= z < 2 ^ 32 -> u32 z = z.
Proof. unfold u32. intros. lia. Qed.

Lemma u32_idem z : u32 (u32 z) = u32 z.
Proof. unfold u32. lia. Qed.

Lemma i32_small z : - 2 ^ 31 <= z < 2 ^ 31 -> i32 z = z.
Proof. unfold i32. intros. lia. Qed.

Lemma i64_small z : - 2 ^ 63 <= z < 2 ^ 63 -> i64 z = z.
Proof. unfold i64. intros. lia. Qed.

Lemma b2z_range b : 0 <= b2z b < 256.
Proof.
  unfold b2z. pose proof (Byte.to_N_bounded b). lia.
Qed.

Lemma b2z_z2b z : b2z (z2b z) = z mod 256.
Proof.
  unfold b2z, z2b. destruct (Byte.of_N _) eqn:E.
  - apply Byte.to_of_N in E. rewrite E. lia.
  - apply Byte.of_N_None_iff in E. lia.
Qed.

Lemma z2b_b2z b : z2b (b2z b) = b.
Proof.
  unfold z2b. pose proof (b2z_range b). rewrite Z.mod_small by lia.
  unfold b2z. rewrite N2Z.id, Byte.of_to_N. done.
Qed.


#[export] Hint Resolve u32_range b2z_range : goint.

(** Concatenating disjoint bit fields is addition. *)
Lemma lor_shiftl_add a b k :
  0 <= k -> 0 <= b < 2 ^ k -> Z.lor (Z.shiftl a k) b = a * 2 ^ k + b.
Proof.
  intros Hk Hb. rewrite <- Z.shiftl_mul_pow2 by lia.
  assert (Z.land (Z.shiftl a k) b = 0) as H0.
  { apply Z.bits_inj_iff'. intros i Hi. rewrite Z.land_spec, Z.bits_0.
    destruct (Z.lt_ge_cases i k).
    - rewrite Z.shiftl_spec_low by lia. done.
    - rewrite <- (Z.mod_small b (2 ^ k)) by lia.
      rewrite Z.mod_pow2_bits_high by lia. apply andb_false_r. }
  rewrite Z.add_nocarry_lxor by done. symmetry. by apply Z.lxor_lor.
Qed.
