(* ===== verification/GoStrings.v ===== *)
(** * Go's string functions

    The functions of [strings], [utf8] and [encoding/hex] the program uses, on
    byte strings. *)

From Stdlib Require Export Ascii.
From Stdlib Require Strings.String.
From S2P Require Import Prelude.

#[export] Instance ascii_eq_dec' : EqDecision ascii := Ascii.ascii_dec.

(** The value of a byte. *)
Definition a2z (a : ascii) : Z := Z.of_N (N_of_ascii a).

Definition in_range (lo hi : Z) (a : ascii) : bool := (lo <=? a2z a) && (a2z a <=? hi).

(** [len(s)] *)
Definition len (s : string) : Z := Z.of_nat (String.length s).

(** [%q], of printable ASCII: between quotes, with the quotes and the
    backslashes escaped. *)
Definition dquote : ascii := "034"%char.
Fixpoint escape (s : string) : string :=
  match s with
  | EmptyString => EmptyString
  | String a s =>
      if bool_decide (a = dquote \/ a = "\"%char) then String "\" (String a (escape s))
      else String a (escape s)
  end.
Definition quote (s : string) : string := String dquote (escape s +:+ String dquote EmptyString).

(** ** Prefixes, splitting *)

(** What follows a prefix. *)
Fixpoint strip_prefix (p s : string) : option string :=
  match p, s with
  | EmptyString, _ => Some s
  | String a p, String b s => if bool_decide (a = b) then strip_prefix p s else None
  | String _ _, EmptyString => None
  end.

Definition HasPrefix (s p : string) : bool := bool_decide (is_Some (strip_prefix p s)).

Definition TrimPrefix (s p : string) : string := default s (strip_prefix p s).

(** [strings.Split(s, sep)] for a one-byte separator: the fields, at least one. *)
Fixpoint Split (sep : ascii) (s : string) : list string :=
  match s with
  | EmptyString => [""]
  | String a s =>
      let fields := Split sep s in
      if bool_decide (a = sep) then "" :: fields
      else match fields with
           | f :: fields => String a f :: fields
           | [] => [String a ""]
           end
  end.

(** The part before the first [c] ([strings.IndexByte] and slicing). *)
Fixpoint before (c : ascii) (s : string) : string :=
  match s with
  | EmptyString => ""
  | String a s => if bool_decide (a = c) then "" else String a (before c s)
  end.

Fixpoint contains_byte (c : ascii) (s : string) : bool :=
  match s with
  | EmptyString => false
  | String a s => bool_decide (a = c) || contains_byte c s
  end.

(** [strings.Contains] *)
Fixpoint Contains (s sub : string) : bool :=
  HasPrefix s sub ||
  match s with EmptyString => false | String _ s => Contains s sub end.

(** ** White space *)

Definition byte (n : N) : ascii := ascii_of_N n.
Definition bytes (l : list N) : string := Stdlib.Strings.String.string_of_list_ascii (byte <$> l).

(** The UTF-8 encodings of [unicode.IsSpace]. *)
Definition spaces : list string :=
  [bytes [9%N]; bytes [10%N]; bytes [11%N]; bytes [12%N]; bytes [13%N]; bytes [32%N];
   bytes [194%N; 133%N]; bytes [194%N; 160%N];
   bytes [225%N; 154%N; 128%N];
   bytes [226%N; 128%N; 128%N]; bytes [226%N; 128%N; 129%N]; bytes [226%N; 128%N; 130%N];
   bytes [226%N; 128%N; 131%N]; bytes [226%N; 128%N; 132%N]; bytes [226%N; 128%N; 133%N];
   bytes [226%N; 128%N; 134%N]; bytes [226%N; 128%N; 135%N]; bytes [226%N; 128%N; 136%N];
   bytes [226%N; 128%N; 137%N]; bytes [226%N; 128%N; 138%N]; bytes [226%N; 128%N; 168%N];
   bytes [226%N; 128%N; 169%N]; bytes [226%N; 128%N; 175%N]; bytes [226%N; 129%N; 159%N];
   bytes [227%N; 128%N; 128%N]].

Fixpoint strip_any (ps : list string) (s : string) : option string :=
  match ps with
  | [] => None
  | p :: ps => match strip_prefix p s with Some r => Some r | None => strip_any ps s end
  end.

(** Strip prefixes among [ps] as long as there are; each is at least one byte
    long, so the length of the string is enough fuel. *)
Fixpoint trim_left (fuel : nat) (ps : list string) (s : string) : string :=
  match fuel with
  | O => s
  | S fuel => match strip_any ps s with Some r => trim_left fuel ps r | None => s end
  end.

Fixpoint rev_app (s acc : string) : string :=
  match s with EmptyString => acc | String a s => rev_app s (String a acc) end.
Definition rev_string (s : string) : string := rev_app s "".

Definition TrimLeftSpace (s : string) : string := trim_left (String.length s) spaces s.
Definition TrimRightSpace (s : string) : string :=
  rev_string (trim_left (String.length s) (rev_string <$> spaces) (rev_string s)).

(** [strings.TrimSpace] *)
Definition TrimSpace (s : string) : string := TrimRightSpace (TrimLeftSpace s).

(** [strings.TrimRight(s, "c")], [strings.TrimLeft(s, "c")] for one byte. *)
Definition TrimRightByte (c : ascii) (s : string) : string :=
  rev_string (trim_left (String.length s) [String c ""] (rev_string s)).
Definition TrimByte (c : ascii) (s : string) : string :=
  TrimRightByte c (trim_left (String.length s) [String c ""] s).

(** ** Case *)

Definition lower (a : ascii) : ascii :=
  if in_range 65 90 a then ascii_of_N (N_of_ascii a + 32) else a.

Fixpoint map_string (f : ascii -> ascii) (s : string) : string :=
  match s with EmptyString => "" | String a s => String (f a) (map_string f s) end.

(** [strings.ToLower] on ASCII; other bytes are left alone. *)
Definition ToLower (s : string) : string := map_string lower s.

(** ** UTF-8 *)

Definition cont (a : ascii) : bool := in_range 128 191 a.

(** The length in bytes of the first rune of [a :: s], as [utf8.DecodeRune]
    computes it: an invalid sequence is one rune of one byte. *)
Definition rune_len (a : ascii) (s : string) : nat :=
  match s with
  | String b s =>
      if in_range 194 223 a && cont b then 2
      else match s with
      | String c s =>
          if (in_range 224 224 a && in_range 160 191 b && cont c)
             || ((in_range 225 236 a || in_range 238 239 a) && cont b && cont c)
             || (in_range 237 237 a && in_range 128 159 b && cont c) then 3
          else match s with
          | String d _ =>
              if (in_range 240 240 a && in_range 144 191 b && cont c && cont d)
                 || (in_range 241 243 a && cont b && cont c && cont d)
                 || (in_range 244 244 a && in_range 128 143 b && cont c && cont d) then 4
              else 1
          | EmptyString => 1
          end
      | EmptyString => 1
      end
  | EmptyString => 1
  end.

(** [utf8.RuneCountInString]; [skip] bytes of the current rune are left. *)
Fixpoint rune_count (skip : nat) (s : string) : Z :=
  match s with
  | EmptyString => 0
  | String a s =>
      match skip with
      | S skip => rune_count skip s
      | O => 1 + rune_count (rune_len a s - 1) s
      end
  end.

Definition RuneCountInString (s : string) : Z := rune_count 0 s.

(** ** Hexadecimal *)

Definition hex_digit (a : ascii) : bool :=
  in_range 48 57 a || in_range 97 102 a || in_range 65 70 a.

Fixpoint all_bytes (f : ascii -> bool) (s : string) : bool :=
  match s with EmptyString => true | String a s => f a && all_bytes f s end.

(** [hex.DecodeString(s)] succeeds. *)
Definition hex_decodable (s : string) : bool :=
  Nat.even (String.length s) && all_bytes hex_digit s.

Definition hex_char (n : Z) : ascii :=
  ascii_of_N (Z.to_N (if n <? 10 then 48 + n else 87 + n)).

(** [hex.EncodeToString] *)
Fixpoint EncodeToString (bs : list Z) : string :=
  match bs with
  | [] => ""
  | b :: bs => String (hex_char (b / 16)) (String (hex_char (b mod 16)) (EncodeToString bs))
  end.

(** ** Lemmas *)

Lemma app_cons_string a (x y : string) : String a x +:+ y = String a (x +:+ y).
Proof. done. Qed.

Lemma strip_prefix_app p s : strip_prefix p (p +:+ s) = Some s.
Proof.
  induction p as [|a p IH]; [done|]. rewrite app_cons_string. cbn [strip_prefix].
  by rewrite bool_decide_true.
Qed.

Lemma strip_prefix_Some p s r : strip_prefix p s = Some r -> s = p +:+ r.
Proof.
  revert s. induction p as [|a p IH]; intros [|b s]; cbn [strip_prefix]; try done.
  - by intros [= <-].
  - by intros [= <-].
  - destruct (bool_decide (a = b)) eqn:E; [|done]. apply bool_decide_eq_true in E as ->.
    by intros ->%IH.
Qed.

Lemma HasPrefix_app p s : HasPrefix (p +:+ s) p = true.
Proof. unfold HasPrefix. apply bool_decide_true. rewrite strip_prefix_app. eauto. Qed.

Lemma length_app_string (a b : string) :
  String.length (a +:+ b) = (String.length a + String.length b)%nat.
Proof. induction a; simpl; auto. Qed.

Lemma app_string_assoc (a b c : string) : (a +:+ b) +:+ c = a +:+ b +:+ c.
Proof. induction a as [|x a IH]; [done|]. rewrite !app_cons_string. by rewrite IH. Qed.

(** Fields without the separator come back from [Split]. *)
Lemma Split_no_sep sep s : contains_byte sep s = false -> Split sep s = [s].
Proof.
  induction s as [|a s IH]; [done|]. simpl. rewrite orb_false_iff. intros [Ha Hs].
  rewrite Ha, IH by done. done.
Qed.

Lemma Split_app sep f s :
  contains_byte sep f = false -> Split sep (f +:+ String sep s) = f :: Split sep s.
Proof.
  induction f as [|a f IH]; simpl.
  - by rewrite bool_decide_true.
  - rewrite orb_false_iff. intros [Ha Hf]. rewrite Ha, IH by done. done.
Qed.

Lemma all_bytes_contains f c s :
  all_bytes f s = true -> f c = false -> contains_byte c s = false.
Proof.
  intros Hs Hc. induction s as [|a s IH]; [done|]. simpl in *.
  apply andb_true_iff in Hs as [Ha Hs]. rewrite IH by done.
  rewrite bool_decide_false; [done|]. congruence.
Qed.

(** Nothing to trim on a string without space prefix or suffix. *)
Lemma trim_left_none fuel ps s : strip_any ps s = None -> trim_left fuel ps s = s.
Proof. intros H. destruct fuel; simpl; [done|]. by rewrite H. Qed.

Lemma rev_app_app x : forall y acc, rev_app (x +:+ y) acc = rev_app y (rev_app x acc).
Proof. induction x as [|a x IH]; intros y acc; [done|]. rewrite app_cons_string. apply IH. Qed.

Lemma rev_app_rev s : forall acc acc2, rev_app (rev_app s acc) acc2 = rev_app acc (s +:+ acc2).
Proof. induction s as [|a s IH]; intros acc acc2; [done|]. cbn [rev_app]. by rewrite IH. Qed.

Lemma app_string_nil (s : string) : s +:+ "" = s.
Proof. induction s as [|a s IH]; [done|]. by rewrite app_cons_string, IH. Qed.

Lemma rev_string_involutive s : rev_string (rev_string s) = s.
Proof. unfold rev_string. rewrite rev_app_rev. apply app_string_nil. Qed.

Lemma length_rev_app s : forall acc,
  String.length (rev_app s acc) = (String.length s + String.length acc)%nat.
Proof. induction s as [|a s IH]; intros acc; [done|]. cbn [rev_app]. rewrite IH. simpl. lia. Qed.

(** A visible ASCII byte. *)
Definition graph (a : ascii) : bool := in_range 33 126 a.

Lemma strip_any_graph a s :
  graph a = true -> strip_any spaces (String a s) = None /\
                    strip_any (rev_string <$> spaces) (String a s) = None.
Proof. destruct a as [[] [] [] [] [] [] [] []]; vm_compute; done. Qed.

(** A string that starts and ends with visible bytes is trimmed. *)
Lemma TrimSpace_graph a s b t :
  String a s = t +:+ String b "" -> graph a = true -> graph b = true ->
  TrimSpace (String a s) = String a s.
Proof.
  intros E Ha Hb. unfold TrimSpace.
  assert (TrimLeftSpace (String a s) = String a s) as ->
    by exact (trim_left_none _ _ _ (proj1 (strip_any_graph a s Ha))).
  assert (rev_string (String a s) = String b (rev_string t)) as Er.
  { rewrite E. unfold rev_string. by rewrite rev_app_app. }
  unfold TrimRightSpace. rewrite Er.
  rewrite (trim_left_none _ _ _ (proj2 (strip_any_graph b (rev_string t) Hb))).
  rewrite <- Er. apply rev_string_involutive.
Qed.

Lemma TrimSpace_empty : TrimSpace "" = "".
Proof. done. Qed.

(** Lower-case hexadecimal. *)
Definition lower_hex (a : ascii) : bool := in_range 48 57 a || in_range 97 102 a.

Lemma lower_hex_facts a :
  lower_hex a = true -> hex_digit a = true /\ lower a = a /\ graph a = true /\ a <> "-"%char.
Proof. destruct a as [[] [] [] [] [] [] [] []]; vm_compute; done. Qed.

Lemma ToLower_lower_hex s : all_bytes lower_hex s = true -> ToLower s = s.
Proof.
  induction s as [|a s IH]; [done|]. simpl. rewrite andb_true_iff.
  intros [(_ & Ha & _)%lower_hex_facts Hs]. unfold ToLower in *. cbn [map_string].
  by rewrite Ha, IH.
Qed.

Lemma map_string_app f a b : map_string f (a +:+ b) = map_string f a +:+ map_string f b.
Proof.
  induction a as [|x a IH]; [done|]. rewrite !app_cons_string. cbn [map_string].
  by rewrite IH.
Qed.

Lemma hex_char_facts n : 0 <= n < 16 ->
  lower_hex (hex_char n) = true /\ (hex_char n = "0"%char <-> n = 0).
Proof.
  intros Hn. assert (exists k : nat, n = Z.of_nat k /\ (k < 16)%nat) as (k & -> & Hk)
    by (exists (Z.to_nat n); lia).
  do 16 (destruct k as [|k]; [vm_compute; split; [done|split; done]|]). lia.
Qed.

Definition is_bytes (bs : list Z) : Prop := Forall (fun b => 0 <= b < 256) bs.

Lemma EncodeToString_length bs : String.length (EncodeToString bs) = (2 * length bs)%nat.
Proof. induction bs as [|b bs IH]; [done|]. simpl. rewrite IH. lia. Qed.

Lemma EncodeToString_hex bs : is_bytes bs -> all_bytes lower_hex (EncodeToString bs) = true.
Proof.
  induction 1 as [|b bs Hb _ IH]; [done|]. cbn [EncodeToString all_bytes].
  destruct (hex_char_facts (b / 16)) as [-> _]; [lia|].
  destruct (hex_char_facts (b mod 16)) as [-> _]; [lia|]. done.
Qed.

Lemma all_bytes_impl (f g : ascii -> bool) s :
  (forall a, f a = true -> g a = true) -> all_bytes f s = true -> all_bytes g s = true.
Proof.
  intros H. induction s as [|a s IH]; [done|]. simpl. rewrite !andb_true_iff. naive_solver.
Qed.

(** A text for every positive, to make encoders of in the examples. *)
Fixpoint bits (p : positive) : string :=
  match p with xH => "" | xO p => String "0" (bits p) | xI p => String "1" (bits p) end.
Fixpoint unbits (s : string) : positive :=
  match s with
  | EmptyString => xH
  | String a s => if bool_decide (a = "0"%char) then xO (unbits s) else xI (unbits s)
  end.

Lemma unbits_bits p : unbits (bits p) = p.
Proof. induction p as [p IH|p IH|]; cbn; [by rewrite IH..|done]. Qed.
