(* ===== verification/Packet.v ===== *)
(** * Packets, the packet pool and reference counts

    [internal/stream/types.go]: [AVPacket], [NewAVPacket], [Retain], [Release]
    over an explicit memory, so that recycling a packet through the
    [sync.Pool] keeps the stale bytes of its backing array, as it does in Go. *)

From S2P Require Import Prelude.

Create HintDb packet.

(** ** Data *)

(** [PacketType] is a [uint8]; the three FLV tag types the pipeline produces. *)
Definition PacketAudio : Z := 0x08.
Definition PacketVideo : Z := 0x09.
Definition PacketMeta : Z := 0x12.

(** [Data] is a Go slice: a backing array (whose length is [cap(Data)]) and a
    length. *)
Record AVPacket := mkAVPacket {
  Type_ : Z;              (* uint8 *)
  Timestamp : Z;          (* uint32, milliseconds *)
  IsKeyframe : bool;
  Data_arr : list byte;
  Data_len : nat;
  refs : Z;               (* atomic.Int32 *)
}.

(** The bytes [pkt.Data] shows. *)
Definition Data (p : AVPacket) : list byte := take (Data_len p) (Data_arr p).

(** [&AVPacket{}] *)
Definition zero_packet : AVPacket := mkAVPacket 0 0 false [] 0 0.

#[export] Instance AVPacket_inhabited : Inhabited AVPacket := populate zero_packet.

(** The heap cells of the packets, the free list of the [sync.Pool] and the
    next unused address. *)
Record Mem := mkMem {
  cells : gmap nat AVPacket;
  pool : list nat;
  brk : nat;
}.

Definition empty_mem : Mem := mkMem ∅ [] 0.

(** The packet a pointer designates. *)
Definition deref (a : nat) (m : Mem) : AVPacket := default zero_packet (cells m !! a).

(** Assign through a pointer. *)
Definition update (a : nat) (f : AVPacket -> AVPacket) (m : Mem) : Mem :=
  mkMem (alter f a (cells m)) (pool m) (brk m).

(** ** sync.Pool *)

Fixpoint remove1 (a : nat) (l : list nat) : list nat :=
  match l with
  | [] => []
  | b :: l => if bool_decide (a = b) then l else b :: remove1 a l
  end.

(** [packetPool.Get()]: the pool may return any free packet, or none, in which
    case [New] allocates one. [pick] is that choice. *)
Definition pool_get (pick : option nat) (m : Mem) : nat * Mem :=
  let fresh := (brk m, mkMem (<[brk m := zero_packet]> (cells m)) (pool m) (S (brk m))) in
  match pick with
  | Some a => if bool_decide (a ∈ pool m)
              then (a, mkMem (cells m) (remove1 a (pool m)) (brk m))
              else fresh
  | None => fresh
  end.

(** [packetPool.Put(p)] *)
Definition pool_put (a : nat) (m : Mem) : Mem :=
  mkMem (cells m) (a :: pool m) (brk m).

(** ** Operations *)

(** The body of [NewAVPacket] on the packet the pool returned. *)
Definition reset_packet (size : nat) (old : AVPacket) : AVPacket :=
  if (length (Data_arr old) <? size)%nat
  then mkAVPacket 0 0 false (replicate size x00) size 1
  else mkAVPacket 0 0 false (Data_arr old) size 1.

Definition NewAVPacket (pick : option nat) (size : nat) (m : Mem) : nat * Mem :=
  let '(a, m) := pool_get pick m in
  (a, update a (reset_packet size) m).

Definition add_refs (d : Z) (p : AVPacket) : AVPacket :=
  mkAVPacket (Type_ p) (Timestamp p) (IsKeyframe p) (Data_arr p) (Data_len p)
             (i32 (refs p + d)).

Definition Retain (a : nat) (m : Mem) : Mem := update a (add_refs 1) m.

Definition Release (a : nat) (m : Mem) : Mem :=
  let m := update a (add_refs (-1)) m in
  if refs (deref a m) =? 0 then pool_put a m else m.

(** Field assignments used by the producers. *)
Definition set_Type (t : Z) (p : AVPacket) : AVPacket :=
  mkAVPacket t (Timestamp p) (IsKeyframe p) (Data_arr p) (Data_len p) (refs p).
Definition set_Timestamp (t : Z) (p : AVPacket) : AVPacket :=
  mkAVPacket (Type_ p) t (IsKeyframe p) (Data_arr p) (Data_len p) (refs p).
Definition set_IsKeyframe (k : bool) (p : AVPacket) : AVPacket :=
  mkAVPacket (Type_ p) (Timestamp p) k (Data_arr p) (Data_len p) (refs p).

(** Overwrite the first [length bs] bytes from position [pos] ([copy], indexed
    stores and reads into [pkt.Data]); the callers stay within [len(Data)]. *)
Definition blit (pos : nat) (bs : list byte) (p : AVPacket) : AVPacket :=
  mkAVPacket (Type_ p) (Timestamp p) (IsKeyframe p)
    (take pos (Data_arr p) ++ bs ++ drop (pos + length bs) (Data_arr p))
    (Data_len p) (refs p).

(** [SubscriberType] *)
Inductive SubscriberType :=
  | TypeLivestream | TypeStorage | TypeMinIO | TypeHLS | TypeRelay.

#[export] Instance SubscriberType_eq_dec : EqDecision SubscriberType.
Proof. solve_decision. Defined.

Definition SubscriberType_String (t : SubscriberType) : string :=
  match t with
  | TypeLivestream => "livestream"
  | TypeStorage => "storage"
  | TypeMinIO => "minio"
  | TypeHLS => "hls"
  | TypeRelay => "relay"
  end.

(** ** Lemmas *)

(** A well-formed packet: its length is within the capacity. *)
Definition packet_wf (p : AVPacket) : Prop := (Data_len p <= length (Data_arr p))%nat.

(** The free list holds allocated packets, each once, and addresses from
    [brk] on are unused. *)
Definition mem_wf (m : Mem) : Prop :=
  NoDup (pool m) /\
  (forall a, a ∈ pool m -> is_Some (cells m !! a)) /\
  (forall a, (brk m <= a)%nat -> cells m !! a = None).

Lemma deref_update a b f m :
  is_Some (cells m !! b) ->
  deref a (update b f m) = if decide (a = b) then f (deref b m) else deref a m.
Proof.
  intros [p Hp]. unfold deref, update; simpl. rewrite lookup_alter.
  repeat case_decide; subst; try done. by rewrite Hp.
Qed.

Lemma deref_update_eq a f m :
  is_Some (cells m !! a) -> deref a (update a f m) = f (deref a m).
Proof. intros. rewrite deref_update by done. by rewrite decide_True. Qed.

Lemma deref_update_ne a b f m : a <> b -> deref a (update b f m) = deref a m.
Proof.
  intros. unfold deref, update; simpl. by rewrite lookup_alter_ne.
Qed.

Lemma update_is_Some a b f m :
  is_Some (cells (update b f m) !! a) <-> is_Some (cells m !! a).
Proof.
  unfold update; simpl. rewrite lookup_alter. case_decide; subst; [|done].
  rewrite fmap_is_Some. done.
Qed.

Lemma elem_of_remove1 a b l : a ∈ remove1 b l -> a ∈ l.
Proof.
  induction l as [|c l IH]; simpl; [done|].
  case_bool_decide; set_solver.
Qed.

Lemma remove1_NoDup a l : NoDup l -> NoDup (remove1 a l) /\ a ∉ remove1 a l.
Proof.
  induction 1 as [|c l Hc Hl [IH1 IH2]]; simpl; [by split; [constructor|set_solver]|].
  case_bool_decide; subst; [done|]. split.
  - constructor; [|done]. intros ?%elem_of_remove1. done.
  - rewrite not_elem_of_cons. done.
Qed.

(** Memory in which only packet [a] may differ: what an operation on a packet
    its caller owns leaves alone. *)
Definition frame (a : nat) (m m' : Mem) : Prop :=
  forall b, b <> a -> is_Some (cells m !! b) ->
  is_Some (cells m' !! b) /\ deref b m' = deref b m.

Lemma frame_update a f m : frame a m (update a f m).
Proof. intros b Hb Hs. by rewrite update_is_Some, deref_update_ne. Qed.

Lemma frame_trans a m1 m2 m3 : frame a m1 m2 -> frame a m2 m3 -> frame a m1 m3.
Proof.
  intros H1 H2 b Hb Hs. destruct (H1 b Hb Hs) as [Hs2 E2].
  destruct (H2 b Hb Hs2) as [? E3]. split; [done|congruence].
Qed.

Lemma mem_wf_update a f m : mem_wf m -> mem_wf (update a f m).
Proof.
  intros (Hn & Hp & Hb). split_and!; [done|..]; simpl; intros x Hx.
  - by apply update_is_Some, Hp.
  - rewrite lookup_alter. case_decide; subst; rewrite Hb by done; done.
Qed.

(** A packet taken from the pool is valid, out of the pool, and not one of
    the packets that were in use. *)
Lemma pool_get_valid pick m a m' :
  mem_wf m -> pool_get pick m = (a, m') ->
  is_Some (cells m' !! a) /\ mem_wf m' /\ a ∉ pool m' /\ frame a m m' /\
  (forall b, b ∈ pool m' -> b ∈ pool m) /\
  (is_Some (cells m !! a) -> a ∈ pool m).
Proof.
  intros (Hn & Hp & Hb) E.
  assert (a = brk m /\ m' = mkMem (<[brk m:=zero_packet]> (cells m)) (pool m) (S (brk m))
          \/ a ∈ pool m /\ m' = mkMem (cells m) (remove1 a (pool m)) (brk m))
    as [[-> ->]|[Ha ->]].
  { unfold pool_get in E. destruct pick as [x|]; [case_bool_decide|]; simplify_eq; auto. }
  - assert (brk m ∉ pool m) as Hbrk.
    { intros [? H]%Hp. rewrite Hb in H; done || lia. }
    simpl. split_and!; try done.
    + rewrite lookup_insert_eq. eauto.
    + split_and!; [done|..]; simpl; intros x Hx.
      * apply lookup_insert_is_Some'. eauto.
      * rewrite lookup_insert_ne by lia. apply Hb. lia.
    + intros b Hne Hs. unfold deref; simpl. by rewrite lookup_insert_ne.
    + rewrite Hb by lia. by intros [].
  - simpl. destruct (remove1_NoDup a (pool m) Hn). split_and!; try done.
    + by apply Hp.
    + split_and!; [done| |done]. intros x Hx%elem_of_remove1. by apply Hp.
    + intros b. apply elem_of_remove1.
Qed.

Record fresh_packet (size : nat) (a : nat) (m m' : Mem) : Prop := {
  fp_valid : is_Some (cells m' !! a);
  fp_wf : mem_wf m';
  fp_free : a ∉ pool m';
  fp_frame : frame a m m';
  fp_pool : forall b, b ∈ pool m' -> b ∈ pool m;
  fp_new : is_Some (cells m !! a) -> a ∈ pool m;
  fp_len : Data_len (deref a m') = size;
  fp_cap : (size <= length (Data_arr (deref a m')))%nat;
  fp_refs : refs (deref a m') = 1;
}.

Lemma NewAVPacket_fresh pick size m a m' :
  mem_wf m -> NewAVPacket pick size m = (a, m') -> fresh_packet size a m m'.
Proof.
  intros Hwf. unfold NewAVPacket.
  destruct (pool_get pick m) as [b mb] eqn:E. intros [= -> <-].
  destruct (pool_get_valid _ _ _ _ Hwf E) as (Hs & Hwf' & Hfree & Hfr & Hpl & Hnew).
  split; try done.
  - by apply update_is_Some.
  - by apply mem_wf_update.
  - eapply frame_trans; [done|apply frame_update].
  - rewrite deref_update_eq by done. unfold reset_packet. case_match; done.
  - rewrite deref_update_eq by done. unfold reset_packet.
    destruct (Nat.ltb_spec (length (Data_arr (deref a mb))) size); simpl;
      rewrite ?length_replicate; lia.
  - rewrite deref_update_eq by done. unfold reset_packet. case_match; done.
Qed.

Lemma NewAVPacket_flags pick size m a m' :
  mem_wf m -> NewAVPacket pick size m = (a, m') ->
  Type_ (deref a m') = 0 /\ Timestamp (deref a m') = 0 /\
  IsKeyframe (deref a m') = false.
Proof.
  intros Hwf. unfold NewAVPacket.
  destruct (pool_get pick m) as [b mb] eqn:E. intros [= -> <-].
  destruct (pool_get_valid _ _ _ _ Hwf E) as (Hs & _).
  rewrite deref_update_eq by done. unfold reset_packet. case_match; done.
Qed.

(** Initialising a fresh packet keeps it fresh. *)
Lemma fresh_packet_update size a m m' f :
  fresh_packet size a m m' ->
  (forall p, Data_len (f p) = Data_len p /\ refs (f p) = refs p /\
             (length (Data_arr p) <= length (Data_arr (f p)))%nat) ->
  fresh_packet size a m (update a f m').
Proof.
  intros [] Hf. destruct (Hf (deref a m')) as (Hl & Hr & Hc).
  split; try done; rewrite ?deref_update_eq by done; try congruence; try lia.
  - by apply update_is_Some.
  - by apply mem_wf_update.
  - eapply frame_trans; [done|apply frame_update].
Qed.

Lemma fresh_blit size a m m' pos bs :
  fresh_packet size a m m' -> fresh_packet size a m (update a (blit pos bs) m').
Proof.
  intros H. apply fresh_packet_update; [done|]. intros p. split_and!; [done..|].
  simpl. rewrite !length_app, length_take, length_drop. lia.
Qed.

Lemma Data_blit_all bs p :
  Data_len p = length bs -> (length bs <= length (Data_arr p))%nat ->
  Data (blit 0 bs p) = bs.
Proof.
  intros Hl Hc. unfold Data, blit; simpl. rewrite Hl, take_app_length'; done.
Qed.

Lemma fresh_set_Timestamp size a m m' ts :
  fresh_packet size a m m' -> fresh_packet size a m (update a (set_Timestamp ts) m').
Proof. intros H. by apply fresh_packet_update. Qed.

Lemma fresh_set_Type size a m m' t :
  fresh_packet size a m m' -> fresh_packet size a m (update a (set_Type t) m').
Proof. intros H. by apply fresh_packet_update. Qed.

Lemma fresh_set_IsKeyframe size a m m' k :
  fresh_packet size a m m' -> fresh_packet size a m (update a (set_IsKeyframe k) m').
Proof. intros H. by apply fresh_packet_update. Qed.

#[export] Hint Resolve fresh_blit fresh_set_Timestamp fresh_set_Type
  fresh_set_IsKeyframe fp_valid fp_wf fp_free : packet.

(** Releasing the only reference puts the packet back in the pool. *)
Lemma Release_last size a m m' :
  fresh_packet size a m m' ->
  pool (Release a m') = a :: pool m' /\ refs (deref a (Release a m')) = 0 /\
  mem_wf (Release a m') /\ frame a m (Release a m').
Proof.
  intros []. unfold Release.
  assert (refs (deref a (update a (add_refs (-1)) m')) = 0) as ->.
  { rewrite deref_update_eq by done. unfold add_refs; simpl. by rewrite fp_refs0. }
  simpl. split_and!; try done.
  - change (refs (deref a (update a (add_refs (-1)) m')) = 0).
    rewrite deref_update_eq by done. simpl. by rewrite fp_refs0.
  - destruct (mem_wf_update a (add_refs (-1)) m' fp_wf0) as (Hn & Hp & Hb).
    split_and!; simpl; [by constructor| |done].
    intros x [->|Hx]%elem_of_cons; [by apply update_is_Some|by apply Hp].
  - intros b Hne Hs. destruct (fp_frame0 b Hne Hs) as [Hs' E].
    split; [by apply update_is_Some|].
    change (deref b (update a (add_refs (-1)) m') = deref b m).
    by rewrite deref_update_ne.
Qed.

(** Packets that are allocated and not in the free list. *)
Definition outstanding (m : Mem) : Z := Z.of_nat (size (cells m)) - Z.of_nat (length (pool m)).

Lemma length_remove1 a l : a ∈ l -> S (length (remove1 a l)) = length l.
Proof.
  induction l as [|b l IH]; simpl; [set_solver|].
  intros Ha. case_bool_decide; [done|]. simpl. rewrite IH; set_solver.
Qed.

Lemma outstanding_update a f m : outstanding (update a f m) = outstanding m.
Proof.
  unfold outstanding, update; simpl.
  by rewrite <- !size_dom, dom_alter_L.
Qed.

Lemma outstanding_NewAVPacket pick size m a m' :
  mem_wf m -> NewAVPacket pick size m = (a, m') -> outstanding m' = outstanding m + 1.
Proof.
  intros (_ & Hp & Hb). unfold NewAVPacket.
  destruct (pool_get pick m) as [b mb] eqn:E. intros [= -> <-].
  rewrite outstanding_update. unfold pool_get in E.
  assert (outstanding (mkMem (<[brk m:=zero_packet]> (cells m)) (pool m) (S (brk m)))
          = outstanding m + 1) as Hfresh.
  { unfold outstanding; simpl. rewrite map_size_insert_None by (apply Hb; lia). lia. }
  destruct pick as [x|]; [case_bool_decide|]; simplify_eq; try done.
  unfold outstanding; simpl. pose proof (length_remove1 a (pool m)). lia.
Qed.

Lemma outstanding_Release_last size a m m' :
  fresh_packet size a m m' -> outstanding (Release a m') = outstanding m' - 1.
Proof.
  intros Hf. destruct (Release_last _ _ _ _ Hf) as (Hpool & _).
  pose proof (outstanding_update a (add_refs (-1)) m') as Hu.
  unfold Release in *. case_match; simpl in *.
  - unfold outstanding in *; simpl in *. lia.
  - apply (f_equal length) in Hpool. simpl in Hpool. lia.
Qed.

(** A write within [len(Data)], seen through the slice. *)
Lemma Data_blit pos bs p :
  packet_wf p -> (pos + length bs <= Data_len p)%nat ->
  Data (blit pos bs p) = take pos (Data p) ++ bs ++ drop (pos + length bs) (Data p).
Proof.
  unfold packet_wf, Data, blit; simpl. intros Hw Hl.
  rewrite take_app, length_take, take_app, !take_take.
  rewrite (Nat.min_r (Data_len p)), !(Nat.min_l pos) by lia.
  rewrite (take_ge bs), take_drop_commute by lia. do 4 f_equal. lia.
Qed.

Lemma blit_wf pos bs p :
  packet_wf p -> packet_wf (blit pos bs p).
Proof.
  unfold packet_wf, blit; simpl. intros.
  rewrite !length_app, length_take, length_drop. lia.
Qed.

Lemma length_Data p : packet_wf p -> length (Data p) = Data_len p.
Proof. unfold packet_wf, Data. intros. rewrite length_take. lia. Qed.

Lemma fresh_packet_wf size a m m' : fresh_packet size a m m' -> packet_wf (deref a m').
Proof. intros []. unfold packet_wf. lia. Qed.

(** A memory with one packet, recycled in the pool. *)
Lemma singleton_mem_wf p : mem_wf (mkMem {[ 0%nat := p ]} [0%nat] 1).
Proof.
  split_and!; simpl.
  - apply NoDup_singleton.
  - intros a ->%list_elem_of_singleton. rewrite lookup_singleton_eq. eauto.
  - intros a Ha. rewrite lookup_singleton_ne; [done|lia].
Qed.

Lemma empty_mem_wf : mem_wf empty_mem.
Proof. split_and!; simpl; [constructor|set_solver|done]. Qed.
