(* ===== verification/Flv.v ===== *)
(** * The FLV container

    [internal/flv/writer.go] and [internal/flv/reader.go]. The writer is
    generic in the [io.Writer] it is given; the reader runs over the bytes its
    [io.Reader] still has to deliver before end of file, and reads tags into
    pooled packets. *)

From S2P Require Import Prelude Packet.

(** ** io.Writer and io.Reader *)

Inductive io_err := EOF | ErrUnexpectedEOF | ErrWrite.

(** [io.Writer]: one call of [Write]. *)
Class Writer (W : Type) := Write : W -> list byte -> W * option io_err.

(** [bytes.Buffer]: appends, never fails. *)
#[export] Instance Buffer : Writer (list byte) := fun w bs => (w ++ bs, None).

(** A connection that accepts a bounded number of bytes and then fails. *)
Record LimitedConn := mkLimited { lc_out : list byte; lc_room : nat }.
#[export] Instance Limited : Writer LimitedConn := fun w bs =>
  if (length bs <=? lc_room w)%nat
  then (mkLimited (lc_out w ++ bs) (lc_room w - length bs), None)
  else (mkLimited (lc_out w ++ take (lc_room w) bs) 0, Some ErrWrite).

(** [io.ReadFull] into a buffer of [n] bytes: the bytes read (all [n] of them
    on success) and the rest of the input. *)
Definition ReadFull (n : nat) (input : list byte)
  : list byte * option io_err * list byte :=
  let got := take n input in
  if (length got =? n)%nat then (got, None, drop n input)
  else if (length got =? 0)%nat then (got, Some EOF, [])
  else (got, Some ErrUnexpectedEOF, []).

(** ** Writer *)

Definition fileHeader : list byte :=
  [x46; x4c; x56;           (* 'F' 'L' 'V' *)
   x01; x05;
   x00; x00; x00; x09;
   x00; x00; x00; x00].

Definition WriteFileHeader {W} `{!Writer W} (w : W) : W * option io_err :=
  Write w fileHeader.

(** The 11-byte tag header [WriteTag] builds. *)
Definition tag_header (p : AVPacket) : list byte :=
  let dataLen := Z.of_nat (length (Data p)) in
  let ts := Timestamp p in
  [z2b (Type_ p);
   z2b (Z.shiftr dataLen 16); z2b (Z.shiftr dataLen 8); z2b dataLen;
   z2b (Z.shiftr ts 16); z2b (Z.shiftr ts 8); z2b ts;
   z2b (Z.shiftr ts 24);
   x00; x00; x00].

(** [binary.BigEndian.PutUint32] *)
Definition PutUint32 (v : Z) : list byte :=
  [z2b (Z.shiftr v 24); z2b (Z.shiftr v 16); z2b (Z.shiftr v 8); z2b v].

(** [binary.BigEndian.Uint32] *)
Definition Uint32 (b : list byte) : Z :=
  match b with
  | [b0; b1; b2; b3] =>
      Z.lor (b2z b3) (Z.lor (Z.shiftl (b2z b2) 8)
        (Z.lor (Z.shiftl (b2z b1) 16) (Z.shiftl (b2z b0) 24)))
  | _ => 0
  end.

Definition WriteTag {W} `{!Writer W} (w : W) (p : AVPacket) : W * option io_err :=
  match Write w (tag_header p) with
  | (w, Some err) => (w, Some err)
  | (w, None) =>
      match Write w (Data p) with
      | (w, Some err) => (w, Some err)
      | (w, None) =>
          Write w (PutUint32 (u32 (11 + Z.of_nat (length (Data p)))))
      end
  end.

(** ** Reader *)

Inductive flv_err :=
  | ErrHeader (e : io_err)      (* "flv: read header: %w" *)
  | ErrMagic                    (* "flv: invalid magic bytes" *)
  | ErrTagHeader (e : io_err)   (* returned as is *)
  | ErrTagData (e : io_err)     (* "flv: read tag data: %w" *)
  | ErrPrevTagSize (e : io_err) (* "flv: read prevTagSize: %w" *).

(** [NewReader]: consumes the file header; the [Reader] is the input left. *)
Definition NewReader (input : list byte) : result flv_err (list byte) :=
  match ReadFull 13 input with
  | (_, Some err, _) => Err (ErrHeader err)
  | (hdr, None, rest) =>
      match hdr with
      | h0 :: h1 :: h2 :: _ =>
          if bool_decide (h0 = x46) && bool_decide (h1 = x4c) && bool_decide (h2 = x56)
          then Ok rest else Err ErrMagic
      | _ => Err ErrMagic
      end
  end.

(** [DataSize]: 24-bit big-endian, an [int]. *)
Definition hdr_dataLen (hdr : list byte) : Z :=
  let h i := b2z (nth i hdr x00) in
  Z.lor (Z.lor (Z.shiftl (h 1%nat) 16) (Z.shiftl (h 2%nat) 8)) (h 3%nat).

(** Lower 24 bits and extended upper 8 bits, a [uint32]. *)
Definition hdr_timestamp (hdr : list byte) : Z :=
  let h i := b2z (nth i hdr x00) in
  Z.lor (Z.lor (Z.lor (u32 (Z.shiftl (h 4%nat) 16)) (u32 (Z.shiftl (h 5%nat) 8)))
               (h 6%nat))
        (u32 (Z.shiftl (h 7%nat) 24)).

(** [pkt.IsKeyframe = (pkt.Data[0] >> 4) == 1] for non-empty video tags. *)
Definition detect_keyframe (tagType : Z) (p : AVPacket) : AVPacket :=
  match Data p with
  | d0 :: _ => if tagType =? PacketVideo
               then set_IsKeyframe (Z.shiftr (b2z d0) 4 =? 1) p else p
  | [] => p
  end.

(** [Reader.Next]: the packet (by address) or the error, the input left and
    the memory. [pick] is the pool's choice for [NewAVPacket]. *)
Definition Next (pick : option nat) (rd : list byte) (m : Mem)
  : result flv_err nat * list byte * Mem :=
  match ReadFull 11 rd with
  | (_, Some err, rd) => (Err (ErrTagHeader err), rd, m)
  | (hdr, None, rd) =>
      let tagType := b2z (nth 0 hdr x00) in
      let dataLen := Z.to_nat (hdr_dataLen hdr) in
      let ts := hdr_timestamp hdr in
      let '(pkt, m) := NewAVPacket pick dataLen m in
      match ReadFull dataLen rd with
      | (got, Some err, rd) =>
          (Err (ErrTagData err), rd, Release pkt (update pkt (blit 0 got) m))
      | (got, None, rd) =>
          let m := update pkt (blit 0 got) m in
          match ReadFull 4 rd with
          | (_, Some err, rd) => (Err (ErrPrevTagSize err), rd, Release pkt m)
          | (_, None, rd) =>
              let m := update pkt (set_Type tagType) m in
              let m := update pkt (set_Timestamp ts) m in
              let m := update pkt (detect_keyframe tagType) m in
              (Ok pkt, rd, m)
          end
      end
  end.

(** [readPrevTagSize] *)
Definition readPrevTagSize (rd : list byte) : result io_err Z * list byte :=
  match ReadFull 4 rd with
  | (_, Some err, rd) => (Err err, rd)
  | (buf, None, rd) => (Ok (Uint32 buf), rd)
  end.

(** The loop of [RelayManager.pull] (internal/node/relay.go): read packets
    until the reader fails; the packets in order, the error, the memory.
    [picks n] is the pool's choice for the [n]-th packet. Every tag has at
    least 15 bytes, so the number of input bytes is enough fuel. *)
Fixpoint pull_packets (fuel : nat) (picks : nat -> option nat) (n : nat)
    (rd : list byte) (m : Mem) : list nat * option flv_err * Mem :=
  match fuel with
  | O => ([], None, m)
  | S fuel =>
      match Next (picks n) rd m with
      | (Err e, _, m) => ([], Some e, m)
      | (Ok pkt, rd, m) =>
          let '(pkts, e, m) := pull_packets fuel picks (S n) rd m in
          (pkt :: pkts, e, m)
      end
  end.

(** ** What a tag encodes *)

(** The media content of a packet, without its memory management. *)
Record content := mkContent {
  c_type : Z; c_ts : Z; c_key : bool; c_data : list byte;
}.

Definition content_of (p : AVPacket) : content :=
  mkContent (Type_ p) (Timestamp p) (IsKeyframe p) (Data p).

(** The keyframe flag the reader recomputes from the first payload byte. *)
Definition key_flag (t : Z) (d : list byte) : bool :=
  match d with
  | d0 :: _ => (t =? PacketVideo) && (Z.shiftr (b2z d0) 4 =? 1)
  | [] => false
  end.

(** A packet of the pipeline that FLV can represent. *)
Definition encodable (p : AVPacket) : Prop :=
  0 <= Type_ p < 256 /\ 0 <= Timestamp p < 2 ^ 32 /\
  Z.of_nat (length (Data p)) < 2 ^ 24 /\
  IsKeyframe p = key_flag (Type_ p) (Data p).

Definition encode (p : AVPacket) : list byte :=
  tag_header p ++ Data p ++ PutUint32 (u32 (11 + Z.of_nat (length (Data p)))).

#[global] Arguments Next : simpl never.
#[global] Arguments encode : simpl never.
#[global] Arguments WriteTag : simpl never.

(** ** Lemmas *)

Lemma ReadFull_app n bs rest :
  length bs = n -> ReadFull n (bs ++ rest) = (bs, None, rest).
Proof.
  intros <-. unfold ReadFull.
  by rewrite take_app_length, drop_app_length, Nat.eqb_refl.
Qed.

Lemma length_Data_fill (p : AVPacket) :
  packet_wf p -> length (Data p) = Data_len p.
Proof. intros H. unfold Data. rewrite length_take. unfold packet_wf in H. lia. Qed.

(** A 24-bit length written in three bytes reads back modulo [2^24]. *)
Lemma hdr_dataLen_header p :
  hdr_dataLen (tag_header p) = Z.of_nat (length (Data p)) mod 2 ^ 24.
Proof.
  unfold hdr_dataLen, tag_header; simpl. set (n := Z.of_nat _).
  rewrite !b2z_z2b, !Z.shiftr_div_pow2, <- Z.lor_assoc by lia.
  rewrite (lor_shiftl_add _ _ 8) by lia. rewrite lor_shiftl_add by lia. lia.
Qed.

Lemma hdr_timestamp_header p :
  0 <= Timestamp p < 2 ^ 32 -> hdr_timestamp (tag_header p) = Timestamp p.
Proof.
  intros Hts. unfold hdr_timestamp, tag_header; simpl. set (ts := Timestamp p) in *.
  rewrite !b2z_z2b, !Z.shiftr_div_pow2 by lia.
  rewrite !(u32_small (Z.shiftl _ _)) by (rewrite Z.shiftl_mul_pow2; lia).
  rewrite (Z.lor_comm _ (Z.shiftl _ 24)), <- !Z.lor_assoc.
  rewrite (lor_shiftl_add _ _ 8) by lia.
  rewrite (lor_shiftl_add _ _ 16) by lia. rewrite lor_shiftl_add by lia. lia.
Qed.

Lemma PutUint32_roundtrip v : 0 <= v < 2 ^ 32 -> Uint32 (PutUint32 v) = v.
Proof.
  intros Hv. unfold Uint32, PutUint32.
  rewrite !b2z_z2b, !Z.shiftr_div_pow2 by lia.
  rewrite (Z.lor_comm (Z.shiftl _ 16)), (Z.lor_comm (Z.shiftl _ 8)), <- !Z.lor_assoc.
  rewrite (Z.lor_comm (v mod 256)), <- !Z.lor_assoc.
  rewrite (lor_shiftl_add _ _ 8) by lia.
  rewrite (lor_shiftl_add _ _ 16) by lia. rewrite lor_shiftl_add by lia. lia.
Qed.

Lemma WriteTag_Buffer (w : list byte) p : WriteTag w p = (w ++ encode p, None).
Proof. unfold WriteTag, encode, Write, Buffer. by rewrite <- !(assoc_L (++)). Qed.

Lemma content_detect t p :
  Type_ p = t ->
  IsKeyframe p = false ->
  content_of (detect_keyframe t p)
  = mkContent t (Timestamp p) (key_flag t (Data p)) (Data p).
Proof.
  intros <- Hk. unfold detect_keyframe, key_flag, content_of.
  destruct (Data p) as [|d l] eqn:E; simpl; [by rewrite E, Hk|].
  destruct (_ =? _); simpl; [|by rewrite E, Hk].
  change (Data (set_IsKeyframe _ p)) with (Data p). by rewrite E.
Qed.

(** Reading back one encoded tag, whatever stale packet the pool hands out. *)
Lemma Next_encode pick p rest m :
  mem_wf m -> encodable p ->
  exists a m', Next pick (encode p ++ rest) m = (Ok a, rest, m') /\
    content_of (deref a m') = content_of p /\
    fresh_packet (length (Data p)) a m m'.
Proof.
  intros Hwf (Ht & Hts & Hl & Hk). unfold Next, encode.
  rewrite <- !(assoc_L (++)), ReadFull_app by done.
  change (nth 0 (tag_header p) x00) with (z2b (Type_ p)).
  rewrite b2z_z2b, Z.mod_small by done.
  rewrite hdr_dataLen_header, hdr_timestamp_header by done.
  rewrite (Z.mod_small (Z.of_nat _)) by (split; [lia|done]). rewrite Nat2Z.id.
  destruct (NewAVPacket pick _ m) as [a m1] eqn:E.
  pose proof (NewAVPacket_fresh _ _ _ _ _ Hwf E) as Hf.
  rewrite ReadFull_app by done. rewrite ReadFull_app by done.
  set (m2 := update a (blit 0 (Data p)) m1).
  assert (fresh_packet (length (Data p)) a m m2) as Hf2 by (unfold m2; auto with packet).
  assert (Data (deref a m2) = Data p) as Hd.
  { unfold m2. rewrite deref_update_eq by apply Hf. destruct Hf.
    by apply Data_blit_all. }
  eexists _, _. split; [done|].
  set (m3 := update a (set_Timestamp _) _).
  assert (fresh_packet (length (Data p)) a m m3) as Hf3 by (unfold m3; auto with packet).
  assert (content_of (deref a m3)
          = mkContent (Type_ p) (Timestamp p) (IsKeyframe (deref a m2)) (Data p)) as Hc.
  { unfold m3. rewrite !deref_update_eq by (rewrite ?update_is_Some; apply Hf2).
    unfold content_of. simpl. by rewrite <- Hd. }
  assert (IsKeyframe (deref a m2) = false) as Hkf.
  { unfold m2. rewrite deref_update_eq by apply Hf. simpl.
    by apply (NewAVPacket_flags _ _ _ _ _ Hwf E). }
  split.
  - rewrite deref_update_eq by apply Hf3. injection Hc as Hc1 Hc2 Hc3 Hc4.
    rewrite content_detect by congruence.
    rewrite Hc2, Hc4, <- Hk. done.
  - apply fresh_packet_update; [done|]. intros q. unfold detect_keyframe.
    repeat case_match; done.
Qed.

(** [Next] on arbitrary input: what it consumed, or that nothing leaked. *)
Lemma Next_spec pick rd m :
  mem_wf m ->
  match Next pick rd m with
  | (Ok a, rd', m') =>
      fresh_packet (Data_len (deref a m')) a m m' /\ outstanding m' = outstanding m + 1 /\
      (length rd' + 15 + Data_len (deref a m') = length rd)%nat
  | (Err _, _, m') =>
      mem_wf m' /\ outstanding m' = outstanding m /\
      (forall b, is_Some (cells m !! b) -> b ∉ pool m ->
        is_Some (cells m' !! b) /\ b ∉ pool m' /\ deref b m' = deref b m)
  end.
Proof.
  intros Hwf. unfold Next.
  destruct (ReadFull 11 rd) as [[hdr [e|]] rd1] eqn:E1; [done|].
  destruct (NewAVPacket pick _ m) as [a m1] eqn:Ea.
  pose proof (NewAVPacket_fresh _ _ _ _ _ Hwf Ea) as Hf.
  pose proof (outstanding_NewAVPacket _ _ _ _ _ Hwf Ea) as Ho.
  set (n := Z.to_nat (hdr_dataLen hdr)) in *.
  assert (forall m2, fresh_packet n a m m2 -> outstanding m2 = outstanding m1 ->
    mem_wf (Release a m2) /\ outstanding (Release a m2) = outstanding m /\
    (forall b, is_Some (cells m !! b) -> b ∉ pool m ->
       is_Some (cells (Release a m2) !! b) /\ b ∉ pool (Release a m2) /\
       deref b (Release a m2) = deref b m)) as Hrel.
  { intros m2 Hf2 Ho2. destruct (Release_last _ _ _ _ Hf2) as (Hpool & _ & Hw & Hfr).
    rewrite (outstanding_Release_last _ _ _ _ Hf2). split_and!; [done|lia|].
    intros b Hs Hnb. assert (b <> a) as Hne.
    { intros ->. by apply Hnb, (fp_new _ _ _ _ Hf2). }
    destruct (Hfr b Hne Hs). split_and!; [done| |done].
    rewrite Hpool. intros [->|Hin]%elem_of_cons; [done|].
    by apply (fp_pool _ _ _ _ Hf2) in Hin. }
  destruct (ReadFull n rd1) as [[got [e|]] rd2] eqn:E2.
  { apply Hrel; [auto with packet|by rewrite outstanding_update]. }
  destruct (ReadFull 4 rd2) as [[pv [e|]] rd3] eqn:E3.
  { apply Hrel; [auto with packet|by rewrite outstanding_update]. }
  set (m4 := update a (detect_keyframe _) _).
  assert (fresh_packet n a m m4) as Hf4.
  { unfold m4. apply fresh_packet_update; [auto with packet|].
    intros q. unfold detect_keyframe. repeat case_match; done. }
  rewrite (fp_len _ _ _ _ Hf4). split_and!; [done|unfold m4; by rewrite !outstanding_update|].
  unfold ReadFull in *. repeat case_match; simplify_eq.
  rewrite !length_drop. repeat match goal with
  | H : (_ =? _)%nat = true |- _ => apply Nat.eqb_eq in H; rewrite length_take in H end.
  rewrite ?length_drop in *. lia.
Qed.

(** A recording: the file header followed by one [WriteTag] per packet. *)
Definition record_tags (ps : list AVPacket) (w : list byte) : list byte :=
  foldl (fun w p => fst (WriteTag w p)) w ps.

Lemma record_tags_app ps w : record_tags ps w = w ++ concat (encode <$> ps).
Proof.
  revert w. induction ps as [|p ps IH]; intros w.
  - simpl. by rewrite (right_id_L [] (++)).
  - change (record_tags (p :: ps) w) with (record_tags ps (fst (WriteTag w p))).
    rewrite WriteTag_Buffer, IH. simpl. by rewrite <- (assoc_L (++)).
Qed.

Lemma NewReader_header rest : NewReader (fileHeader ++ rest) = Ok rest.
Proof. unfold NewReader. by rewrite ReadFull_app. Qed.

(** What pulling a list of encoded packets gives. *)
Lemma pull_packets_encode ps : forall fuel picks n m,
  mem_wf m -> Forall encodable ps -> (length ps < fuel)%nat ->
  exists pkts m', pull_packets fuel picks n (concat (encode <$> ps)) m
                  = (pkts, Some (ErrTagHeader EOF), m') /\
    (fun a => content_of (deref a m')) <$> pkts = content_of <$> ps /\
    NoDup pkts /\ mem_wf m' /\
    Forall (fun a => refs (deref a m') = 1 /\ a ∉ pool m') pkts /\
    (forall b, is_Some (cells m !! b) -> b ∉ pool m ->
       b ∉ pkts /\ is_Some (cells m' !! b) /\ b ∉ pool m' /\ deref b m' = deref b m).
Proof.
  induction ps as [|p ps IH]; intros [|fuel] picks n m Hwf Hps Hfuel;
    simpl in Hfuel; try lia.
  { eexists [], m. simpl. split_and!; try done; [constructor|].
    intros b Hs Hb. split_and!; try done. set_solver. }
  inversion Hps as [|? ? Hp Hps']; subst.
  change (concat (encode <$> p :: ps)) with (encode p ++ concat (encode <$> ps)).
  cbn [pull_packets].
  destruct (Next_encode (picks n) p (concat (encode <$> ps)) m Hwf Hp)
    as (a & m1 & -> & Hc & Hf).
  destruct (IH fuel picks (S n) m1) as (pkts & m' & -> & Hcs & Hnd & Hwf' & Hr & Hfr);
    [apply Hf|done|lia|].
  destruct (Hfr a (fp_valid _ _ _ _ Hf) (fp_free _ _ _ _ Hf)) as (Ha1 & Ha2 & Ha3 & Ha4).
  eexists (a :: pkts), m'. split; [done|]. split_and!.
  - rewrite !fmap_cons. by rewrite Ha4, Hc, Hcs.
  - by constructor.
  - done.
  - constructor; [|done]. rewrite Ha4. split; [apply Hf|done].
  - intros b Hs Hb. assert (b <> a) as Hne.
    { intros ->. by apply Hb, (fp_new _ _ _ _ Hf). }
    destruct (fp_frame _ _ _ _ Hf b Hne Hs) as [Hs1 E1].
    assert (b ∉ pool m1) as Hb1 by (intros H%(fp_pool _ _ _ _ Hf); done).
    destruct (Hfr b Hs1 Hb1) as (? & ? & ? & ->).
    split_and!; [|done..]. set_solver.
Qed.

(** C3: an FLV stream round trip. Whatever packets FLV can represent are
    written after the file header with [WriteTag], the reader accepts the
    header and the pull loop returns packets with the same type, timestamp,
    keyframe flag and payload, in order, and then the clean end of file. The
    packets are distinct, each has one reference and none is in the free list,
    whatever recycled packets the pool handed out. *)
Theorem flv_stream_roundtrip ps picks m :
  mem_wf m -> Forall encodable ps ->
  let file := record_tags ps (fst (WriteFileHeader ([] : list byte))) in
  exists rd pkts m', NewReader file = Ok rd /\
    pull_packets (S (length ps)) picks 0 rd m = (pkts, Some (ErrTagHeader EOF), m') /\
    (fun a => content_of (deref a m')) <$> pkts = content_of <$> ps /\
    NoDup pkts /\ Forall (fun a => refs (deref a m') = 1 /\ a ∉ pool m') pkts.
Proof.
  intros Hwf Hps. simpl. rewrite record_tags_app.
  destruct (pull_packets_encode ps (S (length ps)) picks 0 m)
    as (pkts & m' & E & ? & ? & ? & ? & _); [done..|lia|].
  eexists _, pkts, m'. split; [apply NewReader_header|]. done.
Qed.

(** the reader never leaks and never delivers a partial packet: on any
    input, if [Next] fails then the packet it had taken is back in the pool
    (the number of packets outside the pool is unchanged) and every packet in
    use is untouched; if it succeeds it consumed exactly the tag, and the
    caller owns the one reference of the new packet. *)
Theorem flv_next_no_leak pick rd m :
  mem_wf m ->
  match Next pick rd m with
  | (Ok a, rd', m') =>
      refs (deref a m') = 1 /\ a ∉ pool m' /\ outstanding m' = outstanding m + 1 /\
      length rd = (15 + Data_len (deref a m') + length rd')%nat
  | (Err _, _, m') =>
      outstanding m' = outstanding m /\
      (forall b, is_Some (cells m !! b) -> b ∉ pool m ->
         b ∉ pool m' /\ deref b m' = deref b m)
  end.
Proof.
  intros Hwf. pose proof (Next_spec pick rd m Hwf) as H.
  destruct (Next pick rd m) as [[[a|e] rd'] m'].
  - destruct H as (Hf & Ho & Hl). split_and!; [apply Hf..|done|lia].
  - destruct H as (_ & ? & Hb). split; [done|]. intros b Hs Hn.
    by destruct (Hb b Hs Hn) as (_ & ? & ?).
Qed.

(** the pull loop terminates: with one unit of fuel per input byte it
    always stops because the reader failed, never because fuel ran out, on any
    input and whatever the pool does. *)
Theorem pull_packets_terminates rd picks n m :
  mem_wf m ->
  exists pkts e m', pull_packets (S (length rd)) picks n rd m = (pkts, Some e, m').
Proof.
  assert (forall fuel rd n m, mem_wf m -> (length rd < fuel)%nat ->
    exists pkts e m', pull_packets fuel picks n rd m = (pkts, Some e, m')) as Hgen.
  2: { intros Hwf. apply Hgen; [done|lia]. }
  clear. induction fuel as [|fuel IH]; intros rd n m Hwf Hl; [lia|]. simpl.
  pose proof (Next_spec (picks n) rd m Hwf) as H.
  destruct (Next (picks n) rd m) as [[[a|e] rd'] m']; [|by eauto].
  destruct H as (Hf & _ & Hlen).
  destruct (IH rd' (S n) m') as (pkts & e & m2 & ->); [apply Hf|lia|]. eauto.
Qed.

(** the 24-bit size of the format is not checked by [WriteTag]: a payload
    of [2^24] bytes or more is written with its length modulo [2^24], so a
    reader that accepts the tag takes a shorter payload than was written. *)
Theorem flv_oversize_truncated p pick rest m :
  mem_wf m -> 2 ^ 24 <= Z.of_nat (length (Data p)) ->
  match Next pick (encode p ++ rest) m with
  | (Ok a, _, m') =>
      Z.of_nat (Data_len (deref a m')) = Z.of_nat (length (Data p)) mod 2 ^ 24 /\
      (Data_len (deref a m') < length (Data p))%nat
  | (Err e, _, _) => forall e', e <> ErrTagHeader e'
  end.
Proof.
  intros Hwf Hlen. unfold Next, encode. rewrite <- !(assoc_L (++)), ReadFull_app by done.
  rewrite hdr_dataLen_header. set (k := Z.to_nat _).
  destruct (NewAVPacket pick k m) as [b m1] eqn:E.
  pose proof (NewAVPacket_fresh _ _ _ _ _ Hwf E) as Hf.
  destruct (ReadFull k _) as [[got [e|]] rd2]; [done|].
  destruct (ReadFull 4 rd2) as [[pv [e|]] rd3]; [done|].
  set (m4 := update b (detect_keyframe _) _).
  assert (fresh_packet k b m m4) as Hf4.
  { unfold m4. apply fresh_packet_update; [auto with packet|].
    intros q. unfold detect_keyframe. repeat case_match; done. }
  rewrite (fp_len _ _ _ _ Hf4). subst k. lia.
Qed.

(** ** Witnesses *)

Definition demo_video : AVPacket := mkAVPacket 9 3000000000 true [x17; x01; xff] 3 1.
Definition demo_audio : AVPacket := mkAVPacket 8 40 false [xaf; x01; x00; x00] 2 1.

(** A memory whose pool holds a recycled packet with stale bytes. *)
Definition demo_mem : Mem :=
  mkMem {[ 0%nat := mkAVPacket 0 0 false [xaa; xbb; xcc; xdd; xee] 5 0 ]} [0%nat] 1.

Lemma demo_mem_wf : mem_wf demo_mem.
Proof. apply singleton_mem_wf. Qed.

Lemma flv_stream_roundtrip_witness :
  exists rd pkts m',
    NewReader (record_tags [demo_video; demo_audio] fileHeader) = Ok rd /\
    pull_packets 3 (fun _ => Some 0%nat) 0 rd demo_mem = (pkts, Some (ErrTagHeader EOF), m') /\
    (fun a => content_of (deref a m')) <$> pkts = content_of <$> [demo_video; demo_audio] /\
    NoDup pkts /\ Forall (fun a => refs (deref a m') = 1 /\ a ∉ pool m') pkts.
Proof.
  apply (flv_stream_roundtrip [demo_video; demo_audio] (fun _ => Some 0%nat) demo_mem).
  - apply demo_mem_wf.
  - repeat constructor; vm_compute; done.
Defined.

Lemma flv_next_no_leak_witness :
  match Next (Some 0%nat) (take 13 (encode demo_video)) demo_mem with
  | (Ok a, rd', m') => False
  | (Err _, _, m') => pool m' = [0%nat] /\ outstanding m' = outstanding demo_mem
  end.
Proof.
  split; [reflexivity|].
  apply (flv_next_no_leak (Some 0%nat) (take 13 (encode demo_video)) demo_mem).
  apply demo_mem_wf.
Defined.

Lemma pull_packets_terminates_witness :
  exists pkts e m',
    pull_packets 16 (fun _ => None) 0 (replicate 15 x00) demo_mem = (pkts, Some e, m').
Proof.
  apply (pull_packets_terminates (replicate 15 x00) (fun _ => None) 0 demo_mem).
  apply demo_mem_wf.
Defined.

Lemma flv_oversize_truncated_witness :
  let big := mkAVPacket 9 0 true (replicate (Z.to_nat (2 ^ 24)) x00) (Z.to_nat (2 ^ 24)) 1 in
  match Next None (encode big ++ []) demo_mem with
  | (Ok a, _, m') =>
      Z.of_nat (Data_len (deref a m')) = Z.of_nat (length (Data big)) mod 2 ^ 24 /\
      (Data_len (deref a m') < length (Data big))%nat
  | (Err e, _, _) => forall e', e <> ErrTagHeader e'
  end.
Proof.
  intros big. apply (flv_oversize_truncated big None [] demo_mem).
  - apply demo_mem_wf.
  - unfold big, Data. cbn [Data_arr Data_len].
    rewrite length_take, length_replicate. lia.
Defined.
