(* ===== verification/Rtsp.v ===== *)
(** * RTSP ingest: building FLV packets from H.264 and AAC

    [internal/rtsp/ingester.go]: the FLV body builders and the two RTP
    callbacks of [IngestManager.ingest]. The RTP depacketisers ([dec.Decode])
    are library code: a callback is given what the decoder returned. An index
    out of range, a panic in Go, is [None]. *)

From S2P Require Import Prelude Packet Flv.

(** ** FLV body builders *)

(** [nalu[0] & 0x1F] *)
Definition nal_type (nalu : list byte) : Z := Z.land (b2z (nth 0 nalu x00)) 0x1F.

Definition buildAVCConfigRecord (sps pps : list byte) : option (list byte) :=
  match sps with
  | _ :: s1 :: s2 :: s3 :: _ =>
      let nsps := Z.of_nat (length sps) in
      let npps := Z.of_nat (length pps) in
      Some ([x01] ++ [s1; s2; s3] ++ [xff] ++ [xe1] ++
            [z2b (Z.shiftr nsps 8); z2b nsps] ++ sps ++
            [x01] ++ [z2b (Z.shiftr npps 8); z2b npps] ++ pps)
  | _ => None
  end.

Definition buildVideoSeqHeader (pick : option nat) (sps pps : list byte) (m : Mem)
  : option (nat * Mem) :=
  match buildAVCConfigRecord sps pps with
  | None => None
  | Some record =>
      let '(pkt, m) := NewAVPacket pick (5 + length record) m in
      let m := update pkt (set_Type PacketVideo) m in
      let m := update pkt (set_Timestamp 0) m in
      let m := update pkt (set_IsKeyframe true) m in
      let m := update pkt (blit 0 [x17]) m in
      let m := update pkt (blit 1 [x00]) m in
      Some (pkt, update pkt (blit 5 record) m)
  end.

(** The filtering loop of [buildVideoFrame]: the kept NAL units in order and
    whether an IDR slice was seen. *)
Definition filter_step (acc : list (list byte) * bool) (nalu : list byte)
  : list (list byte) * bool :=
  let '(filtered, isKeyframe) := acc in
  if (length nalu =? 0)%nat then (filtered, isKeyframe)
  else if nal_type nalu =? 5 then (filtered ++ [nalu], true)
  else if (nal_type nalu =? 7) || (nal_type nalu =? 8) || (nal_type nalu =? 9)
  then (filtered, isKeyframe)
  else (filtered ++ [nalu], isKeyframe).

Definition filter_nalus (nalus : list (list byte)) : list (list byte) * bool :=
  foldl filter_step ([], false) nalus.

(** The copying loop: each NAL unit after its 4-byte length. *)
Fixpoint write_nalus (pos : nat) (nalus : list (list byte)) (p : AVPacket) : AVPacket :=
  match nalus with
  | [] => p
  | nalu :: nalus =>
      let p := blit pos (PutUint32 (u32 (Z.of_nat (length nalu)))) p in
      let p := blit (pos + 4) nalu p in
      write_nalus (pos + 4 + length nalu) nalus p
  end.

(** [None] is Go's [nil] packet: nothing left after filtering. *)
Definition buildVideoFrame (pick : option nat) (nalus : list (list byte)) (m : Mem)
  : option (nat * Mem) :=
  let '(filtered, isKeyframe) := filter_nalus nalus in
  if (length filtered =? 0)%nat then None
  else
    let total := foldl (fun total nalu => total + (4 + length nalu))%nat 5%nat filtered in
    let '(pkt, m) := NewAVPacket pick total m in
    let m := update pkt (set_Type PacketVideo) m in
    let m := update pkt (set_IsKeyframe isKeyframe) m in
    let m := update pkt (blit 0 [if isKeyframe then x17 else x27]) m in
    let m := update pkt (blit 1 [x01]) m in
    Some (pkt, update pkt (write_nalus 5 filtered) m).

Definition buildAudioSeqHeader (pick : option nat) (configBytes : list byte) (m : Mem)
  : nat * Mem :=
  let '(pkt, m) := NewAVPacket pick (2 + length configBytes) m in
  let m := update pkt (set_Type PacketAudio) m in
  let m := update pkt (set_Timestamp 0) m in
  let m := update pkt (blit 0 [xaf]) m in
  let m := update pkt (blit 1 [x00]) m in
  (pkt, update pkt (blit 2 configBytes) m).

Definition buildAudioFrame (pick : option nat) (data : list byte) (m : Mem) : nat * Mem :=
  let '(pkt, m) := NewAVPacket pick (2 + length data) m in
  let m := update pkt (set_Type PacketAudio) m in
  let m := update pkt (blit 0 [xaf]) m in
  let m := update pkt (blit 1 [x01]) m in
  (pkt, update pkt (blit 2 data) m).

(** The last in-band SPS and PPS of an access unit; [None] is [nil]. *)
Definition extractSPSPPS (nalus : list (list byte))
  : option (list byte) * option (list byte) :=
  foldl (fun '(sps, pps) nalu =>
    if (length nalu =? 0)%nat then (sps, pps)
    else if nal_type nalu =? 7 then (Some nalu, pps)
    else if nal_type nalu =? 8 then (sps, Some nalu)
    else (sps, pps)) (None, None) nalus.

(** ** RTP callbacks *)

(** Variables captured by the video callback. *)
Record VideoState := mkVideoState {
  firstTS : Z;             (* uint32 *)
  gotFirstTS : bool;
  currentSPS : list byte;
  currentPPS : list byte;
}.

(** The video callback on one RTP packet of timestamp [rtp_ts]; [decoded] is
    what the depacketiser returned ([None]: an error). The result is the new
    state, the packets handed to [liveStream.Ingest] in order, and the memory.
    [pick1], [pick2] are the pool's choices. *)
Definition video_callback (pick1 pick2 : option nat) (rtp_ts : Z)
    (decoded : option (list (list byte))) (st : VideoState) (m : Mem)
  : VideoState * list nat * Mem :=
  match decoded with
  | None => (st, [], m)
  | Some [] => (st, [], m)
  | Some nalus =>
      let '(newSPS, newPPS) := extractSPSPPS nalus in
      let changed := bool_decide (is_Some newSPS) || bool_decide (is_Some newPPS) in
      let sps := default (currentSPS st) newSPS in
      let pps := default (currentPPS st) newPPS in
      let '(hdr, m) :=
        if changed && (4 <=? length sps)%nat && (0 <? length pps)%nat
        then match buildVideoSeqHeader pick1 sps pps m with
             | Some (pkt, m) => ([pkt], m)
             | None => ([], m)
             end
        else ([], m) in
      match buildVideoFrame pick2 nalus m with
      | None => (mkVideoState (firstTS st) (gotFirstTS st) sps pps, hdr, m)
      | Some (outPkt, m) =>
          let first := if gotFirstTS st then firstTS st else rtp_ts in
          let ts := u32 (rtp_ts - first) / 90 in
          (mkVideoState first true sps pps, hdr ++ [outPkt],
           update outPkt (set_Timestamp ts) m)
      end
  end.

(** The audio callback; [sampleRate] is positive, [picks] the pool's choices. *)
Record AudioState := mkAudioState { a_firstTS : Z; a_gotFirstTS : bool }.

Definition audio_ts (sampleRate rtp_ts first : Z) : Z :=
  u32 (u64 (u32 (rtp_ts - first) * 1000) / sampleRate).

Fixpoint emit_aus (picks : nat -> option nat) (n : nat) (ts : Z)
    (aus : list (list byte)) (m : Mem) : list nat * Mem :=
  match aus with
  | [] => ([], m)
  | au :: aus =>
      let '(outPkt, m) := buildAudioFrame (picks n) au m in
      let m := update outPkt (set_Timestamp ts) m in
      let '(pkts, m) := emit_aus picks (S n) ts aus m in
      (outPkt :: pkts, m)
  end.

Definition audio_callback (picks : nat -> option nat) (sampleRate rtp_ts : Z)
    (decoded : option (list (list byte))) (st : AudioState) (m : Mem)
  : AudioState * list nat * Mem :=
  match decoded with
  | None => (st, [], m)
  | Some [] => (st, [], m)
  | Some aus =>
      let first := if a_gotFirstTS st then a_firstTS st else rtp_ts in
      let '(pkts, m) := emit_aus picks 0 (audio_ts sampleRate rtp_ts first) aus m in
      (mkAudioState first true, pkts, m)
  end.

(** ** Specification side *)

(** The NAL units a frame keeps: not empty, and neither SPS, PPS nor AUD. *)
Definition kept (nalu : list byte) : bool :=
  negb (length nalu =? 0)%nat &&
  negb ((nal_type nalu =? 7) || (nal_type nalu =? 8) || (nal_type nalu =? 9)).

Definition is_idr (nalu : list byte) : bool :=
  negb (length nalu =? 0)%nat && (nal_type nalu =? 5).

(** A reference demultiplexer of length-prefixed NAL units. *)
Fixpoint split_nalus (fuel : nat) (bs : list byte) : option (list (list byte)) :=
  match fuel with
  | O => None
  | S fuel =>
      match bs with
      | [] => Some []
      | b0 :: b1 :: b2 :: b3 :: bs =>
          let n := Z.to_nat (Uint32 [b0; b1; b2; b3]) in
          if (n <=? length bs)%nat
          then match split_nalus fuel (drop n bs) with
               | Some nalus => Some (take n bs :: nalus)
               | None => None
               end
          else None
      | _ => None
      end
  end.

(** The payload of a frame: each kept unit after its length. *)
Definition avcc (nalus : list (list byte)) : list byte :=
  concat ((fun nalu => PutUint32 (u32 (Z.of_nat (length nalu))) ++ nalu) <$> nalus).

(** ** Lemmas *)

Lemma kept_idr nalu : is_idr nalu = true -> kept nalu = true.
Proof.
  unfold is_idr, kept. intros [-> H%Z.eqb_eq]%andb_true_iff. by rewrite H.
Qed.

(** The filtering loop is a filter; the keyframe flag is an existential. *)
Lemma filter_nalus_spec nalus :
  filter_nalus nalus = (List.filter kept nalus, existsb is_idr nalus).
Proof.
  unfold filter_nalus.
  assert (forall l k, foldl filter_step (l, k) nalus
          = (l ++ List.filter kept nalus, k || existsb is_idr nalus)) as ->; [|done].
  induction nalus as [|n nalus IH]; intros l k; simpl.
  - by rewrite app_nil_r, orb_false_r.
  - unfold kept at 1, is_idr at 1.
    destruct (length n =? 0)%nat eqn:E0; simpl; [apply IH|].
    destruct (nal_type n =? 5) eqn:E5; simpl.
    + apply Z.eqb_eq in E5. rewrite E5. simpl. rewrite IH. simpl.
      by rewrite <- (assoc_L (++)), orb_true_r.
    + destruct (_ || _ || _) eqn:E7; simpl; rewrite IH; [done|].
      by rewrite <- (assoc_L (++)).
Qed.

Lemma length_PutUint32 v : length (PutUint32 v) = 4%nat.
Proof. done. Qed.

#[global] Arguments avcc : simpl never.

Lemma avcc_cons n nalus :
  avcc (n :: nalus) = PutUint32 (u32 (Z.of_nat (length n))) ++ n ++ avcc nalus.
Proof. unfold avcc. rewrite fmap_cons. cbn [concat]. by rewrite <- (assoc_L (++)). Qed.

Lemma frame_total nalus :
  foldl (fun t n => t + (4 + length n))%nat 5%nat nalus = (5 + length (avcc nalus))%nat.
Proof.
  assert (forall k, foldl (fun t n => t + (4 + length n))%nat k nalus
                    = (k + length (avcc nalus))%nat) as H; [|by rewrite H].
  induction nalus as [|n nalus IH]; intros k; cbn [foldl]; [unfold avcc; simpl; lia|].
  rewrite IH, avcc_cons, !length_app, length_PutUint32. lia.
Qed.

(** The copying loop writes [avcc] and nothing else. *)
Lemma write_nalus_spec nalus : forall pos p,
  packet_wf p -> (pos + length (avcc nalus) <= Data_len p)%nat ->
  packet_wf (write_nalus pos nalus p) /\
  Data_len (write_nalus pos nalus p) = Data_len p /\
  refs (write_nalus pos nalus p) = refs p /\
  (length (Data_arr p) <= length (Data_arr (write_nalus pos nalus p)))%nat /\
  Type_ (write_nalus pos nalus p) = Type_ p /\
  IsKeyframe (write_nalus pos nalus p) = IsKeyframe p /\
  Timestamp (write_nalus pos nalus p) = Timestamp p /\
  Data (write_nalus pos nalus p)
  = take pos (Data p) ++ avcc nalus ++ drop (pos + length (avcc nalus)) (Data p).
Proof.
  induction nalus as [|n nalus IH]; intros pos p Hw Hl; cbn [write_nalus].
  - split_and!; try done. unfold avcc. simpl. by rewrite Nat.add_0_r, take_drop.
  - rewrite avcc_cons, !length_app, length_PutUint32 in Hl.
    rewrite avcc_cons. set (hd := PutUint32 _) in *.
    assert (length hd = 4%nat) as Hhd by done. clearbody hd. set (p2 := blit (pos + 4) n (blit pos hd p)).
    assert (packet_wf p2) as Hw2 by (unfold p2; by do 2 apply blit_wf).
    destruct (IH (pos + 4 + length n)%nat p2 Hw2)
      as (? & ? & ? & Hc & ? & ? & ? & ->); [simpl; lia|].
    pose proof (length_Data p Hw) as HlD.
    assert (Data p2 = (take pos (Data p) ++ hd ++ n) ++ drop (pos + 4 + length n) (Data p)) as ->.
    { unfold p2. rewrite Data_blit; [|by apply blit_wf|simpl; lia].
      rewrite Data_blit; [|done|lia].
      rewrite Hhd. assert (length (take pos (Data p) ++ hd) = pos + 4)%nat as Hk
        by (rewrite length_app, length_take; lia).
      rewrite !(assoc_L (++) (take pos (Data p)) hd).
      rewrite take_app_length' by done. rewrite drop_app_ge by lia.
      rewrite drop_drop, <- !(assoc_L (++)). do 4 f_equal. lia. }
    split_and!; try done.
    + etrans; [|exact Hc]. unfold p2; simpl.
      rewrite !length_app, !length_drop, !length_take, !length_app.
      rewrite !length_drop, !length_take. lia.
    + rewrite take_app_length' by (rewrite !length_app, length_take; lia).
      rewrite drop_app_ge by (rewrite !length_app, length_take; lia).
      rewrite drop_drop, <- !(assoc_L (++)). do 5 f_equal.
      rewrite !length_app, length_take. lia.
Qed.

(** The reference demultiplexer inverts the copying loop. *)
Lemma split_nalus_avcc nalus : forall fuel,
  Forall (fun n => Z.of_nat (length n) < 2 ^ 32) nalus -> (length nalus < fuel)%nat ->
  split_nalus fuel (avcc nalus) = Some nalus.
Proof.
  induction nalus as [|n nalus IH]; intros [|fuel] Hf Hl; simpl in Hl; try lia; [done|].
  inversion Hf as [|? ? Hn Hf']; subst. rewrite avcc_cons. unfold PutUint32 at 1.
  cbn [app split_nalus].
  change [z2b (Z.shiftr ?v 24); _; _; _] with (PutUint32 v).
  fold (PutUint32 (u32 (Z.of_nat (length n)))).
  rewrite PutUint32_roundtrip by apply u32_range.
  rewrite u32_small, Nat2Z.id by lia.
  rewrite length_app, (proj2 (Nat.leb_le _ _)) by lia.
  rewrite drop_app_length, take_app_length, IH by (done || lia). done.
Qed.

(** A store inside the slice while a packet is being built. *)
Lemma Data_store size a m m' pos bs :
  fresh_packet size a m m' -> (pos + length bs <= size)%nat ->
  Data (deref a (update a (blit pos bs) m'))
  = take pos (Data (deref a m')) ++ bs ++ drop (pos + length bs) (Data (deref a m')).
Proof.
  intros Hf Hl. rewrite deref_update_eq by apply Hf.
  apply Data_blit; [by eapply fresh_packet_wf|]. rewrite (fp_len _ _ _ _ Hf). lia.
Qed.

Lemma Data_update_same a m' f :
  is_Some (cells m' !! a) -> (forall p, Data (f p) = Data p) ->
  Data (deref a (update a f m')) = Data (deref a m').
Proof. intros Hs Hf. by rewrite deref_update_eq, Hf. Qed.

(** The first two bytes, then a body at [pos]: how every builder fills its
    packet. What lies between keeps what the pool left there. *)
Lemma build_layout size a m m1 b0 b1 pos body :
  fresh_packet size a m m1 -> (2 <= pos)%nat -> size = (pos + length body)%nat ->
  let m2 := update a (blit 0 [b0]) m1 in
  let m3 := update a (blit 1 [b1]) m2 in
  let m4 := update a (blit pos body) m3 in
  fresh_packet size a m m4 /\
  Data (deref a m4)
  = [b0; b1] ++ take (pos - 2) (drop 2 (Data (deref a m1))) ++ body.
Proof.
  intros Hf Hpos -> m2 m3 m4.
  assert (fresh_packet (pos + length body) a m m2) as Hf2 by (unfold m2; auto with packet).
  assert (fresh_packet (pos + length body) a m m3) as Hf3 by (unfold m3; auto with packet).
  split; [unfold m4; auto with packet|].
  pose proof (length_Data _ (fresh_packet_wf _ _ _ _ Hf)) as Hl.
  rewrite (fp_len _ _ _ _ Hf) in Hl.
  unfold m4. rewrite (Data_store _ _ _ _ _ _ Hf3) by lia.
  unfold m3. rewrite (Data_store _ _ _ _ _ _ Hf2) by (simpl; lia).
  unfold m2. rewrite (Data_store _ _ _ _ _ _ Hf) by (simpl; lia).
  destruct (Data (deref a m1)) as [|x [|y l]]; simpl in *; [lia|lia|].
  destruct pos as [|[|pos]]; [lia|lia|]. simpl.
  rewrite drop_0, Nat.sub_0_r, drop_ge, app_nil_r by lia. done.
Qed.

Lemma buildVideoFrame_spec pick nalus m :
  mem_wf m -> List.filter kept nalus <> [] ->
  let body := avcc (List.filter kept nalus) in
  let key := existsb is_idr nalus in
  exists a m0 m', NewAVPacket pick (5 + length body) m = (a, m0) /\
    buildVideoFrame pick nalus m = Some (a, m') /\
    fresh_packet (5 + length body) a m m' /\
    Type_ (deref a m') = PacketVideo /\ IsKeyframe (deref a m') = key /\
    Timestamp (deref a m') = 0 /\
    Data (deref a m') = [if key then x17 else x27; x01]
                        ++ take 3 (drop 2 (Data (deref a m0))) ++ body.
Proof.
  intros Hwf Hne body key. unfold buildVideoFrame. rewrite filter_nalus_spec.
  fold key. set (kn := List.filter kept nalus) in *.
  destruct (length kn =? 0)%nat eqn:E0.
  { apply Nat.eqb_eq in E0. by destruct kn. }
  rewrite frame_total. fold body.
  destruct (NewAVPacket pick (5 + length body) m) as [a m0] eqn:E.
  pose proof (NewAVPacket_fresh _ _ _ _ _ Hwf E) as Hf.
  destruct (NewAVPacket_flags _ _ _ _ _ Hwf E) as (_ & Hts0 & _).
  eexists a, m0, _. split; [done|]. split; [done|].
  set (m2 := update a (set_IsKeyframe key) (update a (set_Type PacketVideo) m0)).
  assert (fresh_packet (5 + length body) a m m2) as Hf2 by (unfold m2; auto with packet).
  set (m4 := update a (blit 1 [x01]) (update a (blit 0 [if key then x17 else x27]) m2)).
  assert (fresh_packet (5 + length body) a m m4) as Hf4 by (unfold m4; auto with packet).
  pose proof (fresh_packet_wf _ _ _ _ Hf4) as Hw4.
  destruct (write_nalus_spec kn 5 (deref a m4) Hw4)
    as (Hw5 & Hl5 & Hr5 & Hc5 & Ht5 & Hk5 & Hts5 & HD5).
  { rewrite (fp_len _ _ _ _ Hf4). done. }
  rewrite !deref_update_eq by apply Hf4.
  assert (Type_ (deref a m4) = PacketVideo /\ IsKeyframe (deref a m4) = key /\
          Timestamp (deref a m4) = 0) as (HT & HK & HTS).
  { unfold m4, m2. rewrite !deref_update_eq by (rewrite ?update_is_Some; apply Hf).
    by rewrite <- Hts0. }
  split_and!; [|congruence..|].
  - destruct Hf4. split; rewrite ?deref_update_eq by done; try done; try lia.
    + by apply update_is_Some.
    + by apply mem_wf_update.
    + eapply frame_trans; [done|apply frame_update].
  - rewrite HD5. pose proof (length_Data _ Hw4) as HlD.
    rewrite (fp_len _ _ _ _ Hf4) in HlD. rewrite (drop_ge _ (5 + length (avcc kn))).
    2: { fold body. lia. }
    rewrite app_nil_r, (assoc_L (++)). f_equal.
    destruct (build_layout _ a m m2 (if key then x17 else x27) x01 5 body Hf2) as [Hf6 HD6];
      [lia|done|].
    rewrite (Data_store _ _ _ _ _ _ Hf4) in HD6 by done.
    apply (f_equal (take 5)) in HD6. rewrite take_app_length' in HD6.
    2: { rewrite length_take. fold body in HlD. lia. }
    rewrite HD6. rewrite (assoc_L (++)), take_app_length'.
    2: { rewrite length_app, length_take, length_drop. cbn [length].
         rewrite (length_Data _ (fresh_packet_wf _ _ _ _ Hf2)), (fp_len _ _ _ _ Hf2). lia. }
    assert (Data (deref a m2) = Data (deref a m0)) as ->; [|done].
    unfold m2. rewrite !Data_update_same; try done;
      rewrite ?update_is_Some; apply Hf.
Qed.

Lemma outstanding_buildVideoFrame pick nalus m a m' :
  mem_wf m -> buildVideoFrame pick nalus m = Some (a, m') ->
  outstanding m' = outstanding m + 1.
Proof.
  intros Hwf. unfold buildVideoFrame. destruct (filter_nalus nalus) as [f k].
  case_match; [done|]. destruct (NewAVPacket pick _ m) as [b m0] eqn:E.
  intros [= <- <-]. rewrite !outstanding_update.
  by apply (outstanding_NewAVPacket _ _ _ _ _ Hwf E).
Qed.

Lemma buildVideoFrame_none pick nalus m :
  List.filter kept nalus = [] -> buildVideoFrame pick nalus m = None.
Proof. intros H. unfold buildVideoFrame. by rewrite filter_nalus_spec, H. Qed.

(** Every packet of a fresh allocation starts zeroed. *)
Lemma fresh_Data_zero size m :
  mem_wf m -> forall a m0, NewAVPacket None size m = (a, m0) ->
  Data (deref a m0) = replicate size x00.
Proof.
  intros (Hn & Hp & Hb) a m0 [= <- <-].
  rewrite deref_update_eq by (simpl; rewrite lookup_insert_eq; eauto).
  unfold deref; simpl. rewrite lookup_insert_eq. simpl. unfold reset_packet; simpl.
  destruct size; [done|]. unfold Data; simpl. by rewrite take_ge by (rewrite length_replicate; lia).
Qed.

Lemma buildVideoSeqHeader_spec pick sps pps m :
  mem_wf m -> (4 <= length sps)%nat ->
  exists record a m', buildAVCConfigRecord sps pps = Some record /\
    buildVideoSeqHeader pick sps pps m = Some (a, m') /\
    fresh_packet (5 + length record) a m m' /\
    Type_ (deref a m') = PacketVideo /\ IsKeyframe (deref a m') = true /\
    drop 5 (Data (deref a m')) = record.
Proof.
  intros Hwf Hs.
  destruct sps as [|s0 [|s1 [|s2 [|s3 sps]]]]; simpl in Hs; try lia.
  unfold buildVideoSeqHeader. destruct (buildAVCConfigRecord _ _) as [record|] eqn:Er;
    [|done].
  destruct (NewAVPacket pick (5 + length record) m) as [a m0] eqn:E.
  pose proof (NewAVPacket_fresh _ _ _ _ _ Hwf E) as Hf.
  eexists record, a, _. split; [done|]. split; [done|].
  set (m1 := update a (set_IsKeyframe true) _).
  assert (fresh_packet (5 + length record) a m m1) as Hf1 by (unfold m1; auto with packet).
  destruct (build_layout _ a m m1 x17 x00 5 record Hf1) as [Hf4 HD]; [lia|done|].
  split; [done|]. split_and!.
  - unfold m1. rewrite !deref_update_eq by (rewrite ?update_is_Some; apply Hf). done.
  - unfold m1. rewrite !deref_update_eq by (rewrite ?update_is_Some; apply Hf). done.
  - rewrite HD. rewrite (assoc_L (++)), drop_app_length'; [done|].
    rewrite length_app, length_take, length_drop. cbn [length].
    rewrite (length_Data _ (fresh_packet_wf _ _ _ _ Hf1)), (fp_len _ _ _ _ Hf1). lia.
Qed.

Lemma key_byte_flag (k : bool) l :
  key_flag PacketVideo ((if k then x17 else x27) :: l) = k.
Proof. by destruct k. Qed.

(** Parse an AVCDecoderConfigurationRecord with one SPS and one PPS. *)
Definition parseAVCConfigRecord (record : list byte) : option (list byte * list byte) :=
  match record with
  | _ :: _ :: _ :: _ :: _ :: _ :: l1 :: l0 :: rest =>
      let n := Z.to_nat (Z.lor (Z.shiftl (b2z l1) 8) (b2z l0)) in
      match drop n rest with
      | _ :: l1 :: l0 :: rest' =>
          let k := Z.to_nat (Z.lor (Z.shiftl (b2z l1) 8) (b2z l0)) in
          Some (take n rest, take k rest')
      | _ => None
      end
  | _ => None
  end.

Lemma be16_roundtrip n :
  Z.of_nat n < 65536 ->
  Z.to_nat (Z.lor (Z.shiftl (b2z (z2b (Z.shiftr (Z.of_nat n) 8))) 8)
                  (b2z (z2b (Z.of_nat n)))) = n.
Proof.
  intros Hn. rewrite !b2z_z2b, Z.shiftr_div_pow2, lor_shiftl_add by lia. lia.
Qed.

Lemma parse_buildAVCConfigRecord sps pps record :
  Z.of_nat (length sps) < 65536 -> Z.of_nat (length pps) < 65536 ->
  buildAVCConfigRecord sps pps = Some record ->
  parseAVCConfigRecord record = Some (sps, pps).
Proof.
  intros Hs Hp. unfold buildAVCConfigRecord.
  destruct sps as [|s0 [|s1 [|s2 [|s3 sps]]]]; try done.
  generalize dependent (s0 :: s1 :: s2 :: s3 :: sps). intros sp Hs [= <-].
  unfold parseAVCConfigRecord. rewrite be16_roundtrip by done.
  cbn [app]. rewrite drop_app_length, take_app_length, be16_roundtrip by done.
  by rewrite take_ge.
Qed.

(** ** Properties *)

(** C15: building a video frame. The frame exists exactly when some NAL unit
    survives the filter; then its packet is owned by the caller, is flagged as
    a keyframe exactly when the access unit holds an IDR slice, its first byte
    agrees with that flag (so an FLV reader recomputes it), and demultiplexing
    the payload after the 5-byte header gives back the surviving NAL units in
    order, unchanged. *)
Theorem video_frame_roundtrip pick nalus m :
  mem_wf m -> Forall (fun n => Z.of_nat (length n) < 2 ^ 32) nalus ->
  match buildVideoFrame pick nalus m with
  | None => List.filter kept nalus = []
  | Some (a, m') =>
      refs (deref a m') = 1 /\ a ∉ pool m' /\ outstanding m' = outstanding m + 1 /\
      Type_ (deref a m') = PacketVideo /\
      IsKeyframe (deref a m') = existsb is_idr nalus /\
      IsKeyframe (deref a m') = key_flag PacketVideo (Data (deref a m')) /\
      let payload := drop 5 (Data (deref a m')) in
      split_nalus (S (length payload)) payload = Some (List.filter kept nalus)
  end.
Proof.
  intros Hwf Hlen. destruct (decide (List.filter kept nalus = [])) as [Hk|Hk].
  { by rewrite buildVideoFrame_none. }
  destruct (buildVideoFrame_spec pick nalus m Hwf Hk)
    as (a & m0 & m' & E0 & E & Hf & HT & HK & _ & HD).
  rewrite E. pose proof (outstanding_buildVideoFrame _ _ _ _ _ Hwf E) as Ho.
  rewrite HT, HK. split_and!; try apply Hf; try done.
  - rewrite HD. symmetry. apply key_byte_flag.
  - assert (drop 5 (Data (deref a m')) = avcc (List.filter kept nalus)) as ->.
    { rewrite HD, (assoc_L (++)). apply drop_app_length'.
      pose proof (NewAVPacket_fresh _ _ _ _ _ Hwf E0) as Hf0.
      rewrite length_app, length_take, length_drop. cbn [length].
      rewrite (length_Data _ (fresh_packet_wf _ _ _ _ Hf0)), (fp_len _ _ _ _ Hf0). lia. }
    apply split_nalus_avcc.
    + rewrite Forall_forall in *. intros n Hn. apply Hlen.
      apply list_elem_of_In, filter_In in Hn as [Hn _]. by apply list_elem_of_In.
    + clear. generalize (List.filter kept nalus) as l. induction l as [|n l IH];
        [simpl; lia|]. rewrite avcc_cons, !length_app, length_PutUint32. simpl in *. lia.
Qed.

(** the composition time of a frame is not always zero. The builder leaves
    bytes 2 to 4 of the payload to the allocator; a packet recycled from the
    pool still holds the bytes of its previous life there, so for any three
    bytes some well-formed pool makes the builder emit them as composition
    time, while a newly allocated packet gives zero. *)
Theorem video_frame_stale_cts nalus c0 c1 c2 :
  List.filter kept nalus <> [] ->
  (forall m a m', mem_wf m -> buildVideoFrame None nalus m = Some (a, m') ->
     take 3 (drop 2 (Data (deref a m'))) = [x00; x00; x00]) /\
  (exists m a m', mem_wf m /\ buildVideoFrame (Some 0%nat) nalus m = Some (a, m') /\
     take 3 (drop 2 (Data (deref a m'))) = [c0; c1; c2]).
Proof.
  intros Hk. split.
  - intros m a m' Hwf E.
    destruct (buildVideoFrame_spec None nalus m Hwf Hk)
      as (a2 & m0 & m2 & E0 & E2 & _ & _ & _ & _ & HD).
    rewrite E in E2. injection E2 as <- <-. rewrite HD, (fresh_Data_zero _ _ Hwf _ _ E0).
    done.
  - set (size := (5 + length (avcc (List.filter kept nalus)))%nat).
    set (arr := [x17; x01; c0; c1; c2] ++ replicate size x00).
    set (m := mkMem {[ 0%nat := mkAVPacket 0 0 false arr size 0 ]} [0%nat] 1).
    assert (mem_wf m) as Hwf by apply singleton_mem_wf.
    destruct (buildVideoFrame_spec (Some 0%nat) nalus m Hwf Hk)
      as (a & m0 & m' & E0 & E & _ & _ & _ & _ & HD).
    exists m, a, m'. split; [done|]. split; [done|]. rewrite HD.
    revert E0. fold size. unfold NewAVPacket, pool_get. simpl. intros [= <- <-].
    rewrite deref_update_eq by (simpl; rewrite lookup_singleton_eq; eauto).
    assert (forall pl k, deref 0 (mkMem {[0%nat := mkAVPacket 0 0 false arr size 0]} pl k)
                         = mkAVPacket 0 0 false arr size 0) as ->.
    { intros pl k. unfold deref; simpl. by rewrite lookup_singleton_eq. }
    unfold reset_packet. cbn [Data_arr].
    rewrite (proj2 (Nat.ltb_ge _ _)) by (unfold arr; rewrite length_app, length_replicate; lia).
    done.
Qed.

(** the sequence header carries its parameter sets: parsing the
    configuration record of the packet gives back the SPS and the PPS. *)
Theorem video_seq_header_roundtrip pick sps pps m :
  mem_wf m -> (4 <= length sps)%nat -> Z.of_nat (length sps) < 65536 ->
  Z.of_nat (length pps) < 65536 ->
  exists a m', buildVideoSeqHeader pick sps pps m = Some (a, m') /\
    Type_ (deref a m') = PacketVideo /\ IsKeyframe (deref a m') = true /\
    parseAVCConfigRecord (drop 5 (Data (deref a m'))) = Some (sps, pps).
Proof.
  intros Hwf Hs Hs2 Hp.
  destruct (buildVideoSeqHeader_spec pick sps pps m Hwf)
    as (record & a & m' & Er & E & _ & HT & HK & HD); [lia|].
  exists a, m'. split_and!; try done. rewrite HD.
  by apply parse_buildAVCConfigRecord.
Qed.

(** [m'] was reached from [m] by building packets: every packet that was in
    use is untouched, and the newly built ones are owned by the caller. *)
Record built (pkts : list nat) (m m' : Mem) : Prop := {
  bt_wf : mem_wf m';
  bt_new : Forall (fun a => refs (deref a m') = 1 /\ a ∉ pool m' /\
                            is_Some (cells m' !! a)) pkts;
  bt_nodup : NoDup pkts;
  bt_frame : forall b, is_Some (cells m !! b) -> b ∉ pool m ->
    b ∉ pkts /\ is_Some (cells m' !! b) /\ b ∉ pool m' /\ deref b m' = deref b m;
}.

Lemma built_nil m : mem_wf m -> built [] m m.
Proof. intros. split; [done|constructor|constructor|set_solver]. Qed.

Lemma built_one size a m m' : fresh_packet size a m m' -> built [a] m m'.
Proof.
  intros Hf. split; [apply Hf| |apply NoDup_singleton|].
  - constructor; [|constructor]. split_and!; apply Hf.
  - intros b Hs Hb. assert (b <> a) as Hne.
    { intros ->. by apply Hb, (fp_new _ _ _ _ Hf). }
    destruct (fp_frame _ _ _ _ Hf b Hne Hs). split_and!; try done; [set_solver|].
    by intros ?%(fp_pool _ _ _ _ Hf).
Qed.

Lemma built_app l1 l2 m1 m2 m3 :
  built l1 m1 m2 -> built l2 m2 m3 -> built (l1 ++ l2) m1 m3.
Proof.
  intros H1 H2. split.
  - apply H2.
  - apply Forall_app. split; [|apply H2]. destruct H1 as [_ H1 _ _].
    rewrite Forall_forall in *. intros a Ha. destruct (H1 a Ha) as (Hr & Hp & Hs).
    destruct (bt_frame _ _ _ H2 a Hs Hp) as (_ & ? & ? & ->). done.
  - apply NoDup_app. split_and!; [apply H1| |apply H2]. intros a Ha.
    destruct H1 as [_ H1 _ _]. rewrite Forall_forall in H1.
    destruct (H1 a Ha) as (_ & Hp & Hs). apply (bt_frame _ _ _ H2 a Hs Hp).
  - intros b Hs Hb. destruct (bt_frame _ _ _ H1 b Hs Hb) as (? & Hs2 & Hb2 & E).
    destruct (bt_frame _ _ _ H2 b Hs2 Hb2) as (? & ? & ? & E2).
    split_and!; [set_solver|done|done|congruence].
Qed.

(** C30: timestamps of the video callback. Let [e] be the number of 90 kHz ticks
    elapsed since the first packet, however long ago, so that the RTP clock
    shows [u32 (first + e)]. The frame is emitted with timestamp
    [(e mod 2^32) / 90]: the elapsed milliseconds, wrap-around of the RTP clock
    included, as long as [e < 2^32]; it starts again from 0 after [2^32] ticks
    (13 h 15 min), and never exceeds 47721858. *)
Theorem video_callback_timestamp pick1 pick2 first sps pps e nalus m :
  mem_wf m -> 0 <= first < 2 ^ 32 -> 0 <= e -> List.filter kept nalus <> [] ->
  let '(st', out, m') :=
    video_callback pick1 pick2 (u32 (first + e)) (Some nalus)
                   (mkVideoState first true sps pps) m in
  built out m m' /\ firstTS st' = first /\
  exists a, last out = Some a /\ Timestamp (deref a m') = (e mod 2 ^ 32) / 90 /\
    (e < 2 ^ 32 -> Timestamp (deref a m') = e / 90) /\
    0 <= Timestamp (deref a m') <= 47721858.
Proof.
  intros Hwf Hf0 He Hk. unfold video_callback. destruct nalus as [|n nalus]; [done|].
  destruct (extractSPSPPS (n :: nalus)) as [newSPS newPPS].
  cbn [currentSPS currentPPS firstTS gotFirstTS].
  set (sps' := default sps newSPS). set (pps' := default pps newPPS).
  match goal with |- context [if ?b then match ?r with Some _ => _ | None => _ end else _] =>
    destruct (if b then match r with Some (pkt, m) => ([pkt], m) | None => ([], m) end
              else ([], m)) as [hdr m1] eqn:Eh end.
  assert (built hdr m m1) as Hb1.
  { case_match eqn:Ec; [|simplify_eq; by apply built_nil].
    apply andb_true_iff in Ec as [[_ Ec]%andb_true_iff _]. apply Nat.leb_le in Ec.
    destruct (buildVideoSeqHeader_spec pick1 sps' pps' m Hwf Ec)
      as (rec & a & m2 & _ & E & Hf & _). rewrite E in Eh. simplify_eq.
    by eapply built_one. }
  destruct (buildVideoFrame_spec pick2 (n :: nalus) m1 (bt_wf _ _ _ Hb1) Hk)
    as (a & m0 & m2 & _ & E & Hf & _). rewrite E.
  assert (u32 (u32 (first + e) - first) = e mod 2 ^ 32) as -> by (unfold u32; lia).
  split_and!; [|done|].
  - eapply built_app; [exact Hb1|]. eapply built_one. apply fresh_set_Timestamp, Hf.
  - exists a. rewrite last_snoc, deref_update_eq by apply Hf. cbn [Timestamp set_Timestamp].
    pose proof (Z.mod_pos_bound e (2 ^ 32) eq_refl) as Hb.
    split_and!; [done|done| |apply Z.div_pos; lia|].
    + intros He2. by rewrite Z.mod_small.
    + apply Z.lt_succ_r, Z.div_lt_upper_bound; lia.
Qed.

(** the audio callback emits one packet per access unit, in order, each
    owned by the caller and holding the AAC header bytes [0xAF 0x01] and the
    unit unchanged, all with the timestamp in milliseconds: at a sample rate of
    at least 1 kHz no conversion of the computation overflows. *)
Theorem audio_callback_emits picks sampleRate rtp_ts au aus st m :
  mem_wf m -> 1000 <= sampleRate ->
  let '(st', out, m') := audio_callback picks sampleRate rtp_ts (Some (au :: aus)) st m in
  let first := if a_gotFirstTS st then a_firstTS st else rtp_ts in
  built out m m' /\ st' = mkAudioState first true /\
  (fun a => content_of (deref a m')) <$> out
  = (fun d => mkContent PacketAudio (u32 (rtp_ts - first) * 1000 / sampleRate) false
                        ([xaf; x01] ++ d)) <$> (au :: aus).
Proof.
  intros Hwf Hsr. unfold audio_callback.
  set (first := if a_gotFirstTS st then _ else _).
  assert (audio_ts sampleRate rtp_ts first = u32 (rtp_ts - first) * 1000 / sampleRate) as ->.
  { unfold audio_ts, u64. pose proof (u32_range (rtp_ts - first)).
    rewrite Z.mod_small by lia. apply u32_small. split; [apply Z.div_pos; lia|].
    apply Z.div_lt_upper_bound; nia. }
  set (ts := _ / sampleRate). generalize (au :: aus) as l. intros l.
  assert (forall n m, mem_wf m -> let '(out, m') := emit_aus picks n ts l m in
    built out m m' /\ (fun a => content_of (deref a m')) <$> out
    = (fun d => mkContent PacketAudio ts false ([xaf; x01] ++ d)) <$> l) as Hgen.
  2: { specialize (Hgen 0%nat m Hwf). destruct (emit_aus _ _ _ _ _) as [out m'].
       destruct Hgen. done. }
  clear - l. induction l as [|d l IH]; intros n m Hwf; cbn [emit_aus].
  { split; [by apply built_nil|done]. }
  unfold buildAudioFrame.
  destruct (NewAVPacket (picks n) (2 + length d) m) as [a m0] eqn:E.
  pose proof (NewAVPacket_fresh _ _ _ _ _ Hwf E) as Hf.
  destruct (NewAVPacket_flags _ _ _ _ _ Hwf E) as (_ & _ & Hk0).
  set (m1 := update a (set_Type PacketAudio) m0).
  assert (fresh_packet (2 + length d) a m m1) as Hf1 by (unfold m1; auto with packet).
  destruct (build_layout _ a m m1 xaf x01 2 d Hf1) as [Hf4 HD]; [lia|done|].
  cbv zeta in Hf4, HD. set (m4 := update a (blit 2 d) _) in *.
  assert (fresh_packet (2 + length d) a m (update a (set_Timestamp ts) m4)) as Hf5
    by auto with packet.
  specialize (IH (S n) _ (fp_wf _ _ _ _ Hf5)).
  destruct (emit_aus _ _ _ _ _) as [out m'] eqn:Eo. destruct IH as [Hb HC].
  split; [by eapply (built_app [a] out), Hb; eapply built_one|].
  rewrite !fmap_cons, HC. f_equal.
  destruct (bt_frame _ _ _ Hb a (fp_valid _ _ _ _ Hf5) (fp_free _ _ _ _ Hf5))
    as (_ & _ & _ & ->).
  rewrite deref_update_eq by apply Hf4. unfold content_of.
  change (Data (set_Timestamp ts ?p)) with (Data p). rewrite HD. simpl.
  unfold m4, m1. rewrite !deref_update_eq by (rewrite ?update_is_Some; apply Hf).
  simpl. by rewrite Hk0.
Qed.

(** ** Witnesses *)

(** An access unit with an in-band SPS, a PPS, an IDR slice and a delimiter. *)
Definition demo_sps : list byte := [x67; x42; x00; x1f; xaa].
Definition demo_pps : list byte := [x68; xce].
Definition demo_idr : list byte := [x65; x88; x84].
Definition demo_au : list (list byte) := [[x09; x10]; demo_sps; demo_pps; demo_idr].

Lemma demo_au_small : Forall (fun n => Z.of_nat (length n) < 2 ^ 32) demo_au.
Proof. repeat constructor. Defined.

Lemma video_frame_roundtrip_witness :
  match buildVideoFrame None demo_au empty_mem with
  | None => False
  | Some (a, m') =>
      refs (deref a m') = 1 /\ IsKeyframe (deref a m') = true /\
      split_nalus 8 (drop 5 (Data (deref a m'))) = Some [demo_idr]
  end.
Proof.
  pose proof (video_frame_roundtrip None demo_au empty_mem empty_mem_wf demo_au_small) as H.
  destruct H as (Hr & _ & _ & _ & Hk & _ & Hs).
  split; [exact Hr|]. split; [exact Hk|exact Hs].
Defined.

Lemma video_frame_stale_cts_witness :
  exists m a m', mem_wf m /\ buildVideoFrame (Some 0%nat) demo_au m = Some (a, m') /\
    take 3 (drop 2 (Data (deref a m'))) = [xde; xad; xbe].
Proof. apply (video_frame_stale_cts demo_au xde xad xbe). discriminate. Defined.

Lemma video_seq_header_roundtrip_witness :
  exists a m', buildVideoSeqHeader None demo_sps demo_pps empty_mem = Some (a, m') /\
    Type_ (deref a m') = PacketVideo /\ IsKeyframe (deref a m') = true /\
    parseAVCConfigRecord (drop 5 (Data (deref a m'))) = Some (demo_sps, demo_pps).
Proof.
  apply (video_seq_header_roundtrip None demo_sps demo_pps empty_mem);
    [apply empty_mem_wf|repeat constructor|reflexivity|reflexivity].
Defined.

(** A frame one second after the first one, across the wrap of the RTP clock. *)
Lemma video_callback_timestamp_witness :
  let '(st', out, m') :=
    video_callback None None 80000 (Some demo_au)
                   (mkVideoState 4294957296 true demo_sps demo_pps) empty_mem in
  length out = 2%nat /\
  exists a, last out = Some a /\ Timestamp (deref a m') = 1000.
Proof.
  assert (List.filter kept demo_au <> []) as Hk by discriminate.
  assert (0 <= 4294957296 < 2 ^ 32) as Hf by done.
  assert (0 <= 90000) as He by done.
  destruct (video_callback_timestamp None None 4294957296 demo_sps demo_pps 90000 demo_au
              empty_mem empty_mem_wf Hf He Hk) as (_ & _ & a & Ha & Ht & _).
  split; [reflexivity|]. exists a. split; [exact Ha|exact Ht].
Defined.

Lemma audio_callback_emits_witness :
  let '(st', out, m') :=
    audio_callback (fun _ => None) 48000 48000 (Some [[x01]; [x02; x03]])
                   (mkAudioState 0 true) empty_mem in
  (fun a => content_of (deref a m')) <$> out
  = [mkContent PacketAudio 1000 false [xaf; x01; x01];
     mkContent PacketAudio 1000 false [xaf; x01; x02; x03]].
Proof.
  assert (1000 <= 48000) as Hs by done.
  destruct (audio_callback_emits (fun _ => None) 48000 48000 [x01] [[x02; x03]]
              (mkAudioState 0 true) empty_mem empty_mem_wf Hs) as (_ & _ & H).
  exact H.
Defined.
