(* ===== verification/Ownership.v ===== *)
(** * Ownership of packets

    The discipline that [Retain] and [Release] ([internal/stream/types.go])
    implement, as a predicate on the memory: [owned H m] says that the handles
    on packets that exist in the process are exactly the multiset [H]. Every
    component of the pipeline is proved to preserve it, each operation by its
    effect on the handles it holds. *)

From S2P Require Import Prelude Packet Flv.

(** The handles are [H]: a packet with a handle is not in the free list and its
    counter is its number of handles; every other packet is in the free list. *)
Record owned (H : gmultiset nat) (m : Mem) : Prop := {
  ow_wf : mem_wf m;
  ow_dom : forall a, is_Some (cells m !! a) <-> a ∈ pool m \/ a ∈ H;
  ow_free : forall a, a ∈ H -> a ∉ pool m;
  ow_refs : forall a, a ∈ H -> refs (deref a m) = Z.of_nat (multiplicity a H);
}.

(** The counters are 32 bits wide: there is room for [n] more handles. *)
Definition room (n : nat) (H : gmultiset nat) : Prop := Z.of_nat (size H + n) < 2 ^ 31.

Lemma room_le n k H : room n H -> (k <= n)%nat -> room k H.
Proof. unfold room. lia. Qed.

(** [m'] shows the same contents as [m] for the packets of [H]. *)
Definition same_contents (H : gmultiset nat) (m m' : Mem) : Prop :=
  forall a, a ∈ H -> content_of (deref a m') = content_of (deref a m).

Lemma same_contents_refl H m : same_contents H m m.
Proof. by intros a Ha. Qed.

Lemma same_contents_trans H H' m1 m2 m3 :
  same_contents H m1 m2 -> same_contents H' m2 m3 -> H ⊆ H' -> same_contents H m1 m3.
Proof.
  intros H1 H2 Hs a Ha.
  rewrite <- (H1 a Ha). apply H2. multiset_solver.
Qed.

Lemma same_contents_mono H H' m m' :
  same_contents H m m' -> H' ⊆ H -> same_contents H' m m'.
Proof. intros Hs Hsub a Ha. apply Hs. multiset_solver. Qed.

Lemma multiplicity_le_size (a : nat) (H : gmultiset nat) : (multiplicity a H <= size H)%nat.
Proof.
  induction H as [|x H IH] using gmultiset_ind; [rewrite multiplicity_empty; lia|].
  rewrite multiplicity_disj_union, gmultiset_size_disj_union, gmultiset_size_singleton.
  destruct (decide (a = x)) as [->|].
  - rewrite multiplicity_singleton_eq. lia.
  - rewrite multiplicity_singleton_ne by done. lia.
Qed.

Lemma owned_valid H m a : owned H m -> a ∈ H -> is_Some (cells m !! a).
Proof. intros Ho Ha. apply (ow_dom _ _ Ho). auto. Qed.

Lemma owned_empty : owned ∅ empty_mem.
Proof.
  split; [apply empty_mem_wf| |multiset_solver..].
  intros a. simpl. rewrite lookup_empty. split; [by intros []|set_solver].
Qed.

(** Taking a packet from the pool adds one handle. *)
Lemma owned_New H pick size m a m' :
  owned H m -> NewAVPacket pick size m = (a, m') ->
  a ∉ H /\ owned ({[+ a +]} ⊎ H) m' /\ same_contents H m m'.
Proof.
  intros Ho E. pose proof (NewAVPacket_fresh _ _ _ _ _ (ow_wf _ _ Ho) E) as Hf.
  assert (a ∉ H) as Ha.
  { intros Ha. apply (ow_free _ _ Ho a Ha), (fp_new _ _ _ _ Hf).
    by apply (owned_valid H). }
  assert (forall b, is_Some (cells m' !! b) -> b = a \/ is_Some (cells m !! b)) as Hdom.
  { intros b. revert E. unfold NewAVPacket.
    destruct (pool_get pick m) as [x mx] eqn:Ex. intros [= -> <-].
    rewrite update_is_Some. unfold pool_get in Ex.
    repeat case_match; simplify_eq/=; auto;
      (destruct (decide (b = brk m)) as [->|]; [auto|rewrite lookup_insert_ne by done; auto]). }
  assert (forall b, b ∈ pool m -> b = a \/ b ∈ pool m') as Hpool.
  { intros b. revert E. unfold NewAVPacket.
    destruct (pool_get pick m) as [x mx] eqn:Ex. intros [= -> <-]. simpl.
    unfold pool_get in Ex. repeat case_match; simplify_eq/=; auto.
    clear. induction (pool m) as [|c l IH]; simpl; [set_solver|].
    case_bool_decide; set_solver. }
  split; [done|]. split; [split|].
  - apply Hf.
  - intros b. split.
    + intros [->|[?|?]%(ow_dom _ _ Ho)]%Hdom; [multiset_solver| |multiset_solver].
      destruct (Hpool b); [done|multiset_solver|auto].
    + intros Hb. destruct (decide (b = a)) as [->|Hne]; [apply Hf|].
      destruct Hb as [Hb|Hb].
      * destruct (fp_wf _ _ _ _ Hf) as (_ & Hp & _). by apply Hp.
      * assert (b ∈ H) as Hb' by multiset_solver.
        apply (fp_frame _ _ _ _ Hf b Hne). by apply (owned_valid H).
  - intros b Hb Hp. destruct (decide (b = a)) as [->|]; [by apply (fp_free _ _ _ _ Hf)|].
    apply (ow_free _ _ Ho b); [multiset_solver|by apply (fp_pool _ _ _ _ Hf)].
  - intros b Hb. destruct (decide (b = a)) as [->|Hne].
    + rewrite (fp_refs _ _ _ _ Hf), multiplicity_disj_union, multiplicity_singleton_eq.
      assert (multiplicity a H = 0%nat) as -> by multiset_solver. done.
    + assert (b ∈ H) as Hb' by multiset_solver.
      destruct (fp_frame _ _ _ _ Hf b Hne) as [_ ->]; [by apply (owned_valid H)|].
      rewrite multiplicity_disj_union, multiplicity_singleton_ne by done.
      by apply (ow_refs _ _ Ho).
  - intros b Hb. destruct (decide (b = a)) as [->|Hne]; [done|].
    destruct (fp_frame _ _ _ _ Hf b Hne) as [_ ->]; [by apply (owned_valid H)|done].
Qed.

Lemma refs_add_refs H m a d :
  owned H m -> a ∈ H -> room 1 H -> -1 <= d <= 1 ->
  refs (deref a (update a (add_refs d) m)) = Z.of_nat (multiplicity a H) + d.
Proof.
  intros Ho Ha Hb Hd. rewrite deref_update_eq by (by apply (owned_valid H)).
  cbn [refs add_refs]. rewrite (ow_refs _ _ Ho) by done.
  pose proof (multiplicity_le_size a H). unfold room in Hb. apply i32_small. lia.
Qed.

Lemma same_contents_add_refs H m a d :
  owned H m -> a ∈ H -> same_contents H m (update a (add_refs d) m).
Proof.
  intros Ho Ha b Hb. destruct (decide (b = a)) as [->|].
  - by rewrite deref_update_eq by (by apply (owned_valid H)).
  - by rewrite deref_update_ne.
Qed.

(** [Retain] duplicates a handle. *)
Lemma owned_Retain H m a :
  owned H m -> a ∈ H -> room 1 H ->
  owned ({[+ a +]} ⊎ H) (Retain a m) /\ same_contents H m (Retain a m).
Proof.
  intros Ho Ha Hb. split; [|by apply same_contents_add_refs]. split.
  - apply mem_wf_update, Ho.
  - intros b. unfold Retain. rewrite update_is_Some, (ow_dom _ _ Ho). simpl.
    destruct (decide (b = a)) as [->|]; multiset_solver.
  - intros b Hb'. simpl. apply (ow_free _ _ Ho). multiset_solver.
  - intros b Hb'. destruct (decide (b = a)) as [->|Hne].
    + unfold Retain. rewrite (refs_add_refs H) by (done || lia).
      rewrite multiplicity_disj_union, multiplicity_singleton_eq. lia.
    + unfold Retain. rewrite deref_update_ne by done.
      rewrite multiplicity_disj_union, multiplicity_singleton_ne by done.
      apply (ow_refs _ _ Ho). multiset_solver.
Qed.

(** [Release] gives a handle up; the last one frees the packet. *)
Lemma owned_Release H m a :
  owned ({[+ a +]} ⊎ H) m -> room 1 ({[+ a +]} ⊎ H) ->
  owned H (Release a m) /\ same_contents H m (Release a m).
Proof.
  intros Ho Hb. set (H' := {[+ a +]} ⊎ H) in *.
  assert (a ∈ H') as Ha by multiset_solver.
  pose proof (refs_add_refs H' m a (-1) Ho Ha Hb) as Hr.
  pose proof (same_contents_add_refs H' m a (-1) Ho Ha) as Hc.
  assert (Z.of_nat (multiplicity a H') + -1 = Z.of_nat (multiplicity a H)) as Hm.
  { unfold H'. rewrite multiplicity_disj_union, multiplicity_singleton_eq. lia. }
  rewrite Hm in Hr. unfold Release. rewrite Hr by lia.
  set (m1 := update a (add_refs (-1)) m) in *.
  assert (forall b, b ∈ H -> refs (deref b m1) = Z.of_nat (multiplicity b H)) as Hrefs.
  { intros b Hb'. destruct (decide (b = a)) as [->|Hne].
    - by rewrite Hr by lia.
    - unfold m1. rewrite deref_update_ne, (ow_refs _ _ Ho) by (done || multiset_solver).
      unfold H'. by rewrite multiplicity_disj_union, multiplicity_singleton_ne. }
  destruct (Z.eqb_spec (Z.of_nat (multiplicity a H)) 0) as [E|E].
  - assert (a ∉ H) as Hna by multiset_solver. split; [split|].
    + destruct (mem_wf_update a (add_refs (-1)) m (ow_wf _ _ Ho)) as (Hn & Hp & Hk).
      split_and!; simpl; [constructor; [by apply (ow_free _ _ Ho)|done]| |done].
      intros x [->|Hx]%elem_of_cons; [|by apply Hp].
      apply update_is_Some. by apply (owned_valid H').
    + intros b. unfold m1, pool_put. simpl. rewrite elem_of_cons.
      change (alter (add_refs (-1)) a (cells m)) with (cells m1). unfold m1.
      rewrite update_is_Some, (ow_dom _ _ Ho).
      destruct (decide (b = a)) as [->|]; multiset_solver.
    + intros b Hb'. simpl. apply not_elem_of_cons. split; [congruence|].
      apply (ow_free _ _ Ho). multiset_solver.
    + done.
    + intros b Hb'. apply (Hc b). multiset_solver.
  - assert (a ∈ H) as Hya by (apply elem_of_multiplicity; lia). split; [split|].
    + apply mem_wf_update, Ho.
    + intros b. unfold m1. rewrite update_is_Some, (ow_dom _ _ Ho). simpl.
      destruct (decide (b = a)) as [->|]; multiset_solver.
    + intros b Hb'. apply (ow_free _ _ Ho). multiset_solver.
    + done.
    + intros b Hb'. apply (Hc b). multiset_solver.
Qed.

(** A producer fills a packet it holds. *)
Lemma owned_update H m a f :
  owned H m -> (forall p, refs (f p) = refs p) -> owned H (update a f m).
Proof.
  intros Ho Hf. split.
  - apply mem_wf_update, Ho.
  - intros b. rewrite update_is_Some. apply Ho.
  - intros b. apply Ho.
  - intros b Hb. destruct (decide (b = a)) as [->|].
    + rewrite deref_update_eq, Hf by (by apply (owned_valid H)). by apply Ho.
    + rewrite deref_update_ne by done. by apply Ho.
Qed.

(** Without leaks: the number of packets outside the pool is the number of
    packets with a handle. *)
Lemma owned_outstanding H m :
  owned H m -> outstanding m = Z.of_nat (size (dom H)).
Proof.
  intros Ho. unfold outstanding.
  assert (dom (cells m) = list_to_set (pool m) ∪ dom H) as Hd.
  { apply set_eq. intros a. rewrite elem_of_dom, (ow_dom _ _ Ho), elem_of_union.
    by rewrite elem_of_list_to_set, gmultiset_elem_of_dom. }
  rewrite <- size_dom, Hd, size_union.
  - rewrite size_list_to_set by apply (ow_wf _ _ Ho). lia.
  - intros a. rewrite elem_of_list_to_set, gmultiset_elem_of_dom. intros Hp Ha.
    by apply (ow_free _ _ Ho a).
Qed.

(** ** The handles a map of components holds *)

Section HeldMap.
Context {K A : Type} `{Countable K} (held : A -> gmultiset nat).

Definition held_map (m : gmap K A) : gmultiset nat :=
  ⋃+ (held <$> (map_to_list m).*2).

Lemma held_map_empty : held_map ∅ = ∅.
Proof. unfold held_map. by rewrite map_to_list_empty. Qed.

Lemma held_map_insert m k x :
  m !! k = None -> held_map (<[k := x]> m) = held x ⊎ held_map m.
Proof.
  intros Hk. unfold held_map. by rewrite map_to_list_insert.
Qed.

Lemma held_map_delete m k x :
  m !! k = Some x -> held_map m = held x ⊎ held_map (delete k m).
Proof.
  intros Hk. rewrite <- (held_map_insert (delete k m) k) by apply lookup_delete_eq.
  by rewrite insert_delete_id.
Qed.

(** Replacing the value at a key exchanges its handles. *)
Lemma held_map_replace m k x y :
  m !! k = Some x -> held_map (<[k := y]> m) = held y ⊎ held_map (delete k m).
Proof.
  intros Hk. rewrite <- insert_delete_eq, held_map_insert; [done|].
  apply lookup_delete_eq.
Qed.
End HeldMap.
