(* ===== verification/Subscriber.v ===== *)
(** * Subscribers: bounded queues and the GOP cache

    [internal/subscriber/{storage,hls,minio,relay,livestream}.go]: delivery,
    closing and the consumer goroutines, with the handles each subscriber
    holds. What the consumers write is in Sinks.v. *)

From S2P Require Import Prelude Packet Flv Ownership.

(** ** Queue subscribers (storage, HLS, MinIO, relay) *)

(** The consumer goroutine: in its loop, in its deferred drain, or gone. *)
Inductive RunState := Running | Draining | Stopped.

#[export] Instance RunState_eq_dec : EqDecision RunState.
Proof. solve_decision. Defined.

(** The channel [ch] of capacity [q_cap] with its content, the drop counter
    (uint64), whether [done] is closed, and the goroutine's state. [q_written]
    is the history of what was handed to [flv.WriteTag]. *)
Record QueueSub := mkQueueSub {
  q_id : string;
  q_type : SubscriberType;
  q_cap : nat;
  q_ch : list nat;
  q_dropped : Z;
  q_done : bool;
  q_run : RunState;
  q_written : list content;
}.

Definition storageBufSize : nat := 512.
Definition hlsBufSize : nat := 256.
Definition minioBufSize : nat := 512.
Definition relayBufSize : nat := 128.

Definition NewStorageSubscriber (streamKey : string) : QueueSub :=
  mkQueueSub ("storage-" +:+ streamKey) TypeStorage storageBufSize [] 0 false Running [].
Definition NewHLSSubscriber (streamKey : string) : QueueSub :=
  mkQueueSub ("hls-" +:+ streamKey) TypeHLS hlsBufSize [] 0 false Running [].
Definition NewMinIOSubscriber (streamKey : string) : QueueSub :=
  mkQueueSub ("minio-" +:+ streamKey) TypeMinIO minioBufSize [] 0 false Running [].
Definition NewRelaySubscriber (streamKey : string) : QueueSub :=
  mkQueueSub ("relay-" +:+ streamKey) TypeRelay relayBufSize [] 0 false Running [].

(** [Deliver]: [select { case s.ch <- pkt: default: drop }] *)
Definition queue_Deliver (a : nat) (s : QueueSub) (m : Mem) : QueueSub * Mem :=
  if (length (q_ch s) <? q_cap s)%nat
  then (mkQueueSub (q_id s) (q_type s) (q_cap s) (q_ch s ++ [a]) (q_dropped s)
                   (q_done s) (q_run s) (q_written s), m)
  else (mkQueueSub (q_id s) (q_type s) (q_cap s) (q_ch s) (u64 (q_dropped s + 1))
                   (q_done s) (q_run s) (q_written s), Release a m).

(** [Close]: idempotent, it closes [done]. *)
Definition queue_Close (s : QueueSub) : QueueSub :=
  mkQueueSub (q_id s) (q_type s) (q_cap s) (q_ch s) (q_dropped s) true
             (q_run s) (q_written s).

(** One step of the goroutine on a packet: [WriteTag], [Release]; [keep] is
    whether the loop goes on (a relay returns when the write failed). [None]:
    not enabled. *)
Definition queue_consume (keep : bool) (s : QueueSub) (m : Mem) : option (QueueSub * Mem) :=
  match q_run s, q_ch s with
  | Running, a :: ch =>
      Some (mkQueueSub (q_id s) (q_type s) (q_cap s) ch (q_dropped s) (q_done s)
              (if keep then Running else Draining)
              (q_written s ++ [content_of (deref a m)]), Release a m)
  | _, _ => None
  end.

(** The goroutine leaves its loop: [done] was closed, or setting up the output
    failed ([failed]). *)
Definition queue_leave (failed : bool) (s : QueueSub) : option QueueSub :=
  match q_run s with
  | Running =>
      if q_done s || failed
      then Some (mkQueueSub (q_id s) (q_type s) (q_cap s) (q_ch s) (q_dropped s)
                            (q_done s) Draining (q_written s))
      else None
  | _ => None
  end.

(** One iteration of the deferred drain loop. *)
Definition queue_drain (s : QueueSub) (m : Mem) : option (QueueSub * Mem) :=
  match q_run s with
  | Draining =>
      match q_ch s with
      | a :: ch => Some (mkQueueSub (q_id s) (q_type s) (q_cap s) ch (q_dropped s)
                                    (q_done s) Draining (q_written s), Release a m)
      | [] => Some (mkQueueSub (q_id s) (q_type s) (q_cap s) [] (q_dropped s)
                               (q_done s) Stopped (q_written s), m)
      end
  | _ => None
  end.

(** ** The livestream subscriber *)

Definition gopCacheMax : nat := 256.

Record LivestreamSubscriber := mkLivestream {
  l_id : string;
  gopCache : list nat;
  l_dropped : Z;
}.

Definition NewLivestreamSubscriber (id : string) : LivestreamSubscriber :=
  mkLivestream ("live-" +:+ id) [] 0.

Definition release_all (l : list nat) (m : Mem) : Mem := foldl (fun m a => Release a m) m l.

Definition updateGOP (a : nat) (cache : list nat) (m : Mem) : list nat * Mem :=
  let '(cache, m) :=
    if Type_ (deref a m) =? PacketVideo
    then
      let '(cache, m) :=
        if IsKeyframe (deref a m) then ([], release_all cache m) else (cache, m) in
      (cache ++ [a], Retain a m)
    else (cache ++ [a], Retain a m) in
  let cut := (length cache - gopCacheMax)%nat in
  if (0 <? cut)%nat
  then (drop cut cache, release_all (take cut cache) m)
  else (cache, m).

Section OnPkt.
(** The viewer's callback: whether [onPkt(pkt)] returned an error. *)
Variable onPkt : string -> content -> bool.

Definition live_Deliver (a : nat) (s : LivestreamSubscriber) (m : Mem)
  : LivestreamSubscriber * Mem :=
  let '(cache, m) := updateGOP a (gopCache s) m in
  let dropped := if onPkt (l_id s) (content_of (deref a m))
                 then u64 (l_dropped s + 1) else l_dropped s in
  (mkLivestream (l_id s) cache dropped, Release a m).

Definition live_Close (s : LivestreamSubscriber) (m : Mem) : LivestreamSubscriber * Mem :=
  (mkLivestream (l_id s) [] (l_dropped s), release_all (gopCache s) m).

(** [SendGOP]: a copy of the cache is taken under the lock; the callback then
    runs on it without the lock, and without handles of its own. [gop] is
    the copy; the result is what the viewer was sent. *)
Fixpoint SendGOP (id : string) (gop : list nat) (m : Mem) : list content :=
  match gop with
  | [] => []
  | a :: gop =>
      let c := content_of (deref a m) in
      c :: (if onPkt id c then [] else SendGOP id gop m)
  end.

(** ** The interface [stream.Subscriber] *)

Inductive Subscriber :=
  | Queue (s : QueueSub)
  | Livestream (s : LivestreamSubscriber).

Definition ID (s : Subscriber) : string :=
  match s with Queue s => q_id s | Livestream s => l_id s end.
Definition Type' (s : Subscriber) : SubscriberType :=
  match s with Queue s => q_type s | Livestream _ => TypeLivestream end.
Definition DroppedPackets (s : Subscriber) : Z :=
  match s with Queue s => q_dropped s | Livestream s => l_dropped s end.

Definition Deliver (a : nat) (s : Subscriber) (m : Mem) : Subscriber * Mem :=
  match s with
  | Queue s => let '(s, m) := queue_Deliver a s m in (Queue s, m)
  | Livestream s => let '(s, m) := live_Deliver a s m in (Livestream s, m)
  end.

Definition Close (s : Subscriber) (m : Mem) : Subscriber * Mem :=
  match s with
  | Queue s => (Queue (queue_Close s), m)
  | Livestream s => let '(s, m) := live_Close s m in (Livestream s, m)
  end.
End OnPkt.

(** ** Specification side *)

(** The handles a subscriber holds. *)
Definition handles (l : list nat) : gmultiset nat := list_to_set_disj l.

Definition held (s : Subscriber) : gmultiset nat :=
  match s with
  | Queue s => handles (q_ch s)
  | Livestream s => handles (gopCache s)
  end.

(** An effect on the memory that exchanges the handles [H] for [H'], whoever
    else holds what, and keeps the contents of all packets still held, while
    there is room for [n] more handles. *)
Definition exchanges (n : nat) (H H' : gmultiset nat) (m m' : Mem) : Prop :=
  forall R, room n (H ⊎ R) -> owned (H ⊎ R) m ->
  owned (H' ⊎ R) m' /\ same_contents (H' ⊎ R) m m'.

(** Whether a packet starts a group of pictures. *)
Definition starts_gop (c : content) : bool := (c_type c =? PacketVideo) && c_key c.

(** The cache after a packet: reset by a video keyframe, the last 256 kept. *)
Definition gop_next (a : nat) (c : content) (cache : list nat) : list nat :=
  let cache := (if starts_gop c then [] else cache) ++ [a] in
  drop (length cache - gopCacheMax) cache.

(** ** Lemmas *)

Create HintDb exch.

Lemma room_sub n H H' : room n H -> H' ⊆ H -> room n H'.
Proof. unfold room. intros Hr Hs%gmultiset_subseteq_size. lia. Qed.

Lemma exchanges_refl n H m : exchanges n H H m m.
Proof. intros R _ Ho. split; [done|apply same_contents_refl]. Qed.

(** Composition: the second effect needs room for what the first one added. *)
Lemma exchanges_trans n1 n2 H1 H2 H3 m1 m2 m3 :
  exchanges n1 H1 H2 m1 m2 -> exchanges n2 H2 H3 m2 m3 ->
  (size H2 + n2 <= size H1 + n1)%nat -> (forall a, a ∈ H3 -> a ∈ H2) ->
  exchanges n1 H1 H3 m1 m3.
Proof.
  intros E1 E2 Hn Hs R Hr Ho. destruct (E1 R Hr Ho) as [Ho2 Hc2].
  destruct (E2 R) as [Ho3 Hc3].
  - revert Hr. unfold room. rewrite !gmultiset_size_disj_union. lia.
  - done.
  - split; [done|]. intros a Ha. rewrite (Hc3 a) by done. apply Hc2.
    specialize (Hs a). multiset_solver.
Qed.

Lemma exchanges_weaken n n' H H' m m' :
  exchanges n H H' m m' -> (n <= n')%nat -> exchanges n' H H' m m'.
Proof. intros E Hn R Hr. apply E. by eapply room_le. Qed.

(** Handles that are not involved. *)
Lemma exchanges_frame n H H' F m m' :
  exchanges n H H' m m' -> exchanges n (H ⊎ F) (H' ⊎ F) m m'.
Proof. intros E R. rewrite <- !(assoc_L (⊎)). apply E. Qed.

Lemma exchanges_Release a m : exchanges 1 {[+ a +]} ∅ m (Release a m).
Proof.
  intros R Hr Ho. rewrite (left_id_L ∅ (⊎)). by apply owned_Release.
Qed.

Lemma exchanges_Retain a m :
  exchanges 1 {[+ a +]} ({[+ a +]} ⊎ {[+ a +]}) m (Retain a m).
Proof.
  intros R Hr Ho. rewrite <- (assoc_L (⊎)).
  destruct (owned_Retain _ m a Ho) as [Ho' Hc]; [multiset_solver|done|].
  split; [done|]. intros b Hb. apply Hc. multiset_solver.
Qed.

Lemma handles_cons a l : handles (a :: l) = {[+ a +]} ⊎ handles l.
Proof. apply list_to_set_disj_cons. Qed.

Lemma handles_app l1 l2 : handles (l1 ++ l2) = handles l1 ⊎ handles l2.
Proof. apply list_to_set_disj_app. Qed.

Lemma handles_nil : handles [] = ∅.
Proof. done. Qed.

Lemma size_handles l : size (handles l) = length l.
Proof.
  induction l as [|a l IH]; [apply gmultiset_size_empty|].
  rewrite handles_cons, gmultiset_size_disj_union, gmultiset_size_singleton. simpl. lia.
Qed.

Lemma exchanges_release_all l : forall m, exchanges 1 (handles l) ∅ m (release_all l m).
Proof.
  induction l as [|a l IH]; intros m; [apply exchanges_refl|].
  rewrite handles_cons. unfold release_all. cbn [foldl].
  eapply exchanges_trans; [apply exchanges_frame, exchanges_Release| | |multiset_solver].
  - rewrite (left_id_L ∅ (⊎)). apply IH.
  - rewrite !gmultiset_size_disj_union, gmultiset_size_empty. lia.
Qed.

Lemma fst_cut (l : list nat) (m1 m2 : Mem) :
  fst (if (0 <? length l - gopCacheMax)%nat
       then (drop (length l - gopCacheMax) l, m1) else (l, m2))
  = drop (length l - gopCacheMax) l.
Proof.
  destruct (Nat.ltb_spec 0 (length l - gopCacheMax)) as [|Hl]; [done|].
  by assert ((length l - gopCacheMax)%nat = 0%nat) as -> by lia.
Qed.

Lemma updateGOP_cache a cache m :
  fst (updateGOP a cache m) = gop_next a (content_of (deref a m)) cache.
Proof.
  unfold updateGOP, gop_next, starts_gop, content_of. cbn [c_type c_key].
  destruct (Type_ (deref a m) =? PacketVideo); cbn [andb]; [|apply fst_cut].
  destruct (IsKeyframe (deref a m)); apply fst_cut.
Qed.

(** Cutting a cache at the front. *)
Lemma exchanges_cut l n m :
  exchanges 1 (handles l) (handles (drop n l)) m (release_all (take n l) m).
Proof.
  rewrite <- (take_drop n l) at 1. rewrite handles_app.
  rewrite <- (left_id_L ∅ (⊎) (handles (drop n l))) at 2.
  apply exchanges_frame, exchanges_release_all.
Qed.

(** The cache takes a handle of its own on the packet. *)
Lemma exchanges_updateGOP a cache m :
  let '(cache', m') := updateGOP a cache m in
  exchanges 2 ({[+ a +]} ⊎ handles cache) ({[+ a +]} ⊎ handles cache') m m'.
Proof.
  assert (forall l m0, 
    exchanges 1 ({[+ a +]} ⊎ handles cache) ({[+ a +]} ⊎ handles l) m m0 ->
    (length l <= length cache)%nat ->
    let '(cache', m') :=
      let cut := (length (l ++ [a]) - gopCacheMax)%nat in
      if (0 <? cut)%nat
      then (drop cut (l ++ [a]), release_all (take cut (l ++ [a])) (Retain a m0))
      else (l ++ [a], Retain a m0) in
    exchanges 2 ({[+ a +]} ⊎ handles cache) ({[+ a +]} ⊎ handles cache') m m') as Hgen.
  { intros l m0 E0 Hl.
    assert (exchanges 2 ({[+ a +]} ⊎ handles cache)
              ({[+ a +]} ⊎ handles (l ++ [a])) m (Retain a m0)) as E1.
    { rewrite handles_app, handles_cons, handles_nil, (right_id_L ∅ (⊎)).
      eapply exchanges_trans.
      - eapply exchanges_weaken; [exact E0|lia].
      - rewrite (comm_L (⊎) (handles l)), (assoc_L (⊎)).
        apply exchanges_frame, exchanges_Retain.
      - rewrite !gmultiset_size_disj_union, !size_handles. lia.
      - multiset_solver. }
    cbn zeta. destruct (0 <? _)%nat; [|exact E1].
    eapply exchanges_trans; [exact E1| | |].
    - rewrite !(comm_L (⊎) {[+ a +]}). apply exchanges_frame, exchanges_cut.
    - rewrite !gmultiset_size_disj_union, !size_handles, length_app. simpl. lia.
    - intros b Hb. rewrite <- (take_drop (length (l ++ [a]) - gopCacheMax) (l ++ [a])).
      rewrite handles_app. multiset_solver. }
  unfold updateGOP. destruct (Type_ (deref a m) =? PacketVideo);
    [destruct (IsKeyframe (deref a m))|].
  - apply (Hgen [] (release_all cache m)); [|simpl; lia].
    rewrite !(comm_L (⊎) {[+ a +]}). apply exchanges_frame, exchanges_release_all.
  - apply (Hgen cache m); [apply exchanges_refl|lia].
  - apply (Hgen cache m); [apply exchanges_refl|lia].
Qed.

Section Delivery.
Context (onPkt : string -> content -> bool).

(** [Deliver] takes over the caller's handle. *)
Lemma exchanges_Deliver a s m :
  let '(s', m') := Deliver onPkt a s m in
  exchanges 2 ({[+ a +]} ⊎ held s) (held s') m m' /\
  (size (held s') <= S (size (held s)))%nat /\ ID s' = ID s.
Proof.
  destruct s as [s|s]; cbn [Deliver].
  - unfold queue_Deliver. destruct (_ <? _)%nat; cbn [held ID q_ch q_id].
    + rewrite handles_app, handles_cons, handles_nil, (right_id_L ∅ (⊎)).
      rewrite (comm_L (⊎)), gmultiset_size_disj_union, gmultiset_size_singleton.
      split_and!; [apply exchanges_refl|lia|done].
    + split_and!; [|lia|done]. eapply exchanges_weaken; [|apply Nat.le_succ_diag_r].
      rewrite <- (left_id_L ∅ (⊎) (handles (q_ch s))) at 2.
      apply exchanges_frame, exchanges_Release.
  - unfold live_Deliver. pose proof (exchanges_updateGOP a (gopCache s) m) as E.
    pose proof (updateGOP_cache a (gopCache s) m) as Hc.
    destruct (updateGOP a (gopCache s) m) as [cache m'].
    cbn [held ID gopCache l_id fst] in *.
    assert (length cache <= S (length (gopCache s)))%nat as Hl.
    { rewrite Hc. unfold gop_next. rewrite length_drop, length_app.
      destruct (starts_gop _); simpl; lia. }
    split_and!; [|rewrite !size_handles; lia|done].
    eapply exchanges_trans; [exact E| | |multiset_solver].
    + rewrite <- (left_id_L ∅ (⊎) (handles cache)) at 2.
      apply exchanges_frame, exchanges_Release.
    + rewrite !gmultiset_size_disj_union, !size_handles, gmultiset_size_singleton. lia.
Qed.

Lemma exchanges_Close s m :
  let '(s', m') := Close s m in exchanges 1 (held s) (held s') m m' /\ ID s' = ID s.
Proof.
  destruct s as [s|s]; cbn [Close live_Close held ID q_ch gopCache l_id q_id queue_Close].
  - split; [apply exchanges_refl|done].
  - split; [apply exchanges_release_all|done].
Qed.

Lemma exchanges_consume keep s m s' m' :
  queue_consume keep s m = Some (s', m') ->
  exchanges 1 (handles (q_ch s)) (handles (q_ch s')) m m'.
Proof.
  unfold queue_consume. destruct (q_run s), (q_ch s) as [|a ch]; try done.
  intros [= <- <-]. cbn [q_ch]. rewrite handles_cons.
  rewrite <- (left_id_L ∅ (⊎) (handles ch)) at 2.
  apply exchanges_frame, exchanges_Release.
Qed.

Lemma exchanges_drain s m s' m' :
  queue_drain s m = Some (s', m') ->
  exchanges 1 (handles (q_ch s)) (handles (q_ch s')) m m'.
Proof.
  unfold queue_drain. destruct (q_run s), (q_ch s) as [|a ch] eqn:E; try done;
    intros [= <- <-]; cbn [q_ch].
  - apply exchanges_refl.
  - rewrite handles_cons. rewrite <- (left_id_L ∅ (⊎) (handles ch)) at 2.
    apply exchanges_frame, exchanges_Release.
Qed.

(** Deliver a sequence of packets to a viewer. *)
Definition deliver_seq (l : list nat) (s : LivestreamSubscriber) (m : Mem)
  : LivestreamSubscriber * Mem :=
  foldl (fun '(s, m) a => live_Deliver onPkt a s m) (s, m) l.

Lemma deliver_seq_cons a l s m :
  deliver_seq (a :: l) s m
  = deliver_seq l (fst (live_Deliver onPkt a s m)) (snd (live_Deliver onPkt a s m)).
Proof. unfold deliver_seq. cbn [foldl]. by destruct (live_Deliver onPkt a s m). Qed.

(** The pure effect of a sequence on the cache. *)
Lemma deliver_seq_cache l : forall s m,
  owned (handles l ⊎ handles (gopCache s)) m ->
  room (2 + length l) (handles l ⊎ handles (gopCache s)) ->
  gopCache (fst (deliver_seq l s m))
  = foldl (fun cache a => gop_next a (content_of (deref a m)) cache) (gopCache s) l.
Proof.
  induction l as [|a l IH]; intros s m Ho Hr; [done|].
  rewrite deliver_seq_cons. cbn [foldl].
  pose proof (exchanges_Deliver a (Livestream s) m) as HE. cbn [Deliver] in HE.
  pose proof (updateGOP_cache a (gopCache s) m) as Hc.
  assert (gopCache (fst (live_Deliver onPkt a s m))
          = gop_next a (content_of (deref a m)) (gopCache s)) as <-.
  { unfold live_Deliver. by destruct (updateGOP a (gopCache s) m). }
  destruct (live_Deliver onPkt a s m) as [s' m']. cbn [fst snd].
  destruct HE as (HE & Hsz & _). cbn [held] in *.
  rewrite handles_cons in Ho, Hr.
  destruct (HE (handles l)) as [Ho' Hc'].
  { eapply room_le; [eapply room_sub; [exact Hr|]|simpl; lia]. multiset_solver. }
  { by rewrite <- (assoc_L (⊎)), (comm_L (⊎) (handles (gopCache s))), (assoc_L (⊎)). }
  rewrite IH.
  - clear -Hc'. assert (forall a, a ∈ l ->
      content_of (deref a m') = content_of (deref a m)) as Hl.
    { intros b Hb. apply Hc'. apply gmultiset_elem_of_disj_union. right.
      by apply elem_of_list_to_set_disj. }
    clear Hc'. generalize (gopCache s') as cache. induction l as [|b l IHl]; intros cache;
      [done|]. cbn [foldl]. rewrite Hl by set_solver. apply IHl. set_solver.
  - by rewrite (comm_L (⊎)).
  - revert Hr. unfold room. rewrite !gmultiset_size_disj_union, gmultiset_size_singleton.
    simpl. lia.
Qed.
End Delivery.

(** None of these operations allocates. *)
Lemma Release_dom a b m : is_Some (cells (Release a m) !! b) <-> is_Some (cells m !! b).
Proof. unfold Release. case_match; apply update_is_Some. Qed.

Lemma release_all_dom l : forall b m,
  is_Some (cells (release_all l m) !! b) <-> is_Some (cells m !! b).
Proof.
  induction l as [|a l IH]; intros b m; [done|]. unfold release_all in *. cbn [foldl].
  by rewrite IH, Release_dom.
Qed.

Lemma live_Deliver_dom onPkt a s b m :
  is_Some (cells (snd (live_Deliver onPkt a s m)) !! b) <-> is_Some (cells m !! b).
Proof.
  unfold live_Deliver, updateGOP, Retain. repeat case_match; simplify_eq/=;
    by rewrite ?Release_dom, ?release_all_dom, ?update_is_Some, ?release_all_dom.
Qed.

(** The last [n] elements. *)
Definition lastn {A} (n : nat) (l : list A) : list A := drop (length l - n) l.

Lemma length_lastn {A} n (l : list A) : length (lastn n l) = (n `min` length l)%nat.
Proof. unfold lastn. rewrite length_drop. lia. Qed.

Lemma lastn_snoc {A} n (l : list A) x :
  lastn n (lastn n l ++ [x]) = lastn n (l ++ [x]).
Proof.
  unfold lastn at 1. rewrite length_app, length_lastn. cbn [length]. unfold lastn.
  rewrite length_app. cbn [length]. destruct (Nat.le_gt_cases (length l) n).
  - rewrite (proj2 (Nat.sub_0_le (length l) n)) by lia. rewrite drop_0. f_equal. lia.
  - destruct n as [|n].
    + rewrite !drop_ge; [done|rewrite length_app; simpl; lia|].
      rewrite length_app, length_drop; simpl; lia.
    + rewrite !drop_app_le by (rewrite ?length_drop; lia). rewrite drop_drop.
      f_equal. f_equal. lia.
Qed.

Lemma fold_gop_next f l : forall cache,
  Forall (fun a => starts_gop (f a) = false) l ->
  foldl (fun cache a => gop_next a (f a) cache) (lastn gopCacheMax cache) l
  = lastn gopCacheMax (cache ++ l).
Proof.
  induction l as [|a l IH]; intros cache Hl; cbn [foldl]; [by rewrite app_nil_r|].
  inversion Hl as [|? ? Ha Hl']; subst. unfold gop_next at 2. rewrite Ha.
  fold (lastn gopCacheMax (lastn gopCacheMax cache ++ [a])). rewrite lastn_snoc.
  rewrite IH by done. by rewrite <- (assoc_L (++)).
Qed.

(** What a queue was asked to do: a delivery, or a step of its consumer. *)
Inductive qop := QDeliver (a : nat) | QConsume.

Fixpoint q_run_ops (ops : list qop) (s : QueueSub) (m : Mem) : QueueSub * Mem :=
  match ops with
  | [] => (s, m)
  | QDeliver a :: ops => let '(s, m) := queue_Deliver a s m in q_run_ops ops s m
  | QConsume :: ops =>
      match queue_consume true s m with
      | Some (s, m) => q_run_ops ops s m
      | None => q_run_ops ops s m
      end
  end.

Definition delivered (ops : list qop) : list nat :=
  omap (fun o => match o with QDeliver a => Some a | QConsume => None end) ops.

(** ** Properties *)

(** the cache of a viewer is the current group of pictures. After packets
    [l1], a video keyframe [k] and packets [l2] without one have been
    delivered, whatever the cache was before, it holds [k] and [l2] in order,
    less the oldest ones beyond 256. *)
Theorem gop_cache_current_group onPkt l1 k l2 s m :
  owned (handles (l1 ++ k :: l2) ⊎ handles (gopCache s)) m ->
  room (2 + length (l1 ++ k :: l2)) (handles (l1 ++ k :: l2) ⊎ handles (gopCache s)) ->
  starts_gop (content_of (deref k m)) = true ->
  Forall (fun a => starts_gop (content_of (deref a m)) = false) l2 ->
  gopCache (fst (deliver_seq onPkt (l1 ++ k :: l2) s m)) = lastn gopCacheMax (k :: l2).
Proof.
  intros Ho Hr Hk Hl. rewrite deliver_seq_cache by done.
  rewrite foldl_app. cbn [foldl]. unfold gop_next at 2. rewrite Hk. cbn [app].
  apply (fold_gop_next (fun a => content_of (deref a m)) l2 [k] Hl).
Qed.

(** the queue of a subscriber is first in, first out, and never blocks or
    duplicates: under any sequence of deliveries and consumer steps, what was
    written, then what is still queued, is a subsequence of what was delivered,
    in order; every delivered packet is written, queued or counted as dropped;
    and the queue never exceeds its capacity. *)
Theorem queue_fifo ops s m :
  q_run s = Running -> q_ch s = [] -> q_dropped s = 0 -> q_written s = [] ->
  Z.of_nat (length ops) < 2 ^ 64 ->
  let '(s', m') := q_run_ops ops s m in
  exists written, length written = length (q_written s') /\
    sublist (written ++ q_ch s') (delivered ops) /\
    Z.of_nat (length (delivered ops))
    = Z.of_nat (length written) + Z.of_nat (length (q_ch s')) + q_dropped s' /\
    (length (q_ch s') <= q_cap s)%nat.
Proof.
  intros Hrun Hch Hd Hw Hn.
  assert (forall ops s m pre wr,
    q_run s = Running -> length wr = length (q_written s) ->
    sublist (wr ++ q_ch s) pre ->
    Z.of_nat (length pre) = Z.of_nat (length wr) + Z.of_nat (length (q_ch s)) + q_dropped s ->
    (length (q_ch s) <= q_cap s)%nat -> 0 <= q_dropped s ->
    q_dropped s + Z.of_nat (length ops) < 2 ^ 64 ->
    let '(s', m') := q_run_ops ops s m in
    exists written, length written = length (q_written s') /\
      sublist (written ++ q_ch s') (pre ++ delivered ops) /\
      Z.of_nat (length (pre ++ delivered ops))
      = Z.of_nat (length written) + Z.of_nat (length (q_ch s')) + q_dropped s' /\
      (length (q_ch s') <= q_cap s)%nat) as Hgen.
  2: { apply (Hgen ops s m [] []); rewrite ?Hch, ?Hd, ?Hw; try done; simpl; lia. }
  clear. induction ops as [|[a|] ops IH]; intros s m pre wr Hrun Hwr Hs Hc Hcap H0 Hn.
  - cbn. rewrite app_nil_r. eauto.
  - cbn [q_run_ops]. unfold queue_Deliver.
    change (delivered (QDeliver a :: ops)) with ([a] ++ delivered ops).
    rewrite (assoc_L (++)). cbn [length] in Hn.
    destruct (Nat.ltb_spec (length (q_ch s)) (q_cap s)) as [Hlt|Hge].
    + apply (IH (mkQueueSub _ _ _ _ _ _ _ _) m (pre ++ [a]) wr);
        cbn [q_run q_written q_ch q_dropped q_cap]; try done; try lia.
      * rewrite (assoc_L (++)). by apply sublist_app.
      * rewrite !length_app. simpl. lia.
      * rewrite length_app. simpl. lia.
    + assert (u64 (q_dropped s + 1) = q_dropped s + 1) as Hu.
      { unfold u64. rewrite Z.mod_small; lia. }
      apply (IH (mkQueueSub _ _ _ _ _ _ _ _) (Release a m) (pre ++ [a]) wr);
        cbn [q_run q_written q_ch q_dropped q_cap]; rewrite ?Hu; try done; try lia.
      * by apply sublist_inserts_r.
      * rewrite !length_app. simpl. lia.
  - cbn [q_run_ops]. unfold queue_consume. rewrite Hrun. cbn [length] in Hn.
    change (delivered (QConsume :: ops)) with (delivered ops).
    destruct (q_ch s) as [|a ch] eqn:Ech; [apply (IH s m pre wr); rewrite ?Ech; done || lia|].
    apply (IH (mkQueueSub _ _ _ _ _ _ _ _) (Release a m) pre (wr ++ [a]));
      cbn [q_run q_written q_ch q_dropped q_cap]; try done; try lia.
    + rewrite !length_app. simpl. lia.
    + by rewrite <- (assoc_L (++)).
    + rewrite length_app. simpl in *. lia.
    + simpl in *. lia.
Qed.

(** [SendGOP] reads packets it holds no reference to. If, after a viewer
    copied its cache [[a]], a keyframe [k] is delivered before the copy is
    sent, [a] is back in the pool; a producer that then gets [a] and fills it
    makes the viewer receive the new packet in place of the cached one. *)
Theorem send_gop_use_after_release onPkt s m a k size f :
  gopCache s = [a] -> a <> k -> owned (handles [a; k]) m ->
  starts_gop (content_of (deref k m)) = true ->
  let '(s', m1) := live_Deliver onPkt k s m in
  gopCache s' = [k] /\ a ∈ pool m1 /\
  exists m2, NewAVPacket (Some a) size m1 = (a, m2) /\
    SendGOP onPkt (l_id s) [a] (update a f m2) = [content_of (f (deref a m2))].
Proof.
  intros Hc Hne Ho Hk.
  pose proof (exchanges_Deliver onPkt k (Livestream s) m) as HE. cbn [Deliver] in HE.
  pose proof (updateGOP_cache k (gopCache s) m) as HG. rewrite Hc in HG.
  unfold gop_next in HG. rewrite Hk in HG. cbn in HG.
  assert (gopCache (fst (live_Deliver onPkt k s m)) = [k]) as Hs'.
  { unfold live_Deliver. rewrite Hc, <- HG. by destruct (updateGOP k [a] m). }
  destruct (live_Deliver onPkt k s m) as [s' m1] eqn:ED. cbn [fst] in Hs'.
  destruct HE as (HE & _ & _). cbn [held] in HE. rewrite Hc, Hs' in HE.
  destruct (HE ∅) as [Ho1 _].
  { rewrite (right_id_L ∅ (⊎)), <- handles_cons. unfold room. by rewrite size_handles. }
  { assert ({[+ k +]} ⊎ handles [a] ⊎ ∅ = handles [a; k]) as ->; [|done].
    rewrite !handles_cons, handles_nil. multiset_solver. }
  rewrite (right_id_L ∅ (⊎)) in Ho1.
  assert (a ∈ pool m1) as Hp.
  { assert (is_Some (cells m1 !! a)) as Hv.
    { replace m1 with (snd (live_Deliver onPkt k s m)) by (by rewrite ED).
      apply live_Deliver_dom, (owned_valid _ _ _ Ho), elem_of_list_to_set_disj. set_solver. }
    apply (ow_dom _ _ Ho1) in Hv as [Hv|Hv]; [done|].
    apply elem_of_list_to_set_disj in Hv. set_solver. }
  split; [done|]. split; [done|].
  unfold NewAVPacket, pool_get. rewrite bool_decide_eq_true_2 by done.
  eexists. split; [done|]. cbn [SendGOP].
  rewrite (deref_update_eq a f) by (apply update_is_Some; apply (ow_dom _ _ Ho1); auto).
  by case_match.
Qed.

(** ** Witnesses *)

(** Two packets in use: audio packet 0 and keyframe 1. *)
Definition demo_mem2 : Mem :=
  let '(a, m) := NewAVPacket None 1 empty_mem in
  let m := update a (set_Type PacketAudio) m in
  let '(k, m) := NewAVPacket None 2 m in
  update k (fun p => set_Type PacketVideo (set_IsKeyframe true p)) m.

Lemma demo_mem2_owned : owned (handles [1; 0]%nat) demo_mem2.
Proof.
  unfold demo_mem2. destruct (NewAVPacket None 1 empty_mem) as [a m] eqn:E.
  destruct (owned_New ∅ _ _ _ _ _ owned_empty E) as (_ & Ho & _).
  destruct (NewAVPacket None 2 (update a (set_Type PacketAudio) m)) as [k m'] eqn:E'.
  apply (owned_update _ _ a (set_Type PacketAudio)) in Ho; [|done].
  destruct (owned_New _ _ _ _ _ _ Ho E') as (_ & Ho' & _).
  apply (owned_update _ _ k (fun p => set_Type PacketVideo (set_IsKeyframe true p))) in Ho';
    [|done].
  revert E E'. cbv [NewAVPacket pool_get empty_mem]. intros [= <- <-] [= <- <-]. exact Ho'.
Qed.

Lemma gop_cache_current_group_witness :
  gopCache (fst (deliver_seq (fun _ _ => false) [0; 1]%nat
                             (NewLivestreamSubscriber "v") demo_mem2)) = [1%nat].
Proof.
  apply (gop_cache_current_group (fun _ _ => false) [0%nat] 1%nat []
           (NewLivestreamSubscriber "v") demo_mem2).
  - replace (handles ([0%nat] ++ [1%nat]) ⊎ handles (gopCache (NewLivestreamSubscriber "v")))
      with (handles [1; 0]%nat) by (rewrite !handles_app; multiset_solver).
    exact demo_mem2_owned.
  - unfold room. rewrite gmultiset_size_disj_union, !size_handles. reflexivity.
  - reflexivity.
  - constructor.
Defined.

Lemma queue_fifo_witness :
  let s := mkQueueSub "relay-a" TypeRelay 1 [] 0 false Running [] in
  let '(s', m') := q_run_ops [QDeliver 0; QDeliver 1; QConsume]%nat s demo_mem2 in
  exists written, length written = length (q_written s') /\
    sublist (written ++ q_ch s') [0; 1]%nat /\
    Z.of_nat 2 = Z.of_nat (length written) + Z.of_nat (length (q_ch s')) + q_dropped s' /\
    (length (q_ch s') <= 1)%nat.
Proof.
  apply (queue_fifo [QDeliver 0; QDeliver 1; QConsume]%nat
           (mkQueueSub "relay-a" TypeRelay 1 [] 0 false Running []) demo_mem2);
    reflexivity.
Defined.

Lemma send_gop_use_after_release_witness :
  let s := mkLivestream "live-v" [0%nat] 0 in
  let '(s', m1) := live_Deliver (fun _ _ => false) 1 s demo_mem2 in
  gopCache s' = [1%nat] /\ 0%nat ∈ pool m1 /\
  exists m2, NewAVPacket (Some 0%nat) 1 m1 = (0%nat, m2) /\
    SendGOP (fun _ _ => false) "live-v" [0%nat] (update 0 (blit 0 [xff]) m2)
    = [content_of (blit 0 [xff] (deref 0 m2))].
Proof.
  apply (send_gop_use_after_release (fun _ _ => false) (mkLivestream "live-v" [0%nat] 0)
           demo_mem2 0 1 1 (blit 0 [xff])).
  - reflexivity.
  - discriminate.
  - replace (handles [0; 1]%nat) with (handles [1; 0]%nat)
      by (rewrite !handles_cons; multiset_solver).
    exact demo_mem2_owned.
  - reflexivity.
Defined.
