(* ===== verification/Stream.v ===== *)
(** * Live streams and the stream manager

    [internal/stream/{fanout,manager}.go]: the pump, subscription and shutdown
    of a [liveStream], the registry of streams, and the whole pipeline (any
    number of producers, streams and subscribers) as a step relation over one
    packet memory. *)

From S2P Require Import Prelude Packet Flv Ownership Subscriber.

Definition ingestBufSize : nat := 64.

(** ** State *)

(** [pumping]: the pump goroutine has not returned. [accepted] is the history
    of the contents [Ingest] enqueued. *)
Record liveStream := mkStream {
  key : string;
  publisherNode : string;
  subs : gmap string Subscriber;
  ingest : list nat;
  s_done : bool;
  pumping : bool;
  packetsTotal : Z;              (* uint64 *)
  closed : bool;
  accepted : list content;
}.

Definition newLiveStream (key node : string) : liveStream :=
  mkStream key node ∅ [] false true 0 false [].

Definition IsLive (s : liveStream) : bool := negb (closed s).

Definition set_subs (f : gmap string Subscriber) (s : liveStream) : liveStream :=
  mkStream (key s) (publisherNode s) f (ingest s) (s_done s) (pumping s)
           (packetsTotal s) (closed s) (accepted s).

(** Enqueue, or report that the buffer is full. *)
Definition ingest_send (a : nat) (s : liveStream) (m : Mem) : option liveStream :=
  if (length (ingest s) <? ingestBufSize)%nat
  then Some (mkStream (key s) (publisherNode s) (subs s) (ingest s ++ [a]) (s_done s)
               (pumping s) (packetsTotal s) (closed s)
               (accepted s ++ [content_of (deref a m)]))
  else None.

(** [Ingest]: [false] when the packet was dropped. *)
Definition Ingest (a : nat) (s : liveStream) (m : Mem) : liveStream * bool :=
  if closed s then (s, false)
  else match ingest_send a s m with
       | Some s => (s, true)
       | None => (s, false)
       end.

(** [for _, sub := range s.subs { ... }]: the map is ranged over in some order
    [ids] of its keys. *)
Fixpoint visit (op : Subscriber -> Mem -> Subscriber * Mem) (ids : list string)
    (subs : gmap string Subscriber) (m : Mem) : gmap string Subscriber * Mem :=
  match ids with
  | [] => (subs, m)
  | id :: ids =>
      match subs !! id with
      | None => visit op ids subs m
      | Some sub =>
          let '(sub, m) := op sub m in
          visit op ids (<[id := sub]> subs) m
      end
  end.

(** An order in which a map can be ranged over. *)
Definition range_order {A} (ids : list string) (f : gmap string A) : Prop :=
  ids ≡ₚ (map_to_list f).*1.

Section WithViewers.
Variable onPkt : string -> content -> bool.

(** The body of the pump's loop over the subscribers. *)
Definition retain_deliver (a : nat) (sub : Subscriber) (m : Mem) : Subscriber * Mem :=
  Deliver onPkt a sub (Retain a m).

(** The pump takes one packet and fans it out. *)
Definition pump (ids : list string) (s : liveStream) (m : Mem) : option (liveStream * Mem) :=
  if pumping s then
    match ingest s with
    | [] => None
    | a :: rest =>
        let '(subs', m) := visit (retain_deliver a) ids (subs s) m in
        Some (mkStream (key s) (publisherNode s) subs' rest (s_done s) true
                (u64 (packetsTotal s + 1)) (closed s) (accepted s),
              Release a m)
    end
  else None.

(** The pump sees [done] closed and returns. *)
Definition pump_exit (s : liveStream) : option liveStream :=
  if pumping s && s_done s
  then Some (mkStream (key s) (publisherNode s) (subs s) (ingest s) (s_done s) false
               (packetsTotal s) (closed s) (accepted s))
  else None.

(** [s.subs[sub.ID()] = sub]; the second component is the subscriber that was
    registered under that id, if any: the stream forgets it. *)
Definition AddSubscriber (sub : Subscriber) (s : liveStream)
  : liveStream * option Subscriber :=
  (set_subs (<[ID sub := sub]> (subs s)) s, subs s !! ID sub).

Definition RemoveSubscriber (id : string) (s : liveStream) (m : Mem)
  : liveStream * option Subscriber * Mem :=
  match subs s !! id with
  | None => (s, None, m)
  | Some sub =>
      let '(sub, m) := Close sub m in
      (set_subs (delete id (subs s)) s, Some sub, m)
  end.

(** [Close]; the subscribers it closed come second. *)
Definition Close_stream (ids : list string) (s : liveStream) (m : Mem)
  : liveStream * list Subscriber * Mem :=
  if closed s then (s, [], m)
  else
    let '(subs', m) := visit Close ids (subs s) m in
    (mkStream (key s) (publisherNode s) ∅ (ingest s) true (pumping s)
       (packetsTotal s) true (accepted s), (map_to_list subs').*2, m).

Definition Stats (s : liveStream) : nat * Z := (size (subs s), packetsTotal s).

(** ** The process: streams on the heap, the registry, the packets *)

(** [orphans]: subscribers no stream knows, whose goroutines may still run;
    [producing]: packets built and not ingested yet; [lost]: packets [Ingest]
    dropped, which nobody will release. *)
Record World := mkWorld {
  heap : gmap nat liveStream;
  streams : gmap string nat;
  next : nat;
  orphans : list Subscriber;
  producing : list nat;
  lost : list nat;
  mem : Mem;
}.

Definition new_world : World := mkWorld ∅ ∅ 0 [] [] [] empty_mem.

Definition Register (k node : string) (w : World) : result string (nat * World) :=
  match streams w !! k with
  | Some _ => Err "stream is already live"
  | None =>
      Ok (next w,
          mkWorld (<[next w := newLiveStream k node]> (heap w))
                  (<[k := next w]> (streams w)) (S (next w))
                  (orphans w) (producing w) (lost w) (mem w))
  end.

(** Store a stream back, with the subscribers it let go and the memory. *)
Definition put (sid : nat) (s : liveStream) (gone : list Subscriber) (m : Mem)
    (w : World) : World :=
  mkWorld (<[sid := s]> (heap w)) (streams w) (next w) (gone ++ orphans w)
          (producing w) (lost w) m.

Definition Unregister (ids : list string) (k : string) (w : World) : World :=
  match streams w !! k with
  | None => w
  | Some sid =>
      let w := mkWorld (heap w) (delete k (streams w)) (next w) (orphans w)
                       (producing w) (lost w) (mem w) in
      match heap w !! sid with
      | None => w
      | Some s => let '(s, gone, m) := Close_stream ids s (mem w) in put sid s gone m w
      end
  end.

Definition Get (k : string) (w : World) : option nat := streams w !! k.

Definition All (w : World) : list nat := (map_to_list (streams w)).*2.

Definition Subscribe (k : string) (sub : Subscriber) (w : World) : result string World :=
  match streams w !! k with
  | None => Err "stream not found"
  | Some sid =>
      match heap w !! sid with
      | None => Err "stream not found"
      | Some s => let '(s, old) := AddSubscriber sub s in
                  Ok (put sid s (option_list old) (mem w) w)
      end
  end.

(** ** Steps *)

(** A step of the consumer goroutine of a subscriber. *)
Inductive sub_step : Subscriber -> Mem -> Subscriber -> Mem -> Prop :=
  | sub_consume keep s m s' m' :
      queue_consume keep s m = Some (s', m') -> sub_step (Queue s) m (Queue s') m'
  | sub_leave failed s m s' :
      queue_leave failed s = Some s' -> sub_step (Queue s) m (Queue s') m
  | sub_drain s m s' m' :
      queue_drain s m = Some (s', m') -> sub_step (Queue s) m (Queue s') m'.

(** A newly constructed subscriber. *)
Definition new_subscriber (s : Subscriber) : Prop :=
  match s with
  | Queue q => q_ch q = [] /\ q_written q = [] /\ q_run q = Running /\ q_done q = false
  | Livestream l => gopCache l = []
  end.

Inductive step : World -> World -> Prop :=
  | step_produce pick size f a m' w :
      (* a reader or a builder allocates a packet and fills it *)
      (forall p, refs (f p) = refs p) ->
      NewAVPacket pick size (mem w) = (a, m') ->
      step w (mkWorld (heap w) (streams w) (next w) (orphans w) (a :: producing w)
                      (lost w) (update a f m'))
  | step_discard l1 a l2 w :
      (* a reader that failed half way releases its packet *)
      producing w = l1 ++ a :: l2 ->
      step w (mkWorld (heap w) (streams w) (next w) (orphans w) (l1 ++ l2) (lost w)
                      (Release a (mem w)))
  | step_register k node sid w w' :
      Register k node w = Ok (sid, w') -> step w w'
  | step_unregister ids k w :
      (forall sid s, streams w !! k = Some sid -> heap w !! sid = Some s ->
         range_order ids (subs s)) ->
      step w (Unregister ids k w)
  | step_ingest l1 a l2 sid s s' ok w :
      producing w = l1 ++ a :: l2 -> heap w !! sid = Some s ->
      Ingest a s (mem w) = (s', ok) ->
      step w (mkWorld (<[sid := s']> (heap w)) (streams w) (next w) (orphans w)
                      (l1 ++ l2) (if ok then lost w else a :: lost w) (mem w))
  | step_ingest_late l1 a l2 sid s s' w :
      (* the stream was closed between the check of [closed] and the send *)
      producing w = l1 ++ a :: l2 -> heap w !! sid = Some s ->
      ingest_send a s (mem w) = Some s' ->
      step w (mkWorld (<[sid := s']> (heap w)) (streams w) (next w) (orphans w)
                      (l1 ++ l2) (lost w) (mem w))
  | step_pump ids sid s s' m' w :
      heap w !! sid = Some s -> range_order ids (subs s) ->
      pump ids s (mem w) = Some (s', m') -> step w (put sid s' [] m' w)
  | step_pump_exit sid s s' w :
      heap w !! sid = Some s -> pump_exit s = Some s' ->
      step w (put sid s' [] (mem w) w)
  | step_subscribe k sub w w' :
      new_subscriber sub -> Subscribe k sub w = Ok w' -> step w w'
  | step_add sid sub s s' old w :
      (* [Subscribe] looked the stream up before it was unregistered *)
      new_subscriber sub -> heap w !! sid = Some s ->
      AddSubscriber sub s = (s', old) ->
      step w (put sid s' (option_list old) (mem w) w)
  | step_remove sid id s s' gone m' w :
      heap w !! sid = Some s -> RemoveSubscriber id s (mem w) = (s', gone, m') ->
      step w (put sid s' (option_list gone) m' w)
  | step_consumer sid id s sub sub' m' w :
      heap w !! sid = Some s -> subs s !! id = Some sub ->
      sub_step sub (mem w) sub' m' ->
      step w (put sid (set_subs (<[id := sub']> (subs s)) s) [] m' w)
  | step_orphan l1 sub sub' l2 m' w :
      orphans w = l1 ++ sub :: l2 -> sub_step sub (mem w) sub' m' ->
      step w (mkWorld (heap w) (streams w) (next w) (l1 ++ sub' :: l2) (producing w)
                      (lost w) m').
End WithViewers.

(** ** Specification side *)

Definition held_stream (s : liveStream) : gmultiset nat :=
  handles (ingest s) ⊎ held_map held (subs s).

Definition held_subs (l : list Subscriber) : gmultiset nat := ⋃+ (held <$> l).

(** The handles that exist in the process. *)
Definition held_world (w : World) : gmultiset nat :=
  held_map held_stream (heap w) ⊎ held_subs (orphans w) ⊎
  handles (producing w) ⊎ handles (lost w).

(** Counters are 32 bits wide: no step may need more than [2^31] handles. *)
Definition ample (w : World) : Prop :=
  room 4 (held_world w) /\
  forall sid s, heap w !! sid = Some s -> room (4 + size (subs s)) (held_world w).

Inductive reachable (onPkt : string -> content -> bool) : World -> Prop :=
  | reach_new : reachable onPkt new_world
  | reach_step w w' : reachable onPkt w -> ample w -> step onPkt w w' -> reachable onPkt w'.

(** ** Lemmas *)

#[global] Arguments held_map : simpl never.
#[global] Arguments held_stream : simpl never.

(** What one visited subscriber may do to the handles, next to a handle of the
    visitor's own. *)
Definition visit_ok (F : gmultiset nat) (k g : nat)
    (op : Subscriber -> Mem -> Subscriber * Mem) : Prop :=
  forall s m, let '(s', m') := op s m in
    exchanges k (F ⊎ held s) (F ⊎ held s') m m' /\
    (size (held s') <= g + size (held s))%nat /\
    (forall a, a ∈ held s' -> a ∈ F ⊎ held s) /\ ID s' = ID s.

Lemma exchanges_visit F k g op ids :
  visit_ok F k g op -> forall subs m,
  let '(subs', m') := visit op ids subs m in
  exchanges (k + g * length ids) (F ⊎ held_map held subs) (F ⊎ held_map held subs') m m' /\
  (forall a, a ∈ held_map held subs' -> a ∈ F ⊎ held_map held subs) /\
  (size (held_map held subs') <= size (held_map held subs) + g * length ids)%nat.
Proof.
  intros Hop. induction ids as [|id ids IH]; intros subs m; cbn [visit length].
  { split_and!; [apply exchanges_refl|multiset_solver|lia]. }
  destruct (subs !! id) as [s|] eqn:Es.
  2: { specialize (IH subs m). destruct (visit op ids subs m) as [subs' m'].
       destruct IH as (IH & ? & ?). split_and!; [|done|lia].
       eapply exchanges_weaken; [exact IH|lia]. }
  pose proof (Hop s m) as H. destruct (op s m) as [s' m1].
  destruct H as (E & Hg & Hin & _).
  specialize (IH (<[id := s']> subs) m1).
  destruct (visit op ids (<[id := s']> subs) m1) as [subs' m'].
  destruct IH as (E2 & Hin2 & Hsz). rewrite (held_map_replace held _ _ _ _ Es) in *.
  rewrite (held_map_delete held _ _ _ Es).
  set (rest := held_map held (delete id subs)) in *.
  rewrite !gmultiset_size_disj_union in *. split_and!.
  - eapply exchanges_trans with (H2 := F ⊎ (held s' ⊎ rest)).
    + eapply exchanges_weaken; [|apply Nat.le_add_r].
      rewrite !(assoc_L (⊎)). by apply exchanges_frame.
    + exact E2.
    + rewrite !gmultiset_size_disj_union. lia.
    + intros a. specialize (Hin2 a). clear -Hin2. multiset_solver.
  - intros a Ha. specialize (Hin2 a Ha). specialize (Hin a). clear -Hin2 Hin.
    multiset_solver.
  - lia.
Qed.

(** The support of the handles after a delivery. *)
Lemma held_Deliver onPkt a s m b :
  b ∈ held (fst (Deliver onPkt a s m)) -> b ∈ {[+ a +]} ⊎ held s.
Proof.
  destruct s as [s|s]; cbn [Deliver].
  - unfold queue_Deliver. destruct (_ <? _)%nat; cbn [fst held q_ch].
    + rewrite handles_app, handles_cons, handles_nil. multiset_solver.
    + multiset_solver.
  - unfold live_Deliver. pose proof (updateGOP_cache a (gopCache s) m) as Hc.
    destruct (updateGOP a (gopCache s) m) as [cache m']. cbn [fst held gopCache] in *.
    rewrite Hc. intros Hb%elem_of_list_to_set_disj. unfold gop_next in Hb.
    apply subseteq_drop in Hb. rewrite <- handles_cons. apply elem_of_list_to_set_disj.
    destruct (starts_gop _); set_solver.
Qed.

Lemma retain_deliver_ok onPkt a : visit_ok {[+ a +]} 3 1 (retain_deliver onPkt a).
Proof.
  intros s m. unfold retain_deliver.
  pose proof (exchanges_Deliver onPkt a s (Retain a m)) as HD.
  pose proof (held_Deliver onPkt a s (Retain a m)) as Hin.
  destruct (Deliver onPkt a s (Retain a m)) as [s' m']. destruct HD as (E & Hs & HID).
  cbn [fst] in Hin. split_and!; [|lia|done|done].
  eapply exchanges_trans with (H2 := ({[+ a +]} ⊎ {[+ a +]}) ⊎ held s).
  - apply exchanges_frame. eapply exchanges_weaken; [apply exchanges_Retain|lia].
  - rewrite <- (assoc_L (⊎)), !(comm_L (⊎) {[+ a +]}). apply exchanges_frame.
    rewrite (comm_L (⊎)). exact E.
  - rewrite !gmultiset_size_disj_union, !gmultiset_size_singleton. lia.
  - intros b Hb. specialize (Hin b). multiset_solver.
Qed.

Lemma close_ok : visit_ok ∅ 1 0 Close.
Proof.
  intros s m. pose proof (exchanges_Close s m) as HC.
  destruct s as [s|s]; cbn [Close] in *.
  - destruct HC. rewrite !(left_id_L ∅ (⊎)). split_and!; [done|simpl; lia|done|done].
  - unfold live_Close in *. destruct HC. rewrite !(left_id_L ∅ (⊎)).
    cbn [held gopCache] in *. split_and!; [done| |multiset_solver|done].
    rewrite handles_nil, gmultiset_size_empty. lia.
Qed.

(** A memory effect of one stream, in a process that holds [R] besides. *)
Lemma length_range_order {A} ids (f : gmap string A) :
  range_order ids f -> length ids = size f.
Proof.
  intros H. by rewrite H, length_fmap, length_map_to_list.
Qed.

Lemma held_subs_map (f : gmap string Subscriber) :
  held_subs (map_to_list f).*2 = held_map held f.
Proof. done. Qed.

Lemma exchanges_pump onPkt ids s m s' m' :
  range_order ids (subs s) -> pump onPkt ids s m = Some (s', m') ->
  exchanges (4 + size (subs s)) (held_stream s) (held_stream s') m m'.
Proof.
  intros Hids. unfold pump. destruct (pumping s), (ingest s) as [|a rest] eqn:Ei; try done.
  pose proof (exchanges_visit _ _ _ _ ids (retain_deliver_ok onPkt a) (subs s) m) as HV.
  destruct (visit _ ids (subs s) m) as [subs' m1]. destruct HV as (E & Hin & Hsz).
  intros [= <- <-]. unfold held_stream. cbn [ingest subs]. rewrite Ei, handles_cons.
  rewrite (length_range_order _ _ Hids) in *.
  eapply exchanges_trans with (H2 := {[+ a +]} ⊎ held_map held subs' ⊎ handles rest).
  - rewrite <- (assoc_L (⊎)), (comm_L (⊎) (handles rest)), (assoc_L (⊎)).
    apply exchanges_frame. eapply exchanges_weaken; [exact E|lia].
  - rewrite (comm_L (⊎) (handles rest)). apply exchanges_frame.
    rewrite <- (left_id_L ∅ (⊎) (held_map held subs')) at 2.
    apply exchanges_frame, exchanges_Release.
  - rewrite !gmultiset_size_disj_union, !gmultiset_size_singleton. lia.
  - intros b. specialize (Hin b). multiset_solver.
Qed.

Lemma exchanges_Close_stream ids s m :
  let '(s', gone, m') := Close_stream ids s m in
  exchanges 4 (held_stream s) (held_stream s' ⊎ held_subs gone) m m'.
Proof.
  unfold Close_stream. destruct (closed s).
  { unfold held_subs. simpl. rewrite (right_id_L ∅ (⊎)). apply exchanges_refl. }
  pose proof (exchanges_visit _ _ _ _ ids close_ok (subs s) m) as HV.
  destruct (visit Close ids (subs s) m) as [subs' m']. destruct HV as (E & Hin & Hsz).
  rewrite held_subs_map. unfold held_stream. cbn [ingest subs].
  rewrite held_map_empty, (right_id_L ∅ (⊎)). rewrite !(left_id_L ∅ (⊎)) in E.
  rewrite !(comm_L (⊎) (handles (ingest s))). apply exchanges_frame.
  eapply exchanges_weaken; [exact E|lia].
Qed.

(** What the other components hold. *)
Definition held_rest (sid : nat) (w : World) : gmultiset nat :=
  held_map held_stream (delete sid (heap w)) ⊎ held_subs (orphans w) ⊎
  handles (producing w) ⊎ handles (lost w).

Lemma held_world_at w sid s :
  heap w !! sid = Some s -> held_world w = held_stream s ⊎ held_rest sid w.
Proof.
  intros Hs. unfold held_world, held_rest. rewrite (held_map_delete _ _ _ _ Hs).
  by rewrite !(assoc_L (⊎)).
Qed.

Lemma held_subs_app l1 l2 : held_subs (l1 ++ l2) = held_subs l1 ⊎ held_subs l2.
Proof. unfold held_subs. rewrite fmap_app. apply gmultiset_disj_union_list_app. Qed.

Lemma held_subs_cons s l : held_subs (s :: l) = held s ⊎ held_subs l.
Proof. apply gmultiset_disj_union_list_cons. Qed.

Lemma held_subs_one s : held_subs [s] = held s.
Proof. unfold held_subs. simpl. apply (right_id_L ∅ (⊎)). Qed.

Lemma held_world_put w sid s s' gone m' :
  heap w !! sid = Some s ->
  held_world (put sid s' gone m' w) = held_stream s' ⊎ held_subs gone ⊎ held_rest sid w.
Proof.
  intros Hs. unfold put, held_world, held_rest. cbn [heap orphans producing lost].
  rewrite (held_map_replace _ _ _ _ _ Hs), held_subs_app. multiset_solver.
Qed.

Lemma held_subs_option o :
  held_subs (option_list o) = match o with Some s => held s | None => ∅ end.
Proof. destruct o; [apply held_subs_one|done]. Qed.

(** A step's effect: the handles stay exact and the packets still held keep
    their contents. *)
Definition step_ok (w w' : World) : Prop :=
  owned (held_world w') (mem w') /\
  forall a, a ∈ held_world w -> a ∈ held_world w' ->
    content_of (deref a (mem w')) = content_of (deref a (mem w)).

Lemma world_exchange n H H' R w w' :
  held_world w = H ⊎ R -> held_world w' = H' ⊎ R ->
  exchanges n H H' (mem w) (mem w') -> room n (held_world w) ->
  owned (held_world w) (mem w) -> step_ok w w'.
Proof.
  intros E1 E2 HE Hr Ho. rewrite E1 in Hr, Ho. destruct (HE R Hr Ho) as [Ho' Hc].
  split; [by rewrite E2|]. intros a _ Ha. rewrite E2 in Ha. by apply Hc.
Qed.

(** A step that leaves the memory alone and moves handles around. *)
Lemma world_move w w' :
  held_world w' = held_world w -> mem w' = mem w ->
  owned (held_world w) (mem w) -> step_ok w w'.
Proof. intros E1 E2 Ho. split; [by rewrite E1, E2|by rewrite E2]. Qed.

Lemma exchanges_sub_step sub m sub' m' :
  sub_step sub m sub' m' -> exchanges 1 (held sub) (held sub') m m' /\ ID sub' = ID sub.
Proof.
  intros []; cbn [held ID].
  - split; [by eapply exchanges_consume|].
    unfold queue_consume in *. repeat case_match; by simplify_eq/=.
  - unfold queue_leave in *. repeat case_match; simplify_eq/=.
    split; [apply exchanges_refl|done].
  - split; [by eapply exchanges_drain|].
    unfold queue_drain in *. repeat case_match; by simplify_eq/=.
Qed.

Lemma held_new_subscriber sub : new_subscriber sub -> held sub = ∅.
Proof. destruct sub as [q|l]; simpl; [by intros [-> _]|by intros ->]. Qed.

(** [exchanges] next to handles that are not involved, up to reordering. *)
Lemma exchanges_in n H H' F A B m m' :
  exchanges n H H' m m' -> A = H ⊎ F -> B = H' ⊎ F -> exchanges n A B m m'.
Proof. intros E -> ->. by apply exchanges_frame. Qed.

Lemma held_stream_AddSubscriber sub s :
  new_subscriber sub ->
  let '(s', old) := AddSubscriber sub s in
  held_stream s = held_stream s' ⊎ held_subs (option_list old).
Proof.
  intros Hn%held_new_subscriber. unfold AddSubscriber, held_stream, set_subs.
  cbn [ingest subs]. rewrite held_subs_option. destruct (subs s !! ID sub) as [old|] eqn:E.
  - rewrite (held_map_replace _ _ _ _ _ E), (held_map_delete held _ _ _ E), Hn.
    multiset_solver.
  - rewrite held_map_insert, Hn by done. multiset_solver.
Qed.

Lemma exchanges_RemoveSubscriber id s m s' gone m' :
  RemoveSubscriber id s m = (s', gone, m') ->
  exchanges 1 (held_stream s) (held_stream s' ⊎ held_subs (option_list gone)) m m'.
Proof.
  unfold RemoveSubscriber. destruct (subs s !! id) as [sub|] eqn:E.
  - pose proof (exchanges_Close sub m) as HC. destruct (Close sub m) as [sub' m1].
    destruct HC as [HC _]. intros [= <- <- <-]. unfold held_stream, set_subs.
    cbn [ingest subs]. rewrite held_subs_option, (held_map_delete held _ _ _ E).
    eapply exchanges_in with (F := handles (ingest s) ⊎ held_map held (delete id (subs s)));
      [exact HC|multiset_solver|multiset_solver].
  - intros [= <- <- <-]. rewrite held_subs_option, (right_id_L ∅ (⊎)).
    apply exchanges_refl.
Qed.

(** ** The ownership invariant *)

(** A stream is stored back after an effect on its own handles. *)
Lemma put_exchange n sid s s' gone m' w :
  heap w !! sid = Some s ->
  exchanges n (held_stream s) (held_stream s' ⊎ held_subs gone) (mem w) m' ->
  room n (held_world w) -> owned (held_world w) (mem w) -> step_ok w (put sid s' gone m' w).
Proof.
  intros Hs HE Hr Ho. eapply (world_exchange _ _ _ (held_rest sid w));
    [by apply held_world_at|by eapply held_world_put|exact HE|exact Hr|exact Ho].
Qed.

Lemma put_move sid s s' gone w :
  heap w !! sid = Some s -> held_stream s = held_stream s' ⊎ held_subs gone ->
  owned (held_world w) (mem w) -> step_ok w (put sid s' gone (mem w) w).
Proof.
  intros Hs HE Ho. apply world_move; [|done..].
  by rewrite (held_world_put _ _ _ _ _ _ Hs), (held_world_at _ _ _ Hs), HE.
Qed.

Lemma held_subs_nil : held_subs [] = ∅.
Proof. done. Qed.

Lemma pump_exit_held s s' : pump_exit s = Some s' -> held_stream s = held_stream s' ⊎ held_subs [].
Proof.
  unfold pump_exit. case_match; [|done]. intros [= <-].
  by rewrite held_subs_nil, (right_id_L ∅ (⊎)).
Qed.

Lemma ingest_send_held a s m s' :
  ingest_send a s m = Some s' -> held_stream s' = {[+ a +]} ⊎ held_stream s.
Proof.
  unfold ingest_send. case_match; [|done]. intros [= <-]. unfold held_stream.
  cbn [ingest subs]. rewrite handles_app, handles_cons, handles_nil. multiset_solver.
Qed.

(** A producer's packet goes to a stream's queue ([ok]) or is lost. *)
Lemma ingest_move l1 a l2 sid s s' (ok : bool) w :
  producing w = l1 ++ a :: l2 -> heap w !! sid = Some s ->
  held_stream s' = (if ok then {[+ a +]} ⊎ held_stream s else held_stream s) ->
  owned (held_world w) (mem w) ->
  step_ok w (mkWorld (<[sid := s']> (heap w)) (streams w) (next w) (orphans w)
                     (l1 ++ l2) (if ok then lost w else a :: lost w) (mem w)).
Proof.
  intros Ep Es Hs' Ho. apply world_move; [|done..].
  unfold held_world. cbn [heap orphans producing lost].
  rewrite Ep, (held_map_replace _ _ _ _ _ Es), (held_map_delete held_stream _ _ _ Es), Hs'.
  rewrite !handles_app, !handles_cons. destruct ok; rewrite ?handles_cons; multiset_solver.
Qed.

Lemma Ingest_held a s m s' ok :
  Ingest a s m = (s', ok) ->
  held_stream s' = (if ok then {[+ a +]} ⊎ held_stream s else held_stream s).
Proof.
  unfold Ingest. destruct (closed s); [by intros [= <- <-]|].
  destruct (ingest_send a s m) eqn:E; intros [= <- <-]; [by eapply ingest_send_held|done].
Qed.

(** Addresses of streams not allocated yet. *)
Definition heap_fresh (w : World) : Prop :=
  forall sid, (next w <= sid)%nat -> heap w !! sid = None.

Lemma Register_ok k node sid w w' :
  heap_fresh w -> Register k node w = Ok (sid, w') ->
  owned (held_world w) (mem w) -> step_ok w w'.
Proof.
  intros Hfr. unfold Register. case_match; [done|]. intros [= <- <-] Ho.
  apply world_move; [|done..]. unfold held_world. cbn [heap orphans producing lost].
  rewrite held_map_insert by (by apply Hfr). unfold held_stream at 1.
  cbn [ingest subs newLiveStream]. rewrite held_map_empty, handles_nil. multiset_solver.
Qed.

Lemma Unregister_ok ids k w :
  room 4 (held_world w) -> owned (held_world w) (mem w) -> step_ok w (Unregister ids k w).
Proof.
  intros Hr Ho. unfold Unregister. destruct (streams w !! k) as [sid|]; [|by apply world_move].
  cbn [heap mem]. set (w1 := mkWorld _ _ _ _ _ _ _).
  assert (step_ok w w1) as [Ho1 _] by (by apply world_move).
  destruct (heap w !! sid) as [s|] eqn:Es; [|done].
  pose proof (exchanges_Close_stream ids s (mem w)) as HE.
  destruct (Close_stream ids s (mem w)) as [[s' gone] m'].
  change (step_ok w1 (put sid s' gone m' w1)). eapply put_exchange; [done|exact HE|done|done].
Qed.

Lemma Subscribe_ok k sub w w' :
  new_subscriber sub -> Subscribe k sub w = Ok w' ->
  owned (held_world w) (mem w) -> step_ok w w'.
Proof.
  intros Hn. unfold Subscribe. destruct (streams w !! k) as [sid|]; [|done].
  destruct (heap w !! sid) as [s|] eqn:Es; [|done].
  pose proof (held_stream_AddSubscriber sub s Hn) as HA.
  destruct (AddSubscriber sub s) as [s' old]. intros [= <-] Ho. by eapply put_move.
Qed.

Lemma consumer_held id s sub sub' m m' :
  subs s !! id = Some sub -> exchanges 1 (held sub) (held sub') m m' ->
  exchanges 1 (held_stream s)
    (held_stream (set_subs (<[id := sub']> (subs s)) s) ⊎ held_subs []) m m'.
Proof.
  intros Es HE. unfold held_stream, set_subs. cbn [ingest subs].
  rewrite held_subs_nil, (held_map_replace _ _ _ _ _ Es), (held_map_delete held _ _ _ Es).
  eapply exchanges_in with (F := handles (ingest s) ⊎ held_map held (delete id (subs s)));
    [exact HE|multiset_solver|multiset_solver].
Qed.

Lemma step_owned onPkt w w' :
  step onPkt w w' -> heap_fresh w -> ample w -> owned (held_world w) (mem w) -> step_ok w w'.
Proof.
  intros Hstep Hfr [Hr4 Hrs] Ho.
  assert (room 1 (held_world w)) as Hr1 by (eapply room_le; [exact Hr4|lia]).
  destruct Hstep as
    [pick size f a m' w Hf E|l1 a l2 w Ep|k node sid w w' E|ids k w Hids
    |l1 a l2 sid s s' ok w Ep Es E|l1 a l2 sid s s' w Ep Es E|ids sid s s' m' w Es Hids E
    |sid s s' w Es E|k sub w w' Hn E|sid sub s s' old w Hn Es E|sid id s s' gone m' w Es E
    |sid id s sub sub' m' w Es Esub E|l1 sub sub' l2 m' w Eo E].
  - destruct (owned_New _ _ _ _ _ _ Ho E) as (Ha & Ho' & Hc).
    set (w' := mkWorld _ _ _ _ _ _ _).
    assert (held_world w' = {[+ a +]} ⊎ held_world w) as E'.
    { unfold held_world, w'. cbn [heap orphans producing lost]. rewrite handles_cons.
      multiset_solver. }
    split; [rewrite E'; by apply owned_update|]. intros b Hb _. cbn [mem w'].
    rewrite deref_update_ne by congruence. by apply Hc.
  - eapply (world_exchange 1 {[+ a +]} ∅ (held_map held_stream (heap w) ⊎
      held_subs (orphans w) ⊎ handles (l1 ++ l2) ⊎ handles (lost w)));
      [| |apply exchanges_Release|done|done].
    + unfold held_world. rewrite Ep, !handles_app, handles_cons. multiset_solver.
    + unfold held_world. cbn [heap orphans producing lost]. multiset_solver.
  - by eapply Register_ok.
  - by apply Unregister_ok.
  - eapply ingest_move; [done..|by eapply Ingest_held|done].
  - apply (ingest_move l1 a l2 sid s s' true); [done..|by eapply ingest_send_held|done].
  - eapply put_exchange; [done| |by eapply Hrs|done].
    rewrite held_subs_nil, (right_id_L ∅ (⊎)). by eapply exchanges_pump.
  - eapply put_move; [done|by apply pump_exit_held|done].
  - by eapply Subscribe_ok.
  - pose proof (held_stream_AddSubscriber sub s Hn) as HA. rewrite E in HA. by eapply put_move.
  - eapply put_exchange; [done|by eapply exchanges_RemoveSubscriber|done|done].
  - apply exchanges_sub_step in E as [E _]. eapply put_exchange; [done| |done|done].
    by eapply consumer_held.
  - apply exchanges_sub_step in E as [E _].
    eapply (world_exchange 1 (held sub) (held sub') (held_map held_stream (heap w) ⊎
      held_subs (l1 ++ l2) ⊎ handles (producing w) ⊎ handles (lost w)));
      [| |exact E|done|done]; unfold held_world; cbn [heap orphans producing lost];
      rewrite ?Eo, !held_subs_app, ?held_subs_cons; multiset_solver.
Qed.

(** ** Contents *)

(** Counting references never changes what a packet shows. *)
Definition content_eq (m m' : Mem) : Prop :=
  forall b, content_of (deref b m') = content_of (deref b m).

Lemma content_eq_refl m : content_eq m m.
Proof. done. Qed.

Lemma content_eq_trans m1 m2 m3 : content_eq m1 m2 -> content_eq m2 m3 -> content_eq m1 m3.
Proof. intros H1 H2 b. by rewrite H2. Qed.

Lemma content_add_refs a d m : content_eq m (update a (add_refs d) m).
Proof.
  intros b. destruct (decide (b = a)) as [->|]; [|by rewrite deref_update_ne].
  destruct (cells m !! a) as [p|] eqn:E.
  - by rewrite deref_update_eq by eauto.
  - unfold deref, update. cbn [cells]. by rewrite lookup_alter_eq, E.
Qed.

Lemma content_Release a m : content_eq m (Release a m).
Proof. unfold Release. case_match; apply content_add_refs. Qed.

Lemma content_release_all l : forall m, content_eq m (release_all l m).
Proof.
  induction l as [|a l IH]; intros m; [done|].
  eapply content_eq_trans; [apply content_Release|apply IH].
Qed.

Lemma content_updateGOP a cache m : content_eq m (snd (updateGOP a cache m)).
Proof.
  unfold updateGOP, Retain. intros b.
  destruct (Type_ (deref a m) =? PacketVideo); [destruct (IsKeyframe (deref a m))|];
    cbn zeta; (destruct (0 <? _)%nat; cbn [snd];
      [rewrite content_release_all|]; rewrite content_add_refs;
      rewrite ?content_release_all; done).
Qed.

Lemma content_Deliver onPkt a s m : content_eq m (snd (Deliver onPkt a s m)).
Proof.
  destruct s as [s|s]; cbn [Deliver].
  - unfold queue_Deliver. destruct (_ <? _)%nat; [done|apply content_Release].
  - unfold live_Deliver. pose proof (content_updateGOP a (gopCache s) m) as H.
    destruct (updateGOP a (gopCache s) m) as [cache m']. cbn [snd] in *.
    eapply content_eq_trans; [exact H|apply content_Release].
Qed.

Lemma content_Close s m : content_eq m (snd (Close s m)).
Proof. destruct s as [s|s]; cbn; [done|apply content_release_all]. Qed.

Lemma content_visit op ids :
  (forall s m, content_eq m (snd (op s m))) ->
  forall subs m, content_eq m (snd (visit op ids subs m)).
Proof.
  intros Hop. induction ids as [|id ids IH]; intros subs m; cbn [visit]; [done|].
  destruct (subs !! id) as [s|]; [|apply IH].
  pose proof (Hop s m) as H. destruct (op s m) as [s' m1]. cbn [snd] in H.
  eapply content_eq_trans; [exact H|apply IH].
Qed.

Lemma content_retain_deliver onPkt a s m : content_eq m (snd (retain_deliver onPkt a s m)).
Proof.
  unfold retain_deliver. eapply content_eq_trans; [apply content_add_refs|apply content_Deliver].
Qed.

Lemma content_pump onPkt ids s m s' m' :
  pump onPkt ids s m = Some (s', m') -> content_eq m m'.
Proof.
  unfold pump. destruct (pumping s), (ingest s) as [|a rest]; try done.
  pose proof (content_visit _ ids (content_retain_deliver onPkt a) (subs s) m) as H.
  destruct (visit _ ids (subs s) m) as [subs' m1]. intros [= <- <-].
  eapply content_eq_trans; [exact H|apply content_Release].
Qed.

Lemma content_Close_stream ids s m : content_eq m (snd (Close_stream ids s m)).
Proof.
  unfold Close_stream. destruct (closed s); [done|].
  pose proof (content_visit _ ids content_Close (subs s) m) as H.
  by destruct (visit _ ids (subs s) m).
Qed.

Lemma content_sub_step sub m sub' m' : sub_step sub m sub' m' -> content_eq m m'.
Proof.
  intros []; [| |]; try done; unfold queue_consume, queue_drain in *;
    repeat case_match; simplify_eq/=; try done; apply content_Release.
Qed.

(** What one visit makes of each subscriber, whatever the order. *)
Lemma visit_lookup_out op ids id : forall subs m,
  id ∉ ids \/ subs !! id = None -> fst (visit op ids subs m) !! id = subs !! id.
Proof.
  induction ids as [|i ids IH]; intros subs m Hid; cbn [visit]; [done|].
  destruct (subs !! i) as [si|] eqn:Ei.
  - destruct (op si m) as [si' m1].
    assert (id <> i) as Hne by (intros ->; destruct Hid; set_solver).
    rewrite IH; rewrite lookup_insert_ne by done; [done|]. set_solver.
  - apply IH. set_solver.
Qed.

Lemma visit_lookup_in op ids id s :
  (forall s m, content_eq m (snd (op s m))) ->
  NoDup ids -> forall subs m, id ∈ ids -> subs !! id = Some s ->
  exists m1, content_eq m m1 /\ fst (visit op ids subs m) !! id = Some (fst (op s m1)).
Proof.
  intros Hop. induction ids as [|i ids IH]; intros Hnd subs m Hin Es; cbn [visit]; [set_solver|].
  apply NoDup_cons in Hnd as [Hi Hnd]. destruct (decide (id = i)) as [->|Hne].
  - rewrite Es. exists m. split; [done|]. destruct (op s m) as [s' m1].
    rewrite visit_lookup_out by auto. by rewrite lookup_insert_eq.
  - destruct (subs !! i) as [si|] eqn:Ei; [|apply IH; set_solver].
    pose proof (Hop si m) as Hm. destruct (op si m) as [si' m1].
    destruct (IH Hnd (<[i := si']> subs) m1) as (m2 & Hm2 & E2);
      [set_solver|by rewrite lookup_insert_ne|].
    exists m2. split; [by eapply content_eq_trans|done].
Qed.

Lemma range_order_NoDup {A} ids (f : gmap string A) : range_order ids f -> NoDup ids.
Proof. intros H. rewrite H. apply NoDup_fst_map_to_list. Qed.

Lemma range_order_elem {A} ids (f : gmap string A) id :
  range_order ids f -> (id ∈ ids <-> is_Some (f !! id)).
Proof.
  intros H. rewrite H. rewrite list_elem_of_fmap. split.
  - intros ([k x] & -> & Hx%elem_of_map_to_list). eauto.
  - intros [x Hx%elem_of_map_to_list]. by exists (id, x).
Qed.

(** What the delivery of a packet makes of a subscriber, without the memory. *)
Definition fan_one (onPkt : string -> content -> bool) (a : nat) (c : content)
    (s : Subscriber) : Subscriber :=
  match s with
  | Queue q =>
      let fits := (length (q_ch q) <? q_cap q)%nat in
      Queue (mkQueueSub (q_id q) (q_type q) (q_cap q)
               (if fits then q_ch q ++ [a] else q_ch q)
               (if fits then q_dropped q else u64 (q_dropped q + 1))
               (q_done q) (q_run q) (q_written q))
  | Livestream l =>
      Livestream (mkLivestream (l_id l) (gop_next a c (gopCache l))
                    (if onPkt (l_id l) c then u64 (l_dropped l + 1) else l_dropped l))
  end.

Lemma Deliver_fan_one onPkt a s m :
  fst (Deliver onPkt a s m) = fan_one onPkt a (content_of (deref a m)) s.
Proof.
  destruct s as [q|l]; cbn [Deliver fan_one].
  - unfold queue_Deliver. by destruct (_ <? _)%nat.
  - unfold live_Deliver. pose proof (content_updateGOP a (gopCache l) m) as Hm.
    pose proof (updateGOP_cache a (gopCache l) m) as Hc.
    destruct (updateGOP a (gopCache l) m) as [cache m']. cbn [fst snd] in *.
    by rewrite Hc, Hm.
Qed.

Lemma visit_fan_out onPkt a ids (f : gmap string Subscriber) m id :
  range_order ids f ->
  fst (visit (retain_deliver onPkt a) ids f m) !! id
  = fan_one onPkt a (content_of (deref a m)) <$> f !! id.
Proof.
  intros Hids. destruct (f !! id) as [s|] eqn:Es.
  - destruct (visit_lookup_in (retain_deliver onPkt a) ids id s
                (content_retain_deliver onPkt a) (range_order_NoDup _ _ Hids) f m)
      as (m1 & Hm1 & ->); [by apply (range_order_elem _ _ _ Hids); eauto|done|].
    simpl. unfold retain_deliver. rewrite Deliver_fan_one.
    by rewrite (content_add_refs a 1 m1), Hm1.
  - rewrite visit_lookup_out; [done|auto].
Qed.

Lemma pump_spec onPkt ids s m s' m' :
  range_order ids (subs s) -> pump onPkt ids s m = Some (s', m') ->
  exists a rest, ingest s = a :: rest /\
    s' = mkStream (key s) (publisherNode s) (subs s') rest (s_done s) true
           (u64 (packetsTotal s + 1)) (closed s) (accepted s) /\
    forall id, subs s' !! id = fan_one onPkt a (content_of (deref a m)) <$> subs s !! id.
Proof.
  intros Hids. unfold pump. destruct (pumping s), (ingest s) as [|a rest]; try done.
  pose proof (fun id => visit_fan_out onPkt a ids (subs s) m id Hids) as HV.
  destruct (visit _ ids (subs s) m) as [subs' m1]. intros [= <- <-].
  by exists a, rest.
Qed.

Definition contents (m : Mem) (l : list nat) : list content :=
  (fun a => content_of (deref a m)) <$> l.

(** What a queue subscriber wrote and holds, then what the pump has not fanned
    out yet, is a subsequence of what the stream accepted. *)
Definition sub_log (s : liveStream) (m : Mem) (sub : Subscriber) : Prop :=
  match sub with
  | Queue q => sublist (q_written q ++ contents m (q_ch q) ++ contents m (ingest s))
                       (accepted s)
  | Livestream _ => True
  end.

Definition stream_log (s : liveStream) (m : Mem) : Prop :=
  sublist (contents m (ingest s)) (accepted s) /\
  map_Forall (fun _ sub => sub_log s m sub) (subs s).

Lemma contents_app m l1 l2 : contents m (l1 ++ l2) = contents m l1 ++ contents m l2.
Proof. apply fmap_app. Qed.

Lemma contents_ext m m' l :
  (forall a, a ∈ l -> content_of (deref a m') = content_of (deref a m)) ->
  contents m' l = contents m l.
Proof. intros H. apply list_fmap_ext. intros i a Ha%list_elem_of_lookup_2. by apply H. Qed.

(** The log only depends on the contents of the packets held. *)
Lemma stream_log_ext s m m' :
  stream_log s m ->
  (forall a, a ∈ held_stream s -> content_of (deref a m') = content_of (deref a m)) ->
  stream_log s m'.
Proof.
  intros [H1 H2] Hc.
  assert (forall a, a ∈ ingest s -> content_of (deref a m') = content_of (deref a m)) as Hi.
  { intros a Ha. apply Hc. unfold held_stream. apply gmultiset_elem_of_disj_union. left.
    by apply elem_of_list_to_set_disj. }
  split; [by rewrite (contents_ext _ _ _ Hi)|].
  intros id sub Hs. specialize (H2 id sub Hs). destruct sub as [q|]; [|done].
  cbn in *. rewrite (contents_ext _ _ _ Hi), (contents_ext m m' (q_ch q)); [done|].
  intros a Ha. apply Hc. unfold held_stream. rewrite (held_map_delete held _ _ _ Hs).
  cbn [held]. apply elem_of_list_to_set_disj in Ha. unfold handles. multiset_solver.
Qed.

Lemma sublist_drop_mid {A} (l1 l2 : list A) x l :
  sublist (l1 ++ x :: l2) l -> sublist (l1 ++ l2) l.
Proof. intros H. etrans; [|exact H]. apply sublist_app; [done|by constructor]. Qed.

Lemma stream_log_pump onPkt ids s m s' m' :
  range_order ids (subs s) -> pump onPkt ids s m = Some (s', m') ->
  stream_log s m -> stream_log s' m.
Proof.
  intros Hids Hp [H1 H2]. destruct (pump_spec _ _ _ _ _ _ Hids Hp) as (a & rest & Ei & Es' & HS).
  rewrite Es'. unfold stream_log. cbn [ingest accepted subs]. rewrite Ei in H1.
  split; [by apply (sublist_drop_mid [])in H1|].
  intros id sub Hsub. rewrite HS in Hsub. apply fmap_Some in Hsub as (sub0 & E0 & ->).
  specialize (H2 id sub0 E0). destruct sub0 as [q|]; [|done].
  cbn [fan_one sub_log q_written q_ch ingest accepted] in *. rewrite Ei in H2.
  destruct (length (q_ch q) <? q_cap q)%nat.
  - rewrite contents_app, <- (assoc_L (++)). exact H2.
  - rewrite (assoc_L (++)) in *. by apply sublist_drop_mid in H2.
Qed.

Lemma stream_log_consumer id s m sub sub' m' :
  subs s !! id = Some sub -> sub_step sub m sub' m' ->
  stream_log s m -> stream_log (set_subs (<[id := sub']> (subs s)) s) m.
Proof.
  intros Es Hstep [H1 H2]. split; [done|]. cbn [subs set_subs].
  intros i x. destruct (decide (i = id)) as [->|Hne].
  - rewrite lookup_insert_eq. intros [= <-]. specialize (H2 id sub Es).
    destruct Hstep as [keep q m q' m' E|failed q m q' E|q m q' m' E]; cbn in *.
    + unfold queue_consume in E. destruct (q_run q), (q_ch q) as [|a ch]; try done.
      simplify_eq/=. by rewrite <- (assoc_L (++)).
    + unfold queue_leave in E. repeat case_match; by simplify_eq/=.
    + unfold queue_drain in E. destruct (q_run q), (q_ch q) as [|a ch]; try done;
        simplify_eq/=; [done|]. by apply sublist_drop_mid in H2.
  - rewrite lookup_insert_ne by done. apply H2.
Qed.

Lemma stream_log_AddSubscriber sub s m :
  new_subscriber sub -> stream_log s m -> stream_log (fst (AddSubscriber sub s)) m.
Proof.
  intros Hn [H1 H2]. split; [done|]. intros id x. cbn [AddSubscriber fst subs set_subs].
  destruct (decide (id = ID sub)) as [->|Hne].
  - rewrite lookup_insert_eq. intros [= <-]. destruct sub as [q|]; [|done]. cbn in *.
    destruct Hn as (-> & -> & _). done.
  - rewrite lookup_insert_ne by done. apply H2.
Qed.

Lemma stream_log_RemoveSubscriber id s m s' gone m' :
  RemoveSubscriber id s m = (s', gone, m') -> stream_log s m -> stream_log s' m.
Proof.
  unfold RemoveSubscriber. destruct (subs s !! id); [|by intros [= <- <- <-]].
  destruct (Close _ m). intros [= <- <- <-] [H1 H2]. split; [done|].
  by apply map_Forall_delete.
Qed.

Lemma stream_log_ingest_send a s m s' :
  ingest_send a s m = Some s' -> stream_log s m -> stream_log s' m.
Proof.
  unfold ingest_send. case_match; [|done]. intros [= <-] [H1 H2].
  split; cbn [ingest accepted subs].
  - rewrite contents_app. by apply sublist_app.
  - intros id sub Hs. specialize (H2 id sub Hs). destruct sub as [q|]; [|done].
    cbn [sub_log ingest accepted] in *. rewrite contents_app, !(assoc_L (++)). apply sublist_app; [|done].
    by rewrite <- (assoc_L (++)).
Qed.

Lemma stream_log_Ingest a s m s' ok :
  Ingest a s m = (s', ok) -> stream_log s m -> stream_log s' m.
Proof.
  unfold Ingest. destruct (closed s); [by intros [= <- <-]|].
  destruct (ingest_send a s m) eqn:E; intros [= <- <-]; [by eapply stream_log_ingest_send|done].
Qed.

Lemma stream_log_Close_stream ids s m :
  stream_log s m -> stream_log (fst (fst (Close_stream ids s m))) m.
Proof.
  intros [H1 H2]. unfold Close_stream. destruct (closed s); [done|].
  destruct (visit _ _ _ _). split; [done|]. apply map_Forall_empty.
Qed.

(** ** The registry and log invariants *)

Record world_inv (w : World) : Prop := {
  wi_owned : owned (held_world w) (mem w);
  wi_fresh : heap_fresh w;
  wi_reg : forall k sid, streams w !! k = Some sid ->
    exists s, heap w !! sid = Some s /\ key s = k /\ closed s = false;
  wi_open : forall sid s, heap w !! sid = Some s -> closed s = false ->
    streams w !! key s = Some sid;
  wi_done : forall sid s, heap w !! sid = Some s ->
    closed s = s_done s /\ (pumping s = false -> s_done s = true);
  wi_log : forall sid s, heap w !! sid = Some s -> stream_log s (mem w);
}.

(** Operations that leave the registration of a stream alone. *)
Definition same_registration (s s' : liveStream) : Prop :=
  key s' = key s /\ closed s' = closed s /\ s_done s' = s_done s /\
  (pumping s' = false -> pumping s = false \/ s_done s = true).

(** Only the stream [sid] changes, and its registration does not. *)
Lemma world_inv_put w w' sid s s' :
  world_inv w -> heap w !! sid = Some s -> same_registration s s' ->
  heap w' = <[sid := s']> (heap w) -> streams w' = streams w -> next w' = next w ->
  step_ok w w' -> content_eq (mem w) (mem w') ->
  (stream_log s (mem w) -> stream_log s' (mem w)) -> world_inv w'.
Proof.
  intros [Ho Hf Hr Hop Hd Hl] Hs (Hk & Hc & Hsd & Hp) Eh Est En [Ho' _] Hct Hlog.
  split; [done|..].
  - intros i Hi. rewrite Eh. rewrite En in Hi. rewrite lookup_insert_ne; [by apply Hf|].
    intros ->. rewrite (Hf i Hi) in Hs. done.
  - intros k i. rewrite Est, Eh. intros (x & Hx & Hkx & Hcx)%Hr.
    destruct (decide (i = sid)) as [->|].
    + rewrite lookup_insert_eq. simplify_eq. exists s'. by rewrite Hk, Hc.
    + rewrite lookup_insert_ne by done. eauto.
  - intros i x. rewrite Est, Eh. destruct (decide (i = sid)) as [->|].
    + rewrite lookup_insert_eq. intros [= <-]. rewrite Hk, Hc. by apply Hop.
    + rewrite lookup_insert_ne by done. apply Hop.
  - intros i x. rewrite Eh. destruct (decide (i = sid)) as [->|].
    + rewrite lookup_insert_eq. intros [= <-]. rewrite Hc, Hsd.
      destruct (Hd _ _ Hs). naive_solver.
    + rewrite lookup_insert_ne by done. apply Hd.
  - intros i x. rewrite Eh. destruct (decide (i = sid)) as [->|].
    + rewrite lookup_insert_eq. intros [= <-].
      eapply stream_log_ext; [by eapply Hlog, Hl|]. intros a Ha. by apply Hct.
    + rewrite lookup_insert_ne by done. intros Hx.
      eapply stream_log_ext; [by eapply Hl|]. intros a Ha. apply Hct.
Qed.

(** No stream changes. *)
Lemma world_inv_same w w' :
  world_inv w -> heap w' = heap w -> streams w' = streams w -> next w' = next w ->
  step_ok w w' ->
  (forall a, a ∈ held_world w -> content_of (deref a (mem w')) = content_of (deref a (mem w))) ->
  world_inv w'.
Proof.
  intros [Ho Hf Hr Hop Hd Hl] Eh Est En [Ho' _] Hct. split; [done|..].
  - unfold heap_fresh. by rewrite Eh, En.
  - by rewrite Eh, Est.
  - by rewrite Eh, Est.
  - by rewrite Eh.
  - intros i x. rewrite Eh. intros Hx. eapply stream_log_ext; [by eapply Hl|].
    intros a Ha. apply Hct. rewrite (held_world_at _ _ _ Hx). multiset_solver.
Qed.

Lemma Register_inv k node sid w w' :
  world_inv w -> Register k node w = Ok (sid, w') -> world_inv w'.
Proof.
  intros Hw E. pose proof (Register_ok _ _ _ _ _ (wi_fresh _ Hw) E (wi_owned _ Hw)) as [Ho _].
  revert E. unfold Register. destruct (streams w !! k) as [|] eqn:Ek; [done|].
  intros [= <- <-]. destruct Hw as [_ Hf Hr Hop Hd Hl].
  split; cbn [heap streams next mem]; [done|..].
  - intros i Hi. cbn [next heap] in *. rewrite lookup_insert_ne by lia. apply Hf. lia.
  - intros k' i. destruct (decide (k' = k)) as [->|].
    + rewrite lookup_insert_eq. intros [= <-]. exists (newLiveStream k node).
      by rewrite lookup_insert_eq.
    + rewrite lookup_insert_ne by done. intros (x & Hx & ?)%Hr. exists x.
      rewrite lookup_insert_ne; [done|]. intros <-. by rewrite Hf in Hx.
  - intros i x. destruct (decide (i = next w)) as [->|].
    + rewrite lookup_insert_eq. intros [= <-] _. apply lookup_insert_eq.
    + rewrite lookup_insert_ne by done. intros Hx Hc.
      pose proof (Hop _ _ Hx Hc) as Hs. rewrite lookup_insert_ne; [done|]. congruence.
  - intros i x. destruct (decide (i = next w)) as [->|].
    + rewrite lookup_insert_eq. by intros [= <-].
    + rewrite lookup_insert_ne by done. apply Hd.
  - intros i x. destruct (decide (i = next w)) as [->|].
    + rewrite lookup_insert_eq. intros [= <-]. split; [done|apply map_Forall_empty].
    + rewrite lookup_insert_ne by done. apply Hl.
Qed.

Lemma Close_stream_registration ids s m :
  let s' := fst (fst (Close_stream ids s m)) in
  key s' = key s /\ closed s' = true /\ (closed s = s_done s -> s_done s' = true) /\
  pumping s' = pumping s.
Proof.
  unfold Close_stream. destruct (closed s) eqn:Ec; [by split_and!|].
  by destruct (visit _ _ _ _).
Qed.

Lemma Unregister_inv ids k w :
  world_inv w -> ample w -> world_inv (Unregister ids k w).
Proof.
  intros Hw [Hr4 _].
  pose proof (Unregister_ok ids k w Hr4 (wi_owned _ Hw)) as [Ho _]. revert Ho.
  destruct Hw as [Ho0 Hf Hr Hop Hd Hl]. unfold Unregister.
  destruct (streams w !! k) as [sid|] eqn:Ek; [|by split]. cbn [heap mem].
  destruct (Hr _ _ Ek) as (s & Hs & Hk & Hc). rewrite Hs.
  pose proof (Close_stream_registration ids s (mem w)) as HR. cbv zeta in HR.
  pose proof (stream_log_Close_stream ids s (mem w)) as HL.
  pose proof (content_Close_stream ids s (mem w)) as HC.
  destruct (Close_stream ids s (mem w)) as [[s' gone] m']. cbn [fst snd] in *.
  destruct HR as (Hk' & Hc' & Hd' & Hp'). intros Ho.
  split; unfold put; cbn [heap streams next mem]; [done|..].
  - intros i Hi. cbn [heap next put] in *. rewrite lookup_insert_ne; [by apply Hf|].
    intros <-. by rewrite Hf in Hs.
  - intros k' i [Hne (x & Hx & Hkx & Hcx)%Hr]%lookup_delete_Some.
    exists x. rewrite lookup_insert_ne; [done|]. intros <-. simplify_eq.
  - intros i x. destruct (decide (i = sid)) as [->|].
    + rewrite lookup_insert_eq. intros [= <-]. by rewrite Hc'.
    + rewrite lookup_insert_ne by done. intros Hx Hcx.
      pose proof (Hop _ _ Hx Hcx). rewrite lookup_delete_ne; [done|]. congruence.
  - intros i x. destruct (decide (i = sid)) as [->|].
    + rewrite lookup_insert_eq. intros [= <-]. destruct (Hd _ _ Hs). by rewrite Hc', Hd'.
    + rewrite lookup_insert_ne by done. apply Hd.
  - intros i x. destruct (decide (i = sid)) as [->|].
    + rewrite lookup_insert_eq. intros [= <-].
      eapply stream_log_ext; [by eapply HL, Hl|]. intros a _. apply HC.
    + rewrite lookup_insert_ne by done. intros Hx.
      eapply stream_log_ext; [by eapply Hl|]. intros a _. apply HC.
Qed.

Lemma same_registration_refl s f : same_registration s (set_subs f s).
Proof. split_and!; try done. auto. Qed.

Lemma ingest_send_registration a s m s' :
  ingest_send a s m = Some s' -> same_registration s s'.
Proof. unfold ingest_send. case_match; [|done]. intros [= <-]. split_and!; try done. auto. Qed.

Lemma Ingest_registration a s m s' ok : Ingest a s m = (s', ok) -> same_registration s s'.
Proof.
  unfold Ingest. destruct (closed s); [intros [= <- <-]; split_and!; try done; auto|].
  destruct (ingest_send a s m) eqn:E; intros [= <- <-];
    [by eapply ingest_send_registration|split_and!; try done; auto].
Qed.

Lemma pump_registration onPkt ids s m s' m' :
  pump onPkt ids s m = Some (s', m') -> same_registration s s'.
Proof.
  unfold pump. destruct (pumping s), (ingest s); try done.
  destruct (visit _ _ _ _). intros [= <- <-]. by split_and!.
Qed.

Lemma pump_exit_registration s s' : pump_exit s = Some s' -> same_registration s s'.
Proof.
  unfold pump_exit. destruct (pumping s), (s_done s) eqn:E; try done. intros [= <-].
  split_and!; try done. by right.
Qed.

Lemma Subscribe_inv k sub w w' :
  world_inv w -> new_subscriber sub -> Subscribe k sub w = Ok w' -> world_inv w'.
Proof.
  intros Hw Hn E. pose proof (Subscribe_ok _ _ _ _ Hn E (wi_owned _ Hw)) as Hok.
  revert E. unfold Subscribe. destruct (streams w !! k) as [sid|]; [|done].
  destruct (heap w !! sid) as [s|] eqn:Es; [|done]. cbn [AddSubscriber]. intros [= <-].
  eapply world_inv_put; [done|exact Es|apply (same_registration_refl s)|reflexivity..|exact Hok| |].
  - done.
  - by apply (stream_log_AddSubscriber sub).
Qed.

Lemma RemoveSubscriber_registration id s m s' gone m' :
  RemoveSubscriber id s m = (s', gone, m') -> same_registration s s' /\ content_eq m m'.
Proof.
  unfold RemoveSubscriber. destruct (subs s !! id) as [sub|].
  - pose proof (content_Close sub m) as H. destruct (Close sub m) as [sub' m1].
    intros [= <- <- <-]. split; [apply same_registration_refl|done].
  - intros [= <- <- <-]. split; [split_and!; try done; auto|done].
Qed.

Lemma step_inv onPkt w w' :
  step onPkt w w' -> ample w -> world_inv w -> world_inv w'.
Proof.
  intros Hstep Ha Hw.
  pose proof (step_owned _ _ _ Hstep (wi_fresh _ Hw) Ha (wi_owned _ Hw)) as Hok.
  destruct Hstep as
    [pick size f a m' w Hf E|l1 a l2 w Ep|k node sid w w' E|ids k w Hids
    |l1 a l2 sid s s' ok w Ep Es E|l1 a l2 sid s s' w Ep Es E|ids sid s s' m' w Es Hids E
    |sid s s' w Es E|k sub w w' Hn E|sid sub s s' old w Hn Es E|sid id s s' gone m' w Es E
    |sid id s sub sub' m' w Es Esub E|l1 sub sub' l2 m' w Eo E].
  - eapply world_inv_same; [done..|]. intros b Hb. apply Hok; [done|].
    unfold held_world in *. cbn [heap orphans producing lost]. rewrite handles_cons.
    multiset_solver.
  - eapply world_inv_same; [done..|]. intros b _. apply content_Release.
  - by eapply Register_inv.
  - by apply Unregister_inv.
  - eapply world_inv_put; [done|exact Es|by eapply Ingest_registration|done..|
      by eapply stream_log_Ingest].
  - eapply world_inv_put; [done|exact Es|by eapply ingest_send_registration|done..|
      by eapply stream_log_ingest_send].
  - eapply world_inv_put; [done|exact Es|by eapply pump_registration|done..|
      by eapply content_pump|by eapply stream_log_pump].
  - eapply world_inv_put; [done|exact Es|by apply pump_exit_registration|done..|].
    unfold pump_exit in E. case_match; [|done]. by simplify_eq.
  - by eapply Subscribe_inv.
  - pose proof (stream_log_AddSubscriber sub s (mem w) Hn) as HL. rewrite E in HL.
    assert (s' = set_subs (<[ID sub := sub]> (subs s)) s) as -> by (by inversion E).
    eapply world_inv_put;
      [done|exact Es|apply same_registration_refl|done|done|done|exact Hok|done|exact HL].
  - destruct (RemoveSubscriber_registration _ _ _ _ _ _ E).
    eapply world_inv_put; [done|exact Es|done..|by eapply stream_log_RemoveSubscriber].
  - eapply world_inv_put; [done|exact Es|apply same_registration_refl|done..|
      by eapply content_sub_step|by eapply stream_log_consumer].
  - eapply world_inv_same; [done..|]. intros b _. by eapply content_sub_step.
Qed.

Lemma new_world_inv : world_inv new_world.
Proof.
  split; cbn; try done. replace (held_world new_world) with (∅ : gmultiset nat).
  - apply owned_empty.
  - unfold held_world. cbn. rewrite held_map_empty. unfold held_subs. cbn. multiset_solver.
Qed.

Lemma reachable_inv onPkt w : reachable onPkt w -> world_inv w.
Proof. induction 1; [apply new_world_inv|by eapply step_inv]. Qed.

(** ** Properties *)

(** C1: reference counting is exact in every reachable state of the pipeline,
    under any interleaving of producers, pumps, subscribers and shutdowns: a
    packet someone holds (a producer, an ingest queue, a subscriber's queue or
    cache, or a dropped handle) is not in the pool and its counter is the
    number of holders; every other packet is in the pool, so the packets
    outside the pool are exactly the ones with a holder. *)
Theorem reachable_refcounts_exact onPkt w :
  reachable onPkt w ->
  (forall a, a ∈ held_world w ->
     a ∉ pool (mem w) /\ refs (deref a (mem w)) = Z.of_nat (multiplicity a (held_world w))) /\
  (forall a, is_Some (cells (mem w) !! a) -> a ∉ held_world w -> a ∈ pool (mem w)) /\
  NoDup (pool (mem w)) /\ outstanding (mem w) = Z.of_nat (size (dom (held_world w))).
Proof.
  intros [Ho _ _ _ _ _]%reachable_inv. split_and!.
  - intros a Ha. split; [by apply (ow_free _ _ Ho)|by apply (ow_refs _ _ Ho)].
  - intros a Hs Hn. by apply (ow_dom _ _ Ho) in Hs as [|].
  - apply (ow_wf _ _ Ho).
  - by apply owned_outstanding.
Qed.


(** C2: end-to-end delivery. In every reachable state, what a storage, HLS,
    MinIO or relay subscriber has written, followed by what its queue and the
    stream's queue still hold, is a subsequence of the packets the stream
    accepted, with the contents they had when they were ingested: nothing is
    corrupted, reordered or duplicated. *)
Theorem subscribers_write_what_was_ingested onPkt w sid s id q :
  reachable onPkt w -> heap w !! sid = Some s -> subs s !! id = Some (Queue q) ->
  sublist (q_written q ++ contents (mem w) (q_ch q) ++ contents (mem w) (ingest s))
          (accepted s).
Proof.
  intros Hw%reachable_inv Hs Hq. destruct (wi_log _ Hw _ _ Hs) as [_ HL].
  apply (HL _ _ Hq).
Qed.

(** the fan-out. When the pump handles a packet, every subscriber gets it
    exactly once, whatever the order the map is ranged over, and no subscriber
    affects another: a queue with room appends it, a full one counts a drop, a
    viewer's cache advances; the packet leaves the ingest queue and is counted. *)
Theorem pump_fans_out onPkt ids s m s' m' :
  range_order ids (subs s) -> pump onPkt ids s m = Some (s', m') ->
  exists a rest, ingest s = a :: rest /\ ingest s' = rest /\
    packetsTotal s' = u64 (packetsTotal s + 1) /\
    forall id, subs s' !! id = fan_one onPkt a (content_of (deref a m)) <$> subs s !! id.
Proof.
  intros Hids Hp. destruct (pump_spec _ _ _ _ _ _ Hids Hp) as (a & rest & Ei & -> & HS).
  by exists a, rest.
Qed.


(** a subscriber added under an id in use displaces the one registered
    there without closing it: the stream never delivers to it again, its [done]
    channel stays open, and its consumer, blocked on an empty queue, cannot
    leave its loop unless its output fails. *)
Theorem AddSubscriber_displaces q sub s m :
  subs s !! ID sub = Some (Queue q) -> q_done q = false -> q_run q = Running ->
  let '(s', old) := AddSubscriber sub s in
  subs s' !! ID sub = Some sub /\ old = Some (Queue q) /\ queue_leave false q = None /\
  (q_ch q = [] -> forall sub' m', sub_step (Queue q) m sub' m' ->
     exists q', queue_leave true q = Some q' /\ sub' = Queue q').
Proof.
  intros Hs Hd Hr. cbn [AddSubscriber]. split_and!.
  - apply lookup_insert_eq.
  - done.
  - unfold queue_leave. by rewrite Hr, Hd.
  - intros Hch sub' m' Hst. inversion Hst as [k q0 m0 q' m1 E|f q0 m0 q' E|q0 m0 q' m1 E]; subst.
    + unfold queue_consume in E. by rewrite Hr, Hch in E.
    + unfold queue_leave in *. rewrite Hr, Hd in *. destruct f; [eauto|done].
    + unfold queue_drain in E. by rewrite Hr in E.
Qed.

(** a packet that [Ingest] does not enqueue (stream closed, or 64 packets
    waiting) is leaked: the stream is unchanged and keeps no handle on it, no
    step ever releases it, and its counter stays positive, so that it never
    returns to the pool. *)
Theorem Ingest_drop_leaks onPkt l1 a l2 sid s s' w w' :
  producing w = l1 ++ a :: l2 -> heap w !! sid = Some s ->
  Ingest a s (mem w) = (s', false) ->
  let w1 := mkWorld (<[sid := s']> (heap w)) (streams w) (next w) (orphans w)
                    (l1 ++ l2) (a :: lost w) (mem w) in
  s' = s /\ step onPkt w w1 /\
  (reachable onPkt w -> ample w ->
   rtc (fun x y => ample x /\ step onPkt x y) w1 w' -> a ∉ pool (mem w')).
Proof.
  intros Ep Es E w1. assert (step onPkt w w1) as Hst.
  { change (a :: lost w) with (if false then lost w else a :: lost w) in w1.
    by apply (step_ingest onPkt l1 a l2 sid s s' false w). }
  split_and!; [|done|].
  - unfold Ingest in E. destruct (closed s); [by simplify_eq|].
    destruct (ingest_send _ _ _); by simplify_eq.
  - intros Hr Ha Hrtc.
    assert (reachable onPkt w1) as Hr1 by (by eapply reach_step).
    assert (a ∈ lost w1) as Hin by set_solver.
    clearbody w1. clear -Hr1 Hin Hrtc. induction Hrtc as [x|x y z [Hax Hxy] _ IH].
    + apply reachable_inv, wi_owned in Hr1. apply (ow_free _ _ Hr1).
      unfold held_world. apply elem_of_list_to_set_disj in Hin. unfold handles.
      multiset_solver.
    + apply IH; [by eapply reach_step|]. destruct Hxy; cbn [lost put] in *; try done.
      * unfold Register in *. by repeat case_match; simplify_eq/=.
      * unfold Unregister. repeat case_match; simplify_eq/=; done.
      * case_match; set_solver.
      * unfold Subscribe in *. by repeat case_match; simplify_eq/=.
Qed.

(** ** Witnesses *)

#[export] Instance room_dec n H : Decision (room n H).
Proof. unfold room. apply _. Defined.

Definition quiet : string -> content -> bool := fun _ _ => false.

(** Register a stream, attach a relay, build a packet, ingest it, pump it. *)
Definition demo_sub : QueueSub := NewRelaySubscriber "a/p".
Definition demo_w1 : World :=
  match Register "a/p" "n1" new_world with Ok (_, w) => w | Err _ => new_world end.
Definition demo_w2 : World :=
  match Subscribe "a/p" (Queue demo_sub) demo_w1 with Ok w => w | Err _ => demo_w1 end.
Definition demo_w3 : World :=
  let '(a, m) := NewAVPacket None 3 (mem demo_w2) in
  mkWorld (heap demo_w2) (streams demo_w2) (next demo_w2) (orphans demo_w2)
          (a :: producing demo_w2) (lost demo_w2) (update a (set_Type PacketAudio) m).
Definition demo_stream (w : World) : liveStream :=
  default (newLiveStream "" "") (heap w !! 0%nat).
Definition demo_w4 : World :=
  let '(s, ok) := Ingest 0 (demo_stream demo_w3) (mem demo_w3) in
  mkWorld (<[0%nat := s]> (heap demo_w3)) (streams demo_w3) (next demo_w3)
          (orphans demo_w3) ([] ++ [])
          (if ok then lost demo_w3 else 0%nat :: lost demo_w3) (mem demo_w3).
Definition demo_w5 : World :=
  match pump quiet ["relay-a/p"] (demo_stream demo_w4) (mem demo_w4) with
  | Some (s, m) => put 0 s [] m demo_w4
  | None => demo_w4
  end.

Lemma ample_check w :
  bool_decide (room 4 (held_world w) /\
    map_Forall (fun _ s => room (4 + size (subs s)) (held_world w)) (heap w)) = true ->
  ample w.
Proof. intros [H1 H2]%bool_decide_eq_true. split; [done|]. intros sid s. apply H2. Qed.

Lemma demo_step1 : step quiet new_world demo_w1.
Proof. by apply (step_register quiet "a/p" "n1" 0 new_world demo_w1). Qed.

Lemma demo_step2 : step quiet demo_w1 demo_w2.
Proof. by apply (step_subscribe quiet "a/p" (Queue demo_sub) demo_w1 demo_w2). Qed.

Lemma demo_step3 : step quiet demo_w2 demo_w3.
Proof.
  apply (step_produce quiet None 3 (set_Type PacketAudio) 0 (snd (NewAVPacket None 3 (mem demo_w2))) demo_w2);
    reflexivity.
Qed.

Lemma demo_step4 : step quiet demo_w3 demo_w4.
Proof.
  apply (step_ingest quiet [] 0 [] 0 (demo_stream demo_w3)
           (fst (Ingest 0 (demo_stream demo_w3) (mem demo_w3))) true demo_w3); reflexivity.
Qed.

Lemma demo_step5 : step quiet demo_w4 demo_w5.
Proof.
  apply (step_pump quiet ["relay-a/p"] 0 (demo_stream demo_w4) (demo_stream demo_w5)
           (mem demo_w5) demo_w4); [reflexivity| |reflexivity].
  unfold range_order. assert ((map_to_list (subs (demo_stream demo_w4))).*1 = ["relay-a/p"]) as ->
    by (vm_compute; reflexivity). done.
Qed.

Lemma demo_reachable : reachable quiet demo_w4 /\ reachable quiet demo_w5.
Proof.
  assert (reachable quiet demo_w4) as H4.
  { apply (reach_step _ demo_w3); [|apply ample_check; vm_compute; reflexivity|apply demo_step4].
    apply (reach_step _ demo_w2); [|apply ample_check; vm_compute; reflexivity|apply demo_step3].
    apply (reach_step _ demo_w1); [|apply ample_check; vm_compute; reflexivity|apply demo_step2].
    apply (reach_step _ new_world); [|apply ample_check; vm_compute; reflexivity|apply demo_step1].
    apply reach_new. }
  split; [done|]. apply (reach_step _ demo_w4); [exact H4| |apply demo_step5].
  apply ample_check; vm_compute; reflexivity.
Qed.

Lemma reachable_refcounts_exact_witness :
  (0%nat ∈ held_world demo_w5) /\ refs (deref 0 (mem demo_w5)) = 1 /\
  outstanding (mem demo_w5) = 1.
Proof.
  destruct (reachable_refcounts_exact quiet demo_w5 (proj2 demo_reachable)) as (H & _ & _ & Ho).
  assert (0%nat ∈ held_world demo_w5) as Hin by (apply elem_of_multiplicity; vm_compute; lia).
  split; [exact Hin|]. split.
  - destruct (H 0%nat Hin) as [_ ->]. reflexivity.
  - rewrite Ho. reflexivity.
Defined.


Lemma subscribers_write_what_was_ingested_witness :
  exists q, subs (demo_stream demo_w5) !! "relay-a/p" = Some (Queue q) /\
    sublist (q_written q ++ contents (mem demo_w5) (q_ch q)
             ++ contents (mem demo_w5) (ingest (demo_stream demo_w5)))
            (accepted (demo_stream demo_w5)).
Proof.
  eexists. split; [reflexivity|].
  apply (subscribers_write_what_was_ingested quiet demo_w5 0 _ "relay-a/p" _ (proj2 demo_reachable));
    reflexivity.
Defined.

Lemma pump_fans_out_witness :
  exists a rest, ingest (demo_stream demo_w4) = a :: rest /\
    ingest (demo_stream demo_w5) = rest /\
    packetsTotal (demo_stream demo_w5) = 1 /\
    forall id, subs (demo_stream demo_w5) !! id
      = fan_one quiet a (content_of (deref a (mem demo_w4))) <$> subs (demo_stream demo_w4) !! id.
Proof.
  apply (pump_fans_out quiet ["relay-a/p"] (demo_stream demo_w4) (mem demo_w4)
           (demo_stream demo_w5) (mem demo_w5)); [|reflexivity].
  unfold range_order. assert ((map_to_list (subs (demo_stream demo_w4))).*1 = ["relay-a/p"]) as ->
    by (vm_compute; reflexivity). reflexivity.
Defined.


Lemma AddSubscriber_displaces_witness :
  let s := set_subs {["relay-a/p" := Queue demo_sub]} (newLiveStream "a/p" "n1") in
  let other := Queue (mkQueueSub "relay-a/p" TypeRelay 128 [] 0 false Running []) in
  let '(s', old) := AddSubscriber other s in
  subs s' !! "relay-a/p" = Some other /\ old = Some (Queue demo_sub) /\
  queue_leave false demo_sub = None.
Proof.
  intros s other.
  destruct (AddSubscriber_displaces demo_sub other s (mem demo_w5)) as (H1 & H2 & H3 & _);
    [reflexivity..|].
  split; [exact H1|]. split; [exact H2|exact H3].
Defined.

Lemma Ingest_drop_leaks_witness :
  let s := mkStream "a/p" "n1" ∅ [] true true 0 true [] in
  let w := mkWorld {[0%nat := s]} ∅ 1 [] [0%nat] [] (mem demo_w3) in
  step quiet w (mkWorld (<[0%nat := s]> (heap w)) (streams w) (next w) [] ([] ++ [])
                        [0%nat] (mem demo_w3)).
Proof.
  intros s w. apply (Ingest_drop_leaks quiet [] 0%nat [] 0%nat s s w w); reflexivity.
Defined.
