(* ===== verification/Engine.v ===== *)
(** * The stream engine

    [internal/stream/{key,engine}.go]: stream keys, [EnsureStream],
    [StopStream] and [State]. The stream manager and the ingest starter are
    what the engine observes of them: whether a stream is registered under the
    key ([get], per poll), and how [Start] ends. *)

From Stdlib Require Import Ascii.
From S2P Require Import Prelude.

(** ** Stream keys *)

Record StreamKey := mkKey { CamID : string; ProfileID : string }.

Definition StreamKey_String (k : StreamKey) : string := CamID k +:+ "/" +:+ ProfileID k.

Definition IsZero (k : StreamKey) : bool :=
  bool_decide (CamID k = "") || bool_decide (ProfileID k = "").

(** ** Entries *)

Inductive StreamState :=
  | StateRequested | StateStarting | StateLive | StateDegraded | StateReconnecting
  | StateStopped.

#[export] Instance StreamState_eq_dec : EqDecision StreamState.
Proof. solve_decision. Defined.

Record StreamEntry := mkEntry {
  StreamID : string;
  Key : StreamKey;
  StartedAt : Time;
  state : StreamState;
}.

Definition setState (s : StreamState) (e : StreamEntry) : StreamEntry :=
  mkEntry (StreamID e) (Key e) (StartedAt e) s.

(** The map [entries] by [StreamKey.String()]. *)
Notation Engine := (gmap string StreamEntry).

Definition NewEngine : Engine := ∅.

(** ** The ingest starter

    The engine holds a Go interface value: [NilInterface] is the [nil]
    interface, [NilPointer] a non-nil interface around a nil
    [*rtsp.IngestManager], whose methods panic on the mutex of the nil
    receiver. [Starter r] is a real one, whose [Start] returns the error [r]. *)
Inductive IngestStarter :=
  | NilInterface
  | NilPointer
  | Starter (r : option string).

(** How a call ends. *)
Inductive outcome (A : Type) :=
  | Returns (a : A)
  | Fails (e : string)
  | Panics.
Arguments Returns {A} a.
Arguments Fails {A} e.
Arguments Panics {A}.

(** [e.ingest == nil] *)
Definition is_nil (i : IngestStarter) : bool :=
  match i with NilInterface => true | _ => false end.

(** [e.ingest.Start(ctx, key)] *)
Definition ingest_Start (i : IngestStarter) : outcome (option string) :=
  match i with
  | NilInterface | NilPointer => Panics
  | Starter r => Returns r
  end.

Section WithStreams.
(** What a registered stream is. *)
Context {S : Type}.

(** The polling loop: [clock i] is the time before poll [i], [get i] what
    [manager.Get] then returns. [None]: out of fuel. *)
Fixpoint wait_live (fuel : nat) (clock : nat -> Time) (get : nat -> option S)
    (deadline : Time) (i : nat) : option (option S) :=
  match fuel with
  | O => None
  | Datatypes.S fuel =>
      if clock i <? deadline
      then match get i with
           | Some s => Some (Some s)
           | None => wait_live fuel clock get deadline (Datatypes.S i)
           end
      else Some None
  end.

Definition poll_fuel : nat := 102.

(** The slow path of [EnsureStream]: a new entry replaces the stale one, the
    ingest is started and the stream awaited. [None]: out of fuel. *)
Definition start_stream (ingest : IngestStarter) (key : StreamKey) (uuid : string)
    (now : Time) (clock : nat -> Time) (get : nat -> option S) (e : Engine)
  : option (outcome (string * S) * Engine) :=
  let strKey := StreamKey_String key in
  let entry := mkEntry uuid key now StateRequested in
  let e := <[strKey := setState StateStarting entry]> (delete strKey e) in
  if is_nil ingest
  then Some (Fails "ingest not configured (mediamtx disabled)", delete strKey e)
  else
    match ingest_Start ingest with
    | Panics => Some (Panics, e)
    | Fails err => Some (Fails err, e)
    | Returns (Some err) => Some (Fails ("start ingest: " +:+ err), delete strKey e)
    | Returns None =>
        let deadline := clock O + 5 * Second in
        match wait_live poll_fuel clock get deadline 0 with
        | None => None
        | Some (Some s) =>
            Some (Returns (uuid, s), <[strKey := setState StateLive entry]> e)
        | Some None =>
            Some (Fails ("stream " +:+ strKey +:+ " did not start within timeout"),
                  <[strKey := setState StateStopped entry]> e)
        end
    end.

(** [EnsureStream]. [cur] is what [manager.Get] returns on the fast path and
    again under the write lock; [uuid] the new identifier; [clock], [get] the
    polls. *)
Definition EnsureStream (ingest : IngestStarter) (key : StreamKey) (uuid : string)
    (now : Time) (cur : option S) (clock : nat -> Time) (get : nat -> option S)
    (e : Engine) : option (outcome (string * S) * Engine) :=
  if IsZero key then Some (Fails "stream key: cam_id and profile_id required", e)
  else
    match e !! StreamKey_String key, cur with
    | Some entry, Some s => Some (Returns (StreamID entry, s), e)
    | _, _ => start_stream ingest key uuid now clock get e
    end.

(** [StopStream]: whether the ingest was stopped, and the entries. *)
Definition StopStream (ingest : IngestStarter) (key : StreamKey) (e : Engine)
  : outcome bool * Engine :=
  let strKey := StreamKey_String key in
  match e !! strKey with
  | None => (Returns false, e)
  | Some _ =>
      (match ingest with
       | NilInterface => Returns false
       | NilPointer => Panics
       | Starter _ => Returns true
       end, delete strKey e)
  end.

Definition State (key : StreamKey) (e : Engine) : StreamState * string * bool :=
  match e !! StreamKey_String key with
  | None => (StateStopped, "", false)
  | Some entry => (state entry, StreamID entry, true)
  end.
End WithStreams.

(** ** Lemmas *)

(** A slash in [s]. *)
Fixpoint has_slash (s : string) : bool :=
  match s with
  | EmptyString => false
  | String c s => bool_decide (c = "/"%char) || has_slash s
  end.

Lemma app_slash_inj a1 : forall a2 b1 b2,
  has_slash a1 = false -> has_slash a2 = false ->
  a1 +:+ "/" +:+ b1 = a2 +:+ "/" +:+ b2 -> a1 = a2 /\ b1 = b2.
Proof.
  induction a1 as [|c a1 IH]; intros [|d a2] b1 b2 H1 H2 E; simpl in *.
  - by simplify_eq.
  - by simplify_eq/=.
  - by simplify_eq/=.
  - apply orb_false_iff in H1 as [_ H1]. apply orb_false_iff in H2 as [_ H2].
    simplify_eq. destruct (IH a2 b1 b2 H1 H2) as [-> ->]; done.
Qed.

Section WaitLive.
Context {S : Type}.

(** Each poll is at least 50 ms after the previous one. *)
Definition sleeps (clock : nat -> Time) : Prop :=
  forall i, clock i + 50 * Millisecond <= clock (Datatypes.S i).

Lemma clock_progress clock i : sleeps clock ->
  clock O + Z.of_nat i * (50 * Millisecond) <= clock i.
Proof.
  intros Hs. induction i as [|i IH]; [lia|]. specialize (Hs i). lia.
Qed.

(** With fuel up to a poll past the deadline, the loop never runs out: it
    returns the first registered stream, or reaches the deadline. *)
Lemma wait_live_spec fuel clock (get : nat -> option S) deadline : forall i,
  deadline <= clock (i + fuel)%nat ->
  match wait_live (Datatypes.S fuel) clock get deadline i with
  | Some (Some s) => exists j, (i <= j)%nat /\ clock j < deadline /\ get j = Some s /\
                       forall k, (i <= k < j)%nat -> get k = None
  | Some None => exists j, (i <= j)%nat /\ deadline <= clock j /\
                       forall k, (i <= k < j)%nat -> get k = None
  | None => False
  end.
Proof.
  induction fuel as [|fuel IH]; intros i Hd.
  { cbn [wait_live]. rewrite Nat.add_0_r in Hd.
    rewrite (proj2 (Z.ltb_ge _ _)) by done. exists i. split_and!; [lia|done|]. lia. }
  remember (Datatypes.S fuel) as f eqn:Ef. cbn [wait_live].
  destruct (Z.ltb_spec (clock i) deadline); [|by exists i; split_and!; [lia|done|lia]].
  destruct (get i) as [s|] eqn:Eg; [by exists i; split_and!; [lia|done|done|lia]|].
  subst f. specialize (IH (Datatypes.S i)). rewrite Nat.add_succ_comm in IH.
  specialize (IH Hd).
  assert (forall j k, (forall k, (Datatypes.S i <= k < j)%nat -> get k = None) ->
            (i <= k < j)%nat -> get k = None) as Hext.
  { intros j k Hk Hk'. destruct (decide (k = i)) as [->|]; [done|]. apply Hk. lia. }
  destruct (wait_live (Datatypes.S fuel) _ _ _ _) as [[s|]|]; [| |done].
  - destruct IH as (j & ? & ? & ? & Hk). exists j. split_and!; [lia|done..|].
    intros k. by apply Hext.
  - destruct IH as (j & ? & ? & Hk). exists j. split_and!; [lia|done|].
    intros k. by apply Hext.
Qed.
End WaitLive.

(** How the slow path may end, with [e] the engine before and [e'] after. *)
Definition started {S} (ingest : IngestStarter) (key : StreamKey) (uuid : string) (now : Time)
    (clock : nat -> Time) (get : nat -> option S) (r : outcome (string * S)) (e' : Engine)
  : Prop :=
  let entry := e' !! StreamKey_String key in
  match ingest, r with
  | NilInterface, Fails _ | Starter (Some _), Fails _ => entry = None
  | NilPointer, Panics => entry = Some (mkEntry uuid key now StateStarting)
  | Starter None, Returns (id, s) =>
      id = uuid /\ entry = Some (mkEntry uuid key now StateLive) /\
      exists j, clock j < clock O + 5 * Second /\ get j = Some s /\
        forall i, (i < j)%nat -> get i = None
  | Starter None, Fails _ =>
      entry = Some (mkEntry uuid key now StateStopped) /\
      exists j, clock O + 5 * Second <= clock j /\ forall i, (i < j)%nat -> get i = None
  | _, _ => False
  end.

Lemma start_stream_started {S} ingest key uuid now clock (get : nat -> option S) e :
  sleeps clock ->
  exists r e', start_stream ingest key uuid now clock get e = Some (r, e') /\
    started ingest key uuid now clock get r e' /\
    (forall k, k <> StreamKey_String key -> e' !! k = e !! k).
Proof.
  intros Hs. unfold start_stream, started. set (k0 := StreamKey_String key).
  assert (forall k, k <> k0 -> delete k0 e !! k = e !! k) as Hd
    by (intros; by rewrite lookup_delete_ne).
  destruct ingest as [| |[err|]]; cbn [is_nil ingest_Start].
  - eexists _, _. split; [done|]. split; [apply lookup_delete_eq|].
    intros k Hk. rewrite lookup_delete_ne, lookup_insert_ne; auto.
  - eexists _, _. split; [done|]. split; [apply lookup_insert_eq|].
    intros k Hk. rewrite lookup_insert_ne; auto.
  - eexists _, _. split; [done|]. split; [apply lookup_delete_eq|].
    intros k Hk. rewrite lookup_delete_ne, lookup_insert_ne; auto.
  - pose proof (wait_live_spec 101 clock get (clock O + 5 * Second) 0) as HW.
    change (Datatypes.S 101) with poll_fuel in HW.
    destruct (wait_live poll_fuel _ _ _ _) as [[s|]|].
    3: { destruct HW. pose proof (clock_progress clock 101 Hs). cbn [Nat.add].
         unfold Second, Millisecond in *. lia. }
    all: eexists _, _; split; [done|]; rewrite lookup_insert_eq.
    all: split; [|intros k Hk; rewrite !lookup_insert_ne; auto].
    all: destruct HW as (j & _ & HW);
      [pose proof (clock_progress clock 101 Hs); cbn [Nat.add];
       unfold Second, Millisecond in *; lia|].
    + destruct HW as (? & ? & Hk). split_and!; try done. exists j. split_and!; try done.
      intros i Hi. apply Hk. lia.
    + destruct HW as (? & Hk). split; [done|]. exists j. split; [done|].
      intros i Hi. apply Hk. lia.
Qed.

(** ** Properties *)

(** stream keys are identifiers: two keys whose camera ids hold no slash
    have the same string only if they are equal. *)
Theorem stream_key_injective k1 k2 :
  has_slash (CamID k1) = false -> has_slash (CamID k2) = false ->
  StreamKey_String k1 = StreamKey_String k2 -> k1 = k2.
Proof.
  destruct k1 as [c1 p1], k2 as [c2 p2]. unfold StreamKey_String. cbn. intros H1 H2 E.
  destruct (app_slash_inj _ _ _ _ H1 H2 E) as [-> ->]. done.
Qed.

(** C23: [EnsureStream] ends, and each way it ends leaves the engine in the right
    state. With a clock that advances by at least the 50 ms of each sleep, 102
    polls are enough; then
    - a live stream of a known entry is returned with the entry's id, and
      nothing changes;
    - on success the key has one entry, live, with the new id, and the stream is
      the first one that registered before the 5 s deadline;
    - when the ingest fails to start, or is not configured, no entry is left;
    - after the timeout an entry in state stopped is left;
    - a nil pointer in the interface panics with the entry in state starting;
    - entries of other keys are never touched. *)
Theorem EnsureStream_outcomes {S} ingest key uuid now (cur : option S) clock get e :
  sleeps clock -> IsZero key = false ->
  exists r e', EnsureStream ingest key uuid now cur clock get e = Some (r, e') /\
    (forall k, k <> StreamKey_String key -> e' !! k = e !! k) /\
    match e !! StreamKey_String key, cur with
    | Some entry, Some s => r = Returns (StreamID entry, s) /\ e' = e
    | _, _ => started ingest key uuid now clock get r e'
    end.
Proof.
  intros Hs Hz. unfold EnsureStream. rewrite Hz.
  destruct (start_stream_started ingest key uuid now clock get e Hs) as (r & e' & E & Hst & Hk).
  destruct (e !! StreamKey_String key) as [entry|]; [destruct cur as [s|]|].
  - by eexists _, e.
  - by exists r, e'.
  - by exists r, e'.
Qed.

(** [EnsureStream] is idempotent: once it has returned a stream, calling it
    again while the manager still has one returns the same id, starts nothing
    and changes nothing. *)
Theorem EnsureStream_idempotent {S} ingest key uuid now (cur : option S) clock get e id s e1
    ingest2 uuid2 now2 (s2 : S) clock2 get2 :
  EnsureStream ingest key uuid now cur clock get e = Some (Returns (id, s), e1) ->
  EnsureStream ingest2 key uuid2 now2 (Some s2) clock2 get2 e1
  = Some (Returns (id, s2), e1).
Proof.
  unfold EnsureStream. destruct (IsZero key); [done|].
  assert (start_stream ingest key uuid now clock get e = Some (Returns (id, s), e1) ->
          exists entry, e1 !! StreamKey_String key = Some entry /\ StreamID entry = id) as Hst.
  { unfold start_stream. repeat case_match; try done. intros [= <- <- <-].
    eexists. split; [apply lookup_insert_eq|done]. }
  destruct (e !! StreamKey_String key) as [entry|] eqn:Ee; [destruct cur as [s0|]|].
  - intros [= <- <- <-]. by rewrite Ee.
  - intros (entry' & -> & <-)%Hst. done.
  - intros (entry' & -> & <-)%Hst. done.
Qed.

(** stopping a stream forgets it: afterwards [State] reports it stopped and
    unknown, whatever it was, and the next [EnsureStream] starts the ingest
    again under a new id even if the manager still has the old stream. *)
Theorem StopStream_forgets {S} ingest key e ingest2 uuid now (cur : option S) clock get :
  let e' := snd (StopStream ingest key e) in
  State key e' = (StateStopped, "", false) /\
  EnsureStream ingest2 key uuid now cur clock get e'
  = (if IsZero key then Some (Fails "stream key: cam_id and profile_id required", e')
     else start_stream ingest2 key uuid now clock get e').
Proof.
  cbv zeta. assert (snd (StopStream ingest key e) !! StreamKey_String key = None) as HN.
  { unfold StopStream. destruct (e !! StreamKey_String key) eqn:E; [apply lookup_delete_eq|done]. }
  unfold State, EnsureStream. rewrite HN. done.
Qed.

(** ** Witnesses *)

Definition demo_key : StreamKey := mkKey "cam-1" "hd".
Definition demo_clock (i : nat) : Time := Z.of_nat i * (50 * Millisecond).

Lemma stream_key_injective_witness :
  StreamKey_String demo_key = "cam-1/hd" /\ demo_key = demo_key.
Proof.
  split; [reflexivity|]. apply (stream_key_injective demo_key demo_key); reflexivity.
Defined.

(** The stream registers before the fourth poll. *)
Lemma EnsureStream_outcomes_witness :
  exists r e', EnsureStream (Starter None) demo_key "id-1" 0 None demo_clock
                 (fun i => if (3 <=? i)%nat then Some 7%nat else None) NewEngine = Some (r, e') /\
    started (Starter None) demo_key "id-1" 0 demo_clock
      (fun i => if (3 <=? i)%nat then Some 7%nat else None) r e' /\
    r = Returns ("id-1", 7%nat).
Proof.
  destruct (EnsureStream_outcomes (Starter None) demo_key "id-1" 0 None demo_clock
    (fun i => if (3 <=? i)%nat then Some 7%nat else None) NewEngine) as (r & e' & E & _ & H).
  - intros i. unfold demo_clock. lia.
  - reflexivity.
  - exists r, e'. split; [exact E|]. split; [exact H|].
    vm_compute in E. injection E as <- _. reflexivity.
Defined.

Lemma EnsureStream_idempotent_witness :
  EnsureStream (Starter None) demo_key "id-2" 9 (Some 8%nat) demo_clock (fun _ => None)
    {[ "cam-1/hd" := mkEntry "id-1" demo_key 0 StateLive ]}
  = Some (Returns ("id-1", 8%nat), {[ "cam-1/hd" := mkEntry "id-1" demo_key 0 StateLive ]}).
Proof.
  apply (EnsureStream_idempotent (Starter None) demo_key "id-1" 0 (@None nat) demo_clock
    (fun _ => Some 7%nat) NewEngine "id-1" 7%nat).
  vm_compute. reflexivity.
Defined.
