(* ===== verification/Pull.v ===== *)
(** * Pulled streams: RTSP ingest and node relay

    The managers of [internal/rtsp/ingester.go] ([IngestManager]) and
    [internal/node/relay.go] ([RelayManager]): at most one pull per stream key,
    each a goroutine that registers a stream in the [StreamManager] and cleans
    up when it ends. The network is the choice between the steps of a
    goroutine; the streams are in Stream.v, here only who registered a key. *)

From S2P Require Import Prelude.

(** ** State *)

Inductive kind := IngestTask | RelayTask.

#[export] Instance kind_eq_dec : EqDecision kind.
Proof. solve_decision. Defined.

(** Where a goroutine is: [Locating] the source node (relays only, still in the
    caller of [EnsureRelay]), [Connecting], [Streaming] with its stream
    registered, or in its deferred calls: none run yet ([Exiting]), or the first
    one run ([Exiting2]). *)
Inductive phase := Locating | Connecting | Streaming | Exiting | Exiting2.

#[export] Instance phase_eq_dec : EqDecision phase.
Proof. solve_decision. Defined.

Record Task := mkTask { t_kind : kind; t_key : string; t_phase : phase }.

(** [sessions], [active]: the managers' maps from a key to its cancel function,
    named by the goroutine it cancels; [cancelled]: the cancel functions that
    were called; [live]: the registered streams, by the goroutine that
    registered each ([None]: a publisher of another kind). *)
Record Pulls := mkPulls {
  sessions : gmap string nat;
  active : gmap string nat;
  cancelled : gset nat;
  tasks : gmap nat Task;
  live : gmap string (option nat);
  fresh : nat;
}.

Definition no_pulls : Pulls := mkPulls ∅ ∅ ∅ ∅ ∅ 0.

(** ** IngestManager *)

(** [Start]: nothing if the key has a session. *)
Definition Start (key : string) (p : Pulls) : Pulls :=
  match sessions p !! key with
  | Some _ => p
  | None =>
      mkPulls (<[key := fresh p]> (sessions p)) (active p) (cancelled p)
        (<[fresh p := mkTask IngestTask key Connecting]> (tasks p)) (live p) (S (fresh p))
  end.

(** [Stop]: cancels the session and forgets it; the goroutine goes on. *)
Definition Stop (key : string) (p : Pulls) : Pulls :=
  match sessions p !! key with
  | None => p
  | Some t => mkPulls (delete key (sessions p)) (active p) ({[t]} ∪ cancelled p)
                      (tasks p) (live p) (fresh p)
  end.

Definition remove_session (key : string) (p : Pulls) : Pulls :=
  mkPulls (delete key (sessions p)) (active p) (cancelled p) (tasks p) (live p) (fresh p).

(** ** RelayManager *)

(** [EnsureRelay] up to the release of the mutex: nothing if already relaying. *)
Definition EnsureRelay (key : string) (p : Pulls) : Pulls :=
  match active p !! key with
  | Some _ => p
  | None =>
      mkPulls (sessions p) (<[key := fresh p]> (active p)) (cancelled p)
        (<[fresh p := mkTask RelayTask key Locating]> (tasks p)) (live p) (S (fresh p))
  end.

Definition IsRelaying (key : string) (p : Pulls) : bool :=
  bool_decide (is_Some (active p !! key)).

Definition remove_active (key : string) (p : Pulls) : Pulls :=
  mkPulls (sessions p) (delete key (active p)) (cancelled p) (tasks p) (live p) (fresh p).

(** [manager.Unregister]: whoever registered the key. *)
Definition unregister (key : string) (p : Pulls) : Pulls :=
  mkPulls (sessions p) (active p) (cancelled p) (tasks p) (delete key (live p)) (fresh p).

Definition goto (t : nat) (x : Task) (ph : phase) (p : Pulls) : Pulls :=
  mkPulls (sessions p) (active p) (cancelled p)
    (<[t := mkTask (t_kind x) (t_key x) ph]> (tasks p)) (live p) (fresh p).

Definition finish (t : nat) (p : Pulls) : Pulls :=
  mkPulls (sessions p) (active p) (cancelled p) (delete t (tasks p)) (live p) (fresh p).

(** [manager.Register] by goroutine [t], and what [ingest] and [pull] do next:
    stream, or return on the error. *)
Definition register (t : nat) (x : Task) (p : Pulls) : Pulls :=
  match live p !! t_key x with
  | Some _ => goto t x Exiting p
  | None =>
      let p := goto t x Streaming p in
      mkPulls (sessions p) (active p) (cancelled p) (tasks p)
              (<[t_key x := Some t]> (live p)) (fresh p)
  end.

(** The deferred calls run in the reverse order of their [defer] statements:
    [remove] then [Unregister] in [ingest], [Unregister] then [remove] in
    [pull]. *)
Definition defer1 (t : nat) (x : Task) (p : Pulls) : Pulls :=
  goto t x Exiting2
    (match t_kind x with
     | IngestTask => remove_session (t_key x) p
     | RelayTask => unregister (t_key x) p
     end).

Definition defer2 (t : nat) (x : Task) (p : Pulls) : Pulls :=
  finish t
    (match t_kind x with
     | IngestTask => unregister (t_key x) p
     | RelayTask => remove_active (t_key x) p
     end).

(** ** Steps *)

Inductive step : Pulls -> Pulls -> Prop :=
  | step_start key p : step p (Start key p)
  | step_stop key p : step p (Stop key p)
  | step_ensure key p : step p (EnsureRelay key p)
  | step_located t x p :
      (* the source node was found: the goroutine starts *)
      tasks p !! t = Some x -> t_phase x = Locating -> step p (goto t x Connecting p)
  | step_not_located t x p :
      (* AllNodes failed or the node is unknown: [cancel]; [remove] *)
      tasks p !! t = Some x -> t_phase x = Locating ->
      step p (finish t (remove_active (t_key x) p))
  | step_register t x p :
      tasks p !! t = Some x -> t_phase x = Connecting -> step p (register t x p)
  | step_connect_failed t x p :
      tasks p !! t = Some x -> t_phase x = Connecting -> step p (goto t x Exiting p)
  | step_ended t x p :
      tasks p !! t = Some x -> t_phase x = Streaming -> step p (goto t x Exiting p)
  | step_defer1 t x p :
      tasks p !! t = Some x -> t_phase x = Exiting -> step p (defer1 t x p)
  | step_defer2 t x p :
      tasks p !! t = Some x -> t_phase x = Exiting2 -> step p (defer2 t x p)
  | step_other key p :
      (* a publisher of another kind registers *)
      live p !! key = None ->
      step p (mkPulls (sessions p) (active p) (cancelled p) (tasks p)
                      (<[key := None]> (live p)) (fresh p)).

Definition reachable : Pulls -> Prop := rtc step no_pulls.

(** ** Lemmas *)

(** [active] is exactly the relay goroutines (and pending calls), by key. *)
Record relay_inv (p : Pulls) : Prop := {
  ri_fresh : forall t x, tasks p !! t = Some x -> (t < fresh p)%nat;
  ri_active : forall t x, tasks p !! t = Some x -> t_kind x = RelayTask ->
    active p !! t_key x = Some t;
  ri_task : forall k t, active p !! k = Some t ->
    exists x, tasks p !! t = Some x /\ t_kind x = RelayTask /\ t_key x = k;
  ri_locating : forall t x, tasks p !! t = Some x -> t_phase x = Locating -> t_kind x = RelayTask;
}.

Lemma relay_inv_goto t x ph p p' :
  relay_inv p -> tasks p !! t = Some x -> ph <> Locating ->
  active p' = active p -> fresh p' = fresh p ->
  tasks p' = <[t := mkTask (t_kind x) (t_key x) ph]> (tasks p) -> relay_inv p'.
Proof.
  intros [Hf Ha Ht Hl] Hx Hph Ea Ef Et. split; rewrite ?Ea, ?Ef, Et.
  - intros i y. destruct (decide (i = t)) as [->|]; [intros _; by eapply Hf|].
    rewrite lookup_insert_ne by done. apply Hf.
  - intros i y. destruct (decide (i = t)) as [->|].
    + rewrite lookup_insert_eq. intros [= <-]. cbn. by apply (Ha _ _ Hx).
    + rewrite lookup_insert_ne by done. apply Ha.
  - intros k i (y & Hy & Hk & Hkey)%Ht. destruct (decide (i = t)) as [->|].
    + rewrite lookup_insert_eq. simplify_eq. by eexists.
    + rewrite lookup_insert_ne by done. eauto.
  - intros i y. destruct (decide (i = t)) as [->|].
    + rewrite lookup_insert_eq. by intros [= <-].
    + rewrite lookup_insert_ne by done. apply Hl.
Qed.

(** A task ends: a relay one with its entry, an ingest one with none. *)
Lemma relay_inv_finish t x p p' :
  relay_inv p -> tasks p !! t = Some x ->
  active p' = (if decide (t_kind x = RelayTask) then delete (t_key x) (active p) else active p) ->
  fresh p' = fresh p -> tasks p' = delete t (tasks p) -> relay_inv p'.
Proof.
  intros [Hf Ha Ht Hl] Hx Ea Ef Et. split; rewrite ?Ef, Et.
  - intros i y [_ Hy]%lookup_delete_Some. by eapply Hf.
  - intros i y [Hne Hy]%lookup_delete_Some Hk. rewrite Ea.
    pose proof (Ha _ _ Hy Hk) as Hi. case_decide as Hkx; [|done].
    rewrite lookup_delete_ne; [done|]. intros Ek.
    pose proof (Ha _ _ Hx Hkx). congruence.
  - intros k i. rewrite Ea. case_decide as Hkx.
    + intros [Hne (y & Hy & Hk & Hkey)%Ht]%lookup_delete_Some.
      exists y. rewrite lookup_delete_ne; [done|]. intros <-. congruence.
    + intros (y & Hy & Hk & Hkey)%Ht. exists y. rewrite lookup_delete_ne; [done|].
      intros <-. congruence.
  - intros i y [_ Hy]%lookup_delete_Some. by eapply Hl.
Qed.

(** A new task under a fresh name. *)
Lemma relay_inv_spawn x p p' :
  relay_inv p -> (t_phase x = Locating <-> t_kind x = RelayTask) ->
  (t_kind x = RelayTask -> active p !! t_key x = None) ->
  active p' = (if decide (t_kind x = RelayTask)
               then <[t_key x := fresh p]> (active p) else active p) ->
  fresh p' = S (fresh p) -> tasks p' = <[fresh p := x]> (tasks p) -> relay_inv p'.
Proof.
  intros [Hf Ha Ht Hl] Hph Hna Ea Ef Et.
  assert (tasks p !! fresh p = None) as Hfr.
  { destruct (tasks p !! fresh p) eqn:E; [|done]. apply Hf in E. lia. }
  split; rewrite ?Ef, Et.
  - intros i y. destruct (decide (i = fresh p)) as [->|]; [lia|].
    rewrite lookup_insert_ne by done. intros Hy%Hf. lia.
  - intros i y. rewrite Ea. destruct (decide (i = fresh p)) as [->|].
    + rewrite lookup_insert_eq. intros [= <-] Hk. rewrite decide_True by done.
      apply lookup_insert_eq.
    + rewrite lookup_insert_ne by done. intros Hy Hk.
      pose proof (Ha _ _ Hy Hk) as Hi. case_decide as Hkx; [|done].
      rewrite lookup_insert_ne; [done|]. intros Ek. specialize (Hna Hkx). congruence.
  - intros k i. rewrite Ea. destruct (decide (t_kind x = RelayTask)) as [Hkx|Hkx].
    + destruct (decide (k = t_key x)) as [->|Hne].
      * rewrite lookup_insert_eq. intros [= <-]. exists x. by rewrite lookup_insert_eq.
      * rewrite lookup_insert_ne by done. intros (y & Hy & ?)%Ht. exists y.
        rewrite lookup_insert_ne; [done|]. congruence.
    + intros (y & Hy & ?)%Ht. exists y. rewrite lookup_insert_ne; [done|]. congruence.
  - intros i y. destruct (decide (i = fresh p)) as [->|].
    + rewrite lookup_insert_eq. intros [= <-]. apply Hph.
    + rewrite lookup_insert_ne by done. apply Hl.
Qed.

(** Nothing that concerns relays changes. *)
Lemma relay_inv_same p p' :
  relay_inv p -> active p' = active p -> tasks p' = tasks p -> fresh p' = fresh p -> relay_inv p'.
Proof. intros [Hf Ha Ht Hl] Ea Et Ef. split; rewrite ?Ea, ?Et, ?Ef; done. Qed.

Lemma relay_inv_step p p' : step p p' -> relay_inv p -> relay_inv p'.
Proof.
  intros Hs Hp. destruct Hs as
    [key p|key p|key p|t x p Hx Hph|t x p Hx Hph|t x p Hx Hph|t x p Hx Hph|t x p Hx Hph
    |t x p Hx Hph|t x p Hx Hph|key p Hl].
  - unfold Start. case_match; [done|].
    by apply (relay_inv_spawn (mkTask IngestTask key Connecting) p).
  - unfold Stop. case_match; [|done]. by eapply relay_inv_same.
  - unfold EnsureRelay. case_match; [done|].
    by apply (relay_inv_spawn (mkTask RelayTask key Locating) p).
  - by eapply (relay_inv_goto t x Connecting).
  - apply (relay_inv_finish t x p); try done.
    rewrite decide_True; [done|]. by eapply (ri_locating _ Hp).
  - unfold register. case_match.
    + by eapply (relay_inv_goto t x Exiting).
    + by eapply (relay_inv_goto t x Streaming).
  - by eapply (relay_inv_goto t x Exiting).
  - by eapply (relay_inv_goto t x Exiting).
  - apply (relay_inv_goto t x Exiting2 p); try done; unfold defer1, goto; cbn;
      by destruct (t_kind x).
  - apply (relay_inv_finish t x p); try done; unfold defer2; by destruct (t_kind x).
  - by eapply relay_inv_same.
Qed.

Lemma reachable_relay_inv p : reachable p -> relay_inv p.
Proof.
  intros H. assert (relay_inv no_pulls) as H0 by (split; intros *; try done; set_solver).
  unfold reachable in H. revert H0. induction H as [|x y z Hxy _ IH]; [done|].
  intros Hx. apply IH. by eapply relay_inv_step.
Qed.

(** ** Properties *)

(** C9: at most one relay pull per stream. In every reachable state, under any
    interleaving of requests, pulls and failures, two relay goroutines of the
    same key are the same one; [IsRelaying] tells exactly whether there is one;
    and while there is one, [EnsureRelay] changes nothing. *)
Theorem relay_pull_exclusive p key :
  reachable p ->
  (forall t1 t2 x1 x2, tasks p !! t1 = Some x1 -> tasks p !! t2 = Some x2 ->
     t_kind x1 = RelayTask -> t_kind x2 = RelayTask -> t_key x1 = key -> t_key x2 = key ->
     t1 = t2) /\
  (IsRelaying key p = true <->
     exists t x, tasks p !! t = Some x /\ t_kind x = RelayTask /\ t_key x = key) /\
  (IsRelaying key p = true -> EnsureRelay key p = p).
Proof.
  intros Hp%reachable_relay_inv. unfold IsRelaying. rewrite bool_decide_eq_true.
  split_and!.
  - intros t1 t2 x1 x2 H1 H2 K1 K2 <- E.
    pose proof (ri_active _ Hp _ _ H1 K1). pose proof (ri_active _ Hp _ _ H2 K2). congruence.
  - split.
    + intros [t (x & ? & ? & ?)%(ri_task _ Hp)]. by exists t, x.
    + intros (t & x & Hx & Hk & <-). exists t. by apply (ri_active _ Hp).
  - intros [t Ht]. unfold EnsureRelay. by rewrite Ht.
Qed.

(** a pull that fails to register, or to connect, unregisters the key all
    the same: if another goroutine (or another kind of publisher) has a live
    stream under the key of a connecting pull, the pull can end with that
    stream gone from the registry while its publisher still runs. *)
Theorem failed_pull_unregisters_the_live_stream p t x owner :
  tasks p !! t = Some x -> t_phase x = Connecting ->
  live p !! t_key x = Some owner ->
  exists p', rtc step p p' /\ live p' !! t_key x = None /\ tasks p' = delete t (tasks p) /\
    register t x p = goto t x Exiting p.
Proof.
  intros Hx Hph Hl.
  set (x1 := mkTask (t_kind x) (t_key x) Exiting).
  set (x2 := mkTask (t_kind x) (t_key x) Exiting2).
  exists (defer2 t x2 (defer1 t x1 (register t x p))).
  assert (register t x p = goto t x Exiting p) as Er by (unfold register; by rewrite Hl).
  rewrite Er. split_and!.
  - eapply rtc_l; [by apply (step_register t x)|]. rewrite Er.
    eapply rtc_l; [apply (step_defer1 t x1); [cbn; apply lookup_insert_eq|done]|].
    eapply rtc_l; [apply (step_defer2 t x2); [|done]|done].
    unfold defer1, goto. cbn. destruct (t_kind x); apply lookup_insert_eq.
  - unfold defer2, defer1. cbn. destruct (t_kind x); cbn; apply lookup_delete_eq.
  - unfold defer2, defer1. cbn.
    destruct (t_kind x); cbn; by rewrite !insert_insert_eq, delete_insert_eq.
  - done.
Qed.

(** [Stop] followed by [Start] can lose the new session. The goroutine that
    was stopped runs its deferred [remove] later, which deletes the entry of the
    new session: then [Stop] no longer reaches the running ingest, and another
    [Start] runs a second one for the same key. *)
Theorem restart_loses_the_session p t x key :
  sessions p !! key = Some t -> tasks p !! t = Some x -> t_kind x = IngestTask ->
  t_key x = key -> t_phase x = Streaming -> (t < fresh p)%nat ->
  let p1 := Start key (Stop key p) in
  let t2 := fresh p in
  exists p2, rtc step p p2 /\ rtc step p1 p2 /\
    sessions p1 !! key = Some t2 /\ tasks p2 !! t2 = Some (mkTask IngestTask key Connecting) /\
    sessions p2 !! key = None /\ Stop key p2 = p2 /\
    tasks (Start key p2) !! S t2 = Some (mkTask IngestTask key Connecting).
Proof.
  intros Hs Hx Hk <- Hph Hlt p1 t2.
  assert (p1 = mkPulls (<[t_key x := t2]> (delete (t_key x) (sessions p))) (active p)
    ({[t]} ∪ cancelled p) (<[t2 := mkTask IngestTask (t_key x) Connecting]> (tasks p))
    (live p) (S t2)) as E1.
  { unfold p1, Stop. rewrite Hs. unfold Start. cbn. by rewrite lookup_delete_eq. }
  assert (tasks p1 !! t = Some x) as Hx1 by (rewrite E1; cbn; rewrite lookup_insert_ne; [done|lia]).
  set (x1 := mkTask (t_kind x) (t_key x) Exiting).
  set (p2 := defer1 t x1 (goto t x Exiting p1)).
  assert (rtc step p1 p2) as H12.
  { eapply rtc_l; [by apply (step_ended t x)|].
    eapply rtc_l; [apply (step_defer1 t x1); [cbn; apply lookup_insert_eq|done]|done]. }
  assert (sessions p2 !! t_key x = None) as Hs2.
  { unfold p2, defer1. cbn. rewrite Hk. cbn. apply lookup_delete_eq. }
  assert (tasks p2 !! t2 = Some (mkTask IngestTask (t_key x) Connecting)) as Ht2.
  { unfold p2, defer1. cbn. rewrite Hk, E1. cbn.
    rewrite !lookup_insert_ne by (unfold t2; lia). apply lookup_insert_eq. }
  exists p2. split_and!; try done.
  - eapply rtc_l; [apply (step_stop (t_key x))|]. eapply rtc_l; [apply step_start|done].
  - rewrite E1. apply lookup_insert_eq.
  - unfold Stop. by rewrite Hs2.
  - assert (fresh p2 = S t2) as Ef by (unfold p2, defer1; cbn; by rewrite Hk, E1).
    unfold Start. rewrite Hs2. cbn [tasks]. rewrite Ef. apply lookup_insert_eq.
Qed.

(** ** Witnesses *)

Lemma relay_pull_exclusive_witness :
  let p := EnsureRelay "cam" (EnsureRelay "cam" no_pulls) in
  IsRelaying "cam" p = true /\ EnsureRelay "cam" p = p.
Proof.
  split; [reflexivity|].
  apply (relay_pull_exclusive (EnsureRelay "cam" (EnsureRelay "cam" no_pulls)) "cam").
  - eapply rtc_l; [apply step_ensure|]. eapply rtc_l; [apply step_ensure|]. apply rtc_refl.
  - reflexivity.
Defined.

(** A relay connects for a key another publisher has live. *)
Lemma failed_pull_unregisters_the_live_stream_witness :
  let p := mkPulls ∅ {["cam" := 1%nat]} ∅ {[1%nat := mkTask RelayTask "cam" Connecting]}
                   {["cam" := None]} 2 in
  exists p', rtc step p p' /\ live p' !! "cam" = None /\
    tasks p' = delete 1%nat {[1%nat := mkTask RelayTask "cam" Connecting]} /\
    register 1 (mkTask RelayTask "cam" Connecting) p
    = goto 1 (mkTask RelayTask "cam" Connecting) Exiting p.
Proof.
  intros p. apply (failed_pull_unregisters_the_live_stream p 1
    (mkTask RelayTask "cam" Connecting) None); reflexivity.
Defined.

Lemma restart_loses_the_session_witness :
  let p := mkPulls {["cam" := 0%nat]} ∅ ∅ {[0%nat := mkTask IngestTask "cam" Streaming]}
                   {["cam" := Some 0%nat]} 1 in
  exists p2, rtc step p p2 /\ sessions p2 !! "cam" = None /\
    tasks p2 !! 1%nat = Some (mkTask IngestTask "cam" Connecting).
Proof.
  intros p.
  destruct (restart_loses_the_session p 0 (mkTask IngestTask "cam" Streaming) "cam")
    as (p2 & H1 & _ & _ & H3 & H4 & _); try reflexivity; [cbn; lia|].
  exists p2. split; [exact H1|]. split; [exact H4|exact H3].
Defined.
