(* ===== verification/Sinks.v ===== *)
(** * What the subscribers write

    The consumer loops of [internal/subscriber/{storage,hls,minio,relay}.go]
    and [api/relay.go] [serveRelay], on the sequence of packets taken from the
    queue (Subscriber.v): files, playlists, uploaded objects, the relay
    connection. A disk write that fails part way is given the number of bytes
    that were written. *)

From stdpp Require Import pretty.
From S2P Require Import Prelude Packet Flv.

(** Bytes a failing [WriteTag] still appends to a file, if any. *)
Definition write_file (f : list byte) (p : AVPacket) (fails_after : option nat) : list byte :=
  match fails_after with
  | None => fst (WriteTag f p)
  | Some n => lc_out (fst (WriteTag (mkLimited f n) p))
  end.

(** ** Storage *)

(** [run]: nothing when the file cannot be created; errors of [WriteTag] are
    logged and the loop goes on. *)
Definition storage_run (created : bool) (pkts : list (AVPacket * option nat))
  : option (list byte) :=
  if created
  then Some (foldl (fun f '(p, n) => write_file f p n)
                   (fst (WriteFileHeader ([] : list byte))) pkts)
  else None.

(** ** HLS *)

Record segment := mkSegment { filename : string; duration : Duration }.

(** What [writePlaylist] renders through the template: the target duration, the
    media sequence number, the segments. *)
Record Playlist := mkPlaylist {
  TargetDuration : Z;
  MediaSeq : Z;
  Segments : list segment;
}.

(** [h_dir]: the files of the stream's directory; [segFile]: the open one. *)
Record HLS := mkHLS {
  segmentDuration : Z;
  maxSegments : nat;
  h_dir : gmap string (list byte);
  playlist : option Playlist;
  segs : list segment;
  segIdx : nat;
  segFile : option string;
  segStart : Time;
  returned : bool;
}.

Definition seg_name (i : nat) : string := "seg_" +:+ pretty i +:+ ".flv".

Definition openSegment (now : Time) (created : bool) (h : HLS) : HLS :=
  if created
  then mkHLS (segmentDuration h) (maxSegments h)
         (<[seg_name (segIdx h) := fst (WriteFileHeader ([] : list byte))]> (h_dir h))
         (playlist h) (segs h) (segIdx h) (Some (seg_name (segIdx h))) now (returned h)
  else mkHLS (segmentDuration h) (maxSegments h) (h_dir h) (playlist h) (segs h)
         (segIdx h) None (segStart h) true.

Definition closeSegment (now : Time) (h : HLS) : segment :=
  mkSegment (seg_name (segIdx h)) (now - segStart h).

Definition writePlaylist (h : HLS) (segs' : list segment) : option Playlist :=
  Some (mkPlaylist (segmentDuration h + 1) 0 segs').

(** The three cases of the [select]. *)
Inductive hls_event :=
  | HPacket (p : AVPacket) (fails_after : option nat)
  | HTick (now : Time) (created : bool)
  | HDone (now : Time).

Definition hls_step (h : HLS) (e : hls_event) : HLS :=
  if returned h then h
  else
    match e with
    | HPacket p n =>
        match segFile h with
        | None => h
        | Some name =>
            mkHLS (segmentDuration h) (maxSegments h)
              (alter (fun f => write_file f p n) name (h_dir h)) (playlist h) (segs h)
              (segIdx h) (segFile h) (segStart h) false
        end
    | HTick now created =>
        let segs' := segs h ++ [closeSegment now h] in
        let '(segs', dir) :=
          if (maxSegments h <? length segs')%nat
          then match segs' with
               | old :: rest => (rest, delete (filename old) (h_dir h))
               | [] => (segs', h_dir h)
               end
          else (segs', h_dir h) in
        let h := openSegment now created
          (mkHLS (segmentDuration h) (maxSegments h) dir (playlist h) segs'
                 (S (segIdx h)) None (segStart h) false) in
        if returned h then h
        else mkHLS (segmentDuration h) (maxSegments h) (h_dir h) (writePlaylist h segs')
               (segs h) (segIdx h) (segFile h) (segStart h) false
    | HDone now =>
        let segs' := segs h ++ [closeSegment now h] in
        mkHLS (segmentDuration h) (maxSegments h) (h_dir h) (writePlaylist h segs') segs'
              (segIdx h) None (segStart h) true
    end.

(** [run] up to the loop: the first segment is opened. *)
Definition hls_start (segmentDuration : Z) (maxSegments : nat) (now : Time) : HLS :=
  openSegment now true
    (mkHLS segmentDuration maxSegments ∅ None [] 0 None zero_time false).

Definition hls_run (h : HLS) (es : list hls_event) : HLS := foldl hls_step h es.

(** ** MinIO *)

(** The buffer of the current segment and the objects handed to [upload], with
    the result of each upload; [uploadCount] and [uploadBytes] count the
    successful ones. *)
Record MinIO := mkMinIO {
  m_buf : list byte;
  m_uploads : list (list byte);
  uploadCount : Z;
  uploadBytes : Z;
  m_returned : bool;
}.

Definition newBuffer : list byte := fst (WriteFileHeader ([] : list byte)).

Definition upload (ok : bool) (data : list byte) (s : MinIO) : MinIO :=
  mkMinIO (m_buf s) (m_uploads s ++ [data])
    (if ok then i64 (uploadCount s + 1) else uploadCount s)
    (if ok then i64 (uploadBytes s + Z.of_nat (length data)) else uploadBytes s)
    (m_returned s).

Inductive minio_event :=
  | MPacket (p : AVPacket)
  | MTick (ok : bool)
  | MDone (ok : bool).

Definition minio_step (s : MinIO) (e : minio_event) : MinIO :=
  if m_returned s then s
  else
    match e with
    | MPacket p => mkMinIO (fst (WriteTag (m_buf s) p)) (m_uploads s) (uploadCount s)
                     (uploadBytes s) false
    | MTick ok =>
        let s := if (0 <? length (m_buf s))%nat then upload ok (m_buf s) s else s in
        mkMinIO newBuffer (m_uploads s) (uploadCount s) (uploadBytes s) false
    | MDone ok =>
        let s := if (0 <? length (m_buf s))%nat then upload ok (m_buf s) s else s in
        mkMinIO (m_buf s) (m_uploads s) (uploadCount s) (uploadBytes s) true
    end.

Definition minio_run (es : list minio_event) : MinIO :=
  foldl minio_step (mkMinIO newBuffer [] 0 0 false) es.

(** ** Relay *)

(** [RelaySubscriber.run]: stop at the first write that fails. *)
Fixpoint relay_run {W} `{!Writer W} (ps : list AVPacket) (w : W) : W :=
  match ps with
  | [] => w
  | p :: ps =>
      match WriteTag w p with
      | (w, Some _) => w
      | (w, None) => relay_run ps w
      end
  end.

(** [serveRelay]: the file header, then the packets. *)
Definition serveRelay {W} `{!Writer W} (ps : list AVPacket) (w : W) : W :=
  match WriteFileHeader w with
  | (w, Some _) => w
  | (w, None) => relay_run ps w
  end.

(** ** Lemmas *)

Lemma WriteTag_Limited p out n :
  WriteTag (mkLimited out n) p
  = if (length (encode p) <=? n)%nat
    then (mkLimited (out ++ encode p) (n - length (encode p)), None)
    else (mkLimited (out ++ take n (encode p)) 0, Some ErrWrite).
Proof.
  unfold WriteTag, encode, Write, Limited.
  set (h := tag_header p). set (d := Data p). set (t := PutUint32 _). cbn [lc_out lc_room].
  rewrite !length_app. destruct (Nat.leb_spec (length h) n) as [Hh|Hh].
  2: { rewrite (proj2 (Nat.leb_gt _ _)) by lia. by rewrite take_app_le by lia. }
  cbn [lc_out lc_room]. destruct (Nat.leb_spec (length d) (n - length h)) as [Hd|Hd].
  2: { rewrite (proj2 (Nat.leb_gt _ _)) by lia.
       rewrite take_app_ge by lia. rewrite take_app_le by lia. by rewrite <- (assoc_L (++)). }
  cbn [lc_out lc_room]. destruct (Nat.leb_spec (length t) (n - length h - length d)) as [Ht|Ht].
  - rewrite (proj2 (Nat.leb_le _ _)) by lia. rewrite <- !(assoc_L (++)). do 2 f_equal. lia.
  - rewrite (proj2 (Nat.leb_gt _ _)) by lia.
    rewrite take_app_ge by lia. rewrite take_app_ge by lia. by rewrite <- !(assoc_L (++)).
Qed.

(** A connection that dies after [n] bytes carries the first [n] bytes. *)
Lemma relay_run_Limited ps : forall out n,
  lc_out (relay_run ps (mkLimited out n)) = out ++ take n (concat (encode <$> ps)).
Proof.
  induction ps as [|p ps IH]; intros out n; cbn [relay_run].
  { simpl. by rewrite take_nil, app_nil_r. }
  rewrite WriteTag_Limited. change (concat (encode <$> p :: ps))
    with (encode p ++ concat (encode <$> ps)).
  destruct (Nat.leb_spec (length (encode p)) n).
  - rewrite IH, take_app_ge by done. by rewrite <- (assoc_L (++)).
  - cbn [lc_out]. by rewrite take_app_le by lia.
Qed.

Lemma ReadFull_short n l : (length l < n)%nat -> exists e, ReadFull n l = (l, Some e, []).
Proof.
  intros Hl. unfold ReadFull. rewrite take_ge by lia.
  rewrite (proj2 (Nat.eqb_neq _ _)) by lia. destruct (_ =? _)%nat; eauto.
Qed.

(** A tag cut short is an error. *)
Lemma Next_truncated pick p k m :
  mem_wf m -> encodable p -> (k < length (encode p))%nat ->
  exists e rd' m', Next pick (take k (encode p)) m = (Err e, rd', m') /\ mem_wf m' /\
    (forall b, is_Some (cells m !! b) -> b ∉ pool m ->
       is_Some (cells m' !! b) /\ b ∉ pool m' /\ deref b m' = deref b m).
Proof.
  intros Hwf (Ht & Hts & Hl & Hk) Hlen.
  assert (exists e rd' m', Next pick (take k (encode p)) m = (Err e, rd', m'))
    as (e & rd' & m' & E).
  2: { exists e, rd', m'. split; [done|]. pose proof (Next_spec pick (take k (encode p)) m Hwf) as H.
       rewrite E in H. destruct H as (? & _ & ?). done. }
  unfold Next, encode in *. rewrite !length_app in Hlen.
  change (length (tag_header p)) with 11%nat in Hlen.
  destruct (Nat.lt_ge_cases k 11).
  { destruct (ReadFull_short 11 (take k (tag_header p ++ Data p ++
      PutUint32 (u32 (11 + Z.of_nat (length (Data p)))))))
      as [e ->]; [rewrite length_take; lia|eauto]. }
  rewrite take_app_ge by done. rewrite ReadFull_app by done.
  change (length (tag_header p)) with 11%nat. rewrite hdr_dataLen_header.
  rewrite (Z.mod_small (Z.of_nat _)) by (split; [lia|done]). rewrite Nat2Z.id.
  destruct (NewAVPacket pick _ m) as [a m1].
  destruct (Nat.lt_ge_cases (k - 11) (length (Data p))).
  { rewrite take_app_le by lia.
    destruct (ReadFull_short (length (Data p)) (take (k - 11) (Data p))) as [e ->];
      [rewrite length_take; lia|eauto]. }
  rewrite take_app_ge by done. rewrite ReadFull_app by done.
  change (length (PutUint32 (u32 (11 + Z.of_nat (length (Data p)))))) with 4%nat in Hlen.
  destruct (ReadFull_short 4 (take (k - 11 - length (Data p))
    (PutUint32 (u32 (11 + Z.of_nat (length (Data p))))))) as [e ->];
    [rewrite length_take; lia|eauto].
Qed.

(** How many whole tags fit in [n] bytes. *)
Fixpoint whole_tags (n : nat) (ps : list AVPacket) : nat :=
  match ps with
  | [] => 0
  | p :: ps => if (length (encode p) <=? n)%nat
               then S (whole_tags (n - length (encode p)) ps) else 0
  end.

Lemma pull_truncated ps : forall fuel picks n k m,
  mem_wf m -> Forall encodable ps -> (length ps < fuel)%nat ->
  exists pkts e m', pull_packets fuel picks n (take k (concat (encode <$> ps))) m
                    = (pkts, Some e, m') /\
    (fun a => content_of (deref a m')) <$> pkts = content_of <$> take (whole_tags k ps) ps /\
    (forall b, is_Some (cells m !! b) -> b ∉ pool m ->
       is_Some (cells m' !! b) /\ b ∉ pool m' /\ deref b m' = deref b m).
Proof.
  induction ps as [|p ps IH]; intros [|fuel] picks n k m Hwf Hps Hfuel; simpl in Hfuel; try lia.
  { exists [], (ErrTagHeader EOF), m. cbn [fmap list_fmap concat]. rewrite take_nil.
    by split_and!. }
  inversion Hps as [|? ? Hp Hps']; subst. cbn [whole_tags pull_packets].
  change (concat (encode <$> p :: ps)) with (encode p ++ concat (encode <$> ps)).
  destruct (Nat.leb_spec (length (encode p)) k) as [Hk|Hk].
  - rewrite take_app_ge by done.
    destruct (Next_encode (picks n) p (take (k - length (encode p)) (concat (encode <$> ps)))
      m Hwf Hp) as (a & m1 & -> & Hc & Hf).
    destruct (IH fuel picks (S n) (k - length (encode p))%nat m1)
      as (pkts & e & m' & -> & Hcs & Hfr); [apply Hf|done|lia|].
    exists (a :: pkts), e, m'. split; [done|].
    destruct (Hfr a (fp_valid _ _ _ _ Hf) (fp_free _ _ _ _ Hf)) as (_ & _ & Ha). split.
    + cbn [take]. rewrite !fmap_cons. by rewrite Ha, Hc, Hcs.
    + intros b Hs Hb. assert (b <> a) as Hne.
      { intros ->. by apply Hb, (fp_new _ _ _ _ Hf). }
      destruct (fp_frame _ _ _ _ Hf b Hne Hs) as [Hs1 E1].
      assert (b ∉ pool m1) as Hb1 by (intros H%(fp_pool _ _ _ _ Hf); done).
      destruct (Hfr b Hs1 Hb1) as (? & ? & ->). by split_and!.
  - rewrite take_app_le by lia.
    destruct (Next_truncated (picks n) p k m Hwf Hp Hk) as (e & rd' & m' & -> & _ & Hfr).
    by exists [], e, m'.
Qed.

(** ** Properties *)

(** C4: relaying over a connection that may break. If the connection from the
    serving node dies after [n] bytes ([n] large enough for the file header),
    the pulling node registers and obtains exactly the packets whose tags
    arrived whole: same type, timestamp, keyframe flag and payload, in order;
    the tag cut short is reported as an error and delivers nothing. *)
Theorem relay_transport ps n picks m :
  mem_wf m -> Forall encodable ps -> (13 <= n)%nat ->
  let wire := lc_out (serveRelay ps (mkLimited [] n)) in
  exists rd pkts e m', NewReader wire = Ok rd /\
    pull_packets (S (length ps)) picks 0 rd m = (pkts, Some e, m') /\
    (fun a => content_of (deref a m')) <$> pkts
    = content_of <$> take (whole_tags (n - 13) ps) ps.
Proof.
  intros Hwf Hps Hn. cbv zeta. unfold serveRelay, WriteFileHeader, Write, Limited.
  cbn [lc_room lc_out]. change (length fileHeader) with 13%nat.
  rewrite (proj2 (Nat.leb_le _ _)) by done. rewrite relay_run_Limited.
  rewrite (left_id_L [] (++)), NewReader_header.
  destruct (pull_truncated ps (S (length ps)) picks 0 (n - 13) m Hwf Hps)
    as (pkts & e & m' & E & Hc & _); [lia|].
  by eexists _, pkts, e, m'.
Qed.

(** *** MinIO *)

(** The packets of each interval between ticks, then those since the last. *)
Definition minio_split (acc : list (list AVPacket) * list AVPacket * bool) (e : minio_event)
  : list (list AVPacket) * list AVPacket * bool :=
  let '(gs, cur, stop) := acc in
  if stop then acc
  else match e with
       | MPacket p => (gs, cur ++ [p], false)
       | MTick _ => (gs ++ [cur], [], false)
       | MDone _ => (gs ++ [cur], [], true)
       end.

Definition minio_groups (es : list minio_event) : list (list AVPacket) * list AVPacket * bool :=
  foldl minio_split ([], [], false) es.

(** The packets consumed before [done]. *)
Fixpoint minio_packets (es : list minio_event) : list AVPacket :=
  match es with
  | [] => []
  | MPacket p :: es => p :: minio_packets es
  | MTick _ :: es => minio_packets es
  | MDone _ :: _ => []
  end.

Definition flv_file (g : list AVPacket) : list byte := fileHeader ++ concat (encode <$> g).

Lemma concat_encode_snoc g p :
  concat (encode <$> g ++ [p]) = concat (encode <$> g) ++ encode p.
Proof. rewrite fmap_app, concat_app. simpl. by rewrite app_nil_r. Qed.

Lemma minio_step_split e s acc :
  let '(gs, cur, stop) := acc in
  m_uploads s = flv_file <$> gs -> (stop = false -> m_buf s = flv_file cur) ->
  m_returned s = stop ->
  let '(gs', cur', stop') := minio_split acc e in
  m_uploads (minio_step s e) = flv_file <$> gs' /\
  (stop' = false -> m_buf (minio_step s e) = flv_file cur') /\
  m_returned (minio_step s e) = stop'.
Proof.
  destruct acc as [[gs cur] stop]. intros Hu Hb Hr. unfold minio_step, minio_split.
  rewrite Hr. destruct stop; [done|]. rewrite (Hb eq_refl).
  destruct e as [p|ok|ok]; cbn [m_uploads m_buf m_returned upload].
  - split_and!; [done| |done]. intros _. rewrite WriteTag_Buffer. cbn [fst].
    unfold flv_file. by rewrite concat_encode_snoc, (assoc_L (++)).
  - change (0 <? length (flv_file cur))%nat with true. cbn [m_uploads upload].
    rewrite fmap_app, Hu. by split_and!.
  - change (0 <? length (flv_file cur))%nat with true. cbn [m_uploads upload m_returned].
    rewrite fmap_app, Hu. by split_and!.
Qed.

Lemma minio_split_stopped l cur es : foldl minio_split (l, cur, true) es = (l, cur, true).
Proof. induction es as [|e es IH]; [done|exact IH]. Qed.

Lemma minio_fold es : forall s gs cur stop,
  m_uploads s = flv_file <$> gs -> (stop = false -> m_buf s = flv_file cur) ->
  m_returned s = stop ->
  let '(gs', cur', stop') := foldl minio_split (gs, cur, stop) es in
  m_uploads (foldl minio_step s es) = flv_file <$> gs' /\
  m_returned (foldl minio_step s es) = stop' /\
  (stop = false -> concat gs' ++ cur' = concat gs ++ cur ++ minio_packets es) /\
  (stop = true -> gs' = gs).
Proof.
  induction es as [|e es IH]; intros s gs cur stop Hu Hb Hr; cbn [foldl].
  { split_and!; try done. intros _. by rewrite app_nil_r. }
  pose proof (minio_step_split e s (gs, cur, stop) Hu Hb Hr) as HS.
  destruct (minio_split (gs, cur, stop) e) as [[gs1 cur1] stop1] eqn:Es.
  destruct HS as (Hu1 & Hb1 & Hr1). specialize (IH _ _ _ _ Hu1 Hb1 Hr1).
  destruct (foldl minio_split (gs1, cur1, stop1) es) as [[gs' cur'] stop'] eqn:Ef.
  destruct IH as (IHu & IHr & IHc & IHg). split_and!; try done.
  - intros ->. cbn in Es. destruct e as [p|ok|ok]; injection Es as <- <- <-.
    + rewrite IHc by done. by rewrite <- (assoc_L (++)).
    + rewrite IHc by done. rewrite concat_app. simpl. by rewrite app_nil_r, <- (assoc_L (++)).
    + rewrite minio_split_stopped in Ef. injection Ef as <- <- <-. rewrite concat_app. simpl.
      by rewrite !app_nil_r.
  - intros ->. cbn in Es. injection Es as <- <- <-. by apply IHg.
Qed.


(** *** HLS *)

Lemma string_app_inv_r (x y s : string) : x +:+ s = y +:+ s -> x = y.
Proof.
  assert (forall a b : string, String.length (a +:+ b) = (String.length a + String.length b)%nat)
    as Hlen by (induction a; intros; simpl; auto).
  revert y. induction x as [|c x IH]; intros [|d y] E; try done.
  - apply (f_equal String.length) in E. simpl in E. rewrite !Hlen in E. simpl in E. lia.
  - apply (f_equal String.length) in E. simpl in E. rewrite !Hlen in E. simpl in E. lia.
  - simpl in E. simplify_eq. f_equal. by apply IH.
Qed.

#[export] Instance seg_name_inj : Inj (=) (=) seg_name.
Proof.
  intros i j E. unfold seg_name in E. apply (inj (String.append "seg_")) in E.
  apply string_app_inv_r in E. by apply (inj pretty) in E.
Qed.

Definition file_of (g : list (AVPacket * option nat)) : list byte :=
  foldl (fun f '(p, n) => write_file f p n) newBuffer g.

(** The packets of each segment, the open one last. *)
Definition hls_split (acc : list (list (AVPacket * option nat)) * list (AVPacket * option nat))
    (e : hls_event) : list (list (AVPacket * option nat)) * list (AVPacket * option nat) :=
  let '(gs, cur) := acc in
  match e with
  | HPacket p n => (gs, cur ++ [(p, n)])
  | HTick _ _ => (gs ++ [cur], [])
  | HDone _ => (gs, cur)
  end.

(** A packet, or a tick at which the next file could be created. *)
Definition running_event (e : hls_event) : bool :=
  match e with HPacket _ _ => true | HTick _ created => created | HDone _ => false end.

(** The directory and the window after the segments [gs], with [cur] in the
    open one; [w] segments are kept. *)
Record hls_inv (ms : nat) (gs : list (list (AVPacket * option nat)))
    (cur : list (AVPacket * option nat)) (h : HLS) : Prop := {
  hi_run : returned h = false;
  hi_max : maxSegments h = ms;
  hi_idx : segIdx h = length gs;
  hi_open : segFile h = Some (seg_name (length gs));
  hi_len : length (segs h) = (ms `min` length gs)%nat;
  hi_names : filename <$> segs h
             = seg_name <$> seq (length gs - length (segs h)) (length (segs h));
  hi_files : forall i, (length gs - length (segs h) <= i <= length gs)%nat ->
    h_dir h !! seg_name i = file_of <$> (gs ++ [cur]) !! i;
  hi_dom : forall name, is_Some (h_dir h !! name) ->
    exists i, (length gs - length (segs h) <= i <= length gs)%nat /\ name = seg_name i;
  hi_list : forall pl, playlist h = Some pl ->
    Segments pl = segs h /\ MediaSeq pl = 0 /\ TargetDuration pl = segmentDuration h + 1;
  hi_some : gs <> [] -> is_Some (playlist h);
}.

Lemma hls_inv_start sd ms now : hls_inv ms [] [] (hls_start sd ms now).
Proof.
  split; try done; cbn.
  - by rewrite Nat.min_0_r.
  - intros i Hi. assert (i = 0%nat) as -> by lia. by rewrite lookup_insert_eq.
  - intros name [f Hf]. apply lookup_insert_Some in Hf as [[<- _]|[_ Hf]]; [|done].
    by exists 0%nat.
Qed.

Lemma hls_inv_packet ms gs cur h p n :
  hls_inv ms gs cur h -> hls_inv ms gs (cur ++ [(p, n)]) (hls_step h (HPacket p n)).
Proof.
  intros [Hr Hm Hi Ho Hl Hn Hf Hd Hp Hs]. unfold hls_step. rewrite Hr, Ho.
  split; cbn [returned maxSegments segIdx segFile segs h_dir playlist segmentDuration]; try done.
  - intros i Hb. destruct (decide (i = length gs)) as [->|Hne].
    + rewrite lookup_alter_eq, Hf by done.
      rewrite !lookup_app_r by lia. rewrite !Nat.sub_diag. cbn.
      unfold file_of. by rewrite foldl_app.
    + rewrite lookup_alter_ne by (intros ?%(inj seg_name); done).
      rewrite Hf by done. by rewrite !lookup_app_l by lia.
  - intros name Hx. apply Hd. destruct (decide (name = seg_name (length gs))) as [->|].
    + rewrite lookup_alter_eq in Hx. by apply fmap_is_Some in Hx.
    + by rewrite lookup_alter_ne in Hx.
Qed.

(** A tick in terms of how many of the segments [segs h ++ [new]] are kept:
    [k] is 0, or 1 when the window was full. *)
Lemma hls_tick_spec ms gs cur h now :
  hls_inv ms gs cur h ->
  let segs' := segs h ++ [closeSegment now h] in
  let k := if (ms <? S (length (segs h)))%nat then 1%nat else 0%nat in
  let h' := hls_step h (HTick now true) in
  segs h' = drop k segs' /\ segIdx h' = S (length gs) /\ returned h' = false /\
  segFile h' = Some (seg_name (S (length gs))) /\ maxSegments h' = ms /\
  segmentDuration h' = segmentDuration h /\
  playlist h' = Some (mkPlaylist (segmentDuration h + 1) 0 (drop k segs')) /\
  h_dir h' = <[seg_name (S (length gs)) := newBuffer]>
    (if decide (k = 1%nat) then delete (seg_name (length gs - length (segs h))) (h_dir h)
     else h_dir h).
Proof.
  intros [Hr Hm Hi Ho Hl Hn Hf Hd Hp Hs]. cbv zeta. unfold hls_step. rewrite Hr, Hm.
  rewrite length_app. cbn [length]. rewrite Nat.add_1_r.
  destruct (ms <? S (length (segs h)))%nat; cbn [decide].
  - destruct (segs h) as [|old rest] eqn:Es; cbn [app length drop]; unfold openSegment, writePlaylist;
      cbn [returned segs segIdx segFile maxSegments segmentDuration playlist h_dir filename closeSegment];
      rewrite Hi; split_and!; try done; rewrite ?drop_0, ?decide_True by done; try done.
    + by rewrite Nat.sub_0_r.
    + cbn [fmap list_fmap length seq] in Hn. by injection Hn as -> _.
  - unfold openSegment, writePlaylist;
      cbn [returned segs segIdx segFile maxSegments segmentDuration playlist h_dir];
      rewrite Hi, ?drop_0; split_and!; done.
Qed.

Lemma hls_inv_tick ms gs cur h now :
  hls_inv ms gs cur h -> hls_inv ms (gs ++ [cur]) [] (hls_step h (HTick now true)).
Proof.
  intros Hinv. pose proof (hls_tick_spec ms gs cur h now Hinv) as HT. cbv zeta in HT.
  set (segs' := segs h ++ [closeSegment now h]) in *.
  set (k := if (ms <? S (length (segs h)))%nat then 1%nat else 0%nat) in *.
  destruct HT as (Hsegs & Hidx & Hret & Hfile & Hmax & Hsd & Hpl & Hdir).
  destruct Hinv as [Hr Hm Hi Ho Hl Hn Hf Hd Hp Hs].
  assert (filename <$> segs' = seg_name <$> seq (length gs - length (segs h)) (S (length (segs h))))
    as Hn'.
  { unfold segs'. rewrite fmap_app, Hn, seq_S, fmap_app. cbn. rewrite Hi.
    do 3 f_equal. lia. }
  assert (length (drop k segs') = (ms `min` S (length gs))%nat /\
          (k = 1%nat -> length (segs h) = ms) /\ (k <= 1)%nat /\
          (length gs - length (segs h) + k = S (length gs) - length (drop k segs'))%nat)
    as (Hlen & Hk1 & Hk & Hlo).
  { rewrite length_drop. unfold segs'. rewrite length_app. cbn [length]. unfold k.
    destruct (Nat.ltb_spec ms (S (length (segs h)))); lia. }
  split; try done; rewrite ?length_app; cbn [length]; rewrite ?Nat.add_1_r; try done.
  - by rewrite Hsegs.
  - rewrite Hsegs, fmap_drop, Hn', <- fmap_drop, drop_seq, <- Hlo.
    do 2 f_equal. rewrite length_drop. unfold segs'. rewrite length_app. cbn [length]. lia.
  - intros i Hb. rewrite Hsegs, <- Hlo in Hb. rewrite Hdir.
    destruct (decide (i = S (length gs))) as [->|Hne].
    + rewrite lookup_insert_eq, lookup_app_r by (rewrite length_app; simpl; lia).
      rewrite length_app. cbn [length]. by rewrite Nat.add_1_r, Nat.sub_diag.
    + rewrite lookup_insert_ne by (intros ?%(inj seg_name); lia).
      rewrite lookup_app_l by (rewrite length_app; simpl; lia). rewrite <- Hf by lia.
      case_decide as Hk'; [|done]. rewrite lookup_delete_ne; [done|].
      intros ?%(inj seg_name). lia.
  - intros name. rewrite Hsegs, <- Hlo, Hdir.
    destruct (decide (name = seg_name (S (length gs)))) as [->|Hne].
    { intros _. exists (S (length gs)). split; [lia|done]. }
    rewrite lookup_insert_ne by done. case_decide as Hk'.
    + intros Hx. destruct (decide (name = seg_name (length gs - length (segs h)))) as [->|Hne'].
      { rewrite lookup_delete_eq in Hx. by destruct Hx. }
      rewrite lookup_delete_ne in Hx by done. destruct (Hd _ Hx) as (i & Hi' & ->).
      exists i. split; [|done]. assert (i <> length gs - length (segs h))%nat by congruence. lia.
    + intros Hx. destruct (Hd _ Hx) as (i & Hi' & ->). exists i. split; [lia|done].
  - intros pl. rewrite Hpl. intros [= <-]. by rewrite Hsegs, Hsd.
Qed.

Lemma hls_inv_run ms es : forall gs cur h,
  hls_inv ms gs cur h -> forallb running_event es = true ->
  let '(gs', cur') := foldl hls_split (gs, cur) es in hls_inv ms gs' cur' (hls_run h es).
Proof.
  induction es as [|e es IH]; intros gs cur h Hh He; [done|].
  cbn [forallb] in He. apply andb_true_iff in He as [He Hes].
  unfold hls_run. cbn [foldl]. destruct e as [p n|now c|now]; cbn in He; try done.
  - cbn [hls_split]. apply IH; [by apply hls_inv_packet|done].
  - rewrite He. cbn [hls_split]. apply IH; [by apply hls_inv_tick|done].
Qed.


(** the media sequence number is always 0, although the playlist's first
    segment changes: after more ticks than the window holds, the first listed
    segment is number [ticks - maxSegments] while [#EXT-X-MEDIA-SEQUENCE]
    still announces it as number 0. *)
Theorem hls_media_sequence_constant sd ms now es :
  forallb running_event es = true -> (0 < ms)%nat ->
  let '(gs, _) := foldl hls_split ([], []) es in
  (ms < length gs)%nat ->
  exists pl first, playlist (hls_run (hls_start sd ms now) es) = Some pl /\
    MediaSeq pl = 0 /\ head (Segments pl) = Some first /\
    filename first = seg_name (length gs - ms) /\ (0 < length gs - ms)%nat.
Proof.
  intros Hes Hms. pose proof (hls_inv_run ms es [] [] _ (hls_inv_start sd ms now) Hes) as H.
  destruct (foldl hls_split _ es) as [gs cur]. intros Hlen.
  destruct H as [Hr Hm Hi Ho Hl Hn Hf Hd Hp Hs].
  destruct Hs as [pl Hpl]; [by intros ->; simpl in Hlen; lia|].
  destruct (Hp _ Hpl) as (HS & HM & _). rewrite Hl in Hn.
  replace (ms `min` length gs)%nat with (S (ms - 1)) in Hn by lia. cbn [seq] in Hn.
  destruct (segs (hls_run (hls_start sd ms now) es)) as [|first rest]; [done|].
  rewrite fmap_cons in Hn. injection Hn as Hn1 _.
  exists pl, first. rewrite HS. split_and!; try done; [|lia]. rewrite Hn1. f_equal. lia.
Qed.

(** ** Witnesses *)

(** The connection dies inside the second tag. *)
Lemma relay_transport_witness :
  let wire := lc_out (serveRelay [demo_video; demo_audio]
                        (mkLimited [] (13 + length (encode demo_video) + 3))) in
  exists rd pkts e m', NewReader wire = Ok rd /\
    pull_packets 3 (fun _ => Some 0%nat) 0 rd demo_mem = (pkts, Some e, m') /\
    (fun a => content_of (deref a m')) <$> pkts = [content_of demo_video].
Proof.
  apply (relay_transport [demo_video; demo_audio] (13 + length (encode demo_video) + 3)
           (fun _ => Some 0%nat) demo_mem).
  - apply demo_mem_wf.
  - repeat constructor; vm_compute; done.
  - vm_compute. lia.
Defined.

Definition demo_hls_events : list hls_event :=
  [HPacket demo_video None; HTick 2 true; HPacket demo_audio None; HTick 4 true;
   HPacket demo_video None].


Lemma hls_media_sequence_constant_witness :
  exists pl first, playlist (hls_run (hls_start 2 1 0) demo_hls_events) = Some pl /\
    MediaSeq pl = 0 /\ head (Segments pl) = Some first /\ filename first = "seg_1.flv".
Proof.
  pose proof (hls_media_sequence_constant 2 1 0 demo_hls_events eq_refl) as H.
  destruct H as (pl & first & H1 & H2 & H3 & H4 & _); [lia|vm_compute; lia|].
  exists pl, first. split; [exact H1|]. split; [exact H2|]. split; [exact H3|exact H4].
Defined.
