(* ===== verification/Idempotency.v ===== *)
(** * Idempotency store

    [internal/ha/idempotency.go]: entries behind pointers, and any number of
    concurrent [Do] calls as a step relation in which the mutex-protected
    sections ([prepareEntry], [finalizeEntry]) are atomic. *)

From S2P Require Import Prelude.

(** ** State *)

Record CachedResponse := mkResponse {
  StatusCode : Z;
  ContentType : string;
  Body : list byte;
}.

(** [done] is whether the channel is closed; [e_err] is [None] for [nil]. *)
Record idempotencyEntry := mkIdemEntry {
  createdAt : Time;
  expiresAt : Time;
  done : bool;
  ready : bool;
  response : CachedResponse;
  e_err : option string;
}.

Definition no_response : CachedResponse := mkResponse 0 "" [].

(** The map holds pointers; [heap] is what they point to. *)
Record IdempotencyStore := mkIdemStore {
  ttl : Duration;
  maxKeys : nat;
  entries : gmap string nat;
  heap : gmap nat idempotencyEntry;
  fresh : nat;
}.

Definition NewIdempotencyStore (ttl maxKeys : Z) : IdempotencyStore :=
  mkIdemStore (if ttl <=? 0 then 3 * Minute else ttl)
    (Z.to_nat (if maxKeys <=? 0 then 20000 else maxKeys)) ∅ ∅ 0.

Definition set_entries (f : gmap string nat) (s : IdempotencyStore) : IdempotencyStore :=
  mkIdemStore (ttl s) (maxKeys s) f (heap s) (fresh s).

(** ** Operations *)

Definition is_ready (s : IdempotencyStore) (p : nat) : bool :=
  match heap s !! p with Some e => ready e | None => false end.

(** [entry.ready && !now.Before(entry.expiresAt)] *)
Definition expired (now : Time) (s : IdempotencyStore) (p : nat) : bool :=
  match heap s !! p with
  | Some e => ready e && negb (now <? expiresAt e)
  | None => false
  end.

Definition gcLocked (now : Time) (s : IdempotencyStore) : IdempotencyStore :=
  set_entries (filter (fun kp => expired now s kp.2 = false) (entries s)) s.

(** One pass over the map: the ready entry created first (the first met among
    several of the same age). *)
Definition consider (s : IdempotencyStore) (victim : option (string * nat))
    (kp : string * nat) : option (string * nat) :=
  match heap s !! kp.2 with
  | Some e =>
      if ready e then
        match victim with
        | None => Some kp
        | Some v =>
            match heap s !! v.2 with
            | Some ev => if createdAt e <? createdAt ev then Some kp else victim
            | None => victim
            end
        end
      else victim
  | None => victim
  end.

Definition pick_victim (s : IdempotencyStore) : option (string * nat) :=
  foldl (consider s) None (map_to_list (entries s)).

(** The eviction loop: each round removes an entry, so as many rounds as
    entries are enough. *)
Fixpoint enforce_loop (fuel : nat) (s : IdempotencyStore) : IdempotencyStore :=
  match fuel with
  | O => s
  | S fuel =>
      if (maxKeys s <? size (entries s))%nat
      then match pick_victim s with
           | None => s
           | Some (k, _) => enforce_loop fuel (set_entries (delete k (entries s)) s)
           end
      else s
  end.

Definition enforceMaxKeysLocked (s : IdempotencyStore) : IdempotencyStore :=
  enforce_loop (size (entries s)) s.

Definition replayResponse (e : idempotencyEntry) (now : Time) : option CachedResponse :=
  if negb (ready e) || negb (now <? expiresAt e) then None else Some (response e).

(** What [prepareEntry] tells its caller: replay, wait for the entry, or run
    the producer for the new entry. *)
Inductive prepared :=
  | PReplay (p : nat) (resp : CachedResponse)
  | PWait (p : nat)
  | PRun (p : nat).

(** Insert a new entry and make room. *)
Definition insert_entry (key : string) (now : Time) (s : IdempotencyStore)
  : prepared * IdempotencyStore :=
  let p := fresh s in
  let s := mkIdemStore (ttl s) (maxKeys s) (<[key := p]> (entries s))
             (<[p := mkIdemEntry now (now + ttl s) false false no_response None]> (heap s))
             (S p) in
  (PRun p, enforceMaxKeysLocked s).

Definition prepareEntry (key : string) (now : Time) (s : IdempotencyStore)
  : prepared * IdempotencyStore :=
  let s := gcLocked now s in
  match entries s !! key with
  | Some p =>
      match heap s !! p with
      | Some e =>
          match replayResponse e now with
          | Some resp => (PReplay p resp, s)
          | None =>
              if ready e
              then insert_entry key now (set_entries (delete key (entries s)) s)
              else (PWait p, s)
          end
      | None => insert_entry key now s
      end
  | None => insert_entry key now s
  end.

Definition finalizeEntry (key : string) (p : nat) (resp : CachedResponse)
    (err : option string) (now : Time) (s : IdempotencyStore) : IdempotencyStore :=
  if bool_decide (entries s !! key = Some p)
  then
    match err with
    | Some _ =>
        mkIdemStore (ttl s) (maxKeys s) (delete key (entries s))
          (alter (fun e => mkIdemEntry (createdAt e) (expiresAt e) true true (response e) err)
                 p (heap s)) (fresh s)
    | None =>
        mkIdemStore (ttl s) (maxKeys s) (entries s)
          (alter (fun e => mkIdemEntry (createdAt e) (now + ttl s) true true resp None)
                 p (heap s)) (fresh s)
    end
  else s.

(** ** Concurrent calls of [Do] *)

(** A call returned [(resp, replayed, err)], or the error of its context. *)
Inductive result_of_Do :=
  | Responded (resp : CachedResponse) (replayed : bool) (err : option string)
  | Cancelled.

(** Where a call with a non-empty key is: at the top of its loop, waiting for
    [done], running the producer, or returned. *)
Inductive Call :=
  | Looping (key : string)
  | Waiting (key : string) (p : nat)
  | Producing (key : string) (p : nat)
  | Returned (r : result_of_Do).

(** [executed]: the history of the producers that returned, with the time of
    [finalizeEntry]. *)
Record Sys := mkSys {
  store : IdempotencyStore;
  clock : Time;
  calls : gmap nat Call;
  executed : list (string * CachedResponse * option string * Time);
}.

(** [Do], from the top of the loop: one round. *)
Definition loop_round (key : string) (now : Time) (s : IdempotencyStore)
  : Call * IdempotencyStore :=
  match prepareEntry key now s with
  | (PReplay p resp, s) =>
      (Returned (Responded resp true
         (match heap s !! p with Some e => e_err e | None => None end)), s)
  | (PWait p, s) => (Waiting key p, s)
  | (PRun p, s) => (Producing key p, s)
  end.

Inductive step : Sys -> Sys -> Prop :=
  | step_call c key y :
      calls y !! c = None -> key <> "" ->
      step y (mkSys (store y) (clock y) (<[c := Looping key]> (calls y)) (executed y))
  | step_round c key call s y :
      calls y !! c = Some (Looping key) ->
      loop_round key (clock y) (store y) = (call, s) ->
      step y (mkSys s (clock y) (<[c := call]> (calls y)) (executed y))
  | step_wake c key p e y :
      calls y !! c = Some (Waiting key p) -> heap (store y) !! p = Some e -> done e = true ->
      step y (mkSys (store y) (clock y) (<[c := Looping key]> (calls y)) (executed y))
  | step_cancel c key p y :
      calls y !! c = Some (Waiting key p) ->
      step y (mkSys (store y) (clock y) (<[c := Returned Cancelled]> (calls y)) (executed y))
  | step_produced c key p resp err y :
      calls y !! c = Some (Producing key p) ->
      step y (mkSys (finalizeEntry key p resp err (clock y) (store y)) (clock y)
                    (<[c := Returned (Responded resp false err)]> (calls y))
                    ((key, resp, err, clock y) :: executed y))
  | step_time d y :
      0 <= d -> step y (mkSys (store y) (clock y + d) (calls y) (executed y)).

Definition start (ttl maxKeys : Z) (t0 : Time) : Sys :=
  mkSys (NewIdempotencyStore ttl maxKeys) t0 ∅ [].

(** ** Lemmas *)

(** What an entry of the map is: in flight, or a successful execution. *)
Definition entry_ok (y : Sys) (key : string) (p : nat) (e : idempotencyEntry) : Prop :=
  if ready e
  then done e = true /\ e_err e = None /\
       exists t, (key, response e, None, t) ∈ executed y /\ expiresAt e = t + ttl (store y)
  else done e = false /\ exists c, calls y !! c = Some (Producing key p).

Record idem_inv (y : Sys) : Prop := {
  ii_fresh : forall p, (fresh (store y) <= p)%nat -> heap (store y) !! p = None;
  ii_entry : forall key p, entries (store y) !! key = Some p ->
    exists e, heap (store y) !! p = Some e /\ entry_ok y key p e;
  ii_prod : forall c key p, calls y !! c = Some (Producing key p) ->
    entries (store y) !! key = Some p /\
    exists e, heap (store y) !! p = Some e /\ ready e = false;
  ii_uniq : forall c1 c2 k1 k2 p, calls y !! c1 = Some (Producing k1 p) ->
    calls y !! c2 = Some (Producing k2 p) -> c1 = c2;
  ii_wait : forall c key p, calls y !! c = Some (Waiting key p) ->
    exists e, heap (store y) !! p = Some e /\
      (done e = true \/ exists c', calls y !! c' = Some (Producing key p));
}.

(** The eviction only removes ready entries. *)
Definition evicts (s s' : IdempotencyStore) : Prop :=
  heap s' = heap s /\ fresh s' = fresh s /\ ttl s' = ttl s /\ maxKeys s' = maxKeys s /\
  entries s' ⊆ entries s /\
  forall k p, entries s !! k = Some p -> is_ready s p = false -> entries s' !! k = Some p.

Lemma evicts_refl s : evicts s s.
Proof. by split_and!. Qed.

Lemma evicts_trans s1 s2 s3 : evicts s1 s2 -> evicts s2 s3 -> evicts s1 s3.
Proof.
  intros (Hh1 & Hf1 & Ht1 & Hm1 & Hs1 & Hk1) (Hh2 & Hf2 & Ht2 & Hm2 & Hs2 & Hk2).
  split_and!; try congruence; [by etrans|]. intros k p Hp Hr.
  apply Hk2; [by apply Hk1|]. unfold is_ready. by rewrite Hh1.
Qed.

Lemma evicts_delete s k p :
  entries s !! k = Some p -> is_ready s p = true ->
  evicts s (set_entries (delete k (entries s)) s).
Proof.
  intros Hk Hr. split_and!; try done; [apply delete_subseteq|].
  intros k' p' Hp' Hr'. cbn. rewrite lookup_delete_ne; [done|]. congruence.
Qed.

Lemma gcLocked_evicts now s : evicts s (gcLocked now s).
Proof.
  split_and!; try done; [apply map_filter_subseteq|]. intros k p Hk Hr.
  cbn. apply map_lookup_filter_Some. split; [done|]. cbn.
  unfold expired, is_ready in *. by destruct (heap s !! p) as [e|]; [rewrite Hr|].
Qed.

Definition good_victim (s : IdempotencyStore) (v : option (string * nat)) : Prop :=
  match v with
  | Some (k, p) => entries s !! k = Some p /\ is_ready s p = true
  | None => True
  end.

Lemma consider_spec s v k p :
  good_victim s v -> entries s !! k = Some p ->
  good_victim s (consider s v (k, p)) /\
  (consider s v (k, p) = None -> v = None /\ is_ready s p = false).
Proof.
  intros Hv Hk. unfold consider, is_ready. cbn [fst snd].
  destruct (heap s !! p) as [e|] eqn:E; [|done].
  destruct (ready e) eqn:Er; [|done].
  assert (good_victim s (Some (k, p))) as Hkp.
  { split; [done|]. unfold is_ready. by rewrite E. }
  destruct v as [[k' p']|]; [|done].
  destruct (heap s !! (k', p').2) as [e'|]; [|done]. by destruct (createdAt e <? createdAt e').
Qed.

Lemma consider_fold s l : forall v,
  good_victim s v -> (forall kp, kp ∈ l -> entries s !! kp.1 = Some kp.2) ->
  good_victim s (foldl (consider s) v l) /\
  (foldl (consider s) v l = None -> v = None /\ forall kp, kp ∈ l -> is_ready s kp.2 = false).
Proof.
  induction l as [|[k p] l IH]; intros v Hv Hl; cbn [foldl].
  { split; [done|]. intros ->. split; [done|set_solver]. }
  destruct (consider_spec s v k p Hv) as [Hg Hn]; [apply (Hl (k, p)); set_solver|].
  destruct (IH _ Hg) as [IH1 IH2]; [set_solver|]. split; [done|].
  intros [Hc Hr]%IH2. destruct (Hn Hc) as [-> Hp]. split; [done|].
  intros kp [->|Hkp]%elem_of_cons; [done|by apply Hr].
Qed.

Lemma pick_victim_spec s :
  match pick_victim s with
  | Some (k, p) => entries s !! k = Some p /\ is_ready s p = true
  | None => forall k p, entries s !! k = Some p -> is_ready s p = false
  end.
Proof.
  unfold pick_victim.
  destruct (consider_fold s (map_to_list (entries s)) None I) as [Hg Hn].
  { intros [k p]. by rewrite elem_of_map_to_list. }
  destruct (foldl _ _ _) as [[k p]|]; [done|]. intros k p Hk.
  apply (proj2 (Hn eq_refl) (k, p)). by apply elem_of_map_to_list.
Qed.

(** The loop stops below the bound, or when every entry is in flight. *)
Lemma enforce_loop_spec fuel : forall s, (size (entries s) <= fuel)%nat ->
  let s' := enforce_loop fuel s in
  evicts s s' /\
  ((size (entries s') <= maxKeys s)%nat \/
   forall k p, entries s' !! k = Some p -> is_ready s' p = false).
Proof.
  induction fuel as [|fuel IH]; intros s Hs; cbn [enforce_loop]; cbv zeta.
  { split; [apply evicts_refl|]. left. lia. }
  destruct (Nat.ltb_spec (maxKeys s) (size (entries s))); [|by split; [apply evicts_refl|left]].
  pose proof (pick_victim_spec s) as Hv. destruct (pick_victim s) as [[k p]|].
  - destruct Hv as [Hk Hr]. set (s1 := set_entries _ s).
    assert (size (entries s1) <= fuel)%nat as Hs1.
    { unfold s1, set_entries. cbn. rewrite map_size_delete, Hk. cbn. lia. }
    destruct (IH s1 Hs1) as [He Hb]. split; [|exact Hb].
    eapply evicts_trans; [by eapply evicts_delete|exact He].
  - split; [apply evicts_refl|]. by right.
Qed.

(** A new entry [p] for [key], others only evicted. *)
Record inserted (key : string) (now : Time) (p : nat) (s s' : IdempotencyStore) : Prop := {
  in_ptr : p = fresh s;
  in_fresh : fresh s' = S (fresh s);
  in_ttl : ttl s' = ttl s;
  in_max : maxKeys s' = maxKeys s;
  in_heap : heap s' = <[p := mkIdemEntry now (now + ttl s) false false no_response None]> (heap s);
  in_key : entries s' !! key = Some p;
  in_other : forall k q, k <> key -> entries s' !! k = Some q -> entries s !! k = Some q;
  in_kept : forall k q, k <> key -> entries s !! k = Some q -> is_ready s q = false ->
    entries s' !! k = Some q;
  in_was : forall q, entries s !! key = Some q -> is_ready s q = true;
  in_bound : (size (entries s') <= maxKeys s)%nat \/
    forall k q, entries s' !! k = Some q -> is_ready s' q = false;
}.

Definition allocated (s : IdempotencyStore) : Prop :=
  (forall k q, entries s !! k = Some q -> is_Some (heap s !! q)) /\
  (forall q, (fresh s <= q)%nat -> heap s !! q = None).

Lemma insert_entry_spec key now s s0 :
  allocated s -> evicts s0 s ->
  (forall q, entries s0 !! key = Some q -> is_ready s0 q = true) ->
  exists s', insert_entry key now s = (PRun (fresh s), s') /\ inserted key now (fresh s) s0 s'.
Proof.
  intros [Ha1 Ha2] (Eh & Ef & Et & Em & Hsub & Hkeep) Hwas. unfold insert_entry.
  set (s1 := mkIdemStore _ _ _ _ _).
  destruct (enforce_loop_spec (size (entries s1)) s1 (le_n _)) as [(Hh & Hf & Ht & Hm & Hs & Hk) Hb].
  eexists. split; [done|]. fold (enforceMaxKeysLocked s1) in *.
  assert (forall q, is_ready s1 q = if decide (q = fresh s) then false else is_ready s q) as Hready.
  { intros q. unfold is_ready, s1. cbn. case_decide as Hq; [subst|].
    - by rewrite lookup_insert_eq.
    - by rewrite lookup_insert_ne. }
  split.
  - done.
  - by rewrite Hf, <- Ef.
  - by rewrite Ht, <- Et.
  - by rewrite Hm, <- Em.
  - by rewrite Hh, <- Et, <- Eh.
  - apply Hk; [apply lookup_insert_eq|]. by rewrite Hready, decide_True.
  - intros k q Hne Hq. eapply lookup_weaken in Hq; [|exact Hs].
    unfold s1 in Hq. cbn in Hq. rewrite lookup_insert_ne in Hq by done.
    by eapply lookup_weaken.
  - intros k q Hne Hq Hr. pose proof (Hkeep _ _ Hq Hr) as Hq'. apply Hk.
    + unfold s1. cbn. by rewrite lookup_insert_ne.
    + rewrite Hready. case_decide; [done|]. unfold is_ready in *. by rewrite Eh.
  - done.
  - destruct Hb as [Hb|Hb]; [left|by right]. unfold s1 in Hb. cbn in Hb. by rewrite <- Em.
Qed.

Lemma evicts_allocated s s' : allocated s -> evicts s s' -> allocated s'.
Proof.
  intros [H1 H2] (Hh & Hf & _ & _ & Hs & _). split.
  - intros k q Hq. rewrite Hh. eapply H1. by eapply lookup_weaken.
  - intros q. rewrite Hf, Hh. apply H2.
Qed.

Lemma evicts_was s s' key :
  evicts s s' -> (forall q, entries s' !! key = Some q -> is_ready s q = true) ->
  forall q, entries s !! key = Some q -> is_ready s q = true.
Proof.
  intros (_ & _ & _ & _ & _ & Hk) H q Hq. destruct (is_ready s q) eqn:Er; [done|].
  rewrite <- Er. apply H. by apply Hk.
Qed.

Lemma prepareEntry_spec key now s :
  allocated s ->
  match prepareEntry key now s with
  | (PReplay p resp, s') =>
      evicts s s' /\ entries s !! key = Some p /\
      exists e, heap s !! p = Some e /\ ready e = true /\ now < expiresAt e /\ resp = response e
  | (PWait p, s') =>
      evicts s s' /\ entries s !! key = Some p /\
      exists e, heap s !! p = Some e /\ ready e = false
  | (PRun p, s') => inserted key now p s s'
  end.
Proof.
  intros Ha. unfold prepareEntry. pose proof (gcLocked_evicts now s) as Hg.
  set (s1 := gcLocked now s) in *. pose proof (evicts_allocated _ _ Ha Hg) as Ha1.
  assert (heap s1 = heap s) as Eh by done. assert (fresh s1 = fresh s) as Ef by done.
  destruct (entries s1 !! key) as [p|] eqn:Ek.
  2: { destruct (insert_entry_spec key now s1 s Ha1 Hg) as (s' & -> & Hi); [|by rewrite Ef in Hi].
       eapply evicts_was; [exact Hg|]. intros q Hq. congruence. }
  destruct (proj1 Ha1 _ _ Ek) as [e He]. rewrite He. rewrite Eh in He.
  assert (entries s !! key = Some p) as Ek0.
  { destruct Hg as (_ & _ & _ & _ & Hs & _). by eapply lookup_weaken. }
  unfold replayResponse. destruct (ready e) eqn:Er; cbn [negb orb].
  - destruct (Z.ltb_spec now (expiresAt e)); cbn [negb].
    + split_and!; [done..|]. by exists e.
    + set (s2 := set_entries _ s1).
      assert (is_ready s1 p = true) as Hr by (unfold is_ready; by rewrite Eh, He).
      assert (evicts s s2) as Hg2 by (eapply evicts_trans; [exact Hg|by eapply evicts_delete]).
      destruct (insert_entry_spec key now s2 s (evicts_allocated _ _ Ha Hg2) Hg2) as (s' & -> & Hi);
        [|done]. intros q Hq. assert (q = p) as -> by congruence. unfold is_ready. by rewrite He.
  - split_and!; [done..|]. by exists e.
Qed.

(** ** The invariant *)

Lemma idem_inv_allocated y : idem_inv y -> allocated (store y).
Proof.
  intros [Hf He _ _ _]. split; [|done]. intros k q Hq. destruct (He _ _ Hq) as (e & -> & _). eauto.
Qed.

Lemma entry_ok_ext y y' key p e :
  entry_ok y key p e -> ttl (store y') = ttl (store y) ->
  (forall x, x ∈ executed y -> x ∈ executed y') ->
  (forall c, calls y !! c = Some (Producing key p) -> calls y' !! c = Some (Producing key p)) ->
  entry_ok y' key p e.
Proof.
  unfold entry_ok. intros He Ht Hx Hc. rewrite Ht. destruct (ready e); [|naive_solver].
  destruct He as (? & ? & t & ? & ?). split_and!; try done. exists t. auto.
Qed.

(** A call moves between states that run no producer; the store only evicts. *)
Lemma idem_inv_move y c old call s :
  idem_inv y -> calls y !! c = old -> (forall key p, old <> Some (Producing key p)) ->
  (forall key p, call <> Producing key p) -> evicts (store y) s ->
  (forall key p, call = Waiting key p -> exists e, heap s !! p = Some e /\
     (done e = true \/ exists c', calls y !! c' = Some (Producing key p))) ->
  idem_inv (mkSys s (clock y) (<[c := call]> (calls y)) (executed y)).
Proof.
  intros Hy Hc Hold Hnew (Hh & Hf & Ht & Hm & Hsub & Hk) Hw.
  assert (forall c' key p, calls y !! c' = Some (Producing key p) ->
            <[c:=call]> (calls y) !! c' = Some (Producing key p)) as Hp1.
  { intros c' key p Hc'. rewrite lookup_insert_ne; [done|]. intros ->. congruence. }
  assert (forall c' key p, <[c:=call]> (calls y) !! c' = Some (Producing key p) ->
            calls y !! c' = Some (Producing key p)) as Hp2.
  { intros c' key p. destruct (decide (c' = c)) as [->|].
    - rewrite lookup_insert_eq. intros [= ->]. by destruct (Hnew key p).
    - by rewrite lookup_insert_ne. }
  destruct Hy as [Hfr He Hpr Hu Hwt].
  split; cbn [store calls executed clock].
  - intros p. rewrite Hf, Hh. apply Hfr.
  - intros key p Hp. destruct (He key p) as (e & Hhe & Hok); [by eapply lookup_weaken|].
    exists e. rewrite Hh. split; [done|]. by eapply entry_ok_ext; eauto.
  - intros c' key p (Hp & e & Hhe & Hr)%Hp2%Hpr. split; [|exists e; by rewrite Hh].
    apply Hk; [done|]. unfold is_ready. by rewrite Hhe.
  - intros c1 c2 k1 k2 p H1%Hp2 H2%Hp2. by eapply Hu.
  - intros c' key p. destruct (decide (c' = c)) as [->|].
    + rewrite lookup_insert_eq. intros [= ->]. destruct (Hw key p eq_refl) as (e & ? & [?|[c' ?]]).
      * exists e. auto.
      * exists e. split; [done|]. right. exists c'. by apply Hp1.
    + rewrite lookup_insert_ne by done. intros (e & Hhe & [?|[c2 ?]])%Hwt; exists e; rewrite Hh.
      * auto.
      * split; [done|]. right. exists c2. by apply Hp1.
Qed.

(** A call starts its producer on a new entry. *)
Lemma idem_inv_run y c key now p s :
  idem_inv y -> calls y !! c = Some (Looping key) -> inserted key now p (store y) s ->
  idem_inv (mkSys s (clock y) (<[c := Producing key p]> (calls y)) (executed y)).
Proof.
  intros Hy Hc [Hptr Hf Ht Hm Hh Hkey Hoth Hkept Hwas Hb].
  destruct Hy as [Hfr He Hpr Hu Hwt].
  assert (heap (store y) !! p = None) as Hpn by (apply Hfr; lia).
  assert (forall c' k q, calls y !! c' = Some (Producing k q) -> k <> key /\ q <> p /\
            <[c:=Producing key p]> (calls y) !! c' = Some (Producing k q)) as Hp1.
  { intros c' k q Hc'. destruct (Hpr _ _ _ Hc') as (Hq & e & Hhe & Hr). split_and!.
    - intros ->. apply Hwas in Hq. unfold is_ready in Hq. rewrite Hhe in Hq. congruence.
    - congruence.
    - rewrite lookup_insert_ne; [done|]. intros ->. congruence. }
  split; cbn [store calls executed clock].
  - intros q. rewrite Hf, Hh. intros Hq. rewrite lookup_insert_ne by lia. apply Hfr. lia.
  - intros k q Hq. rewrite Hh. destruct (decide (k = key)) as [->|Hne].
    + assert (q = p) as -> by congruence. rewrite lookup_insert_eq. eexists. split; [done|].
      split; [done|]. exists c. apply lookup_insert_eq.
    + destruct (He _ _ (Hoth _ _ Hne Hq)) as (e & Hhe & Hok). exists e.
      rewrite lookup_insert_ne by congruence. split; [done|].
      eapply entry_ok_ext; [exact Hok|done|done|]. intros c' Hc'. by apply Hp1.
  - intros c' k q. destruct (decide (c' = c)) as [->|Hne].
    + rewrite lookup_insert_eq. intros [= <- <-]. split; [done|]. rewrite Hh, lookup_insert_eq. eauto.
    + rewrite lookup_insert_ne by done. intros Hc'. destruct (Hp1 _ _ _ Hc') as (Hk & Hqp & _).
      destruct (Hpr _ _ _ Hc') as (Hq & e & Hhe & Hr). split.
      * apply Hkept; [done..|]. unfold is_ready. by rewrite Hhe.
      * exists e. by rewrite Hh, lookup_insert_ne.
  - intros c1 c2 k1 k2 q.
    destruct (decide (c1 = c)) as [->|], (decide (c2 = c)) as [->|]; [done|..];
      rewrite ?lookup_insert_eq, ?lookup_insert_ne by done.
    + intros [= <- <-] H2. by destruct (Hp1 _ _ _ H2) as (_ & ? & _).
    + intros H1 [= <- <-]. by destruct (Hp1 _ _ _ H1) as (_ & ? & _).
    + apply Hu.
  - intros c' k q. destruct (decide (c' = c)) as [->|]; [by rewrite lookup_insert_eq|].
    rewrite lookup_insert_ne by done. intros (e & Hhe & Hd)%Hwt. exists e.
    rewrite Hh, lookup_insert_ne by congruence. split; [done|].
    destruct Hd as [?|[c2 Hc2]]; [auto|]. right. exists c2. by apply Hp1.
Qed.

(** A producer returned: its entry becomes ready, or goes with its error. *)
Lemma idem_inv_produced y c key p resp err :
  idem_inv y -> calls y !! c = Some (Producing key p) ->
  idem_inv (mkSys (finalizeEntry key p resp err (clock y) (store y)) (clock y)
              (<[c := Returned (Responded resp false err)]> (calls y))
              ((key, resp, err, clock y) :: executed y)).
Proof.
  intros [Hfr He Hpr Hu Hwt] Hc. destruct (Hpr _ _ _ Hc) as (Hkp & e & Hhe & Hr).
  unfold finalizeEntry. rewrite bool_decide_eq_true_2 by done.
  set (e' := match err with
             | Some _ => mkIdemEntry (createdAt e) (expiresAt e) true true (response e) err
             | None => mkIdemEntry (createdAt e) (clock y + ttl (store y)) true true resp None
             end).
  set (ents := match err with
               | Some _ => delete key (entries (store y))
               | None => entries (store y)
               end).
  set (s := match err with Some _ => _ | None => _ end).
  assert (heap s = <[p := e']> (heap (store y)) /\ entries s = ents /\
          ttl s = ttl (store y) /\ fresh s = fresh (store y)) as (Hh & Hen & Ht & Hf).
  { unfold s, e', ents. destruct err; cbn; split_and!; try done;
      apply map_eq; intros q; rewrite lookup_alter, lookup_insert; case_decide; subst;
      by rewrite ?Hhe. }
  assert (forall c' k q, c' <> c -> calls y !! c' = Some (Producing k q) -> q <> p /\ k <> key) as Hp1.
  { intros c' k q Hne Hc'. assert (q <> p) by (intros ->; by destruct (Hne (Hu _ _ _ _ _ Hc' Hc))).
    split; [done|]. intros ->. destruct (Hpr _ _ _ Hc') as [? _]. congruence. }
  split; cbn [store calls executed clock]; rewrite ?Hen.
  - intros q. rewrite Hf, Hh. intros Hq. rewrite lookup_insert_ne; [by apply Hfr|].
    intros <-. by rewrite Hfr in Hhe.
  - intros k q Hq. assert (entries (store y) !! k = Some q) as Hq0.
    { revert Hq. unfold ents. destruct err; [|done]. by intros [_ ?]%lookup_delete_Some. }
    destruct (He _ _ Hq0) as (e0 & He0 & Hok). rewrite Hh.
    destruct (decide (q = p)) as [->|Hne].
    + rewrite lookup_insert_eq. eexists. split; [done|].
      assert (k = key) as ->.
      { unfold entry_ok in Hok. assert (e0 = e) as -> by congruence. rewrite Hr in Hok.
        destruct Hok as (_ & c2 & Hc2). assert (c2 = c) as -> by (by eapply Hu). congruence. }
      unfold e', ents in *. destruct err.
      { by rewrite lookup_delete_eq in Hq. }
      split_and!; try done. exists (clock y). cbn [executed store]. rewrite Ht.
      split; [left|done].
    + rewrite lookup_insert_ne by done. exists e0. split; [done|].
      eapply entry_ok_ext; [exact Hok|done|intros x; right; done|].
      intros c' Hc'. cbn [calls]. rewrite lookup_insert_ne; [done|]. intros <-. congruence.
  - intros c' k q. destruct (decide (c' = c)) as [->|Hne]; [by rewrite lookup_insert_eq|].
    rewrite lookup_insert_ne by done. intros Hc'. destruct (Hp1 _ _ _ Hne Hc') as [Hqp Hkk].
    destruct (Hpr _ _ _ Hc') as (Hq & e0 & He0 & Hr0). split.
    + unfold ents. destruct err; [|done]. by rewrite lookup_delete_ne.
    + exists e0. by rewrite Hh, lookup_insert_ne.
  - intros c1 c2 k1 k2 q.
    destruct (decide (c1 = c)) as [->|]; [by rewrite lookup_insert_eq|].
    destruct (decide (c2 = c)) as [->|]; [by rewrite lookup_insert_eq|].
    rewrite !lookup_insert_ne by done. apply Hu.
  - intros c' k q. destruct (decide (c' = c)) as [->|]; [by rewrite lookup_insert_eq|].
    rewrite lookup_insert_ne by done. intros (e0 & He0 & Hd)%Hwt. rewrite Hh.
    destruct (decide (q = p)) as [->|Hne].
    + rewrite lookup_insert_eq. eexists. split; [done|]. left. unfold e'. by destruct err.
    + rewrite lookup_insert_ne by done. exists e0. split; [done|].
      destruct Hd as [?|[c2 Hc2]]; [by left|]. right. exists c2.
      rewrite lookup_insert_ne; [done|]. intros <-. congruence.
Qed.

Lemma idem_inv_step y y' : step y y' -> idem_inv y -> idem_inv y'.
Proof.
  intros Hs Hy. destruct Hs as
    [c key y Hc Hk|c key call s y Hc E|c key p e y Hc He Hd|c key p y Hc|c key p resp err y Hc|d y Hd].
  - eapply idem_inv_move; [done|exact Hc|done|done|apply evicts_refl|done].
  - unfold loop_round in E. pose proof (prepareEntry_spec key (clock y) (store y)
      (idem_inv_allocated _ Hy)) as HP.
    destruct (prepareEntry key (clock y) (store y)) as [[p resp|p|p] s'].
    + simplify_eq. destruct HP as (Hev & _).
      eapply idem_inv_move; [done|exact Hc|done|done|exact Hev|done].
    + simplify_eq. destruct HP as (Hev & Hk & e & He & Hr).
      eapply idem_inv_move; [done|exact Hc|done|done|exact Hev|].
      intros k q [= <- <-]. exists e. destruct Hev as (-> & _). split; [done|]. right.
      destruct (ii_entry _ Hy _ _ Hk) as (e' & He' & Hok). unfold entry_ok in Hok.
      assert (e' = e) as -> by congruence. rewrite Hr in Hok. by destruct Hok.
    + simplify_eq. by eapply idem_inv_run.
  - eapply idem_inv_move; [done|exact Hc|done|done|apply evicts_refl|done].
  - eapply idem_inv_move; [done|exact Hc|done|done|apply evicts_refl|done].
  - by apply idem_inv_produced.
  - destruct Hy. split; try done.
Qed.

Definition reachable (t k : Z) (t0 : Time) : Sys -> Prop := rtc step (start t k t0).

Lemma reachable_idem_inv t k t0 y : reachable t k t0 y -> idem_inv y.
Proof.
  assert (idem_inv (start t k t0)) as H0 by (split; intros *; cbn; rewrite ?lookup_empty; done).
  unfold reachable. intros H. revert H0. induction H as [|x y z Hxy _ IH]; [done|].
  intros Hx. apply IH. by eapply idem_inv_step.
Qed.

(** ** Properties *)

(** C6: a producer runs once. In every reachable state, under any interleaving
    of calls, cancellations and evictions, at most one call runs the producer
    of a key at a time; its entry is still in the map when it returns (neither
    expiry nor the key limit removes it); and every call that waits has its
    channel closed or the producer it waits for running: no wakeup is lost. *)
Theorem idempotency_single_flight t k t0 y key :
  reachable t k t0 y ->
  (forall c1 c2 p1 p2, calls y !! c1 = Some (Producing key p1) ->
     calls y !! c2 = Some (Producing key p2) -> c1 = c2 /\ entries (store y) !! key = Some p1) /\
  (forall c p, calls y !! c = Some (Waiting key p) ->
     exists e, heap (store y) !! p = Some e /\
       (done e = true \/ exists c', calls y !! c' = Some (Producing key p))).
Proof.
  intros [_ _ Hpr Hu Hwt]%reachable_idem_inv. split; [|intros c p; apply Hwt].
  intros c1 c2 p1 p2 H1 H2. destruct (Hpr _ _ _ H1) as [E1 _], (Hpr _ _ _ H2) as [E2 _].
  assert (p1 = p2) as -> by congruence. split; [by eapply Hu|done].
Qed.

(** a replayed response is genuine and fresh: what a call gets back as a
    replay is the response of an execution of the producer for the same key,
    which succeeded, less than the TTL ago; and it comes without an error. *)
Theorem idempotency_replays_success t k t0 y key resp err s :
  reachable t k t0 y ->
  loop_round key (clock y) (store y) = (Returned (Responded resp true err), s) ->
  err = None /\ exists t', (key, resp, None, t') ∈ executed y /\
    clock y < t' + ttl (store y).
Proof.
  intros Hy%reachable_idem_inv. unfold loop_round.
  pose proof (prepareEntry_spec key (clock y) (store y) (idem_inv_allocated _ Hy)) as HP.
  destruct (prepareEntry key (clock y) (store y)) as [[p r|p|p] s']; try done.
  destruct HP as ((Hh & _) & Hk & e & He & Hr & Hlt & ->). intros [= <- <- _].
  destruct (ii_entry _ Hy _ _ Hk) as (e' & He' & Hok). assert (e' = e) as -> by congruence.
  unfold entry_ok in Hok. rewrite Hr in Hok. destruct Hok as (_ & Herr & t' & Hin & Hexp).
  rewrite Hh, He. split; [done|]. exists t'. split; [done|]. by rewrite <- Hexp.
Qed.

(** the key limit. When a call inserts an entry, the map is cut back to
    [maxKeys] entries unless all the entries left are in flight; entries in
    flight, the new one included, are never evicted. *)
Theorem idempotency_key_limit t k t0 y key p s :
  reachable t k t0 y -> prepareEntry key (clock y) (store y) = (PRun p, s) ->
  entries s !! key = Some p /\
  ((size (entries s) <= maxKeys (store y))%nat \/
   forall k' q, entries s !! k' = Some q -> is_ready s q = false) /\
  (forall k' q, k' <> key -> entries (store y) !! k' = Some q -> is_ready (store y) q = false ->
     entries s !! k' = Some q).
Proof.
  intros Hy%reachable_idem_inv E.
  pose proof (prepareEntry_spec key (clock y) (store y) (idem_inv_allocated _ Hy)) as HP.
  rewrite E in HP. destruct HP. by split_and!.
Qed.

(** ** Witnesses *)

(** One call runs the producer, a second waits, the first returns. *)
Definition demo_resp : CachedResponse := mkResponse 201 "application/json" [x7b; x7d].
Definition demo_y1 : Sys :=
  mkSys (snd (loop_round "k" 10 (NewIdempotencyStore 0 2))) 10
    (<[1%nat := Waiting "k" 0]> (<[1%nat := Looping "k"]>
      (<[0%nat := Producing "k" 0]> (<[0%nat := Looping "k"]> ∅)))) [].
Definition demo_y2 : Sys :=
  mkSys (finalizeEntry "k" 0 demo_resp None 10 (store demo_y1)) 10
    (<[0%nat := Returned (Responded demo_resp false None)]> (calls demo_y1))
    [("k", demo_resp, None, 10)].

Lemma demo_y1_reachable : reachable 0 2 10 demo_y1.
Proof.
  eapply rtc_l; [apply (step_call 0 "k"); [reflexivity|discriminate]|].
  eapply rtc_l; [apply (step_round 0 "k"); [reflexivity|vm_compute; reflexivity]|].
  eapply rtc_l; [apply (step_call 1 "k"); [reflexivity|discriminate]|].
  eapply rtc_l; [apply (step_round 1 "k"); [reflexivity|vm_compute; reflexivity]|].
  apply rtc_refl.
Qed.

Lemma demo_y2_reachable : reachable 0 2 10 demo_y2.
Proof.
  eapply rtc_r; [apply demo_y1_reachable|].
  apply (step_produced 0 "k" 0 demo_resp None demo_y1). reflexivity.
Qed.

Lemma idempotency_single_flight_witness :
  exists e, heap (store demo_y1) !! 0%nat = Some e /\
    (done e = true \/ exists c', calls demo_y1 !! c' = Some (Producing "k" 0)).
Proof.
  apply (idempotency_single_flight 0 2 10 demo_y1 "k" demo_y1_reachable) with (c := 1%nat).
  reflexivity.
Defined.

Lemma idempotency_replays_success_witness :
  exists t', ("k", demo_resp, None, t') ∈ executed demo_y2 /\
    clock demo_y2 < t' + ttl (store demo_y2).
Proof.
  assert (loop_round "k" (clock demo_y2) (store demo_y2)
          = (Returned (Responded demo_resp true None), gcLocked 10 (store demo_y2))) as E
    by (vm_compute; reflexivity).
  exact (proj2 (idempotency_replays_success 0 2 10 demo_y2 "k" demo_resp None _
           demo_y2_reachable E)).
Defined.

Lemma idempotency_key_limit_witness :
  entries (snd (prepareEntry "j" 10 (store demo_y1))) !! "k" = Some 0%nat.
Proof.
  assert (prepareEntry "j" (clock demo_y1) (store demo_y1)
          = (PRun 1%nat, snd (prepareEntry "j" 10 (store demo_y1)))) as E
    by (vm_compute; reflexivity).
  destruct (idempotency_key_limit 0 2 10 demo_y1 "j" 1%nat _ demo_y1_reachable E) as (_ & _ & H).
  apply H; [discriminate|vm_compute; reflexivity|vm_compute; reflexivity].
Defined.
