(* ===== verification/Tracectx.v ===== *)
(** * Trace contexts

    [internal/tracectx/tracectx.go]: the W3C [traceparent] and the identifiers
    of a request. Random bytes are arguments: what [rand.Read] gave ([None] for
    an error) and the formatted time of the fallback. *)

From S2P Require Import Prelude GoStrings.

Record Envelope := mkEnvelope {
  TraceID : string;
  RequestID : string;
  CamID : string;
  StreamID : string;
  ViewerSessionID : string;
  NodeID : string;
  Traceparent : string;
  SpanID : string;
  ParentSpan : string;
}.

Definition no_context : Envelope := mkEnvelope "" "" "" "" "" "" "" "" "".

(** ** Parsing *)

Definition isHex (s : string) : bool := hex_decodable s.

Definition allZeroHex (s : string) : bool := all_bytes (fun a => bool_decide (a = "0"%char)) s.

Definition Parse (raw : string) : option Envelope :=
  let raw := ToLower (TrimSpace raw) in
  match Split "-" raw with
  | [p0; p1; p2; p3] =>
      if negb (len p0 =? 2) || negb (len p1 =? 32) || negb (len p2 =? 16) || negb (len p3 =? 2)
      then None
      else if negb (isHex p0) || negb (isHex p1) || negb (isHex p2) || negb (isHex p3)
      then None
      else if allZeroHex p1 || allZeroHex p2 then None
      else Some (mkEnvelope p1 "" "" "" "" "" raw p2 "")
  | _ => None
  end.

(** ** Generation *)

Definition allZeroBytes (buf : list Z) : bool := forallb (fun b => b =? 0) buf.

(** [fillRandom] on a buffer of [n] bytes; [rnd] is what [rand.Read] wrote,
    [fallback] the formatted time. *)
Definition fillRandom (n : nat) (rnd : option (list Z)) (fallback : list Z) : list Z :=
  match rnd with
  | Some bs =>
      if negb (allZeroBytes bs) then bs
      else
        let buf := (fun i => nth (i mod length fallback) fallback 0) <$> seq 0 n in
        if allZeroBytes buf then <[(n - 1)%nat := 1]> buf else buf
  | None =>
      let buf := (fun i => nth (i mod length fallback) fallback 0) <$> seq 0 n in
      if allZeroBytes buf then <[(n - 1)%nat := 1]> buf else buf
  end.

Definition traceparent (trace span : string) : string :=
  "00-" +:+ trace +:+ "-" +:+ span +:+ "-01".

(** The random input of one call. *)
Record Entropy := mkEntropy {
  trace_rnd : option (list Z);
  span_rnd : option (list Z);
  time_bytes : list Z;
}.

Definition New (r : Entropy) : Envelope :=
  let traceIDHex := EncodeToString (fillRandom 16 (trace_rnd r) (time_bytes r)) in
  let spanIDHex := EncodeToString (fillRandom 8 (span_rnd r) (time_bytes r)) in
  mkEnvelope traceIDHex "" "" "" "" "" (traceparent traceIDHex spanIDHex) spanIDHex "".

Definition Child (r : Entropy) (parent : Envelope) : Envelope :=
  if bool_decide (TraceID parent = "")
  then
    let child := New r in
    mkEnvelope (TraceID child) (RequestID parent) (CamID parent) (StreamID parent)
      (ViewerSessionID parent) (NodeID parent) (Traceparent child) (SpanID child)
      (ParentSpan child)
  else
    let spanIDHex := EncodeToString (fillRandom 8 (span_rnd r) (time_bytes r)) in
    mkEnvelope (TraceID parent) (RequestID parent) (CamID parent) (StreamID parent)
      (ViewerSessionID parent) (NodeID parent) (traceparent (TraceID parent) spanIDHex)
      spanIDHex (SpanID parent).

Definition set_RequestID (id : string) (tc : Envelope) : Envelope :=
  mkEnvelope (TraceID tc) id (CamID tc) (StreamID tc) (ViewerSessionID tc) (NodeID tc)
    (Traceparent tc) (SpanID tc) (ParentSpan tc).

(** [header], [query]: the [traceparent] of the request's header and URL;
    [request_id]: its [x-request-id] header. *)
Definition ExtractOrNew (r : Entropy) (header query request_id : string) : Envelope :=
  let id := TrimSpace request_id in
  match Parse (TrimSpace header) with
  | Some tc => set_RequestID id (Child r tc)
  | None =>
      match Parse (TrimSpace query) with
      | Some tc => set_RequestID id (Child r tc)
      | None => set_RequestID id (New r)
      end
  end.

(** ** Log fields *)

Definition add_field (name value : string) (f : gmap string string) : gmap string string :=
  if bool_decide (value = "") then f else <[name := value]> f.

Definition FieldsFromEnvelope (e : Envelope) : gmap string string :=
  let f :=
    if negb (bool_decide (Traceparent e = "")) && negb (bool_decide (TraceID e = ""))
       && negb (bool_decide (SpanID e = ""))
    then
      let f := <["span_id" := SpanID e]> (<["traceparent" := Traceparent e]>
                 (<["trace_id" := TraceID e]> ∅)) in
      add_field "parent_span_id" (ParentSpan e) f
    else ∅ in
  add_field "request_id" (RequestID e) (add_field "cam_id" (CamID e)
    (add_field "stream_id" (StreamID e) (add_field "viewer_session_id" (ViewerSessionID e)
      (add_field "node_id" (NodeID e) f)))).

(** ** Lemmas *)

(** A trace id or span id as the wire has it. *)
Record wire_id (n : nat) (s : string) : Prop := {
  wi_hex : all_bytes lower_hex s = true;
  wi_len : String.length s = n;
  wi_nonzero : allZeroHex s = false;
}.

Lemma wire_id_EncodeToString bs :
  is_bytes bs -> allZeroBytes bs = false -> wire_id (2 * length bs) (EncodeToString bs).
Proof.
  intros Hb Hz. split; [by apply EncodeToString_hex|apply EncodeToString_length|].
  induction Hb as [|b bs Hb Hbs IH]; [done|]. unfold allZeroHex in *.
  cbn [EncodeToString all_bytes]. cbn in Hz.
  destruct (bool_decide (hex_char (b / 16) = "0"%char)) eqn:E1; [|done].
  destruct (bool_decide (hex_char (b mod 16) = "0"%char)) eqn:E2; [|done]. cbn.
  apply bool_decide_eq_true in E1, E2. apply hex_char_facts in E1, E2; [|lia..].
  assert (b = 0) as -> by lia. apply IH. exact Hz.
Qed.

Lemma is_bytes_insert i bs : is_bytes bs -> is_bytes (<[i := 1]> bs).
Proof. intros H. apply Forall_insert; [done|lia]. Qed.

Lemma allZeroBytes_insert i bs : (i < length bs)%nat -> allZeroBytes (<[i := 1]> bs) = false.
Proof.
  revert i. induction bs as [|b bs IH]; intros [|i] Hi; simpl in *; try lia.
  rewrite IH by lia. apply andb_false_r.
Qed.

Definition entropy_ok (n : nat) (rnd : option (list Z)) (fallback : list Z) : Prop :=
  (forall bs, rnd = Some bs -> length bs = n /\ is_bytes bs) /\
  is_bytes fallback /\ fallback <> [].

(** Whatever the source of randomness does, the buffer is not all zero. *)
Lemma fillRandom_spec n rnd fallback :
  entropy_ok n rnd fallback -> (0 < n)%nat ->
  length (fillRandom n rnd fallback) = n /\ is_bytes (fillRandom n rnd fallback) /\
  allZeroBytes (fillRandom n rnd fallback) = false.
Proof.
  intros (Hr & Hf & Hne) Hn.
  assert (let buf := (fun i => nth (i mod length fallback) fallback 0) <$> seq 0 n in
    let buf' := if allZeroBytes buf then <[(n - 1)%nat := 1]> buf else buf in
    length buf' = n /\ is_bytes buf' /\ allZeroBytes buf' = false) as Hfb.
  { cbv zeta. set (buf := _ <$> _).
    assert (length buf = n) as Hl by (unfold buf; by rewrite length_fmap, length_seq).
    assert (is_bytes buf) as Hb.
    { apply Forall_fmap, Forall_forall. intros i _. unfold compose.
      assert (i mod length fallback < length fallback)%nat as Hi
        by (apply Nat.mod_upper_bound; by destruct fallback).
      unfold is_bytes in Hf. rewrite Forall_forall in Hf. apply Hf.
      apply list_elem_of_In, nth_In, Hi. }
    destruct (allZeroBytes buf) eqn:Ez; [|done].
    rewrite length_insert. split_and!; [done|by apply is_bytes_insert|].
    apply allZeroBytes_insert. lia. }
  unfold fillRandom. destruct rnd as [bs|]; [|exact Hfb].
  destruct (Hr bs eq_refl). destruct (allZeroBytes bs) eqn:Ez; [exact Hfb|done].
Qed.

Lemma lower_hex_not_dash s : all_bytes lower_hex s = true -> contains_byte "-"%char s = false.
Proof. intros H. by eapply all_bytes_contains. Qed.

Lemma lower_hex_decodable s :
  all_bytes lower_hex s = true -> Nat.even (String.length s) = true -> isHex s = true.
Proof.
  intros Hs He. unfold isHex, hex_decodable. rewrite He. cbn.
  eapply all_bytes_impl; [|exact Hs]. intros a Ha. by apply lower_hex_facts.
Qed.

Lemma traceparent_fixed t s :
  wire_id 32 t -> wire_id 16 s -> ToLower (TrimSpace (traceparent t s)) = traceparent t s.
Proof.
  intros [Ht _ _] [Hs _ _].
  assert (TrimSpace (traceparent t s) = traceparent t s) as ->.
  { change (traceparent t s) with (String "0" ("0-" +:+ t +:+ "-" +:+ s +:+ "-01")).
    apply (TrimSpace_graph _ _ "1" ("00-" +:+ t +:+ "-" +:+ s +:+ "-0")); [|done|done].
    rewrite !app_string_assoc. done. }
  unfold traceparent, ToLower. rewrite !map_string_app.
  change (map_string lower t) with (ToLower t). change (map_string lower s) with (ToLower s).
  rewrite (ToLower_lower_hex t), (ToLower_lower_hex s) by done. reflexivity.
Qed.

(** What the generator writes, the parser reads. *)
Lemma Parse_traceparent t s :
  wire_id 32 t -> wire_id 16 s ->
  Parse (traceparent t s) = Some (mkEnvelope t "" "" "" "" "" (traceparent t s) s "").
Proof.
  intros Ht Hs. unfold Parse. rewrite traceparent_fixed by done.
  unfold traceparent at 1.
  change ("00-" +:+ t +:+ "-" +:+ s +:+ "-01")
    with ("00" +:+ String "-" (t +:+ String "-" (s +:+ String "-" "01"))).
  destruct Ht as [Ht Hlt Hzt], Hs as [Hs Hls Hzs].
  rewrite !Split_app by (done || by apply lower_hex_not_dash).
  rewrite Split_no_sep by done. unfold len. rewrite Hlt, Hls. cbn -[isHex allZeroHex].
  rewrite !lower_hex_decodable by (rewrite ?Hlt, ?Hls; done).
  by rewrite Hzt, Hzs.
Qed.

(** An accepted trace context has well-formed ids. *)
Lemma Parse_ids raw tc :
  Parse raw = Some tc ->
  len (TraceID tc) = 32 /\ len (SpanID tc) = 16 /\ isHex (TraceID tc) = true /\
  isHex (SpanID tc) = true /\ allZeroHex (TraceID tc) = false /\
  allZeroHex (SpanID tc) = false /\ ParentSpan tc = "".
Proof.
  unfold Parse. destruct (Split _ _) as [|p0 [|p1 [|p2 [|p3 [|]]]]]; try done.
  destruct (len p0 =? 2), (len p1 =? 32) eqn:E1, (len p2 =? 16) eqn:E2, (len p3 =? 2);
    cbn [negb orb]; try done.
  destruct (isHex p0), (isHex p1) eqn:H1, (isHex p2) eqn:H2, (isHex p3); cbn [negb orb]; try done.
  destruct (allZeroHex p1) eqn:Z1, (allZeroHex p2) eqn:Z2; cbn [orb]; try done.
  intros [= <-]. cbn. apply Z.eqb_eq in E1, E2. by split_and!.
Qed.

Definition not_upper (a : ascii) : bool := negb (in_range 65 90 a).

Lemma lower_not_upper a : not_upper (lower a) = true.
Proof. destruct a as [[] [] [] [] [] [] [] []]; vm_compute; done. Qed.

Lemma hex_not_upper a : hex_digit a = true -> not_upper a = true -> lower_hex a = true.
Proof. destruct a as [[] [] [] [] [] [] [] []]; vm_compute; done. Qed.

Lemma ToLower_not_upper s : all_bytes not_upper (ToLower s) = true.
Proof.
  induction s as [|a s IH]; [done|]. unfold ToLower in *. cbn [map_string all_bytes].
  by rewrite lower_not_upper, IH.
Qed.

Lemma Split_all_bytes f sep s :
  all_bytes f s = true -> Forall (fun p => all_bytes f p = true) (Split sep s).
Proof.
  induction s as [|a s IH]; [intros _; by repeat constructor|]. cbn [all_bytes Split].
  rewrite andb_true_iff. intros [Ha Hs%IH]. destruct (bool_decide (a = sep)); [by constructor|].
  destruct (Split sep s) as [|p ps]; [by repeat constructor; cbn; rewrite Ha|].
  inversion Hs; subst. constructor; [|done]. cbn. by rewrite Ha.
Qed.

Lemma hex_lower s : isHex s = true -> all_bytes not_upper s = true -> all_bytes lower_hex s = true.
Proof.
  unfold isHex, hex_decodable. rewrite andb_true_iff. intros [_ Hh] Hu.
  induction s as [|a s IH]; [done|]. cbn [all_bytes] in *.
  apply andb_true_iff in Hh as [Ha Hh], Hu as [Hua Hu]. by rewrite hex_not_upper, IH.
Qed.

Lemma Parse_wire_ids raw tc :
  Parse raw = Some tc -> wire_id 32 (TraceID tc) /\ wire_id 16 (SpanID tc) /\ ParentSpan tc = "".
Proof.
  intros E. destruct (Parse_ids _ _ E) as (Hl1 & Hl2 & Hh1 & Hh2 & Hz1 & Hz2 & Hp).
  pose proof (Split_all_bytes not_upper "-"%char _ (ToLower_not_upper (TrimSpace raw))) as HF.
  assert (TraceID tc ∈ Split "-" (ToLower (TrimSpace raw)) /\
          SpanID tc ∈ Split "-" (ToLower (TrimSpace raw))) as [Hi1 Hi2].
  { revert E. unfold Parse. destruct (Split _ _) as [|p0 [|p1 [|p2 [|p3 [|]]]]]; try done.
    repeat case_match; try done. intros [= <-]. cbn. set_solver. }
  rewrite Forall_forall in HF. unfold len in *.
  split_and!; [split; [apply hex_lower; [done|by apply HF]|lia|done]..|done].
Qed.

Lemma New_wire_ids r :
  entropy_ok 16 (trace_rnd r) (time_bytes r) -> entropy_ok 8 (span_rnd r) (time_bytes r) ->
  exists t s, wire_id 32 t /\ wire_id 16 s /\
    New r = mkEnvelope t "" "" "" "" "" (traceparent t s) s "".
Proof.
  intros H1 H2. destruct (fillRandom_spec 16 _ _ H1) as (Hl1 & Hb1 & Hz1); [lia|].
  destruct (fillRandom_spec 8 _ _ H2) as (Hl2 & Hb2 & Hz2); [lia|].
  pose proof (wire_id_EncodeToString _ Hb1 Hz1) as Hw1. rewrite Hl1 in Hw1.
  pose proof (wire_id_EncodeToString _ Hb2 Hz2) as Hw2. rewrite Hl2 in Hw2.
  by eexists _, _.
Qed.

(** ** Properties *)

(** trace contexts propagate. Whatever the request carries and whatever the
    source of randomness returns (errors and zero bytes included), the context
    of a request has a [traceparent] that parses back to its own trace and span
    ids. When the header holds a valid [traceparent] (else the query), the
    trace id is the caller's, and the caller's span is recorded as the parent;
    the header is preferred to the query. *)
Theorem trace_context_propagates r header query id :
  entropy_ok 16 (trace_rnd r) (time_bytes r) -> entropy_ok 8 (span_rnd r) (time_bytes r) ->
  let tc := ExtractOrNew r header query id in
  Parse (Traceparent tc) = Some (mkEnvelope (TraceID tc) "" "" "" "" "" (Traceparent tc)
                                            (SpanID tc) "") /\
  RequestID tc = TrimSpace id /\
  forall caller,
    (Parse (TrimSpace header) = Some caller \/
     (Parse (TrimSpace header) = None /\ Parse (TrimSpace query) = Some caller)) ->
    TraceID tc = TraceID caller /\ ParentSpan tc = SpanID caller.
Proof.
  intros H1 H2. cbv zeta.
  assert (forall caller, wire_id 32 (TraceID caller) ->
    exists s, wire_id 16 s /\ Child r caller
      = mkEnvelope (TraceID caller) (RequestID caller) (CamID caller) (StreamID caller)
          (ViewerSessionID caller) (NodeID caller) (traceparent (TraceID caller) s) s
          (SpanID caller)) as Hchild.
  { intros caller [_ Hl _]. unfold Child. rewrite bool_decide_eq_false_2.
    2: { intros E. by rewrite E in Hl. }
    destruct (fillRandom_spec 8 _ _ H2) as (Hl2 & Hb2 & Hz2); [lia|].
    pose proof (wire_id_EncodeToString _ Hb2 Hz2) as Hw2. rewrite Hl2 in Hw2. by eexists. }
  unfold ExtractOrNew. destruct (Parse (TrimSpace header)) as [tc|] eqn:Eh.
  - destruct (Parse_wire_ids _ _ Eh) as (Hw & _ & _). destruct (Hchild tc Hw) as (s & Hs & ->).
    cbn. split_and!; [by apply Parse_traceparent|done|].
    intros caller [[= <-]|[? _]]; done.
  - destruct (Parse (TrimSpace query)) as [tc|] eqn:Eq.
    + destruct (Parse_wire_ids _ _ Eq) as (Hw & _ & _). destruct (Hchild tc Hw) as (s & Hs & ->).
      cbn. split_and!; [by apply Parse_traceparent|done|].
      intros caller [?|[_ [= <-]]]; done.
    + destruct (New_wire_ids r H1 H2) as (t & s & Ht & Hs & ->). cbn.
      split_and!; [by apply Parse_traceparent|done|]. intros caller [?|[_ ?]]; done.
Qed.

(** ** Witnesses *)

Definition demo_entropy : Entropy := mkEntropy None (Some (replicate 8 0)) [50; 48; 50; 54].

Lemma trace_context_propagates_witness :
  let header := " 00-4BF92F3577B34DA6A3CE929D0E0E4736-00f067aa0ba902b7-01 " in
  let tc := ExtractOrNew demo_entropy header "" "req-1" in
  TraceID tc = "4bf92f3577b34da6a3ce929d0e0e4736" /\ ParentSpan tc = "00f067aa0ba902b7" /\
  is_Some (Parse (Traceparent tc)).
Proof.
  intros header tc.
  assert (entropy_ok 16 (trace_rnd demo_entropy) (time_bytes demo_entropy)) as H1.
  { split; [done|]. split; [|done]. repeat constructor; lia. }
  assert (entropy_ok 8 (span_rnd demo_entropy) (time_bytes demo_entropy)) as H2.
  { split; [|apply H1]. intros bs [= <-]. split; [done|]. repeat constructor; lia. }
  destruct (trace_context_propagates demo_entropy header "" "req-1" H1 H2) as (Hp & _ & Hc).
  destruct (Hc (mkEnvelope "4bf92f3577b34da6a3ce929d0e0e4736" "" "" "" "" ""
    "00-4bf92f3577b34da6a3ce929d0e0e4736-00f067aa0ba902b7-01" "00f067aa0ba902b7" "")) as [Ht Hs].
  { left. vm_compute. reflexivity. }
  split; [exact Ht|]. split; [exact Hs|]. eexists. exact Hp.
Defined.
