(* ===== verification/Protocol.v ===== *)
(** * Protocol taxonomy

    [internal/protocol/taxonomy.go]: adapter metadata, the registry indexed by
    id, class and wire name, and the negotiation of a protocol. Classes and ids
    are Go strings. [sort.SliceStable] is a stable sort: on registered ids the
    comparison is a total order, so its result is the sorted permutation. *)

From S2P Require Import Prelude GoStrings.

(** ** Data *)

Definition Class := string.
Definition ID := string.

Definition ClassIngest : Class := "ingest".
Definition ClassControl : Class := "control".
Definition ClassInternalTransport : Class := "internal_transport".
Definition ClassDelivery : Class := "delivery".
Definition ClassRestream : Class := "restream".
Definition ClassStorage : Class := "storage".

Definition IDIngestRTSP : ID := "ingest.rtsp".
Definition IDControlHTTP : ID := "control.http".
Definition IDInternalRelayFLV : ID := "internal_transport.relay_flv".
Definition IDInternalGRPCStream : ID := "internal_transport.grpc_stream".
Definition IDDeliveryWebRTC : ID := "delivery.webrtc".
Definition IDDeliveryHLS : ID := "delivery.hls".
Definition IDRestreamRTSP : ID := "restream.rtsp".
Definition IDStorageRecorder : ID := "storage.recorder".
Definition IDStorageObjectStorage : ID := "storage.object_storage".

Definition classByID : gmap ID Class :=
  list_to_map [(IDIngestRTSP, ClassIngest); (IDControlHTTP, ClassControl);
    (IDInternalRelayFLV, ClassInternalTransport); (IDInternalGRPCStream, ClassInternalTransport);
    (IDDeliveryWebRTC, ClassDelivery); (IDDeliveryHLS, ClassDelivery);
    (IDRestreamRTSP, ClassRestream); (IDStorageRecorder, ClassStorage);
    (IDStorageObjectStorage, ClassStorage)].

Definition validClasses : list Class :=
  [ClassIngest; ClassControl; ClassInternalTransport; ClassDelivery; ClassRestream; ClassStorage].

(** Capability values are [any]; the program stores booleans and strings. *)
Inductive any := AnyBool (b : bool) | AnyString (s : string).

Record AdapterMetadata := mkAdapter {
  a_ID : ID;
  a_Class : Class;
  WireName : string;
  DisplayName : string;
  Capabilities : gmap string any;
  Priority : Z;
}.

Record Registry := mkRegistry {
  byID : gmap ID AdapterMetadata;
  idsByClass : gmap Class (list ID);
  wireByClass : gmap Class (gmap string ID);
}.

Inductive taxonomy_error :=
  | ErrIDRequired
  | ErrClassRequired
  | ErrClassInvalid (c : Class)
  | ErrWireNameRequired
  | ErrNegativePriority
  | ErrWrongClass (id : ID) (expected got : Class)
  | ErrDuplicateID (id : ID)
  | ErrDuplicateWireName (wire : string) (c : Class) (existing : ID)
  | UnsupportedProtocolError (c : Class) (requested : list string).

(** ** Operations *)

Definition Class_Valid (c : Class) : bool := bool_decide (c ∈ validClasses).

Definition ID_Known (id : ID) : bool := bool_decide (is_Some (classByID !! id)).

Definition ID_Class (id : ID) : option Class := classByID !! id.

(** [None]: no error. *)
Definition Validate (m : AdapterMetadata) : option taxonomy_error :=
  if bool_decide (a_ID m = "") then Some ErrIDRequired
  else if bool_decide (a_Class m = "") then Some ErrClassRequired
  else if negb (Class_Valid (a_Class m)) then Some (ErrClassInvalid (a_Class m))
  else if bool_decide (WireName m = "") then Some ErrWireNameRequired
  else if Priority m <? 0 then Some ErrNegativePriority
  else match ID_Class (a_ID m) with
       | Some expected =>
           if negb (bool_decide (expected = a_Class m))
           then Some (ErrWrongClass (a_ID m) expected (a_Class m)) else None
       | None => None
       end.

Definition wires (r : Registry) (c : Class) : gmap string ID := default ∅ (wireByClass r !! c).
Definition ids (r : Registry) (c : Class) : list ID := default [] (idsByClass r !! c).

Definition register (r : Registry) (m : AdapterMetadata) : result taxonomy_error Registry :=
  match Validate m with
  | Some e => Err e
  | None =>
      match byID r !! a_ID m with
      | Some _ => Err (ErrDuplicateID (a_ID m))
      | None =>
          match wires r (a_Class m) !! WireName m with
          | Some existing => Err (ErrDuplicateWireName (WireName m) (a_Class m) existing)
          | None =>
              Ok (mkRegistry (<[a_ID m := m]> (byID r))
                    (<[a_Class m := ids r (a_Class m) ++ [a_ID m]]> (idsByClass r))
                    (<[a_Class m := <[WireName m := a_ID m]> (wires r (a_Class m))]>
                       (wireByClass r)))
          end
      end
  end.

Fixpoint register_all (r : Registry) (l : list AdapterMetadata) : result taxonomy_error Registry :=
  match l with
  | [] => Ok r
  | m :: l => let? r := register r m in register_all r l
  end.

(** The order of [NewRegistry]: by priority, then by id. *)
Definition priority_of (f : gmap ID AdapterMetadata) (id : ID) : Z :=
  match f !! id with Some m => Priority m | None => 0 end.

Definition before_or_same (f : gmap ID AdapterMetadata) (i j : ID) : Prop :=
  priority_of f i < priority_of f j \/
  (priority_of f i = priority_of f j /\ String.le i j).

#[export] Instance before_or_same_dec f i j : Decision (before_or_same f i j).
Proof. unfold before_or_same. apply _. Defined.

Definition empty_registry : Registry := mkRegistry ∅ ∅ ∅.

Definition NewRegistry (adapters : list AdapterMetadata) : result taxonomy_error Registry :=
  let? r := register_all empty_registry adapters in
  Ok (mkRegistry (byID r) (merge_sort (before_or_same (byID r)) <$> idsByClass r)
        (wireByClass r)).

Definition Lookup (r : Registry) (id : ID) : option AdapterMetadata := byID r !! id.

Definition LookupWire (r : Registry) (c : Class) (wire : string) : option AdapterMetadata :=
  match wires r c !! wire with
  | None => None
  | Some id => Lookup r id
  end.

Definition zero_metadata : AdapterMetadata := mkAdapter "" "" "" "" ∅ 0.

Definition AdaptersForClass (r : Registry) (c : Class) : list AdapterMetadata :=
  (fun id => default zero_metadata (Lookup r id)) <$> ids r c.

Definition IDsForClass (r : Registry) (c : Class) : list ID := ids r c.

Definition SupportedWireNames (r : Registry) (c : Class) : list string :=
  WireName <$> AdaptersForClass r c.

(** The set of non-empty names the client sent. *)
Definition supported_set (clientSupported : list string) : gset string :=
  list_to_set (filter (fun p => p <> "") clientSupported).

Fixpoint first_supported (supported : gset string) (l : list AdapterMetadata)
  : option AdapterMetadata :=
  match l with
  | [] => None
  | m :: l =>
      if bool_decide (WireName m ∈ supported) then Some m
      else if bool_decide (a_ID m ∈ supported) then Some m
      else first_supported supported l
  end.

Definition Negotiate (r : Registry) (c : Class) (clientSupported : list string)
  : result taxonomy_error AdapterMetadata :=
  match first_supported (supported_set clientSupported) (AdaptersForClass r c) with
  | Some m => Ok m
  | None => Err (UnsupportedProtocolError c clientSupported)
  end.

Definition NegotiateDelivery (r : Registry) (clientSupported : list string)
  : result taxonomy_error AdapterMetadata := Negotiate r ClassDelivery clientSupported.

(** ** The default registry *)

Definition DefaultAdapters : list AdapterMetadata :=
  [mkAdapter IDIngestRTSP ClassIngest "rtsp" "RTSP ingest"
     {["source" := AnyString "camera"]} 10;
   mkAdapter IDControlHTTP ClassControl "http" "HTTP control"
     {["orchestration" := AnyBool true]} 10;
   mkAdapter IDInternalRelayFLV ClassInternalTransport "relay_flv" "Relay FLV"
     {["service_to_service" := AnyBool true]} 10;
   mkAdapter IDDeliveryWebRTC ClassDelivery "webrtc" "WebRTC delivery"
     (<["reconnect" := AnyBool true]> {["supports_audio" := AnyBool false]}) 10;
   mkAdapter IDDeliveryHLS ClassDelivery "hls" "HLS delivery"
     (<["reconnect" := AnyBool true]> {["supports_audio" := AnyBool false]}) 20;
   mkAdapter IDRestreamRTSP ClassRestream "rtsp" "RTSP restream"
     {["machine_egress" := AnyBool true]} 10;
   mkAdapter IDStorageRecorder ClassStorage "recorder" "Recorder storage"
     {["persistence" := AnyBool true]} 10].

Definition DefaultRegistry : result taxonomy_error Registry := NewRegistry DefaultAdapters.

(** ** Lemmas *)

#[export] Instance before_or_same_total f : Total (before_or_same f).
Proof.
  intros i j. unfold before_or_same.
  destruct (Z.lt_total (priority_of f i) (priority_of f j)) as [?|[?|?]]; [auto| |auto].
  destruct (total String.le i j); auto.
Qed.

#[export] Instance before_or_same_trans f : Transitive (before_or_same f).
Proof.
  intros i j k [?|[? ?]] [?|[? ?]]; unfold before_or_same; [left; lia..|].
  right. split; [lia|]. by etrans.
Qed.

(** The indexes agree. *)
Record registry_inv (r : Registry) : Prop := {
  rv_valid : forall id m, byID r !! id = Some m -> a_ID m = id /\ Validate m = None;
  rv_ids : forall c id, id ∈ ids r c <->
    exists m, byID r !! id = Some m /\ a_Class m = c;
  rv_nodup : forall c, NoDup (ids r c);
  rv_wire : forall c w id, wires r c !! w = Some id <->
    exists m, byID r !! id = Some m /\ a_Class m = c /\ WireName m = w;
}.

Lemma empty_registry_inv : registry_inv empty_registry.
Proof.
  split; unfold ids, wires; cbn.
  - done.
  - intros c id. rewrite lookup_empty. cbn. split; [set_solver|]. by intros (m & ? & _).
  - intros c. rewrite lookup_empty. constructor.
  - intros c w id. rewrite lookup_empty. cbn. rewrite lookup_empty. split; [done|].
    by intros (m & ? & _).
Qed.

Lemma register_inv r m r' :
  registry_inv r -> register r m = Ok r' ->
  registry_inv r' /\ byID r' = <[a_ID m := m]> (byID r) /\ byID r !! a_ID m = None /\
  Validate m = None /\
  (forall id x, byID r !! id = Some x -> a_Class x = a_Class m -> WireName x <> WireName m).
Proof.
  intros [Hv Hi Hn Hw]. unfold register.
  destruct (Validate m) eqn:Ev; [done|]. destruct (byID r !! a_ID m) eqn:Eid; [done|].
  destruct (wires r (a_Class m) !! WireName m) eqn:Ew; [done|]. intros [= <-].
  assert (forall id x, byID r !! id = Some x -> a_Class x = a_Class m ->
            WireName x <> WireName m) as Hnew.
  { intros id x Hx Hc HW. assert (wires r (a_Class m) !! WireName m = Some id) as E
      by (apply Hw; eauto). congruence. }
  split; [|by split_and!]. split; cbn [byID].
  - intros id x [[<- <-]|[_ Hx]]%lookup_insert_Some; [done|by apply Hv].
  - intros c id. unfold ids at 1. cbn [idsByClass]. rewrite lookup_insert.
    case_decide as Hc; cbn.
    + rewrite elem_of_app, list_elem_of_singleton, Hi. split.
      * intros [(x & Hx & Hxc)| ->].
        -- exists x. rewrite lookup_insert_ne by congruence. split; [done|congruence].
        -- exists m. by rewrite lookup_insert_eq.
      * intros (x & [[<- <-]|[Hne Hx]]%lookup_insert_Some & Hxc); [by right|].
        left. exists x. split; [done|congruence].
    + change (id ∈ ids r c <-> exists x, <[a_ID m:=m]> (byID r) !! id = Some x /\ a_Class x = c).
      rewrite Hi. split.
      * intros (x & Hx & Hxc). exists x. rewrite lookup_insert_ne by congruence. done.
      * intros (x & [[<- <-]|[Hne Hx]]%lookup_insert_Some & Hxc); [done|]. eauto.
  - intros c. unfold ids. cbn [idsByClass]. rewrite lookup_insert.
    case_decide as Hc; cbn; [|apply Hn].
    apply NoDup_app. split_and!; [apply Hn| |apply NoDup_singleton].
    intros id (x & Hx & _)%Hi ->%list_elem_of_singleton. congruence.
  - intros c w id. unfold wires at 1. cbn [wireByClass]. rewrite lookup_insert.
    case_decide as Hc; cbn.
    + rewrite lookup_insert_Some, Hw. split.
      * intros [[<- <-]|[Hne (x & Hx & Hxc & HW)]].
        -- exists m. by rewrite lookup_insert_eq.
        -- exists x. rewrite lookup_insert_ne by congruence. split_and!; [done|congruence|done].
      * intros (x & [[<- <-]|[Hne Hx]]%lookup_insert_Some & Hxc & HW); [by left|].
        right. split; [|exists x; split_and!; [done|congruence|done]].
        intros E. eapply (Hnew _ _ Hx); congruence.
    + change (wires r c !! w = Some id <->
        exists x, <[a_ID m:=m]> (byID r) !! id = Some x /\ a_Class x = c /\ WireName x = w).
      rewrite Hw. split.
      * intros (x & Hx & ?). exists x. rewrite lookup_insert_ne by congruence. done.
      * intros (x & [[<- <-]|[Hne Hx]]%lookup_insert_Some & Hxc & HW); [done|]. eauto.
Qed.

Definition class_wire (m : AdapterMetadata) : Class * string := (a_Class m, WireName m).

(** The adapters a registry accepts, after those it has. *)
Definition acceptable (r : Registry) (l : list AdapterMetadata) : Prop :=
  Forall (fun m => Validate m = None) l /\ NoDup (a_ID <$> l) /\ NoDup (class_wire <$> l) /\
  forall m id x, m ∈ l -> byID r !! id = Some x -> id <> a_ID m /\ class_wire x <> class_wire m.

Lemma register_ok_iff r m :
  registry_inv r -> (is_ok (register r m) = true <->
    Validate m = None /\
    forall id x, byID r !! id = Some x -> id <> a_ID m /\ class_wire x <> class_wire m).
Proof.
  intros Hr. unfold register. destruct (Validate m); [cbn; naive_solver|].
  destruct (byID r !! a_ID m) as [x|] eqn:E1; cbn.
  { split; [done|]. intros [_ H]. by destruct (H _ _ E1). }
  destruct (wires r (a_Class m) !! WireName m) as [id|] eqn:E2; cbn.
  - split; [done|]. intros [_ H]. apply (rv_wire _ Hr) in E2 as (x & Hx & Hc & Hw).
    destruct (H _ _ Hx) as [_ Hne]. unfold class_wire in Hne. congruence.
  - split; [|done]. intros _. split; [done|]. intros id x Hx. split; [congruence|].
    unfold class_wire. intros [= Hc Hw].
    assert (wires r (a_Class m) !! WireName m = Some id) as E by (apply (rv_wire _ Hr); eauto).
    congruence.
Qed.

Lemma register_all_spec l : forall r,
  registry_inv r ->
  (is_ok (register_all r l) = true <-> acceptable r l) /\
  (forall r', register_all r l = Ok r' -> registry_inv r' /\
     forall id m, byID r' !! id = Some m <-> byID r !! id = Some m \/ (m ∈ l /\ a_ID m = id)).
Proof.
  induction l as [|m l IH]; intros r Hr; cbn [register_all].
  { split.
    - split; [|done]. intros _. split_and!; [constructor|constructor|constructor|].
      by intros m id x ?%elem_of_nil.
    - intros r' [= <-]. split; [done|]. set_solver. }
  pose proof (register_ok_iff r m Hr) as Hok. destruct (register r m) as [r1|e] eqn:E1; cbn in Hok.
  - destruct (register_inv _ _ _ Hr E1) as (Hr1 & Hb & Hnone & Hval & Hwire).
    destruct (IH r1 Hr1) as [IH1 IH2]. destruct (proj1 Hok eq_refl) as [_ Hdis]. split.
    + rewrite IH1. unfold acceptable. rewrite !fmap_cons, !NoDup_cons, Forall_cons, Hb. split.
      * intros (Hf & Hn1 & Hn2 & Hd).
        assert (forall x, x ∈ l -> a_ID x <> a_ID m /\ class_wire x <> class_wire m) as Hm.
        { intros x Hx. destruct (Hd x (a_ID m) m Hx) as [? ?]; [apply lookup_insert_eq|].
          split; congruence. }
        split_and!; try done.
        -- intros (x & E & Hx)%list_elem_of_fmap. destruct (Hm _ Hx). congruence.
        -- intros (x & E & Hx)%list_elem_of_fmap. destruct (Hm _ Hx). congruence.
        -- intros x id y [-> |Hx]%elem_of_cons Hy; [by eapply Hdis|].
           eapply Hd; [done|]. rewrite lookup_insert_ne; [done|]. congruence.
      * intros ([_ Hf] & [Hn1 Hn1'] & [Hn2 Hn2'] & Hd). split_and!; try done.
        intros x id y Hx [[<- <-]|[_ Hy]]%lookup_insert_Some.
        -- split; intros E; [apply Hn1|apply Hn2]; apply list_elem_of_fmap; eauto.
        -- eapply Hd; [|done]. set_solver.
    + intros r' [Hr' HB]%IH2. split; [done|]. intros id x. rewrite HB, Hb, elem_of_cons.
      rewrite lookup_insert_Some. split.
      * intros [[[<- <-]|[_ ?]]|[? ?]]; auto.
      * intros [Hx|[[-> |?] <-]]; [|auto|auto].
        left. right. split; [congruence|done].
  - split; [|done]. cbn. split; [done|]. intros (Hf & _ & _ & Hd).
    apply Hok. apply Forall_cons in Hf as [Hv _]. split; [done|].
    intros id x Hx. apply (Hd m); [set_solver|done].
Qed.

(** A registry built by [NewRegistry] from [l]. *)
Record built_from (l : list AdapterMetadata) (r : Registry) : Prop := {
  bf_inv : registry_inv r;
  bf_byID : forall id m, byID r !! id = Some m <-> m ∈ l /\ a_ID m = id;
  bf_sorted : forall c, StronglySorted (before_or_same (byID r)) (ids r c);
}.

Lemma NewRegistry_built l r : NewRegistry l = Ok r -> built_from l r.
Proof.
  unfold NewRegistry. destruct (register_all_spec l _ empty_registry_inv) as [_ H].
  destruct (register_all empty_registry l) as [r0|] eqn:E; [|done].
  destruct (H r0 eq_refl) as [Hr0 HB]. intros [= <-].
  assert (forall c, ids (mkRegistry (byID r0) (merge_sort (before_or_same (byID r0)) <$> idsByClass r0)
            (wireByClass r0)) c = merge_sort (before_or_same (byID r0)) (ids r0 c)) as Hids.
  { intros c. unfold ids. cbn [idsByClass]. rewrite lookup_fmap.
    by destruct (idsByClass r0 !! c). }
  split.
  - destruct Hr0 as [Hv Hi Hn Hw]. split; [done|..|done].
    + intros c id. rewrite Hids, merge_sort_Permutation. apply Hi.
    + intros c. rewrite Hids, merge_sort_Permutation. apply Hn.
  - intros id m. cbn [byID]. rewrite HB. cbn. rewrite lookup_empty. naive_solver.
  - intros c. rewrite Hids. apply StronglySorted_merge_sort; apply _.
Qed.

Lemma AdaptersForClass_spec l r c m :
  built_from l r -> (m ∈ AdaptersForClass r c <-> m ∈ l /\ a_Class m = c).
Proof.
  intros [Hr HB _]. unfold AdaptersForClass, Lookup. rewrite list_elem_of_fmap. split.
  - intros (id & -> & (x & Hx & Hc)%(rv_ids _ Hr)). rewrite Hx. cbn.
    by apply HB in Hx as [? _].
  - intros [Hm Hc]. assert (byID r !! a_ID m = Some m) as Hx by (by apply HB).
    exists (a_ID m). rewrite Hx. split; [done|]. apply (rv_ids _ Hr). eauto.
Qed.

Definition preferred (m m' : AdapterMetadata) : Prop :=
  Priority m < Priority m' \/ (Priority m = Priority m' /\ String.le (a_ID m) (a_ID m')).

Lemma AdaptersForClass_sorted l r c :
  built_from l r -> StronglySorted preferred (AdaptersForClass r c).
Proof.
  intros [Hr HB Hs]. unfold AdaptersForClass, Lookup. specialize (Hs c).
  assert (forall id, id ∈ ids r c -> exists m, byID r !! id = Some m /\ a_ID m = id) as Hin.
  { intros id (m & Hm & _)%(rv_ids _ Hr). exists m. split; [done|]. by apply (rv_valid _ Hr) in Hm as []. }
  induction Hs as [|id js Hs IH Hf]; [constructor|]. rewrite fmap_cons. constructor.
  - apply IH. set_solver.
  - destruct (Hin id) as (m & Hm & Hmid); [set_solver|]. rewrite Hm. cbn.
    apply Forall_fmap. rewrite Forall_forall in *. intros j Hj. unfold compose.
    destruct (Hin j) as (x & Hx & Hxid); [set_solver|]. rewrite Hx. cbn.
    specialize (Hf j Hj). unfold before_or_same, priority_of in Hf. rewrite Hm, Hx in Hf.
    unfold preferred. by rewrite Hmid, Hxid.
Qed.

(** The client accepts an adapter by its wire name or by its id. *)
Definition accepts (client : list string) (m : AdapterMetadata) : Prop :=
  WireName m ∈ client \/ a_ID m ∈ client.

Lemma elem_of_supported_set p client : p <> "" -> (p ∈ supported_set client <-> p ∈ client).
Proof.
  intros Hp. unfold supported_set. rewrite elem_of_list_to_set, list_elem_of_filter. naive_solver.
Qed.

Lemma first_supported_spec s l :
  match first_supported s l with
  | Some m => exists l1 l2, l = l1 ++ m :: l2 /\ (WireName m ∈ s \/ a_ID m ∈ s) /\
                forall x, x ∈ l1 -> ~ (WireName x ∈ s \/ a_ID x ∈ s)
  | None => forall x, x ∈ l -> ~ (WireName x ∈ s \/ a_ID x ∈ s)
  end.
Proof.
  induction l as [|m l IH]; cbn [first_supported]; [set_solver|].
  case_bool_decide as H1; [exists [], l; set_solver|].
  case_bool_decide as H2; [exists [], l; set_solver|].
  destruct (first_supported s l) as [x|].
  - destruct IH as (l1 & l2 & -> & Hx & Hl1). exists (m :: l1), l2. split_and!; [done|done|].
    intros y [-> |Hy]%elem_of_cons; [by intros [|]|by apply Hl1].
  - intros y [-> |Hy]%elem_of_cons; [by intros [|]|by apply IH].
Qed.

(** ** Properties *)

(** what the registry accepts. [NewRegistry] succeeds exactly when every
    adapter is valid (in particular a known id has its own class), ids are
    distinct and wire names are distinct within a class. It then holds exactly
    these adapters, and the three indexes agree: by id, by class and wire name,
    and by class in order of priority, ties by id. *)
Theorem NewRegistry_spec l :
  (is_ok (NewRegistry l) = true <->
     Forall (fun m => Validate m = None) l /\ NoDup (a_ID <$> l) /\ NoDup (class_wire <$> l)) /\
  forall r, NewRegistry l = Ok r ->
    (forall id m, Lookup r id = Some m <-> m ∈ l /\ a_ID m = id) /\
    (forall c w m, LookupWire r c w = Some m <-> m ∈ l /\ class_wire m = (c, w)) /\
    (forall c m, m ∈ AdaptersForClass r c <-> m ∈ l /\ a_Class m = c) /\
    (forall c, StronglySorted preferred (AdaptersForClass r c)).
Proof.
  split.
  - destruct (register_all_spec l _ empty_registry_inv) as [H _].
    assert (is_ok (NewRegistry l) = is_ok (register_all empty_registry l)) as ->.
    { unfold NewRegistry. by destruct (register_all empty_registry l). }
    rewrite H. unfold acceptable. split; [naive_solver|]. intros (? & ? & ?). split_and!; try done.
  - intros r Hr%NewRegistry_built. pose proof Hr as [Hi HB _]. split_and!.
    + apply HB.
    + intros c w m. unfold LookupWire, Lookup, class_wire. split.
      * destruct (wires r c !! w) as [id|] eqn:E; [|done]. intros Hm.
        apply (rv_wire _ Hi) in E as (x & Hx & <- & <-). assert (x = m) as -> by congruence.
        split; [by eapply HB|done].
      * intros [Hm [= <- <-]]. assert (byID r !! a_ID m = Some m) as Hx by (by apply HB).
        assert (wires r (a_Class m) !! WireName m = Some (a_ID m)) as -> by (apply (rv_wire _ Hi); eauto).
        done.
    + intros c m. by apply AdaptersForClass_spec.
    + intros c. by eapply AdaptersForClass_sorted.
Qed.

(** negotiation is optimal and complete. The chosen adapter is registered in
    the class and accepted by the client, and every other one the client accepts
    comes after it in the server's preference (priority, then id); the order and
    the repetitions of the client's list are irrelevant. The request is refused
    only when the client accepts no adapter of the class. *)
Theorem Negotiate_optimal l r c client :
  NewRegistry l = Ok r ->
  match Negotiate r c client with
  | Ok m => m ∈ l /\ a_Class m = c /\ accepts client m /\
            forall m', m' ∈ l -> a_Class m' = c -> accepts client m' -> m' = m \/ preferred m m'
  | Err e => e = UnsupportedProtocolError c client /\
             forall m, m ∈ l -> a_Class m = c -> ~ accepts client m
  end.
Proof.
  intros Hr%NewRegistry_built. unfold Negotiate.
  pose proof (first_supported_spec (supported_set client) (AdaptersForClass r c)) as Hfs.
  pose proof (AdaptersForClass_sorted _ _ c Hr) as Hs.
  assert (forall m, m ∈ AdaptersForClass r c ->
    (WireName m ∈ supported_set client \/ a_ID m ∈ supported_set client <-> accepts client m)) as Hacc.
  { intros m Hm. apply (AdaptersForClass_spec _ _ _ _ Hr) in Hm as [Hm _].
    assert (byID r !! a_ID m = Some m) as Hx by (by apply (bf_byID _ _ Hr)).
    destruct (rv_valid _ (bf_inv _ _ Hr) _ _ Hx) as [_ Hv]. revert Hv. unfold Validate.
    case_bool_decide as H1; [done|]. case_bool_decide as H2; [done|].
    destruct (negb _); [done|]. case_bool_decide as H3; [done|]. intros _.
    unfold accepts. by rewrite !elem_of_supported_set. }
  destruct (first_supported _ _) as [m|].
  - destruct Hfs as (l1 & l2 & E & Hm & Hl1). rewrite E in *.
    assert (m ∈ l1 ++ m :: l2) as Hin by set_solver.
    pose proof Hin as Hin'. rewrite <- E in Hin'.
    apply (AdaptersForClass_spec _ _ _ _ Hr) in Hin' as [Hml Hmc].
    split_and!; [done|done|by apply Hacc|]. intros m' Hm' Hc' Ha'.
    assert (m' ∈ l1 ++ m :: l2) as Hin2.
    { rewrite <- E. by apply (AdaptersForClass_spec _ _ _ _ Hr). }
    apply Hacc in Ha'; [|done]. apply elem_of_app in Hin2 as [H1|[-> |H2]%elem_of_cons].
    + by destruct (Hl1 _ H1).
    + by left.
    + right. apply StronglySorted_app in Hs as (_ & _ & Hs).
      apply StronglySorted_cons in Hs as [Hs _]. rewrite Forall_forall in Hs. by apply Hs.
  - split; [done|]. intros m Hm Hc Ha.
    assert (m ∈ AdaptersForClass r c) as Hin by (by apply (AdaptersForClass_spec _ _ _ _ Hr)).
    apply (Hfs _ Hin), Hacc; done.
Qed.


(** A client that lists HLS before WebRTC, twice, and an unknown protocol still
    gets WebRTC: the preference is the server's. *)
Definition client_example : list string := ["hls"; "moq"; "hls"; "webrtc"].

Lemma Negotiate_optimal_witness :
  (let? r := DefaultRegistry in let? m := NegotiateDelivery r client_example in Ok (WireName m))
    = Ok "webrtc" /\
  forall r, DefaultRegistry = Ok r ->
    match Negotiate r ClassDelivery client_example with
    | Ok m => m ∈ DefaultAdapters /\ a_Class m = ClassDelivery /\ accepts client_example m /\ forall m', m' ∈ DefaultAdapters -> a_Class m' = ClassDelivery ->
                accepts client_example m' -> m' = m \/ preferred m m'
    | Err e => e = UnsupportedProtocolError ClassDelivery client_example /\ forall m, m ∈ DefaultAdapters -> a_Class m = ClassDelivery -> ~ accepts client_example m
    end.
Proof.
  split; [vm_compute; reflexivity|].
  intros r Hr. exact (Negotiate_optimal DefaultAdapters r ClassDelivery client_example Hr).
Defined.
