(* ===== verification/Base64.v ===== *)
(** * Raw URL base64

    [encoding/base64]'s [RawURLEncoding], with which the lease tokens are
    written: no padding, the alphabet of RFC 4648 section 5. The decoder skips
    line breaks and does not check the unused bits of the last character, as
    Go's does not outside [Strict] mode. *)

From S2P Require Import Prelude GoStrings.

Definition z2a (z : Z) : ascii := ascii_of_N (Z.to_N z).

(** The character of a 6-bit digit. *)
Definition digit (d : Z) : ascii :=
  z2a (if d <? 26 then 65 + d
       else if d <? 52 then 97 + (d - 26)
       else if d <? 62 then 48 + (d - 52)
       else if d =? 62 then 45 else 95).

Definition undigit (a : ascii) : option Z :=
  let c := a2z a in
  if in_range 65 90 a then Some (c - 65)
  else if in_range 97 122 a then Some (c - 97 + 26)
  else if in_range 48 57 a then Some (c - 48 + 52)
  else if c =? 45 then Some 62
  else if c =? 95 then Some 63
  else None.

(** [RawURLEncoding.EncodeToString] *)
Fixpoint Encode (s : string) : string :=
  match s with
  | EmptyString => ""
  | String a EmptyString =>
      String (digit (a2z a / 4)) (String (digit (a2z a mod 4 * 16)) "")
  | String a (String b EmptyString) =>
      String (digit (a2z a / 4)) (String (digit (a2z a mod 4 * 16 + a2z b / 16))
        (String (digit (a2z b mod 16 * 4)) ""))
  | String a (String b (String c s)) =>
      String (digit (a2z a / 4)) (String (digit (a2z a mod 4 * 16 + a2z b / 16))
        (String (digit (a2z b mod 16 * 4 + a2z c / 64)) (String (digit (a2z c mod 64)) (Encode s))))
  end.

(** The digits of a text, line breaks skipped. *)
Fixpoint digits (s : string) : option (list Z) :=
  match s with
  | EmptyString => Some []
  | String a s =>
      if (a2z a =? 10) || (a2z a =? 13) then digits s
      else match undigit a, digits s with
           | Some d, Some ds => Some (d :: ds)
           | _, _ => None
           end
  end.

Fixpoint join_digits (ds : list Z) : option string :=
  match ds with
  | [] => Some ""
  | [_] => None
  | [d0; d1] => Some (String (z2a (d0 * 4 + d1 / 16)) "")
  | [d0; d1; d2] =>
      Some (String (z2a (d0 * 4 + d1 / 16)) (String (z2a (d1 mod 16 * 16 + d2 / 4)) ""))
  | d0 :: d1 :: d2 :: d3 :: ds =>
      match join_digits ds with
      | Some s => Some (String (z2a (d0 * 4 + d1 / 16))
                   (String (z2a (d1 mod 16 * 16 + d2 / 4)) (String (z2a (d2 mod 4 * 64 + d3)) s)))
      | None => None
      end
  end.

(** [RawURLEncoding.DecodeString] *)
Definition Decode (s : string) : option string :=
  match digits s with Some ds => join_digits ds | None => None end.

(** ** Lemmas *)

Lemma a2z_range a : 0 <= a2z a < 256.
Proof.
  unfold a2z. pose proof (N_ascii_bounded a). lia.
Qed.

Lemma z2a_a2z a : z2a (a2z a) = a.
Proof. unfold z2a, a2z. rewrite N2Z.id. apply ascii_N_embedding. Qed.

(** A digit's character reads back, and is neither a dot nor a line break. *)
Lemma digit_facts d :
  0 <= d < 64 -> undigit (digit d) = Some d /\ digit d <> "."%char /\
  (a2z (digit d) =? 10) || (a2z (digit d) =? 13) = false.
Proof.
  intros Hd. assert (exists k : nat, d = Z.of_nat k /\ (k < 64)%nat) as (k & -> & Hk)
    by (exists (Z.to_nat d); lia).
  do 64 (destruct k as [|k]; [vm_compute; split_and!; done|]). lia.
Qed.

Lemma digits_digit d s :
  0 <= d < 64 -> digits (String (digit d) s) = match digits s with Some ds => Some (d :: ds) | None => None end.
Proof. intros (H1 & _ & H2)%digit_facts. cbn [digits]. by rewrite H1, H2. Qed.

Lemma string_ind3 (P : string -> Prop) :
  P "" -> (forall a, P (String a "")) -> (forall a b, P (String a (String b ""))) ->
  (forall a b c s, P s -> P (String a (String b (String c s)))) -> forall s, P s.
Proof.
  intros H0 H1 H2 H3. fix IH 1. intros [|a [|b [|c s]]]; [done|apply H1|apply H2|apply H3, IH].
Qed.

Lemma Decode_Encode s : Decode (Encode s) = Some s.
Proof.
  enough (exists ds, digits (Encode s) = Some ds /\ join_digits ds = Some s) as (ds & H1 & H2).
  { unfold Decode. by rewrite H1. }
  induction s as [|a|a b|a b c s (ds & IH1 & IH2)] using string_ind3; cbn [Encode].
  - by exists [].
  - pose proof (a2z_range a). rewrite !digits_digit by lia. eexists. split; [done|].
    cbn [join_digits]. assert (a2z a / 4 * 4 + a2z a mod 4 * 16 / 16 = a2z a) as -> by lia.
    by rewrite z2a_a2z.
  - pose proof (a2z_range a). pose proof (a2z_range b). rewrite !digits_digit by lia.
    eexists. split; [done|]. cbn [join_digits].
    assert (a2z a / 4 * 4 + (a2z a mod 4 * 16 + a2z b / 16) / 16 = a2z a) as -> by lia.
    assert ((a2z a mod 4 * 16 + a2z b / 16) mod 16 * 16 + a2z b mod 16 * 4 / 4 = a2z b) as -> by lia.
    by rewrite !z2a_a2z.
  - pose proof (a2z_range a). pose proof (a2z_range b). pose proof (a2z_range c).
    rewrite !digits_digit by lia. rewrite IH1. eexists. split; [done|]. cbn [join_digits]. rewrite IH2.
    assert (a2z a / 4 * 4 + (a2z a mod 4 * 16 + a2z b / 16) / 16 = a2z a) as -> by lia.
    assert ((a2z a mod 4 * 16 + a2z b / 16) mod 16 * 16 + (a2z b mod 16 * 4 + a2z c / 64) / 4 = a2z b)
      as -> by lia.
    assert ((a2z b mod 16 * 4 + a2z c / 64) mod 4 * 64 + a2z c mod 64 = a2z c) as -> by lia.
    by rewrite !z2a_a2z.
Qed.

Lemma contains_digit d s :
  0 <= d < 64 -> contains_byte "." (String (digit d) s) = contains_byte "." s.
Proof. intros (_ & H & _)%digit_facts. cbn [contains_byte]. by rewrite bool_decide_false. Qed.

Lemma Encode_no_dot s : contains_byte "." (Encode s) = false.
Proof.
  induction s as [|a|a b|a b c s IH] using string_ind3; [done|..]; cbn [Encode];
    try pose proof (a2z_range a); try pose proof (a2z_range b); try pose proof (a2z_range c);
    rewrite !contains_digit by lia; done.
Qed.
