(* ===== verification/Redis.v ===== *)
(** * Redis

    What the program relies on of its Redis server, as an interface: string
    keys with a time to live. The client library and the server are not part of
    the repository; a call can fail, with an error that is not interpreted.
    [expiring] is an implementation, used in examples. *)

From S2P Require Import Prelude GoStrings.

(** [SET k v EX ttl], [GET k], [DEL k], [KEYS prefix*], each at a time, and
    what a reader sees of a key at a time. *)
Class Redis (R : Type) := {
  r_Set : R -> Time -> string -> string -> Duration -> result string R;
  r_Get : R -> Time -> string -> result string (option string);
  r_Del : R -> Time -> string -> result string R;
  r_Keys : R -> Time -> string -> result string (list string);
  r_view : R -> Time -> string -> option string;
}.

Class RedisLaws (R : Type) `{!Redis R} : Prop := {
  r_Get_view : forall r t k v, r_Get r t k = Ok v -> v = r_view r t k;
  r_Set_view : forall r t k v ttl r' t' k',
    r_Set r t k v ttl = Ok r' -> 0 < ttl -> t <= t' ->
    r_view r' t' k' =
      if decide (k = k') then (if t' <? t + ttl then Some v else None) else r_view r t' k';
  r_Del_view : forall r t k r' t' k',
    r_Del r t k = Ok r' -> t <= t' ->
    r_view r' t' k' = if decide (k = k') then None else r_view r t' k';
  r_Keys_view : forall r t p ks k,
    r_Keys r t p = Ok ks -> (k ∈ ks <-> HasPrefix k p = true /\ is_Some (r_view r t k));
  r_Keys_NoDup : forall r t p ks, r_Keys r t p = Ok ks -> NoDup ks;
}.

(** ** An implementation: a map with expiry times *)

Notation expiring := (gmap string (string * Time)).

Definition e_view (r : expiring) (t : Time) (k : string) : option string :=
  match r !! k with
  | Some (v, e) => if t <? e then Some v else None
  | None => None
  end.

#[export] Instance expiring_redis : Redis expiring := {
  r_Set r t k v ttl := Ok (<[k := (v, t + ttl)]> r);
  r_Get r t k := Ok (e_view r t k);
  r_Del r t k := Ok (delete k r);
  r_Keys r t p :=
    Ok (filter (fun k => HasPrefix k p = true /\ is_Some (e_view r t k)) (map_to_list r).*1);
  r_view := e_view;
}.

#[export] Instance expiring_laws : RedisLaws expiring.
Proof.
  split; cbn.
  - by intros r t k v [= <-].
  - intros r t k v ttl r' t' k' [= <-] Httl Ht. unfold e_view.
    destruct (decide (k = k')) as [<-|Hne]; [by rewrite lookup_insert_eq|by rewrite lookup_insert_ne].
  - intros r t k r' t' k' [= <-] Ht. unfold e_view.
    destruct (decide (k = k')) as [<-|Hne]; [by rewrite lookup_delete_eq|by rewrite lookup_delete_ne].
  - intros r t p ks k [= <-]. rewrite list_elem_of_filter. split; [by intros [? _]|].
    intros [Hp Hk]. split; [done|]. unfold e_view in Hk.
    destruct (r !! k) as [[v e]|] eqn:E; [|by destruct Hk].
    apply list_elem_of_fmap. exists (k, (v, e)). split; [done|]. by apply elem_of_map_to_list.
  - intros r t p ks [= <-]. apply NoDup_filter, NoDup_fst_map_to_list.
Qed.
