(* ===== verification/Lease.v ===== *)
(** * Session leases

    [internal/ha/lease.go]: leases, their signed tokens, the two stores, and
    the service that issues a lease and renews it against a token.

    The interface [LeaseStore] is the code's [leaseStore]; the memory store and
    the Redis store implement it, and the theorems on the service are proved
    against it. JSON and HMAC-SHA256 are the class [LeaseEnv]; base64 is Base64.v.
    [s.now()] is called by the service and, later, by the store: operations take
    the two times. *)

From S2P Require Import Prelude GoStrings Base64 Redis.

(** ** Data *)

Record Lease := mkLease {
  l_ID : string; l_StreamKey : string; l_TenantID : string; l_DeviceID : string;
  l_ViewerID : string; l_PreferredProtocol : string; l_LastKnownEndpoint : string;
  l_HLSURL : string; l_WebRTCURL : string; l_WebRTCOfferURL : string;
  l_IssuedAt : Time; l_ExpiresAt : Time; ControlPlaneBackend : string }.

Record LeaseInput := mkLeaseInput {
  StreamKey : string; TenantID : string; DeviceID : string; ViewerID : string;
  PreferredProtocol : string; LastKnownEndpoint : string; HLSURL : string;
  WebRTCURL : string; WebRTCOfferURL : string }.

(** [iat] and [exp] are seconds. *)
Record tokenClaims := mkClaims {
  t_LeaseID : string; t_StreamKey : string; t_ViewerID : string;
  t_IssuedAt : Z; t_ExpiresAt : Z }.

Inductive lease_error :=
  | ErrInvalidToken
  | ErrLeaseExpired
  | ErrLeaseMissing
  | ErrStore (e : string)
  | ErrMarshal.

(** ** Libraries *)

(** [json.Marshal] and [json.Unmarshal] on the two types, and
    [hmac.New(sha256.New, key)] on a message. *)
Class LeaseEnv := {
  claims_Marshal : tokenClaims -> option string;
  claims_Unmarshal : string -> option tokenClaims;
  lease_Marshal : Lease -> option string;
  lease_Unmarshal : string -> option Lease;
  hmac_sha256 : string -> string -> string;
}.

Definition ascii_text (s : string) : Prop := all_bytes (in_range 0 127) s = true.

Definition claims_text (c : tokenClaims) : Prop :=
  ascii_text (t_LeaseID c) /\ ascii_text (t_StreamKey c) /\ ascii_text (t_ViewerID c).

Definition lease_text (l : Lease) : Prop :=
  Forall ascii_text [l_ID l; l_StreamKey l; l_TenantID l; l_DeviceID l; l_ViewerID l;
    l_PreferredProtocol l; l_LastKnownEndpoint l; l_HLSURL l; l_WebRTCURL l;
    l_WebRTCOfferURL l; ControlPlaneBackend l].

(** What [json.Marshal] writes, [json.Unmarshal] reads, at least for ASCII. *)
Class LeaseLaws (E : LeaseEnv) : Prop := {
  claims_roundtrip : forall c s, claims_Marshal c = Some s -> claims_text c -> claims_Unmarshal s = Some c;
  lease_roundtrip : forall l s, lease_Marshal l = Some s -> lease_text l -> lease_Unmarshal s = Some l;
}.

(** ** The store interface *)

(** [Save] with the time of the call and the TTL; [Get], which may clean up.
    [store_find] is what the store holds for an identifier at a time. *)
Class LeaseStore (St : Type) := {
  store_Save : St -> Time -> Lease -> Duration -> result string St;
  store_Get : St -> Time -> string -> St * result string (option Lease);
  store_find : St -> Time -> string -> option Lease;
}.

(** A lease is found until it expires, other leases are left alone, and [Get]
    answers with what is found. *)
Class LeaseStoreLaws (St : Type) `{!LeaseStore St} : Prop := {
  save_other : forall st t l ttl st' t' id,
    store_Save st t l ttl = Ok st' -> 0 < ttl -> t <= t' -> id <> l_ID l ->
    store_find st' t' id = store_find st t' id;
  save_live : forall st t l ttl st' t',
    store_Save st t l ttl = Ok st' -> 0 < ttl -> t <= t' -> lease_text l ->
    l_ExpiresAt l <= t + ttl -> t' < l_ExpiresAt l -> store_find st' t' (l_ID l) = Some l;
  save_only : forall st t l ttl st' t' x,
    store_Save st t l ttl = Ok st' -> 0 < ttl -> t <= t' -> lease_text l ->
    store_find st' t' (l_ID l) = Some x -> x = l;
  get_find : forall st t id st' r,
    store_Get st t id = (st', Ok r) -> r = store_find st t id;
  get_frame : forall st t id st' r t' id',
    store_Get st t id = (st', r) -> t <= t' -> store_find st' t' id' = store_find st t' id';
}.

(** ** Memory store *)

Record memoryLeaseStore := mkMemoryStore { items : gmap string Lease }.

Definition newMemoryLeaseStore : memoryLeaseStore := mkMemoryStore ∅.

Definition memory_gcLocked (now : Time) (s : memoryLeaseStore) : memoryLeaseStore :=
  mkMemoryStore (filter (fun kv => ~ l_ExpiresAt kv.2 < now) (items s)).

Definition memory_Save (s : memoryLeaseStore) (now : Time) (lease : Lease) (ttl : Duration)
  : result string memoryLeaseStore :=
  Ok (memory_gcLocked now (mkMemoryStore (<[l_ID lease := lease]> (items s)))).

Definition memory_Get (s : memoryLeaseStore) (now : Time) (leaseID : string)
  : memoryLeaseStore * result string (option Lease) :=
  let s := memory_gcLocked now s in
  (s, Ok (items s !! leaseID)).

#[export] Instance memory_store : LeaseStore memoryLeaseStore := {
  store_Save := memory_Save;
  store_Get := memory_Get;
  store_find s now id := items (memory_gcLocked now s) !! id;
}.

(** ** Redis store *)

Definition leaseKeyPrefix : string := "session_lease:".

Record redisLeaseStore (R : Type) := mkRedisStore { rdb : R }.
Arguments mkRedisStore {R} rdb.
Arguments rdb {R}.

Section RedisStore.
Context `{E : LeaseEnv} {R} `{!Redis R}.

Definition redis_Save (s : redisLeaseStore R) (now : Time) (lease : Lease) (ttl : Duration)
  : result string (redisLeaseStore R) :=
  match lease_Marshal lease with
  | None => Err "json"
  | Some raw =>
      let? r := r_Set (rdb s) now (leaseKeyPrefix +:+ l_ID lease) raw ttl in
      Ok (mkRedisStore r)
  end.

Definition redis_Get (s : redisLeaseStore R) (now : Time) (leaseID : string)
  : redisLeaseStore R * result string (option Lease) :=
  (s, match r_Get (rdb s) now (leaseKeyPrefix +:+ leaseID) with
      | Err e => Err e
      | Ok None => Ok None
      | Ok (Some raw) =>
          match lease_Unmarshal raw with
          | None => Err "json"
          | Some lease => Ok (Some lease)
          end
      end).

#[export] Instance redis_store : LeaseStore (redisLeaseStore R) := {
  store_Save := redis_Save;
  store_Get := redis_Get;
  store_find s now id :=
    match r_view (rdb s) now (leaseKeyPrefix +:+ id) with
    | Some raw => lease_Unmarshal raw
    | None => None
    end;
}.
End RedisStore.

(** ** The service *)

Record LeaseService := mkLeaseService {
  backend : string; ttl : Duration; skew : Duration; secret : string }.

(** [rdb] is whether there is a Redis client. *)
Definition NewLeaseService (rdb : bool) (ttl skew : Duration) (secret : string) : LeaseService :=
  mkLeaseService (if rdb then "redis" else "memory")
    (if ttl <=? 0 then 90 * Second else ttl)
    (if skew <? 0 then 0 else skew)
    (if bool_decide (secret = "") then "dev-only-change-me" else secret).

Section Service.
Context `{E : LeaseEnv} {St} `{!LeaseStore St}.

Definition signature (s : LeaseService) (payload : string) : string :=
  Encode (hmac_sha256 (secret s) payload).

Definition signToken (s : LeaseService) (claims : tokenClaims) : option string :=
  match claims_Marshal claims with
  | None => None
  | Some payloadBytes =>
      let payload := Encode payloadBytes in
      Some (payload +:+ "." +:+ signature s payload)
  end.

Definition parseToken (s : LeaseService) (raw : string) : result lease_error tokenClaims :=
  match Split "." raw with
  | [payload; sig] =>
      if negb (bool_decide (signature s payload = sig)) then Err ErrInvalidToken
      else match Decode payload with
      | None => Err ErrInvalidToken
      | Some data =>
          match claims_Unmarshal data with
          | None => Err ErrInvalidToken
          | Some claims =>
              if bool_decide (t_LeaseID claims = "") || bool_decide (t_StreamKey claims = "")
              then Err ErrInvalidToken else Ok claims
          end
      end
  | _ => Err ErrInvalidToken
  end.

Definition lease_claims (l : Lease) : tokenClaims :=
  mkClaims (l_ID l) (l_StreamKey l) (l_ViewerID l) (Unix (l_IssuedAt l)) (Unix (l_ExpiresAt l)).

Definition with_times (issued expires : Time) (l : Lease) : Lease :=
  mkLease (l_ID l) (l_StreamKey l) (l_TenantID l) (l_DeviceID l) (l_ViewerID l)
    (l_PreferredProtocol l) (l_LastKnownEndpoint l) (l_HLSURL l) (l_WebRTCURL l)
    (l_WebRTCOfferURL l) issued expires (ControlPlaneBackend l).

(** The lease [Issue] makes; [id] is [uuid.NewString()]. *)
Definition new_lease (s : LeaseService) (now : Time) (id : string) (i : LeaseInput) : Lease :=
  mkLease id (TrimSpace (StreamKey i)) (TrimSpace (TenantID i)) (TrimSpace (DeviceID i))
    (TrimSpace (ViewerID i))
    (if bool_decide (TrimSpace (PreferredProtocol i) = "") then "hls"
     else TrimSpace (PreferredProtocol i))
    (TrimSpace (LastKnownEndpoint i)) (TrimSpace (HLSURL i)) (TrimSpace (WebRTCURL i))
    (TrimSpace (WebRTCOfferURL i)) now (now + ttl s) (backend s).

(** [store.Save], then [signToken]: how both operations end. [ts] is the time
    at which the store is called. *)
Definition save_and_sign (s : LeaseService) (st : St) (ts : Time) (lease : Lease)
  : St * result lease_error (Lease * string) :=
  match store_Save st ts lease (ttl s) with
  | Err e => (st, Err (ErrStore e))
  | Ok st =>
      match signToken s (lease_claims lease) with
      | None => (st, Err ErrMarshal)
      | Some token => (st, Ok (lease, token))
      end
  end.

Definition Issue (s : LeaseService) (st : St) (now ts : Time) (id : string) (input : LeaseInput)
  : St * result lease_error (Lease * string) :=
  save_and_sign s st ts (new_lease s now id input).

(** [tg]: when the store is asked for the lease; [ts]: when it is saved. *)
Definition Reattach (s : LeaseService) (st : St) (now tg ts : Time) (token : string)
  : St * result lease_error (Lease * string) :=
  match parseToken s token with
  | Err e => (st, Err e)
  | Ok claims =>
      if (now <? FromUnix (t_IssuedAt claims) - skew s)
         || (FromUnix (t_ExpiresAt claims) + skew s <? now)
      then (st, Err ErrLeaseExpired)
      else match store_Get st tg (t_LeaseID claims) with
      | (st, Err e) => (st, Err (ErrStore e))
      | (st, Ok None) => (st, Err ErrLeaseMissing)
      | (st, Ok (Some lease)) =>
          if negb (bool_decide (l_StreamKey lease = t_StreamKey claims))
             || negb (bool_decide (l_ViewerID lease = t_ViewerID claims))
          then (st, Err ErrInvalidToken)
          else if l_ExpiresAt lease + skew s <? now then (st, Err ErrLeaseExpired)
          else save_and_sign s st ts (with_times now (now + ttl s) lease)
      end
  end.
End Service.

(** ** Steps

    The clients of the service, from a state and a time: each operation starts
    no earlier than the previous one ended, and takes time. New leases have
    identifiers other than [id0], the lease under study. *)

Definition input_text (i : LeaseInput) : Prop :=
  Forall ascii_text [StreamKey i; TenantID i; DeviceID i; ViewerID i; PreferredProtocol i;
    LastKnownEndpoint i; HLSURL i; WebRTCURL i; WebRTCOfferURL i].

Section Steps.
Context `{E : LeaseEnv} {St} `{!LeaseStore St}.

Inductive lease_step (s : LeaseService) (id0 : string) : St * Time -> St * Time -> Prop :=
  | step_Issue st T now ts id input st' r :
      T <= now -> now <= ts -> id <> id0 -> ascii_text id -> input_text input ->
      Issue s st now ts id input = (st', r) -> lease_step s id0 (st, T) (st', ts)
  | step_Reattach st T now tg ts token st' r :
      T <= now -> now <= tg -> tg <= ts ->
      Reattach s st now tg ts token = (st', r) -> lease_step s id0 (st, T) (st', ts).
End Steps.

(** ** The stores implement the interface *)

#[export] Instance memory_laws : LeaseStoreLaws memoryLeaseStore.
Proof.
  assert (forall now s id, items (memory_gcLocked now s) !! id =
    match items s !! id with
    | Some l => if decide (l_ExpiresAt l < now) then None else Some l
    | None => None
    end) as Hgc.
  { intros now s id. unfold memory_gcLocked. cbn [items]. rewrite map_lookup_filter.
    destruct (items s !! id) as [l|]; [|done]. cbn. destruct (decide (l_ExpiresAt l < now));
      [rewrite option_guard_False by naive_solver|rewrite option_guard_True by done]; done. }
  assert (forall t t' s id, t <= t' -> items (memory_gcLocked t' (memory_gcLocked t s)) !! id =
    items (memory_gcLocked t' s) !! id) as Hgc2.
  { intros t t' s id Ht. rewrite !Hgc. destruct (items s !! id) as [l|]; [|done].
    destruct (decide (l_ExpiresAt l < t)); [|done]. by rewrite decide_True by lia. }
  split; cbn [store_Save store_Get store_find memory_store]; unfold memory_Save, memory_Get.
  - intros st t l ttl st' t' id [= <-] _ Ht Hid. rewrite Hgc2 by done.
    rewrite !Hgc. cbn [items]. by rewrite lookup_insert_ne.
  - intros st t l ttl st' t' [= <-] _ Ht _ _ Hlive. rewrite Hgc2 by done.
    rewrite Hgc. cbn [items]. rewrite lookup_insert_eq. by rewrite decide_False by lia.
  - intros st t l ttl st' t' x [= <-] _ Ht _. rewrite Hgc2 by done.
    rewrite Hgc. cbn [items]. rewrite lookup_insert_eq. case_decide; [done|]. by intros [= ->].
  - by intros st t id st' r [= <- <-].
  - intros st t id st' r t' id' [= <- _] Ht. by apply Hgc2.
Qed.

Lemma leaseKey_inj id id' : leaseKeyPrefix +:+ id = leaseKeyPrefix +:+ id' -> id = id'.
Proof. apply (inj (String.append leaseKeyPrefix)). Qed.

#[export] Instance redis_laws `{E : LeaseEnv} `{!LeaseLaws E} {R} `{!Redis R} `{!RedisLaws R} :
  LeaseStoreLaws (redisLeaseStore R).
Proof.
  assert (forall st t l ttl st', redis_Save st t l ttl = Ok st' ->
    exists raw, lease_Marshal l = Some raw /\
      r_Set (rdb st) t (leaseKeyPrefix +:+ l_ID l) raw ttl = Ok (rdb st')) as HS.
  { intros st t l ttl st'. unfold redis_Save. destruct (lease_Marshal l) as [raw|]; [|done].
    destruct (r_Set _ _ _ _ _) as [r|] eqn:Er; [|done]. intros [= <-]. eauto. }
  split; cbn [store_Save store_Get store_find redis_store].
  - intros st t l ttl st' t' id (raw & _ & Er)%HS Httl Ht Hid.
    erewrite (r_Set_view _ _ _ _ _ _ _ _ Er) by done.
    rewrite decide_False by (intros ?%leaseKey_inj; done). done.
  - intros st t l ttl st' t' (raw & Em & Er)%HS Httl Ht Htext Hexp Hlive.
    erewrite (r_Set_view _ _ _ _ _ _ _ _ Er) by done. rewrite decide_True by done.
    destruct (Z.ltb_spec t' (t + ttl)); [|lia]. by eapply lease_roundtrip.
  - intros st t l ttl st' t' x (raw & Em & Er)%HS Httl Ht Htext.
    erewrite (r_Set_view _ _ _ _ _ _ _ _ Er) by done. rewrite decide_True by done.
    destruct (t' <? t + ttl); [|done]. erewrite lease_roundtrip by done. by intros [= ->].
  - intros st t id st' r. unfold redis_Get. intros [= <- Hr].
    destruct (r_Get _ _ _) as [v|] eqn:Eg; [|done]. apply r_Get_view in Eg as ->.
    destruct (r_view _ _ _); [|by injection Hr]. destruct (lease_Unmarshal _); [|done].
    by injection Hr.
  - intros st t id st' r t' id'. unfold redis_Get. by intros [= <- _] _.
Qed.

(** ** Lemmas on text *)

Lemma all_bytes_app f a b : all_bytes f (a +:+ b) = all_bytes f a && all_bytes f b.
Proof.
  induction a as [|x a IH]; [done|]. rewrite app_cons_string. cbn [all_bytes].
  by rewrite IH, andb_assoc.
Qed.

Lemma all_bytes_rev f s : all_bytes f (rev_string s) = all_bytes f s.
Proof.
  unfold rev_string. enough (forall acc, all_bytes f (rev_app s acc) = all_bytes f s && all_bytes f acc)
    as -> by (cbn; by rewrite andb_true_r).
  induction s as [|a s IH]; intros acc; [done|]. cbn [rev_app all_bytes]. rewrite IH. cbn [all_bytes].
  by rewrite andb_assoc, (andb_comm (all_bytes f s)).
Qed.

Lemma strip_any_suffix ps s r : strip_any ps s = Some r -> exists p, s = p +:+ r.
Proof.
  induction ps as [|p ps IH]; [done|]. cbn [strip_any].
  destruct (strip_prefix p s) eqn:Ep; [intros [= ->]; exists p; by apply strip_prefix_Some|done].
Qed.

Lemma all_bytes_trim_left f fuel ps s : all_bytes f s = true -> all_bytes f (trim_left fuel ps s) = true.
Proof.
  revert s. induction fuel as [|fuel IH]; intros s Hs; [done|]. cbn [trim_left].
  destruct (strip_any ps s) as [r|] eqn:Er; [|done]. apply IH.
  apply strip_any_suffix in Er as [p ->]. rewrite all_bytes_app in Hs.
  by apply andb_true_iff in Hs as [_ ?].
Qed.

Lemma ascii_TrimSpace s : ascii_text s -> ascii_text (TrimSpace s).
Proof.
  unfold ascii_text, TrimSpace, TrimRightSpace. intros Hs. rewrite all_bytes_rev.
  apply all_bytes_trim_left. rewrite all_bytes_rev. by apply all_bytes_trim_left.
Qed.

(** ** Lemmas on the service *)

Section Lemmas.
Context `{E : LeaseEnv} `{L : !LeaseLaws E} {St} `{!LeaseStore St} `{!LeaseStoreLaws St}.

Lemma signature_no_dot s p : contains_byte "." (signature s p) = false.
Proof. apply Encode_no_dot. Qed.

Lemma Split_token s payload :
  contains_byte "." payload = false ->
  Split "." (payload +:+ "." +:+ signature s payload) = [payload; signature s payload].
Proof.
  intros Hp. change ("." +:+ ?x) with (String "." x).
  rewrite Split_app by done. by rewrite Split_no_sep by apply signature_no_dot.
Qed.

Lemma parse_sign s c token :
  signToken s c = Some token -> claims_text c -> t_LeaseID c <> "" -> t_StreamKey c <> "" ->
  parseToken s token = Ok c.
Proof.
  unfold signToken, parseToken. destruct (claims_Marshal c) as [raw|] eqn:Em; [|done].
  intros [= <-] Hc Hid Hkey. rewrite Split_token by apply Encode_no_dot.
  rewrite bool_decide_true by done. cbn [negb]. rewrite Decode_Encode.
  erewrite claims_roundtrip by done. by rewrite !bool_decide_false.
Qed.

(** What a store of the service looks like from time [T] on: leases are filed
    under their identifier and have ASCII texts. *)
Definition store_ok (st : St) (T : Time) : Prop :=
  forall t k l, T <= t -> store_find st t k = Some l -> l_ID l = k /\ lease_text l.

(** The lease [l0], issued to expire at [X], is there: later copies differ only
    in their times and expire no earlier. *)
Definition tracked (l0 : Lease) (X : Time) (st : St) (T : Time) : Prop :=
  forall t, T <= t ->
    (t < X -> is_Some (store_find st t (l_ID l0))) /\
    (forall l, store_find st t (l_ID l0) = Some l ->
       exists i e, l = with_times i e l0 /\ X <= e).

Lemma save_and_sign_cases s st ts l st' r :
  save_and_sign s st ts l = (st', r) ->
  (st' = st /\ exists e, r = Err (ErrStore e)) \/
  (store_Save st ts l (ttl s) = Ok st' /\
   (r = Err ErrMarshal \/ exists token, signToken s (lease_claims l) = Some token /\ r = Ok (l, token))).
Proof.
  unfold save_and_sign. destruct (store_Save st ts l (ttl s)) as [st1|e].
  - destruct (signToken _ _); intros [= <- <-]; right; eauto 6.
  - intros [= <- <-]. left. eauto.
Qed.

Lemma new_lease_text s now id i :
  ascii_text id -> ascii_text (backend s) -> input_text i -> lease_text (new_lease s now id i).
Proof.
  unfold input_text, lease_text. rewrite !Forall_cons. intros Hid Hb (?&?&?&?&?&?&?&?&?&_).
  unfold new_lease; cbn. repeat apply conj; try assumption; try (by constructor);
    try (apply ascii_TrimSpace; assumption).
  case_bool_decide; [done|by apply ascii_TrimSpace].
Qed.

Lemma with_times_text i e l : lease_text (with_times i e l) <-> lease_text l.
Proof. done. Qed.

(** Saving a lease of ASCII texts that expires within the TTL. *)
Lemma save_ok s st ts l st' :
  store_Save st ts l (ttl s) = Ok st' -> 0 < ttl s -> lease_text l -> store_ok st ts -> store_ok st' ts.
Proof.
  intros HS Httl Hl Hok t k x Ht Hx. destruct (decide (k = l_ID l)) as [-> |Hne].
  - by assert (x = l) as -> by (by eapply save_only).
  - eapply Hok; [done|]. by erewrite <- save_other.
Qed.

Lemma save_other_tracked s st ts l st' l0 X :
  store_Save st ts l (ttl s) = Ok st' -> 0 < ttl s -> l_ID l <> l_ID l0 ->
  tracked l0 X st ts -> tracked l0 X st' ts.
Proof.
  intros HS Httl Hne Htr t Ht. rewrite (save_other _ _ _ _ _ t _ HS Httl Ht ltac:(done)).
  by apply Htr.
Qed.

Lemma save_own_tracked s st ts i e l0 X st' :
  store_Save st ts (with_times i e l0) (ttl s) = Ok st' -> 0 < ttl s -> lease_text l0 ->
  X <= e -> e <= ts + ttl s -> tracked l0 X st' ts.
Proof.
  intros HS Httl Hl HX He t Ht. split.
  - intros HtX. exists (with_times i e l0).
    change (l_ID l0) with (l_ID (with_times i e l0)).
    eapply save_live; [exact HS|done|done|done|done|cbn; lia].
  - intros l Hf. exists i, e. split; [|done]. by eapply (save_only _ _ _ _ _ t l HS).
Qed.

Lemma store_ok_later st T T' : T <= T' -> store_ok st T -> store_ok st T'.
Proof. intros HT H t k l Ht. apply H. lia. Qed.

Lemma tracked_later l0 X st T T' : T <= T' -> tracked l0 X st T -> tracked l0 X st T'.
Proof. intros HT H t Ht. apply H. lia. Qed.

Lemma get_ok st t id st' r T : store_Get st t id = (st', r) -> t <= T -> store_ok st T -> store_ok st' T.
Proof.
  intros HG Ht H t' k l Ht' Hf. eapply H; [done|]. by erewrite <- get_frame by (done || lia).
Qed.

Lemma get_tracked l0 X st t id st' r T :
  store_Get st t id = (st', r) -> t <= T -> tracked l0 X st T -> tracked l0 X st' T.
Proof.
  intros HG Ht H t' Ht'. rewrite (get_frame _ _ _ _ _ t' _ HG) by lia. by apply H.
Qed.

(** Where a renewal gets to. *)
Lemma Reattach_cases s st now tg ts token st' r :
  Reattach s st now tg ts token = (st', r) ->
  st' = st /\ is_ok r = false \/
  exists claims st1 r1, parseToken s token = Ok claims /\ store_Get st tg (t_LeaseID claims) = (st1, r1) /\
    ((st' = st1 /\ is_ok r = false) \/
     exists lease, r1 = Ok (Some lease) /\
       save_and_sign s st1 ts (with_times now (now + ttl s) lease) = (st', r)).
Proof.
  unfold Reattach. destruct (parseToken s token) as [claims|]; [|intros [= <- <-]; by left].
  destruct (_ || _); [intros [= <- <-]; by left|].
  destruct (store_Get st tg _) as [st1 r1] eqn:HG. intros H. right. exists claims, st1, r1.
  split_and!; [done|done|]. destruct r1 as [[lease|]|e]; [|left; by injection H as <- <-..].
  destruct (_ || _); [left; by injection H as <- <-|].
  destruct (_ <? _); [left; by injection H as <- <-|]. eauto.
Qed.

Lemma lease_step_keeps s l0 X st T st' T' :
  0 < ttl s -> ascii_text (backend s) -> lease_text l0 -> X <= T + ttl s ->
  lease_step s (l_ID l0) (st, T) (st', T') ->
  store_ok st T /\ tracked l0 X st T -> T <= T' /\ store_ok st' T' /\ tracked l0 X st' T'.
Proof.
  intros Httl Hb Hl0 HX Hstep [Hok Htr].
  inversion Hstep as [? ? now ts id input ? r HT Hts Hid Hidt Hin HI|
                      ? ? now tg ts token ? r HT Htg Hts HR]; subst; split; try lia.
  - apply (store_ok_later _ _ T') in Hok; [|lia]. apply (tracked_later _ _ _ _ T') in Htr; [|lia].
    apply save_and_sign_cases in HI as [[-> _]|[HS _]]; [done|].
    split; [eapply save_ok; try done; by apply new_lease_text|by eapply save_other_tracked].
  - apply (store_ok_later _ _ tg) in Hok; [|lia]. apply (tracked_later _ _ _ _ tg) in Htr; [|lia].
    apply Reattach_cases in HR as [[-> _]|(claims & st1 & r1 & _ & HG & HR)].
    { split; [by eapply store_ok_later|by eapply tracked_later]. }
    pose proof (get_ok _ _ _ _ _ T' HG ltac:(lia) (store_ok_later _ _ _ Hts Hok)) as Hok1.
    pose proof (get_tracked _ _ _ _ _ _ _ T' HG ltac:(lia) (tracked_later _ _ _ _ _ Hts Htr)) as Htr1.
    destruct HR as [[-> _]|(lease & -> & HS)]; [done|].
    apply get_find in HG. symmetry in HG. destruct (Hok _ _ _ (Z.le_refl tg) HG) as [Hidl Htl].
    apply save_and_sign_cases in HS as [[-> _]|[HS _]]; [done|].
    split; [by eapply save_ok|]. destruct (decide (t_LeaseID claims = l_ID l0)) as [E0|Hne].
    + rewrite E0 in HG. destruct (Htr tg ltac:(lia)) as [_ Hcopy].
      destruct (Hcopy _ HG) as (i & e & -> & He).
      change (with_times now (now + ttl s) (with_times i e l0)) with (with_times now (now + ttl s) l0) in HS.
      eapply save_own_tracked; [exact HS|done|done|lia|lia].
    + eapply save_other_tracked; [exact HS|done| |done]. cbn. by rewrite Hidl.
Qed.

Lemma lease_steps_keep s l0 X st1 T1 st2 T2 :
  0 < ttl s -> ascii_text (backend s) -> lease_text l0 -> X <= T1 + ttl s ->
  store_ok st1 T1 -> tracked l0 X st1 T1 -> rtc (lease_step s (l_ID l0)) (st1, T1) (st2, T2) ->
  T1 <= T2 /\ store_ok st2 T2 /\ tracked l0 X st2 T2.
Proof.
  intros Httl Hb Hl0 HX Hok Htr H. remember (st1, T1) as y1 eqn:E1. remember (st2, T2) as y2 eqn:E2.
  revert st1 T1 E1 HX Hok Htr. induction H as [y|y [st T] y' Hstep _ IH]; intros st1 T1 E1 HX Hok Htr.
  - rewrite E1 in E2. by injection E2 as -> ->.
  - subst y. destruct (lease_step_keeps _ _ _ _ _ _ _ Httl Hb Hl0 HX Hstep (conj Hok Htr)) as (HT & ? & ?).
    destruct (IH E2 st T) as (? & ? & ?); [done|lia|done..|]. split_and!; [lia|done..].
Qed.

Lemma lease_claims_text l : lease_text l -> claims_text (lease_claims l).
Proof. unfold lease_text. rewrite !Forall_cons. by intros (? & ? & _ & _ & ? & _). Qed.
End Lemmas.

Lemma Split_join sep s :
  match Split sep s with
  | [] => False
  | f :: fs => contains_byte sep f = false /\
      s = foldr (fun g acc x => x +:+ String sep (acc g)) (fun x => x) fs f
  end.
Proof.
  induction s as [|a s IH]; [done|]. cbn [Split]. destruct (Split sep s) as [|f fs]; [done|].
  destruct IH as [Hf Hs]. destruct (bool_decide (a = sep)) eqn:Ea.
  - apply bool_decide_eq_true in Ea as ->. split; [done|]. cbn. by rewrite Hs at 1.
  - cbn. rewrite Ea, Hf. split; [done|]. rewrite Hs at 1. by destruct fs.
Qed.

Lemma Split_two sep s p q :
  Split sep s = [p; q] -> contains_byte sep p = false /\ s = p +:+ String sep q.
Proof. intros Hs. pose proof (Split_join sep s) as H. rewrite Hs in H. by cbn in H. Qed.

(** ** Properties *)

(** C26: lease tokens are authenticated. The service accepts a text exactly when
    it is a payload without dots, a dot, and the base64 of the payload's HMAC
    under the service's secret, and the payload is base64 of claims with a lease
    and a stream: nothing else about the text matters, and any change of the
    signature half is refused. *)
Theorem lease_token_authentic `{E : LeaseEnv} s raw claims :
  parseToken s raw = Ok claims <->
  exists payload data,
    raw = payload +:+ "." +:+ signature s payload /\ contains_byte "." payload = false /\
    Decode payload = Some data /\ claims_Unmarshal data = Some claims /\
    t_LeaseID claims <> "" /\ t_StreamKey claims <> "".
Proof.
  split.
  - unfold parseToken. destruct (Split "." raw) as [|p [|sig [|]]] eqn:Es; [done..| |done].
    apply Split_two in Es as [Hp ->]. case_bool_decide as Hsig; [|done]. cbn [negb].
    destruct (Decode p) as [data|] eqn:Ed; [|done].
    destruct (claims_Unmarshal data) as [c|] eqn:Ec; [|done].
    destruct (_ || _) eqn:En; [done|]. intros [= <-].
    apply orb_false_iff in En as [H1%bool_decide_eq_false H2%bool_decide_eq_false].
    exists p, data. by rewrite Hsig.
  - intros (payload & data & -> & Hp & Hd & Hc & Hid & Hkey). unfold parseToken.
    rewrite Split_token, bool_decide_true by done. cbn [negb]. rewrite Hd, Hc.
    by rewrite !bool_decide_false.
Qed.

(** The second at which the token of a lease issued at [now] expires. *)
Definition token_exp (s : LeaseService) (now : Time) : Time := FromUnix (Unix (now + ttl s)).

(** What a renewal answers. *)
Lemma renewal_outcomes `{E : LeaseEnv} `{L : !LeaseLaws E} {St} `{!LeaseStore St} `{!LeaseStoreLaws St}
    rdb ttl0 skew0 secret0 st0 now0 ts0 id input st1 lease token st2 T now tg ts :
  let s := NewLeaseService rdb ttl0 skew0 secret0 in
  store_ok st0 ts0 -> now0 <= ts0 ->
  id <> "" -> TrimSpace (StreamKey input) <> "" -> ascii_text id -> input_text input ->
  Issue s st0 now0 ts0 id input = (st1, Ok (lease, token)) ->
  rtc (lease_step s id) (st1, ts0) (st2, T) -> T <= now -> now <= tg -> tg <= ts ->
  match snd (Reattach s st2 now tg ts token) with
  | Ok (lease', token') =>
      lease' = with_times now (now + ttl s) lease /\
      parseToken s token' = Ok (lease_claims lease') /\ now <= token_exp s now0 + skew s
  | Err ErrLeaseExpired => token_exp s now0 + skew s < now
  | Err ErrLeaseMissing => token_exp s now0 <= tg
  | Err ErrInvalidToken => False
  | Err (ErrStore _) | Err ErrMarshal => True
  end.
Proof.
  intros s Hok0 Hnow0 Hid Hkey Hidt Hin HI Hsteps HT Htg Hts.
  assert (0 < ttl s) as Httl.
  { cbn. destruct (Z.leb_spec ttl0 0); [|done]. unfold Second, Millisecond. lia. }
  assert (0 <= skew s) as Hskew by (cbn; destruct (Z.ltb_spec skew0 0); lia).
  assert (ascii_text (backend s)) as Hb by (cbn; by destruct rdb).
  set (l0 := new_lease s now0 id input) in *. set (X := now0 + ttl s) in *.
  assert (lease_text l0) as Hl0 by (by apply new_lease_text).
  apply save_and_sign_cases in HI as [(_ & e & ?)|[HS [?|(token' & Hsign & [= -> ->])]]]; [done..|].
  fold l0 in HS, Hsign |- *.
  assert (ts0 <= T /\ store_ok st2 T /\ tracked l0 X st2 T) as (HT0 & Hok & Htr).
  { apply (lease_steps_keep s l0 X st1 ts0 st2 T); [done|done|done|unfold X; lia| | |exact Hsteps].
    - by eapply save_ok.
    - eapply (save_own_tracked _ _ _ now0 X l0 X); [exact HS|..]; unfold X; lia || done. }
  apply (store_ok_later _ _ tg) in Hok; [|lia]. apply (tracked_later _ _ _ _ tg) in Htr; [|lia].
  unfold Reattach. erewrite parse_sign by (done || apply lease_claims_text, Hl0).
  change (t_IssuedAt _) with (Unix now0). change (t_ExpiresAt _) with (Unix X).
  change (t_LeaseID _) with (l_ID l0). change (FromUnix (Unix X)) with (token_exp s now0).
  assert (FromUnix (Unix now0) <= now0 /\ token_exp s now0 <= X) as [Hiat Hexp].
  { unfold token_exp, X, FromUnix, Unix, Second, Millisecond. lia. }
  destruct (Z.ltb_spec now (FromUnix (Unix now0) - skew s)) as [?|_]; [lia|]. cbn [orb].
  destruct (Z.ltb_spec (token_exp s now0 + skew s) now) as [Hlate|Hin_time]; [done|].
  destruct (store_Get st2 tg (l_ID l0)) as [st3 r] eqn:HG. destruct (Htr tg ltac:(lia)) as [Hlive Hcopy].
  destruct r as [[l|]|e]; [| |done]; apply get_find in HG.
  - destruct (Hcopy l ltac:(done)) as (i & e & -> & He).
    change (l_StreamKey _) with (t_StreamKey (lease_claims l0)).
    change (l_ViewerID _) with (t_ViewerID (lease_claims l0)). rewrite !bool_decide_true by done.
    cbn [negb orb]. change (l_ExpiresAt _) with e. destruct (Z.ltb_spec (e + skew s) now); [lia|].
    change (with_times now _ _) with (with_times now (now + ttl s) l0).
    destruct (save_and_sign _ _ _ _) as [st4 r] eqn:HR.
    apply save_and_sign_cases in HR as [(_ & e' & ->)|[_ [-> |(tok & Hsign' & ->)]]]; [done..|].
    cbn [snd]. split_and!; [done| |done]. eapply parse_sign; [exact Hsign'|by apply lease_claims_text|done..].
  - cbn [snd]. destruct (decide (tg < X)) as [Hx|Hx]; [|lia].
    destruct (Hlive Hx) as [? Hl]. congruence.
Qed.

(** C8: a lease lives, and a viewer can renew it, until its token expires. Let
    any clients issue and renew leases, the same token included, after a lease
    was issued; then the token renews the lease as it was issued, with new times,
    and is never called invalid. It is refused as expired only past its expiry
    plus the skew, and as missing only from its expiry on, when the store may
    have dropped the lease; other failures are the store's and the encoder's. *)
Theorem lease_renewable `{E : LeaseEnv} `{L : !LeaseLaws E} {St} `{!LeaseStore St} `{!LeaseStoreLaws St}
    rdb ttl0 skew0 secret0 st0 now0 ts0 id input st1 lease token st2 T now tg ts :
  let s := NewLeaseService rdb ttl0 skew0 secret0 in
  store_ok st0 ts0 -> now0 <= ts0 ->
  id <> "" -> TrimSpace (StreamKey input) <> "" -> ascii_text id -> input_text input ->
  Issue s st0 now0 ts0 id input = (st1, Ok (lease, token)) ->
  rtc (lease_step s id) (st1, ts0) (st2, T) -> T <= now -> now <= tg -> tg <= ts ->
  match snd (Reattach s st2 now tg ts token) with
  | Ok (lease', token') =>
      lease' = with_times now (now + ttl s) lease /\
      parseToken s token' = Ok (lease_claims lease') /\ now <= token_exp s now0 + skew s
  | Err ErrLeaseExpired => token_exp s now0 + skew s < now
  | Err ErrLeaseMissing => token_exp s now0 <= tg
  | Err ErrInvalidToken => False
  | Err (ErrStore _) | Err ErrMarshal => True
  end.
Proof.
  intros s Hok Hnow Hid Hkey Hidt Hin HI Hsteps HT Htg Hts.
  exact (renewal_outcomes _ _ _ _ _ _ _ _ _ _ _ _ _ _ _ _ _ Hok Hnow Hid Hkey Hidt Hin HI Hsteps HT Htg Hts).
Qed.

(** ** Witnesses *)

(** An encoder and a MAC for the examples: the binary digits of the [Countable]
    encoding, and the message under the key. *)
Definition claims_tuple (c : tokenClaims) : list string * (Z * Z) :=
  ([t_LeaseID c; t_StreamKey c; t_ViewerID c], (t_IssuedAt c, t_ExpiresAt c)).
Definition tuple_claims (x : list string * (Z * Z)) : option tokenClaims :=
  match x with ([a; b; c], (i, e)) => Some (mkClaims a b c i e) | _ => None end.
Definition lease_tuple (l : Lease) : list string * (Z * Z) :=
  ([l_ID l; l_StreamKey l; l_TenantID l; l_DeviceID l; l_ViewerID l; l_PreferredProtocol l;
    l_LastKnownEndpoint l; l_HLSURL l; l_WebRTCURL l; l_WebRTCOfferURL l; ControlPlaneBackend l],
   (l_IssuedAt l, l_ExpiresAt l)).
Definition tuple_lease (x : list string * (Z * Z)) : option Lease :=
  match x with
  | ([a; b; c; d; f; g; h; i; j; k; m], (t, e)) => Some (mkLease a b c d f g h i j k t e m)
  | _ => None
  end.

Definition example_env : LeaseEnv := {|
  claims_Marshal c := Some (bits (encode (claims_tuple c)));
  claims_Unmarshal s := decode (A := list string * (Z * Z)) (unbits s) ≫= tuple_claims;
  lease_Marshal l := Some (bits (encode (lease_tuple l)));
  lease_Unmarshal s := decode (A := list string * (Z * Z)) (unbits s) ≫= tuple_lease;
  hmac_sha256 key msg := key +:+ msg;
|}.

#[local] Instance example_laws : LeaseLaws example_env.
Proof.
  split.
  - intros [] s [= <-] _. cbn. by rewrite unbits_bits, decode_encode.
  - intros [] s [= <-] _. cbn. by rewrite unbits_bits, decode_encode.
Qed.

Definition example_input : LeaseInput :=
  mkLeaseInput " cam-1/hd " "acme" "tv" "bob" "" "" "/hls/cam-1" "" "".

Definition example_svc : LeaseService := NewLeaseService false (90 * Second) (2 * Second) "k".

Definition example_issue : memoryLeaseStore * result lease_error (Lease * string) :=
  Issue (E := example_env) example_svc newMemoryLeaseStore 1000 1001 "u-1" example_input.

(** Bob renews eighty seconds later. *)
Lemma lease_renewable_witness :
  exists st lease token, example_issue = (st, Ok (lease, token)) /\
  match snd (Reattach (E := example_env) example_svc st
               (80 * Second) (80 * Second + 1) (80 * Second + 2) token) with
  | Ok (lease', token') =>
      lease' = with_times (80 * Second) (80 * Second + 90 * Second) lease /\
      parseToken (E := example_env) example_svc token' = Ok (lease_claims lease')
  | Err _ => False
  end.
Proof.
  destruct example_issue as [st r] eqn:EI.
  destruct r as [[lease token]|e]; [|vm_compute in EI; discriminate EI].
  exists st, lease, token. split; [reflexivity|].
  pose proof (lease_renewable (E := example_env) false (90 * Second) (2 * Second) "k"
    newMemoryLeaseStore 1000 1001 "u-1" example_input st lease token st 1001
    (80 * Second) (80 * Second + 1) (80 * Second + 2)) as H.
  destruct (Reattach (E := example_env) example_svc st _ _ _ token) as [st' [[lease' token']|e]] eqn:ER.
  - unfold example_svc in ER. cbn zeta in H. rewrite ER in H. cbn [snd] in *.
    destruct H as (H1 & H2 & _).
    + intros t k l _ Hl. vm_compute in Hl. discriminate Hl.
    + lia.
    + discriminate.
    + vm_compute. discriminate.
    + vm_compute. reflexivity.
    + repeat constructor.
    + exact EI.
    + apply rtc_refl.
    + vm_compute. discriminate.
    + lia.
    + lia.
    + split; [exact H1|exact H2].
  - exfalso. revert ER. vm_compute in EI. injection EI as <- <- <-. vm_compute. discriminate.
Defined.
