(* ===== verification/Health.v ===== *)
(** * Health snapshots and retries

    [internal/ha/health.go] and [retry.go]. A dependency check and the retried
    function are what they return; the goroutines of [Snapshot] are the order in
    which they write their slots. The delays of [Retry], computed in floating
    point, matter only through whether the context ended while waiting. *)

From S2P Require Import Prelude.

(** ** Health *)

Inductive HealthMode := ModeNormal | ModeDegradedControlPlane.
(** [NoStatus]: the zero value. *)
Inductive DependencyStatus := DependencyUp | DependencyDown | NoStatus.

#[export] Instance HealthMode_eq_dec : EqDecision HealthMode.
Proof. solve_decision. Defined.
#[export] Instance DependencyStatus_eq_dec : EqDecision DependencyStatus.
Proof. solve_decision. Defined.

(** [Check]: [None] is a nil function; otherwise the error it returns, and the
    times before and after the call. *)
Record Dependency := mkDependency {
  Name : string; Required : bool; CheckFn : option (option string * Time * Time) }.

Record DependencyResult := mkResult {
  r_Name : string; r_Required : bool; r_Status : DependencyStatus; LatencyMs : Z; r_Error : string }.

Record Snapshot := mkSnapshot {
  Status : string; Mode : HealthMode; CheckedAt : Time; Dependencies : list DependencyResult }.

(** [d.Milliseconds()] *)
Definition Milliseconds (d : Duration) : Z := Z.quot d Millisecond.

Definition NewMonitor_timeout (timeout : Duration) : Duration :=
  if timeout <=? 0 then 1200 * Millisecond else timeout.

(** The goroutine of a dependency: what it writes. *)
Definition check_one (dep : Dependency) : DependencyResult :=
  match CheckFn dep with
  | None => mkResult (Name dep) (Required dep) DependencyDown 0 "dependency check function is nil"
  | Some (err, start, stop) =>
      match err with
      | None => mkResult (Name dep) (Required dep) DependencyUp (Milliseconds (stop - start)) ""
      | Some e => mkResult (Name dep) (Required dep) DependencyDown (Milliseconds (stop - start)) e
      end
  end.

Definition zero_result : DependencyResult := mkResult "" false NoStatus 0 "".

(** Goroutine [i] writes slot [i]. *)
Definition write_slot (deps : list Dependency) (results : list DependencyResult) (i : nat)
  : list DependencyResult :=
  match deps !! i with Some dep => <[i := check_one dep]> results | None => results end.

(** A required dependency is down. *)
Definition is_down (r : DependencyResult) : bool := r_Required r && bool_decide (r_Status r = DependencyDown).

(** The loop over the results, which stops at the first required one down. *)
Fixpoint degrade (results : list DependencyResult) (out : string * HealthMode) : string * HealthMode :=
  match results with
  | [] => out
  | r :: results => if is_down r then ("degraded", ModeDegradedControlPlane) else degrade results out
  end.

(** [order]: in which order the goroutines write their results. *)
Definition TakeSnapshot (deps : list Dependency) (now : Time) (order : list nat) : Snapshot :=
  match deps with
  | [] => mkSnapshot "healthy" ModeNormal now []
  | _ =>
      let results := foldl (write_slot deps) (replicate (length deps) zero_result) order in
      let '(status, mode) := degrade results ("healthy", ModeNormal) in
      mkSnapshot status mode now results
  end.

(** ** Retry *)

(** [Multiplier] and [JitterFraction] are left out. *)
Record RetryPolicy := mkPolicy { Attempts : Z; InitialDelay : Duration; MaxDelay : Duration }.

Definition withDefaults (p : RetryPolicy) : RetryPolicy :=
  mkPolicy (if Attempts p <=? 0 then 3 else Attempts p)
    (if InitialDelay p <=? 0 then 150 * Millisecond else InitialDelay p)
    (if MaxDelay p <=? 0 then 1200 * Millisecond else MaxDelay p).

Section Retry.
(** The errors of the function and of the context, [None] for [nil]. *)
Context {Er : Type}.

(** [fn i]: what call [i] returns; [done i]: the context's error if it ended
    during the wait that follows it. The result, and how many calls were made.
    [k] attempts are left. *)
Fixpoint retry_loop (fn ctx_done : Z -> option Er) (lastErr : option Er) (attempt : Z) (k : nat)
  : option Er * Z :=
  match k with
  | O => (lastErr, attempt - 1)
  | S k =>
      match fn attempt with
      | None => (None, attempt)
      | Some err =>
          match k with
          | O => (Some err, attempt)
          | _ =>
              match ctx_done attempt with
              | Some e => (Some e, attempt)
              | None => retry_loop fn ctx_done (Some err) (attempt + 1) k
              end
          end
      end
  end.

Definition Retry (policy : RetryPolicy) (fn ctx_done : Z -> option Er) : option Er * Z :=
  retry_loop fn ctx_done None 1 (Z.to_nat (Attempts (withDefaults policy))).
End Retry.

(** ** Lemmas *)

Lemma write_slots deps order : forall results,
  length results = length deps ->
  length (foldl (write_slot deps) results order) = length deps /\
  forall i d, deps !! i = Some d ->
    foldl (write_slot deps) results order !! i
    = if decide (i ∈ order) then Some (check_one d) else results !! i.
Proof.
  induction order as [|j order IH]; intros results Hlen; cbn [foldl].
  { split; [done|]. intros i d Hi. by rewrite decide_False by apply not_elem_of_nil. }
  assert (length (write_slot deps results j) = length deps) as Hlen'
    by (unfold write_slot; destruct (deps !! j); by rewrite ?length_insert).
  destruct (IH _ Hlen') as [H1 H2]. split; [done|]. intros i d Hi. rewrite (H2 _ _ Hi).
  destruct (decide (i ∈ order)) as [Hin|Hin]; [by rewrite decide_True by set_solver|].
  unfold write_slot. destruct (decide (i = j)) as [->|Hne].
  - rewrite Hi, list_lookup_insert_eq; [by rewrite decide_True by set_solver|].
    rewrite Hlen. by eapply lookup_lt_Some.
  - rewrite decide_False by set_solver. destruct (deps !! j); [|done]. by rewrite list_lookup_insert_ne.
Qed.

Lemma degrade_spec results out :
  degrade results out = if existsb is_down results then ("degraded", ModeDegradedControlPlane) else out.
Proof. induction results as [|r l IH]; [done|]. cbn. by destruct (is_down r). Qed.

(** [TakeSnapshot] is the sequential one. *)
Lemma TakeSnapshot_results deps now order :
  order ≡ₚ seq 0 (length deps) ->
  TakeSnapshot deps now order =
    let down := existsb is_down (check_one <$> deps) in
    mkSnapshot (if down then "degraded" else "healthy")
      (if down then ModeDegradedControlPlane else ModeNormal) now (check_one <$> deps).
Proof.
  intros Hperm. unfold TakeSnapshot. destruct deps as [|d0 ds]; [done|].
  set (deps := d0 :: ds) in *.
  destruct (write_slots deps order (replicate (length deps) zero_result)) as [Hl Hs];
    [by rewrite length_replicate|].
  assert (foldl (write_slot deps) (replicate (length deps) zero_result) order = check_one <$> deps) as ->.
  { apply list_eq. intros i. rewrite list_lookup_fmap. destruct (deps !! i) as [d|] eqn:Ed.
    - rewrite (Hs _ _ Ed), decide_True; [done|]. rewrite Hperm. apply elem_of_seq.
      apply lookup_lt_Some in Ed. lia.
    - apply lookup_ge_None in Ed. apply lookup_ge_None. lia. }
  rewrite degrade_spec. by destruct (existsb is_down _).
Qed.

Lemma retry_loop_spec {Er} (fn ctx_done : Z -> option Er) k : forall last a r n,
  (0 < k)%nat -> retry_loop fn ctx_done last a k = (r, n) ->
  a <= n < a + Z.of_nat k /\
  (forall i, a <= i < n -> is_Some (fn i) /\ ctx_done i = None) /\
  ((fn n = None /\ r = None) \/
   (is_Some (fn n) /\ r = fn n /\ n = a + Z.of_nat k - 1) \/
   (is_Some (fn n) /\ is_Some (ctx_done n) /\ r = ctx_done n /\ n < a + Z.of_nat k - 1)).
Proof.
  induction k as [|k IH]; intros last a r n Hk; [lia|]. cbn [retry_loop].
  destruct (fn a) as [e|] eqn:Ef.
  - destruct k as [|k].
    + intros [= <- <-]. split; [lia|]. split; [intros; lia|]. right. left. rewrite Ef.
      split_and!; [eauto|done|lia].
    + destruct (ctx_done a) as [ce|] eqn:Ec.
      * intros [= <- <-]. split; [lia|]. split; [intros; lia|]. right. right. rewrite Ef, Ec.
        split_and!; [eauto|eauto|done|lia].
      * intros H. apply IH in H as (H1 & H2 & H3); [|lia]. split; [lia|]. split.
        -- intros i Hi. destruct (decide (i = a)) as [->|]; [by rewrite Ef; eauto|]. apply H2. lia.
        -- destruct H3 as [H3|[(?&?&?)|(?&?&?&?)]]; [by left|right; left; by split_and!; [| |lia]|].
           right. right. split_and!; [done|done|done|lia].
  - intros [= <- <-]. split; [lia|]. split; [intros; lia|]. by left.
Qed.

(** What a retry returns and how many calls it makes. *)
Lemma Retry_spec {Er} policy (fn ctx_done : Z -> option Er) :
  let '(r, n) := Retry policy fn ctx_done in
  let last := if Attempts policy <=? 0 then 3 else Attempts policy in
  1 <= n <= last /\
  (forall i, 1 <= i < n -> is_Some (fn i) /\ ctx_done i = None) /\
  ((fn n = None /\ r = None) \/
   (is_Some (fn n) /\ r = fn n /\ n = last) \/
   (is_Some (fn n) /\ is_Some (ctx_done n) /\ r = ctx_done n /\ n < last)).
Proof.
  destruct (Retry policy fn ctx_done) as [r n] eqn:E. unfold Retry, withDefaults in E. cbn [Attempts] in E.
  cbv zeta. set (last := if Attempts policy <=? 0 then 3 else Attempts policy) in *.
  assert (0 < last) as Hpos by (unfold last; destruct (Z.leb_spec (Attempts policy) 0); lia).
  apply retry_loop_spec in E as (H1 & H2 & H3); [|lia]. rewrite Z2Nat.id in * by lia.
  split; [lia|]. split; [done|]. destruct H3 as [?|[(?&?&?)|(?&?&?&?)]]; [by left| |].
  - right. left. split_and!; [done|done|lia].
  - right. right. split_and!; [done|done|done|lia].
Qed.

(** ** Properties *)

(** the snapshot does not depend on the race between the checks. In
    whatever order the goroutines finish, there is one result per dependency, in
    the order of the dependencies, and the mode is degraded exactly when a
    required one is down: its check failed, or is missing. *)
Theorem Snapshot_race_free deps now order :
  order ≡ₚ seq 0 (length deps) ->
  Dependencies (TakeSnapshot deps now order) = (check_one <$> deps) /\
  (Mode (TakeSnapshot deps now order) = ModeDegradedControlPlane <->
     exists d, d ∈ deps /\ Required d = true /\
       (CheckFn d = None \/ exists e t1 t2, CheckFn d = Some (Some e, t1, t2))) /\
  (Mode (TakeSnapshot deps now order) = ModeNormal <-> Status (TakeSnapshot deps now order) = "healthy").
Proof.
  intros Hperm. rewrite (TakeSnapshot_results _ _ _ Hperm). cbn [Dependencies Mode Status].
  split; [done|]. destruct (existsb is_down (check_one <$> deps)) eqn:Ex.
  - split; [split; [intros _|done]|done].
    apply existsb_exists in Ex as (r & Hr%list_elem_of_In & Hd).
    apply list_elem_of_fmap in Hr as (d & -> & Hin). exists d. split; [done|].
    unfold is_down, check_one in Hd. destruct (CheckFn d) as [[[[e|] t1] t2]|]; cbn in Hd;
      apply andb_true_iff in Hd as [? Hs]; try done; eauto 7.
  - split; [|done]. split; [done|]. intros (d & Hin & Hreq & Hchk). exfalso.
    apply not_true_iff_false in Ex. apply Ex, existsb_exists. exists (check_one d).
    split; [by apply list_elem_of_In, list_elem_of_fmap_2|]. unfold is_down, check_one.
    destruct Hchk as [-> |(e & t1 & t2 & ->)]; cbn; by rewrite Hreq.
Qed.

(** ** Witnesses *)

Definition example_deps : list Dependency :=
  [mkDependency "redis" true (Some (Some "connection refused", 0, 3 * Millisecond));
   mkDependency "minio" false None].

Lemma Snapshot_race_free_witness :
  Mode (TakeSnapshot example_deps 0 [1%nat; 0%nat]) = ModeDegradedControlPlane /\
  Dependencies (TakeSnapshot example_deps 0 [1%nat; 0%nat]) = (check_one <$> example_deps).
Proof.
  destruct (Snapshot_race_free example_deps 0 [1%nat; 0%nat]) as (H1 & H2 & _); [apply perm_swap|].
  split; [|exact H1]. apply H2. exists (mkDependency "redis" true (Some (Some "connection refused", 0, 3 * Millisecond))).
  split; [constructor|]. split; [reflexivity|]. right. eauto.
Defined.
