(* ===== verification/Urls.v ===== *)
(** * Live URLs

    The URLs clients are given: [joinPath], [BuildLiveURLs] and the trimming of
    the configured bases ([internal/mediamtx/client.go]), [PublicOfferURL]
    ([internal/pionbridge/service.go]), [resolveLiveURLs] and the defaults
    ([internal/api/live_urls.go]), the offer path of [serveRelayWebRTC]
    ([internal/api/relay_live.go]). *)

From S2P Require Import Prelude GoStrings.

Definition slash : ascii := "/"%char.

(** ** [url.PathEscape] *)

(** The bytes a path segment keeps. *)
Definition segment_safe (a : ascii) : bool :=
  in_range 97 122 a || in_range 65 90 a || in_range 48 57 a ||
  contains_byte a "-_.~" || contains_byte a "$&+=:@".

Definition upper_hex (n : N) : ascii :=
  if (n <? 10)%N then ascii_of_N (48 + n) else ascii_of_N (55 + n).

Fixpoint PathEscape (s : string) : string :=
  match s with
  | EmptyString => ""
  | String a s =>
      if segment_safe a then String a (PathEscape s)
      else String "%" (String (upper_hex (N_of_ascii a / 16)) (String (upper_hex (N_of_ascii a mod 16))
             (PathEscape s)))
  end.

(** ** MediaMTX *)

Record MediaMTXConfig := mkMediaMTX {
  HLSBaseURL : string; WebRTCBaseURL : string; RTSPBaseURL : string; RTMPBaseURL : string }.

Definition trimURL (raw : string) : string := TrimRightByte slash (TrimSpace raw).

(** The bases of the client [New] makes. *)
Definition New_bases (cfg : MediaMTXConfig) : MediaMTXConfig :=
  mkMediaMTX (trimURL (HLSBaseURL cfg)) (trimURL (WebRTCBaseURL cfg)) (trimURL (RTSPBaseURL cfg))
    (trimURL (RTMPBaseURL cfg)).

Definition normalizePath (path : string) : string := TrimByte slash (TrimSpace path).

(** The inner loop of [joinPath]. *)
Fixpoint join_parts (out : string) (parts : list string) : string :=
  match parts with
  | [] => out
  | part :: parts =>
      if bool_decide (part = "") then join_parts out parts
      else join_parts (out +:+ "/" +:+ PathEscape part) parts
  end.

Fixpoint join_elems (out : string) (elems : list string) : string :=
  match elems with
  | [] => out
  | e :: elems =>
      let e := normalizePath e in
      if bool_decide (e = "") then join_elems out elems
      else join_elems (join_parts out (Split slash e)) elems
  end.

Definition joinPath (base : string) (elems : list string) : string :=
  if bool_decide (base = "") then "" else join_elems (TrimRightByte slash base) elems.

Record LiveURLs := mkLiveURLs {
  u_StreamKey : string; u_HLS : string; u_WebRTC : string; u_RTSP : string; u_RTMP : string }.

Definition BuildLiveURLs (cfg : MediaMTXConfig) (streamKey : string) : LiveURLs :=
  let key := normalizePath streamKey in
  mkLiveURLs key (joinPath (HLSBaseURL cfg) [key; "index.m3u8"]) (joinPath (WebRTCBaseURL cfg) [key])
    (joinPath (RTSPBaseURL cfg) [key]) (joinPath (RTMPBaseURL cfg) [key]).

(** ** Pion *)

Definition PublicOfferURL (publicBaseURL streamKey : string) : string :=
  let key := TrimByte slash (TrimSpace streamKey) in
  let baseURL := TrimRightByte slash (TrimSpace publicBaseURL) in
  baseURL +:+ "/pion/webrtc/" +:+ key +:+ "/offer".

(** [serveRelayWebRTC] *)
Definition offerPath (streamKey : string) : string :=
  "/pion/webrtc/" +:+ PathEscape streamKey +:+ "/offer".

(** ** The server *)

Record resolvedLiveURLs := mkResolved {
  HLS : string; WebRTC : string; WebRTCOffer : string; RTSP : string; RTMP : string }.

Definition defaultHTTPBaseURL (addr : string) : string :=
  let raw := TrimSpace addr in
  if bool_decide (raw = "") then "http://localhost:8080"
  else if HasPrefix raw "http://" || HasPrefix raw "https://" then TrimRightByte slash raw
  else if HasPrefix raw ":" then "http://localhost" +:+ raw
  else "http://" +:+ TrimRightByte slash raw.

Definition defaultHLSURL (addr streamKey : string) : string :=
  let base := defaultHTTPBaseURL addr in
  let key := TrimByte slash (TrimSpace streamKey) in
  base +:+ "/hls/" +:+ key +:+ "/index.m3u8".

(** [mtx]: the MediaMTX client's bases; [pion]: the bridge's public base. *)
Definition resolveLiveURLs (mtx : option MediaMTXConfig) (pion : option string) (addr streamKey : string)
  : resolvedLiveURLs :=
  let key := TrimByte slash (TrimSpace streamKey) in
  let out := mkResolved "" "" "" "" "" in
  let out := match mtx with
    | None => out
    | Some cfg => let urls := BuildLiveURLs cfg key in
                  mkResolved (u_HLS urls) (u_WebRTC urls) (WebRTCOffer out) (u_RTSP urls) (u_RTMP urls)
    end in
  let out := match pion with
    | None => out
    | Some b => let offer := PublicOfferURL b key in
                mkResolved (HLS out) offer offer (RTSP out) (RTMP out)
    end in
  if bool_decide (HLS out = "")
  then mkResolved (defaultHLSURL addr key) (WebRTC out) (WebRTCOffer out) (RTSP out) (RTMP out) else out.

(** ** Reading a URL back

    What a server makes of a path: its segments, percent-decoded. *)

Definition unhex (a : ascii) : N :=
  let n := N_of_ascii a in if (n <? 58)%N then (n - 48)%N else (n - 55)%N.

Fixpoint unescape (s : string) : string :=
  match s with
  | String "%" (String h (String l s)) => String (ascii_of_N (16 * unhex h + unhex l)) (unescape s)
  | String a s => String a (unescape s)
  | EmptyString => ""
  end.

Definition segments (path : string) : list string := unescape <$> Split slash path.

(** The components of a key. *)
Definition components (key : string) : list string :=
  filter (fun p => p <> "") (Split slash (normalizePath key)).

(** ** Lemmas *)

Lemma unhex_upper a :
  ascii_of_N (16 * unhex (upper_hex (N_of_ascii a / 16)) + unhex (upper_hex (N_of_ascii a mod 16))) = a.
Proof. by destruct a as [[] [] [] [] [] [] [] []]; vm_compute. Qed.

Lemma segment_safe_facts a : segment_safe a = true -> a <> "%"%char /\ a <> slash.
Proof. by destruct a as [[] [] [] [] [] [] [] []]; vm_compute. Qed.

Lemma upper_hex_facts a :
  upper_hex (N_of_ascii a / 16) <> slash /\ upper_hex (N_of_ascii a mod 16) <> slash.
Proof. by destruct a as [[] [] [] [] [] [] [] []]; vm_compute. Qed.

Lemma unescape_plain a s : a <> "%"%char -> unescape (String a s) = String a (unescape s).
Proof. destruct a as [[] [] [] [] [] [] [] []]; done. Qed.

Lemma unescape_PathEscape s : unescape (PathEscape s) = s.
Proof.
  induction s as [|a s IH]; [done|]. cbn [PathEscape]. destruct (segment_safe a) eqn:Ea.
  - apply segment_safe_facts in Ea as [Hp _]. by rewrite unescape_plain, IH.
  - change (String (ascii_of_N (16 * unhex (upper_hex (N_of_ascii a / 16))
             + unhex (upper_hex (N_of_ascii a mod 16)))) (unescape (PathEscape s)) = String a s).
    by rewrite unhex_upper, IH.
Qed.

Lemma PathEscape_no_slash s : contains_byte slash (PathEscape s) = false.
Proof.
  induction s as [|a s IH]; [done|]. cbn [PathEscape]. destruct (segment_safe a) eqn:Ea; cbn [contains_byte].
  - apply segment_safe_facts in Ea as [_ Hs]. by rewrite bool_decide_false, IH by done.
  - destruct (upper_hex_facts a) as [H1 H2]. by rewrite !bool_decide_false, IH by done.
Qed.

Lemma PathEscape_nonempty s : s <> "" -> PathEscape s <> "".
Proof. destruct s as [|a s]; [done|]. intros _. cbn [PathEscape]. by destruct (segment_safe a). Qed.

Lemma Split_nonempty sep s : Split sep s <> [].
Proof. destruct s as [|a s]; [done|]. cbn. case_bool_decide; [done|]. by destruct (Split sep s). Qed.

Lemma Split_app_sep sep a : forall b, Split sep (a +:+ String sep b) = Split sep a ++ Split sep b.
Proof.
  induction a as [|x a IH]; intros b.
  - change ("" +:+ ?y) with y. cbn [Split]. by rewrite bool_decide_true.
  - rewrite app_cons_string. cbn [Split]. rewrite IH. case_bool_decide; [done|].
    pose proof (Split_nonempty sep a). by destruct (Split sep a).
Qed.

Lemma segments_app a b : segments (a +:+ "/" +:+ b) = segments a ++ segments b.
Proof. unfold segments. change ("/" +:+ b) with (String slash b). by rewrite Split_app_sep, fmap_app. Qed.

Lemma segments_escaped s : segments (PathEscape s) = [s].
Proof. unfold segments. rewrite Split_no_sep by apply PathEscape_no_slash. cbn. by rewrite unescape_PathEscape. Qed.

(** A path of these segments. *)
Fixpoint slashes (l : list string) : string :=
  match l with [] => "" | p :: l => "/" +:+ PathEscape p +:+ slashes l end.

Lemma slashes_app a b : slashes (a ++ b) = slashes a +:+ slashes b.
Proof. induction a as [|x a IH]; [done|]. cbn [slashes app]. by rewrite IH, !app_string_assoc. Qed.

Lemma slashes_segments p l : exists path, slashes (p :: l) = "/" +:+ path /\ segments path = p :: l.
Proof.
  revert p. induction l as [|q l IH]; intros p;
    [exists (PathEscape p +:+ slashes [])|exists (PathEscape p +:+ slashes (q :: l))]; (split; [done|]).
  - cbn [slashes]. by rewrite app_string_nil, segments_escaped.
  - destruct (IH q) as (path & -> & Hs). by rewrite segments_app, segments_escaped, Hs.
Qed.

Lemma join_parts_spec parts : forall out,
  join_parts out parts = out +:+ slashes (filter (fun p => p <> "") parts).
Proof.
  induction parts as [|p parts IH]; intros out; cbn [join_parts]; [by rewrite app_string_nil|].
  rewrite filter_cons. destruct (decide (p = "")) as [->|Hne].
  - rewrite bool_decide_true, decide_False by naive_solver. apply IH.
  - rewrite bool_decide_false, decide_True by naive_solver. rewrite IH. cbn [slashes].
    by rewrite !app_string_assoc.
Qed.

Lemma join_elems_spec elems : forall out,
  join_elems out elems = out +:+ slashes (concat (components <$> elems)).
Proof.
  induction elems as [|e elems IH]; intros out; cbn [join_elems]; [by rewrite app_string_nil|].
  change (components <$> e :: elems) with (components e :: (components <$> elems)). cbn [concat].
  rewrite slashes_app, <- app_string_assoc. case_bool_decide as He; rewrite IH; f_equal.
  - unfold components. rewrite He. cbn. by rewrite app_string_nil.
  - apply join_parts_spec.
Qed.

Lemma joinPath_spec base elems :
  base <> "" -> joinPath base elems = TrimRightByte slash base +:+ slashes (concat (components <$> elems)).
Proof. intros Hb. unfold joinPath. by rewrite bool_decide_false, join_elems_spec. Qed.

Lemma u_HLS_components cfg streamKey :
  HLSBaseURL cfg <> "" ->
  u_HLS (BuildLiveURLs cfg streamKey)
  = TrimRightByte slash (HLSBaseURL cfg) +:+ slashes (components (normalizePath streamKey) ++ ["index.m3u8"]).
Proof. intros Hb. unfold BuildLiveURLs. cbn [u_HLS]. by rewrite joinPath_spec. Qed.

Lemma u_HLS_empty cfg streamKey : u_HLS (BuildLiveURLs cfg streamKey) = "" <-> HLSBaseURL cfg = "".
Proof.
  split; [|intros Hb; unfold BuildLiveURLs, joinPath; cbn [u_HLS]; by rewrite bool_decide_true].
  intros He. destruct (decide (HLSBaseURL cfg = "")) as [|Hb]; [done|exfalso].
  rewrite u_HLS_components, slashes_app in He by done. apply (f_equal String.length) in He.
  rewrite !length_app_string in He. cbn [slashes String.length] in He. rewrite !length_app_string in He.
  change (String.length "/") with 1%nat in He. change (String.length "") with 0%nat in He. lia.
Qed.

(** ** Properties *)

(** the live URLs lead back to the stream. Under a configured base, the path
    of the HLS URL has, percent-decoded, the non-empty components of the stream
    key as its segments, then the playlist; the other URLs have just the
    components; so keys with other components never share a URL. *)
Theorem live_urls_roundtrip cfg streamKey :
  let u := BuildLiveURLs cfg streamKey in
  let cs := components (u_StreamKey u) in
  (HLSBaseURL cfg <> "" -> exists path,
     u_HLS u = TrimRightByte slash (HLSBaseURL cfg) +:+ "/" +:+ path /\ segments path = cs ++ ["index.m3u8"]) /\
  (cs <> [] ->
   Forall (fun bu => fst bu <> "" -> exists path,
     snd bu = TrimRightByte slash (fst bu) +:+ "/" +:+ path /\ segments path = cs)
     [(WebRTCBaseURL cfg, u_WebRTC u); (RTSPBaseURL cfg, u_RTSP u); (RTMPBaseURL cfg, u_RTMP u)]).
Proof.
  intros u cs. split.
  - intros Hb. unfold u. rewrite u_HLS_components by done. change (components (normalizePath streamKey)) with cs.
    destruct (cs ++ ["index.m3u8"]) as [|p l] eqn:El; [by destruct cs|].
    destruct (slashes_segments p l) as (path & -> & Hs). by exists path.
  - intros Hcs. assert (forall base, base <> "" -> exists path,
      joinPath base [normalizePath streamKey] = TrimRightByte slash base +:+ "/" +:+ path /\ segments path = cs) as H.
    { intros base Hb. rewrite joinPath_spec by done.
      assert (concat (components <$> [normalizePath streamKey]) = cs) as -> by apply app_nil_r.
      destruct cs as [|p l]; [done|]. destruct (slashes_segments p l) as (path & -> & Hs). by exists path. }
    repeat constructor; apply H.
Qed.

(** two offer URLs. The one the relay hands out is a single segment for
    the stream key, and the key is read back from it; the one the bridge makes
    public is not escaped: it has a segment for each field of the key, so for a
    key with a slash, as all keys of the engine have, it is not of the form the
    server routes ([/pion/webrtc/{key}/offer]). *)
Theorem offer_urls key base :
  (exists path, offerPath key = "/" +:+ path /\ segments path = ["pion"; "webrtc"; key; "offer"]) /\
  exists path,
    PublicOfferURL base key = TrimRightByte slash (TrimSpace base) +:+ "/" +:+ path /\
    segments path = ["pion"; "webrtc"] ++ segments (TrimByte slash (TrimSpace key)) ++ ["offer"] /\
    (length (segments path) = 4%nat <-> contains_byte slash (TrimByte slash (TrimSpace key)) = false).
Proof.
  assert (forall k, segments ("pion/webrtc/" +:+ k +:+ "/offer") = ["pion"; "webrtc"] ++ segments k ++ ["offer"]) as Hseg.
  { intros k. change ("pion/webrtc/" +:+ ?x) with ("pion" +:+ "/" +:+ "webrtc" +:+ "/" +:+ x).
    change "/offer" with ("/" +:+ "offer"). by rewrite !segments_app. }
  split.
  - exists ("pion/webrtc/" +:+ PathEscape key +:+ "/offer"). split; [done|].
    by rewrite Hseg, segments_escaped.
  - exists ("pion/webrtc/" +:+ TrimByte slash (TrimSpace key) +:+ "/offer"). split; [done|].
    rewrite Hseg. split; [done|]. set (k := TrimByte slash (TrimSpace key)).
    rewrite !length_app. unfold segments. rewrite length_fmap. cbn [length].
    assert (length (Split slash k) = 1%nat <-> contains_byte slash k = false) as <-; [|lia].
    split; [|intros H; by rewrite Split_no_sep]. induction k as [|a k IH]; [done|].
    cbn [Split contains_byte]. pose proof (Split_nonempty slash k) as Hne. case_bool_decide.
    + cbn. destruct (Split slash k); [done|]. cbn. lia.
    + cbn [orb]. intros Hl. apply IH. by destruct (Split slash k).
Qed.

(** which URLs a client is given: HLS always (MediaMTX's, or the server's own),
    WebRTC from the bridge when there is one, else MediaMTX's. *)
Theorem resolveLiveURLs_sources mtx pion addr streamKey :
  let r := resolveLiveURLs mtx pion addr streamKey in
  let key := TrimByte slash (TrimSpace streamKey) in
  WebRTCOffer r = match pion with Some b => PublicOfferURL b key | None => "" end /\
  WebRTC r = match pion, mtx with
             | Some b, _ => PublicOfferURL b key
             | None, Some cfg => u_WebRTC (BuildLiveURLs cfg key)
             | None, None => "" end /\
  HLS r = (match mtx with
           | Some cfg => if bool_decide (HLSBaseURL cfg = "") then defaultHLSURL addr key
                         else u_HLS (BuildLiveURLs cfg key)
           | None => defaultHLSURL addr key end).
Proof.
  unfold resolveLiveURLs. set (key := TrimByte slash (TrimSpace streamKey)).
  destruct mtx as [cfg|]; destruct pion as [b|]; cbn -[BuildLiveURLs defaultHLSURL PublicOfferURL]; try done.
  all: pose proof (u_HLS_empty cfg key) as Hh.
  all: case_bool_decide as H1; case_bool_decide as H2; try done; exfalso; tauto.
Qed.

(** ** Witnesses *)

Definition example_mtx : MediaMTXConfig := mkMediaMTX "http://m:8888/" "http://m:8889" "rtsp://m:8554" "".

Example urls_example :
  u_HLS (BuildLiveURLs example_mtx " /cam 1/hd/ ") = "http://m:8888/cam%201/hd/index.m3u8".
Proof. reflexivity. Qed.

Lemma live_urls_roundtrip_witness :
  exists path, u_RTSP (BuildLiveURLs example_mtx "cam-1/hd") = "rtsp://m:8554" +:+ "/" +:+ path /\
    segments path = ["cam-1"; "hd"].
Proof.
  destruct (live_urls_roundtrip example_mtx "cam-1/hd") as [_ H].
  specialize (H ltac:(vm_compute; discriminate)). rewrite !Forall_cons in H. destruct H as (_ & H & _).
  exact (H ltac:(vm_compute; discriminate)).
Defined.
