(* ===== verification/Session.v ===== *)
(** * Session leases over HTTP

    [internal/api/session.go]: the normalised request, the readiness of a
    stream, the handler that renews a lease, and what the handler that creates
    one hands to the idempotency store (Idempotency.v). It is built on the lease
    service (Lease.v), the health monitor and the retries (Health.v) and the URLs
    (Urls.v). *)

From S2P Require Import Prelude GoStrings Lease Health Urls.

(** ** Data *)

Record createSessionRequest := mkCreate {
  q_TenantID : string; q_DeviceID : string; q_ViewerID : string;
  q_PreferredProtocol : string; q_LastKnownEndpoint : string }.

Record sessionURLs := mkURLs { su_HLS : string; su_WebRTC : string; su_WebRTCOffer : string }.

(** The retry policy, a constant, is left out. *)
Record sessionResponse := mkResponse {
  SessionID : string; s_StreamKey : string; s_TenantID : string; s_DeviceID : string;
  s_ViewerID : string; RouteStatus : string; s_Mode : HealthMode; s_ControlPlaneBackend : string;
  s_IssuedAt : Time; LeaseExpiresAt : Time; ReattachToken : string; URLs : sessionURLs;
  Warning : string }.

Inductive http_response :=
  | ErrorJSON (status : Z) (message : string)
  | SessionJSON (status : Z) (body : sessionResponse).

(** ** Requests *)

Definition normalizeLabelValue (v fallback : string) : string :=
  let cleaned := TrimSpace v in if bool_decide (cleaned = "") then fallback else cleaned.

Definition normalizeCreateSessionRequest (req : createSessionRequest) (streamKey : string)
  : createSessionRequest :=
  let deviceFallback := streamKey in
  let device := if bool_decide (q_DeviceID req = "") then deviceFallback else q_DeviceID req in
  let preferred := ToLower (TrimSpace (q_PreferredProtocol req)) in
  mkCreate (normalizeLabelValue (q_TenantID req) "default") (normalizeLabelValue device deviceFallback)
    (normalizeLabelValue (q_ViewerID req) "anonymous")
    (if bool_decide (preferred = "hls") || bool_decide (preferred = "webrtc") then preferred else "hls")
    (TrimSpace (q_LastKnownEndpoint req)).

(** ** Readiness *)

(** Of a path, what is read here. *)
Record PathInfo := mkPath { p_Name : string; p_Ready : bool }.

Inductive ready_error :=
  | errStreamNotFound
  | ErrList (e : string)
  | ErrContext (e : string).

(** One call of the retried function, given the answer of [ListPaths]. *)
Definition probe (streamKey : string) (answer : result string (list PathInfo)) : option ready_error :=
  match answer with
  | Err e => Some (ErrList e)
  | Ok paths =>
      if existsb (fun p => bool_decide (p_Name p = streamKey) && p_Ready p) paths then None
      else Some errStreamNotFound
  end.

Definition ready_policy : RetryPolicy := mkPolicy 3 (120 * Millisecond) (900 * Millisecond).

(** [live]: what [manager.Get] finds; [mtx]: the answers of MediaMTX, by call,
    [None] when there is no client; [ctx_done]: the context's error during the
    waits. *)
Definition ensureStreamReady (live : string -> bool) (mtx : option (Z -> result string (list PathInfo)))
    (ctx_done : Z -> option string) (streamKey : string) : option ready_error :=
  let streamKey := TrimByte slash (TrimSpace streamKey) in
  if bool_decide (streamKey = "") then Some errStreamNotFound
  else if live streamKey then None
  else match mtx with
  | None => Some errStreamNotFound
  | Some list_paths =>
      fst (Retry ready_policy (fun i => probe streamKey (list_paths i))
             (fun i => ErrContext <$> ctx_done i))
  end.

(** ** Handlers *)

Section Handlers.
Context `{E : LeaseEnv} {St} `{!LeaseStore St}.

(** The server: its lease service, health dependencies, and URL settings. *)
Record Server := mkServer {
  leaseService : LeaseService; deps : list Dependency; mtx_bases : option MediaMTXConfig;
  pion_base : option string; http_addr : string }.

Definition server_urls (srv : Server) (key : string) : resolvedLiveURLs :=
  resolveLiveURLs (mtx_bases srv) (pion_base srv) (http_addr srv) key.

Definition buildSessionResponse (lease : Lease) (token : string) (mode : HealthMode)
    (routeStatus warning : string) : sessionResponse :=
  mkResponse (l_ID lease) (l_StreamKey lease) (l_TenantID lease) (l_DeviceID lease) (l_ViewerID lease)
    routeStatus mode (ControlPlaneBackend lease) (l_IssuedAt lease) (l_ExpiresAt lease) token
    (mkURLs (l_HLSURL lease) (l_WebRTCURL lease) (l_WebRTCOfferURL lease)) warning.

(** The input of [Issue] that [issueSession] makes. *)
Definition lease_input (srv : Server) (streamKey : string) (req : createSessionRequest) : LeaseInput :=
  let urls := server_urls srv streamKey in
  mkLeaseInput streamKey (q_TenantID req) (q_DeviceID req) (q_ViewerID req)
    (q_PreferredProtocol req) (q_LastKnownEndpoint req) (HLS urls) (WebRTC urls) (WebRTCOffer urls).

(** [order] is the race of the health checks; [now], [ts] and [id] are the
    lease service's. *)
Definition issueSession (srv : Server) (st : St) (th now ts : Time) (order : list nat) (id streamKey : string)
    (req : createSessionRequest) (routeStatus : string) : St * result lease_error sessionResponse :=
  let health := TakeSnapshot (deps srv) th order in
  match Issue (leaseService srv) st now ts id (lease_input srv streamKey req) with
  | (st, Err e) => (st, Err e)
  | (st, Ok (lease, token)) => (st, Ok (buildSessionResponse lease token (Mode health) routeStatus ""))
  end.

(** The beginning of [createLiveSession]: the answer, or the stream key, the
    request and the cache key with which [idempotency.Do] is called. [body] is
    [None] when it cannot be decoded, the error being [derr]; an empty one is the
    empty request. *)
Definition createLiveSession_admit (key derr idempotencyKey : string) (body : option createSessionRequest)
    (ready : string -> option ready_error) : http_response + (string * createSessionRequest * string) :=
  let key := TrimSpace key in
  if bool_decide (key = "") then inl (ErrorJSON 400 "stream key is required")
  else match body with
  | None => inl (ErrorJSON 400 ("invalid request body: " +:+ derr))
  | Some req =>
      let req := normalizeCreateSessionRequest req key in
      match ready key with
      | Some errStreamNotFound => inl (ErrorJSON 404 "stream not found")
      | Some (ErrList e) | Some (ErrContext e) => inl (ErrorJSON 502 ("stream route unavailable: " +:+ e))
      | None =>
          let idempotencyKey := TrimSpace idempotencyKey in
          inr (key, req, if bool_decide (idempotencyKey = "") then ""
                         else "live-session:" +:+ key +:+ ":" +:+ idempotencyKey)
      end
  end.

(** The lease errors' texts; those of the libraries are not interpreted. *)
Definition lease_error_text (e : lease_error) : string :=
  match e with
  | ErrInvalidToken => "invalid reattach token"
  | ErrLeaseExpired => "session lease expired"
  | ErrLeaseMissing => "session lease not found"
  | ErrStore e => e
  | ErrMarshal => "json"
  end.

Definition reattach_error (e : lease_error) : http_response :=
  match e with
  | ErrInvalidToken => ErrorJSON 401 (lease_error_text e)
  | ErrLeaseExpired => ErrorJSON 410 (lease_error_text e)
  | ErrLeaseMissing => ErrorJSON 404 (lease_error_text e)
  | _ => ErrorJSON 500 ("reattach failed: " +:+ lease_error_text e)
  end.

Definition set_URLs (urls : sessionURLs) (r : sessionResponse) : sessionResponse :=
  mkResponse (SessionID r) (s_StreamKey r) (s_TenantID r) (s_DeviceID r) (s_ViewerID r) (RouteStatus r)
    (s_Mode r) (s_ControlPlaneBackend r) (s_IssuedAt r) (LeaseExpiresAt r) (ReattachToken r) urls (Warning r).

(** [body]: the token, or the error of decoding. *)
Definition reattachLiveSession (srv : Server) (st : St) (now tg ts th : Time) (order : list nat)
    (body : result string string) (ready : string -> option ready_error) : St * http_response :=
  match body with
  | Err e => (st, ErrorJSON 400 ("invalid request body: " +:+ e))
  | Ok raw =>
      let token := TrimSpace raw in
      if bool_decide (token = "") then (st, ErrorJSON 400 "reattach_token is required")
      else match Reattach (leaseService srv) st now tg ts token with
      | (st, Err e) => (st, reattach_error e)
      | (st, Ok (lease, renewedToken)) =>
          let mode := Mode (TakeSnapshot (deps srv) th order) in
          let '(routeStatus, warning) := match ready (l_StreamKey lease) with
            | Some _ => ("last_known", "stream not currently routable, using last known endpoint")
            | None => ("live", "")
            end in
          let resp := buildSessionResponse lease renewedToken mode routeStatus warning in
          let resp := set_URLs (mkURLs (l_HLSURL lease) (l_WebRTCURL lease) (l_WebRTCOfferURL lease)) resp in
          let resp := if bool_decide (routeStatus = "live")
            then let urls := server_urls srv (l_StreamKey lease) in
                 set_URLs (mkURLs (HLS urls) (WebRTC urls) (WebRTCOffer urls)) resp
            else resp in
          (st, SessionJSON 200 resp)
      end
  end.
End Handlers.

(** ** Properties *)

(** what "ready" means. A stream is ready when it is registered on this
    node, or MediaMTX reports it ready in one of at most three answers; it is
    reported missing when its key is blank, when there is no MediaMTX, or when
    MediaMTX's last answer does not have it; other failures are MediaMTX's or the
    end of the request. *)
Theorem ensureStreamReady_outcomes live mtx ctx_done streamKey :
  let key := TrimByte slash (TrimSpace streamKey) in
  let has i ps := match mtx with Some f => f i = Ok ps | None => False end in
  let listed (ps : list PathInfo) := exists p, p ∈ ps /\ p_Name p = key /\ p_Ready p = true in
  match ensureStreamReady live mtx ctx_done streamKey with
  | None => key <> "" /\ (live key = true \/ exists i ps, 1 <= i <= 3 /\ has i ps /\ listed ps)
  | Some errStreamNotFound => key = "" \/ (live key = false /\ (mtx = None \/ exists ps, has 3 ps /\ ~ listed ps))
  | Some (ErrList e) => live key = false /\ exists f, mtx = Some f /\ f 3 = Err e
  | Some (ErrContext e) => live key = false /\ exists i, 1 <= i < 3 /\ ctx_done i = Some e
  end.
Proof.
  intros key has listed. unfold ensureStreamReady. fold key. case_bool_decide as Hk; [by left|].
  destruct (live key) eqn:El; [split; [done|by left]|]. destruct mtx as [f|]; [|by right; split; [|left]].
  pose proof (Retry_spec ready_policy (fun i => probe key (f i)) (fun i => ErrContext <$> ctx_done i)) as H.
  destruct (Retry _ _ _) as [r n]. cbn [fst]. change (Attempts ready_policy) with 3 in H. cbn in H.
  destruct H as (Hn & _ & H).
  assert (forall ps, existsb (fun p => bool_decide (p_Name p = key) && p_Ready p) ps = true <-> listed ps) as Hl.
  { intros ps. rewrite existsb_exists. unfold listed. setoid_rewrite list_elem_of_In.
    setoid_rewrite andb_true_iff. by setoid_rewrite bool_decide_eq_true. }
  destruct H as [[Hf ->]|[(Hf & -> & Hlast)|(_ & [e He] & -> & Hlast)]].
  - split; [done|right]. unfold probe in Hf. destruct (f n) as [ps|] eqn:Ef; [|done].
    exists n, ps. split; [lia|]. split; [done|]. apply Hl. by destruct (existsb _ ps).
  - assert (n = 3) as -> by lia. unfold probe in *. destruct (f 3) as [ps|e] eqn:Ef.
    + destruct (existsb _ ps) eqn:Ex; [by destruct Hf|]. right. split; [done|]. right. exists ps.
      split; [done|]. rewrite <- Hl, Ex. done.
    + split; [done|]. by exists f.
  - rewrite He. destruct (ctx_done n) as [c|] eqn:Ec; [|done]. cbn in He. injection He as <-.
    split; [done|]. exists n. split; [lia|done].
Qed.

Lemma signToken_nonempty `{E : LeaseEnv} s c token : signToken s c = Some token -> token <> "".
Proof.
  unfold signToken. destruct (claims_Marshal c) as [data|]; [|done]. intros [= <-].
  intros H%(f_equal String.length). revert H. rewrite !length_app_string.
  change (String.length ".") with 1%nat. change (String.length "") with 0%nat. lia.
Qed.

(** C37: a viewer's session outlives the outage of its stream. Let a session be
    issued, and any clients issue and renew leases afterwards. A client that
    then presents its token (with or without white space around it) is answered
    200 with the same session, extended by the time to live, with the current
    URLs when the stream is ready, and the last known ones when it is not. It is
    answered 410 only after the token expired, 404 only from the lease's expiry
    on, never 400 or 401; a 500 is the store's or the encoder's. *)
Theorem session_survives_outage `{E : LeaseEnv} `{L : !LeaseLaws E} {St} `{!LeaseStore St}
    `{!LeaseStoreLaws St} srv rdb ttl0 skew0 secret0 st0 th0 now0 ts0 order0 id key req status0 st1 resp0 st2 T
    now tg ts th order raw ready :
  leaseService srv = NewLeaseService rdb ttl0 skew0 secret0 ->
  store_ok st0 ts0 -> now0 <= ts0 -> id <> "" -> TrimSpace key <> "" -> ascii_text id ->
  input_text (lease_input srv key req) ->
  issueSession srv st0 th0 now0 ts0 order0 id key req status0 = (st1, Ok resp0) ->
  rtc (lease_step (leaseService srv) id) (st1, ts0) (st2, T) -> T <= now -> now <= tg -> tg <= ts ->
  TrimSpace raw = ReattachToken resp0 ->
  let exp := token_exp (leaseService srv) now0 in
  match snd (reattachLiveSession srv st2 now tg ts th order (Ok raw) ready) with
  | SessionJSON code r =>
      code = 200 /\ SessionID r = SessionID resp0 /\ s_StreamKey r = s_StreamKey resp0 /\
      s_ViewerID r = s_ViewerID resp0 /\ LeaseExpiresAt r = now + ttl (leaseService srv) /\
      now <= exp + skew (leaseService srv) /\
      (exists claims, parseToken (leaseService srv) (ReattachToken r) = Ok claims) /\
      match ready (s_StreamKey resp0) with
      | None => RouteStatus r = "live" /\
          let urls := server_urls srv (s_StreamKey resp0) in
          URLs r = mkURLs (HLS urls) (WebRTC urls) (WebRTCOffer urls)
      | Some _ => RouteStatus r = "last_known" /\ URLs r = URLs resp0
      end
  | ErrorJSON code _ =>
      (code = 410 /\ exp + skew (leaseService srv) < now) \/ (code = 404 /\ exp <= tg) \/ code = 500
  end.
Proof.
  intros Hsvc Hok Hnow0 Hid Hkey Hidt Hin HI Hsteps HT Htg Hts Hraw exp.
  unfold issueSession in HI. destruct (Issue _ _ _ _ _ _) as [st [[lease token]|e]] eqn:EI; [|done].
  injection HI as <- <-. cbn [ReattachToken s_StreamKey SessionID s_ViewerID URLs buildSessionResponse] in *.
  rewrite Hsvc in *.
  pose proof (renewal_outcomes rdb ttl0 skew0 secret0 st0 now0 ts0 id (lease_input srv key req)
    st lease token st2 T now tg ts
    Hok Hnow0 Hid Hkey Hidt Hin EI Hsteps HT Htg Hts) as HR.
  assert (token <> "") as Htok.
  { apply save_and_sign_cases in EI as [(_ & e & ?)|[_ [?|(tok & Hsign & [= _ ->])]]]; [done..|].
    by eapply signToken_nonempty. }
  unfold reattachLiveSession. rewrite Hraw, bool_decide_false, Hsvc by done.
  destruct (Reattach _ st2 now tg ts token) as [st' [[lease' token']|e]]; cbn [snd] in HR.
  - destruct HR as (-> & Hparse & Hexp).
    change (l_StreamKey (with_times now _ lease)) with (l_StreamKey lease).
    assert (exists c, parseToken (NewLeaseService rdb ttl0 skew0 secret0) token' = Ok c) as Hp by eauto.
    subst exp. rewrite Hsvc. destruct (ready (l_StreamKey lease)); (split_and!; done).
  - subst exp. rewrite Hsvc. destruct e; cbn [snd reattach_error]; [done|by left|by right; left|by right; right|by right; right].
Qed.

(** what reaches the idempotency store: a key that is not blank, of a stream
    that is ready, labels that are not blank, a protocol that is served; the
    cache key depends on the stream key and the client's [Idempotency-Key] only,
    not on who the viewer is. *)
Theorem createLiveSession_admits key derr ik body ready k req ck :
  createLiveSession_admit key derr ik body ready = inr (k, req, ck) ->
  k = TrimSpace key /\ k <> "" /\ ready k = None /\
  (q_PreferredProtocol req = "hls" \/ q_PreferredProtocol req = "webrtc") /\
  q_TenantID req <> "" /\ q_ViewerID req <> "" /\ q_DeviceID req <> "" /\
  ck = (if bool_decide (TrimSpace ik = "") then "" else "live-session:" +:+ k +:+ ":" +:+ TrimSpace ik).
Proof.
  unfold createLiveSession_admit. case_bool_decide as Hk; [done|]. destruct body as [r|]; [|done].
  destruct (ready (TrimSpace key)) as [[]|] eqn:Er; [done..|]. intros [= <- <- <-].
  assert (forall v f, f <> "" -> normalizeLabelValue v f <> "") as Hn
    by (intros v f Hf; unfold normalizeLabelValue; by case_bool_decide).
  split_and!; [done|done|done| |by apply Hn|by apply Hn|by apply Hn|done].
  cbn [q_PreferredProtocol normalizeCreateSessionRequest].
  do 2 case_bool_decide; cbn; auto.
Qed.

(** two streams and two clients' keys with one cache key. *)
Theorem cache_keys_collide :
  exists r1 r2, createLiveSession_admit "a:b" "" "c" (Some (mkCreate "" "" "" "" "")) (fun _ => None)
                  = inr ("a:b", r1, "live-session:a:b:c") /\
    createLiveSession_admit "a" "" "b:c" (Some (mkCreate "" "" "" "" "")) (fun _ => None)
      = inr ("a", r2, "live-session:a:b:c").
Proof. eexists _, _. split; reflexivity. Qed.

(** ** Witnesses *)

Definition example_srv : Server := mkServer example_svc [mkDependency "redis" true None]
  (Some (mkMediaMTX "http://m:8888" "http://m:8889" "" "")) None ":8080".
Definition example_session : memoryLeaseStore * result lease_error sessionResponse :=
  issueSession (E := example_env) example_srv newMemoryLeaseStore 0 0 1 [0%nat] "u-1" "cam-1/hd"
    (mkCreate "default" "dev" "bob" "hls" "") "live".

#[local] Existing Instance Lease.example_laws.

(** What the server answers when the stream is gone; the token was pasted with
    a space. *)
Definition example_reattach (st : memoryLeaseStore) (resp0 : sessionResponse) : http_response :=
  snd (reattachLiveSession (E := example_env) example_srv st Second Second Second 0 [0%nat]
         (Ok (" " +:+ ReattachToken resp0)) (fun _ => Some errStreamNotFound)).

Lemma session_survives_outage_witness :
  exists st resp0, example_session = (st, Ok resp0) /\
  match example_reattach st resp0 with
  | SessionJSON code r => code = 200 /\ URLs r = URLs resp0
  | ErrorJSON _ _ => False
  end.
Proof.
  assert (match example_session with
          | (st, Ok resp0) =>
              bool_decide (TrimSpace (" " +:+ ReattachToken resp0) = ReattachToken resp0) &&
              match example_reattach st resp0 with SessionJSON _ _ => true | _ => false end
          | _ => false end = true) as Hrun by (vm_compute; reflexivity).
  destruct example_session as [st [resp0|e]] eqn:EI; [|discriminate Hrun].
  apply andb_prop in Hrun as [Htrim%bool_decide_eq_true Hrun].
  exists st, resp0. split; [reflexivity|].
  pose proof (session_survives_outage (E := example_env) example_srv false (90 * Second) (2 * Second) "k"
    newMemoryLeaseStore 0 0 1 [0%nat] "u-1" "cam-1/hd" (mkCreate "default" "dev" "bob" "hls" "") "live" st resp0
    st 1 Second Second Second 0 [0%nat] (" " +:+ ReattachToken resp0) (fun _ => Some errStreamNotFound)) as H.
  cbv zeta in H. fold (example_reattach st resp0) in H. destruct (example_reattach st resp0) as [code msg|code r];
    [discriminate Hrun|]. destruct H as (H1 & _ & _ & _ & _ & _ & _ & _ & H2); [..|split; [exact H1|exact H2]].
  - reflexivity.
  - intros t k l _ Hl. vm_compute in Hl. discriminate Hl.
  - lia.
  - discriminate.
  - vm_compute. discriminate.
  - vm_compute. reflexivity.
  - repeat constructor.
  - exact EI.
  - apply rtc_refl.
  - vm_compute. discriminate.
  - vm_compute. discriminate.
  - vm_compute. discriminate.
  - exact Htrim.
Defined.

Lemma createLiveSession_admits_witness :
  exists req ck,
    createLiveSession_admit " cam-1/hd " "" " k1 " (Some (mkCreate "" "" "" "WebRTC " "")) (fun _ => None)
      = inr ("cam-1/hd", req, ck) /\
    (q_PreferredProtocol req = "hls" \/ q_PreferredProtocol req = "webrtc").
Proof.
  eexists _, _. split; [reflexivity|].
  eapply (createLiveSession_admits " cam-1/hd " "" " k1 " (Some (mkCreate "" "" "" "WebRTC " "")) (fun _ => None)).
  reflexivity.
Defined.
