(* ===== verification/RelaySession.v ===== *)
(** * Relay sessions

    [internal/relay]: the viewers' sessions ([manager.go], [model.go]), their
    tokens ([token.go]), the control-plane handler ([handlers.go]), and the two
    API handlers that use them, [createLiveSessionV1]
    ([api/live_session_handler.go]), over the engine of Engine.v, and
    [serveRelayLiveStream] ([api/relay_live.go]).

    Sessions are pointers: the manager maps identifiers to positions in a heap
    that only grows. The JWT library is the class [RelayEnv]. What
    [serveRelayHLS] reads from the disk is not modelled: the answer [HLS key]
    stands for its call. *)

From S2P Require Import Prelude GoStrings Engine.

(** ** Data *)

Inductive SessionState :=
  | SessionStateCreating | SessionStateActive | SessionStateDraining | SessionStateClosed.

Definition ProtocolWebRTC : string := "webrtc".
Definition ProtocolHLS : string := "hls".

Record Session := mkSession {
  RelaySessionID : string; s_StreamID : string; s_CamID : string; s_ProfileID : string;
  s_Protocol : string; Endpoint : string; Token : string; TokenExpiresAt : Time;
  CreatedAt : Time; LastActiveAt : Time; s_state : SessionState }.

(** [s.StreamKey()] *)
Definition Session_StreamKey (s : Session) : string := s_CamID s +:+ "/" +:+ s_ProfileID s.

Definition set_state (x : SessionState) (s : Session) : Session :=
  mkSession (RelaySessionID s) (s_StreamID s) (s_CamID s) (s_ProfileID s) (s_Protocol s) (Endpoint s)
    (Token s) (TokenExpiresAt s) (CreatedAt s) (LastActiveAt s) x.

Definition set_LastActiveAt (t : Time) (s : Session) : Session :=
  mkSession (RelaySessionID s) (s_StreamID s) (s_CamID s) (s_ProfileID s) (s_Protocol s) (Endpoint s)
    (Token s) (TokenExpiresAt s) (CreatedAt s) t (s_state s).

Definition set_Token (signed : string) (s : Session) : Session :=
  mkSession (RelaySessionID s) (s_StreamID s) (s_CamID s) (s_ProfileID s) (s_Protocol s) (Endpoint s)
    signed (TokenExpiresAt s) (CreatedAt s) (LastActiveAt s) (s_state s).

Record CreateSessionRequest := mkReq {
  q_RelaySessionID : string; q_StreamID : string; q_CamID : string; q_ProfileID : string;
  RequestedProtocols : list string; q_TokenExpiresAt : Time }.

Record CreateSessionResponse := mkResp {
  p_RelaySessionID : string; p_Protocol : string; p_Endpoint : string; p_Token : string }.

(** The dates of a JWT are in seconds. *)
Record relayTokenClaims := mkClaims {
  c_ID : string; c_ExpiresAt : Z; c_IssuedAt : Z; c_RelaySessionID : string; c_StreamID : string;
  c_CamID : string; c_Protocol : string }.

Record Manager := mkManager {
  sessions : gmap string nat;
  heap : list Session;
  baseURL : string;
}.

Definition NewManager (baseURL : string) : Manager := mkManager ∅ [] baseURL.

(** ** Libraries *)

Class RelayEnv := {
  relay_Sign : relayTokenClaims -> result string string;
  relay_Verify : Time -> string -> result string relayTokenClaims;
}.

(** What was signed verifies until it expires. *)
Class RelayLaws (E : RelayEnv) : Prop :=
  relay_accepts : forall c s now,
    relay_Sign c = Ok s -> now < FromUnix (c_ExpiresAt c) -> relay_Verify now s = Ok c.

(** ** Tokens *)

Section Relay.
Context `{E : RelayEnv}.

Definition Issue (sess : Session) (now : Time) : result string string :=
  match relay_Sign (mkClaims (RelaySessionID sess) (Unix (TokenExpiresAt sess)) (Unix now)
                      (RelaySessionID sess) (s_StreamID sess) (s_CamID sess) (s_Protocol sess)) with
  | Err e => Err ("relay token sign: " +:+ e)
  | Ok signed => Ok signed
  end.

(** ** Manager *)

(** The first protocol requested that the relay speaks. *)
Fixpoint requested (ps : list string) : string :=
  match ps with
  | [] => ""
  | p :: ps => if bool_decide (p = ProtocolWebRTC) || bool_decide (p = ProtocolHLS) then p else requested ps
  end.

Definition negotiate (ps : list string) : string :=
  let proto := requested ps in if bool_decide (proto = "") then ProtocolHLS else proto.

(** [now], [iat]: the times [Create] and [Issue] read. *)
Definition Create (m : Manager) (req : CreateSessionRequest) (now iat : Time)
  : Manager * result string CreateSessionResponse :=
  let proto := negotiate (RequestedProtocols req) in
  let sess := mkSession (q_RelaySessionID req) (q_StreamID req) (q_CamID req) (q_ProfileID req) proto
    (baseURL m +:+ "/relay/live/" +:+ proto +:+ "/" +:+ q_RelaySessionID req) ""
    (q_TokenExpiresAt req) now now SessionStateCreating in
  match Issue sess iat with
  | Err e => (m, Err ("relay.create: issue token: " +:+ e))
  | Ok signed =>
      let sess := set_state SessionStateActive (set_Token signed sess) in
      (mkManager (<[RelaySessionID sess := length (heap m)]> (sessions m)) (heap m ++ [sess]) (baseURL m),
       Ok (mkResp (RelaySessionID sess) proto (Endpoint sess) signed))
  end.

Definition Close (m : Manager) (id : string) : Manager :=
  match sessions m !! id with
  | None => m
  | Some p => mkManager (delete id (sessions m)) (alter (set_state SessionStateClosed) p (heap m)) (baseURL m)
  end.

Definition Get (m : Manager) (id : string) : option nat := sessions m !! id.

(** The errors of [VerifyAndGetSession]. *)
Inductive relay_error :=
  | TokenInvalid (e : string)
  | SessionMismatch
  | SessionNotFound.

(** [tv], [now]: the times the JWT library and the manager read. *)
Definition VerifyAndGetSession (m : Manager) (tv now : Time) (signed id : string)
  : Manager * result relay_error nat :=
  match relay_Verify tv signed with
  | Err e => (m, Err (TokenInvalid e))
  | Ok claims =>
      if negb (bool_decide (c_RelaySessionID claims = id)) then (m, Err SessionMismatch)
      else match sessions m !! id with
      | None => (m, Err SessionNotFound)
      | Some p => (mkManager (sessions m) (alter (set_LastActiveAt now) p (heap m)) (baseURL m), Ok p)
      end
  end.

Definition ActiveCount (m : Manager) : nat := size (sessions m).

(** [s.LastActiveAt.Before(cutoff)] *)
Definition idle_before (m : Manager) (cutoff : Time) (p : nat) : bool :=
  match heap m !! p with Some s => LastActiveAt s <? cutoff | None => false end.

Definition ReapIdle (m : Manager) (now : Time) (maxIdle : Duration) : Manager :=
  let cutoff := now - maxIdle in
  let toClose := (filter (fun ip => idle_before m cutoff ip.2 = true) (map_to_list (sessions m))).*1 in
  mkManager (foldr delete (sessions m) toClose) (heap m) (baseURL m).

(** ** Handlers *)

Inductive response :=
  | JSONError (status : Z) (code msg : string)
  | HTTPError (status : Z) (code : string)
  | RelayCreated (r : CreateSessionResponse)
  | LiveCreated (viewerSessionID streamID protocol endpoint token : string) (expiresAt : Time)
  | NoContent
  | HLS (streamKey : string)
  | WebRTC (streamKey : string).

(** [Handler.CreateSession]; [body] is [None] when it is not JSON, and the zero
    time is [zero_time]. [now0] is the time of the default expiry. *)
Definition CreateSession (m : Manager) (now0 now iat : Time) (body : option CreateSessionRequest)
  : Manager * response :=
  match body with
  | None => (m, HTTPError 400 "bad_request")
  | Some req =>
      let req := if Prelude.IsZero (q_TokenExpiresAt req)
        then mkReq (q_RelaySessionID req) (q_StreamID req) (q_CamID req) (q_ProfileID req)
               (RequestedProtocols req) (now0 + 8 * Hour)
        else req in
      match Create m req now iat with
      | (m, Err _) => (m, HTTPError 503 "relay_unavailable")
      | (m, Ok resp) => (m, RelayCreated resp)
      end
  end.

Definition CloseSession (m : Manager) (id : string) : Manager * response := (Close m id, NoContent).

(** The server's [relayManager], [None] when there is none. *)
Definition serveRelayLiveStream (m : option Manager) (tv now : Time)
    (authHeader protocol id : string) : option Manager * response :=
  if negb (HasPrefix authHeader "Bearer ") then (m, JSONError 401 "unauthorized" "missing relay token")
  else
    let signed := TrimPrefix authHeader "Bearer " in
    match m with
    | None => (m, JSONError 503 "relay_unavailable" "relay not configured")
    | Some m =>
        match VerifyAndGetSession m tv now signed id with
        | (m, Err _) => (Some m, JSONError 401 "unauthorized" "invalid relay token")
        | (m, Ok p) =>
            match heap m !! p with
            | None => (Some m, JSONError 500 "" "")
            | Some sess =>
                if negb (bool_decide (s_Protocol sess = protocol))
                then (Some m, JSONError 400 "bad_request" "protocol mismatch")
                else
                  let streamKey := Session_StreamKey sess in
                  (Some m,
                   if bool_decide (protocol = ProtocolHLS) then HLS streamKey
                   else if bool_decide (protocol = ProtocolWebRTC) then WebRTC streamKey
                   else JSONError 400 "bad_request" ("unsupported protocol: " +:+ protocol))
            end
        end
    end.

Record createLiveSessionRequest := mkLive {
  lv_CamID : string; lv_ProfileID : string; DeliveryProtocols : list string }.

(** [ensure key] is the call of [EnsureStream]. *)
Definition createLiveSessionV1 {S} (m : Manager)
    (ensure : StreamKey -> option (outcome (string * S) * Engine)) (e : Engine)
    (viewerSessionID : string) (texp now iat : Time) (body : option createLiveSessionRequest)
  : option (Manager * Engine * outcome response) :=
  match body with
  | None => Some (m, e, Returns (JSONError 400 "bad_request" "invalid JSON"))
  | Some req =>
      if bool_decide (lv_CamID req = "") || bool_decide (lv_ProfileID req = "")
      then Some (m, e, Returns (JSONError 400 "bad_request" "cam_id and profile_id required"))
      else
        let protocols := match DeliveryProtocols req with
          | [] => [ProtocolWebRTC; ProtocolHLS] | l => l end in
        match ensure (mkKey (lv_CamID req) (lv_ProfileID req)) with
        | None => None
        | Some (Panics, e) => Some (m, e, Panics)
        | Some (Fails err, e) => Some (m, e, Returns (JSONError 503 "stream_unavailable" err))
        | Some (Returns (streamID, _), e) =>
            let expiresAt := texp + 8 * Hour in
            match Create m (mkReq viewerSessionID streamID (lv_CamID req) (lv_ProfileID req)
                              protocols expiresAt) now iat with
            | (m, Err err) => Some (m, e, Returns (JSONError 503 "relay_unavailable" err))
            | (m, Ok resp) =>
                Some (m, e, Returns (LiveCreated viewerSessionID streamID (p_Protocol resp)
                                       (p_Endpoint resp) (p_Token resp) expiresAt))
            end
        end
  end.

Definition deleteLiveSessionV1 (m : Manager) (id : string) : Manager * response :=
  (Close m id, NoContent).

(** ** Steps

    What happens to the manager, from a time on: any creation of a session whose
    identifier satisfies [may_create], any closing of one that satisfies
    [may_close], any access, and the reaper. *)

Inductive step (may_create may_close : string -> Prop) (idle : Duration)
  : Manager * Time -> Manager * Time -> Prop :=
  | step_create m T req now iat m' r :
      T <= now -> may_create (q_RelaySessionID req) -> Create m req now iat = (m', r) ->
      step may_create may_close idle (m, T) (m', now)
  | step_close m T now id :
      T <= now -> may_close id -> step may_create may_close idle (m, T) (Close m id, now)
  | step_access m T tv now signed id m' r :
      T <= now -> VerifyAndGetSession m tv now signed id = (m', r) ->
      step may_create may_close idle (m, T) (m', now)
  | step_reap m T now :
      T <= now -> step may_create may_close idle (m, T) (ReapIdle m now idle, now).

Definition anything (_ : string) : Prop := True.

(** Every session is filed under its identifier, active, with a protocol the
    relay speaks. *)
Definition session_ok (id : string) (s : Session) : Prop :=
  RelaySessionID s = id /\ s_state s = SessionStateActive /\
  (s_Protocol s = ProtocolHLS \/ s_Protocol s = ProtocolWebRTC).

Definition manager_wf (m : Manager) : Prop :=
  forall id p, sessions m !! id = Some p -> exists s, heap m !! p = Some s /\ session_ok id s.

(** ** Lemmas *)

Lemma negotiate_spoken ps : negotiate ps = ProtocolHLS \/ negotiate ps = ProtocolWebRTC.
Proof.
  unfold negotiate. induction ps as [|p ps IH]; cbn [requested]; [by left|].
  destruct (bool_decide (p = ProtocolWebRTC)) eqn:E1; [apply bool_decide_eq_true in E1 as ->; by right|].
  destruct (bool_decide (p = ProtocolHLS)) eqn:E2; [apply bool_decide_eq_true in E2 as ->; by left|].
  exact IH.
Qed.

Lemma ReapIdle_lookup m now idle id p :
  sessions (ReapIdle m now idle) !! id = Some p <->
  sessions m !! id = Some p /\ idle_before m (now - idle) p = false.
Proof.
  unfold ReapIdle. cbn [sessions].
  set (l := (filter _ (map_to_list (sessions m))).*1).
  assert (id ∈ l <-> exists q, sessions m !! id = Some q /\ idle_before m (now - idle) q = true) as Hl.
  { unfold l. rewrite list_elem_of_fmap. split.
    - intros ([i q] & -> & [Hf Hin]%list_elem_of_filter). apply elem_of_map_to_list in Hin. eauto.
    - intros (q & Hq & Hf). exists (id, q). split; [done|]. apply list_elem_of_filter.
      split; [done|]. by apply elem_of_map_to_list. }
  assert (foldr delete (sessions m) l !! id = if decide (id ∈ l) then None else sessions m !! id) as ->.
  { clear Hl. induction l as [|x l IH]; cbn [foldr].
    - rewrite decide_False by apply not_elem_of_nil. done.
    - destruct (decide (x = id)) as [->|Hne].
      + rewrite lookup_delete_eq, decide_True by constructor. done.
      + rewrite lookup_delete_ne, IH by done. do 2 case_decide; set_solver. }
  case_decide as Hd.
  - split; [done|]. intros [Hp Hf]. apply Hl in Hd as (q & Hq & Ht). congruence.
  - split; [|by intros [? _]]. intros Hp. split; [done|].
    destruct (idle_before m (now - idle) p) eqn:Ef; [|done]. exfalso. apply Hd, Hl. eauto.
Qed.

Lemma relay_Create_cases m req now iat m' r :
  Create m req now iat = (m', r) ->
  (exists e, m' = m /\ r = Err ("relay.create: issue token: relay token sign: " +:+ e)) \/
  exists s resp, r = Ok resp /\ session_ok (q_RelaySessionID req) s /\
    sessions m' = <[q_RelaySessionID req := length (heap m)]> (sessions m) /\
    heap m' = heap m ++ [s] /\ LastActiveAt s = now /\
    Session_StreamKey s = q_CamID req +:+ "/" +:+ q_ProfileID req /\
    s_Protocol s = negotiate (RequestedProtocols req) /\ p_Protocol resp = s_Protocol s /\
    relay_Sign (mkClaims (q_RelaySessionID req) (Unix (q_TokenExpiresAt req)) (Unix iat)
      (q_RelaySessionID req) (q_StreamID req) (q_CamID req) (s_Protocol s)) = Ok (p_Token resp).
Proof.
  unfold Create, Issue. cbn [RelaySessionID TokenExpiresAt s_StreamID s_CamID s_Protocol].
  destruct (relay_Sign _) as [signed|e] eqn:Es; intros [= <- <-]; [right|left; eauto].
  eexists _, _. split; [reflexivity|]. split_and!; try done.
  split_and!; [done|done|]. apply negotiate_spoken.
Qed.

Lemma manager_wf_alter m id p f m' :
  manager_wf m -> sessions m !! id = Some p -> sessions m' = sessions m -> heap m' = alter f p (heap m) ->
  (forall s, session_ok id s -> session_ok id (f s)) -> manager_wf m'.
Proof.
  intros Hwf Hp Hs Hh Hf id' p' Hp'. rewrite Hs in Hp'. destruct (Hwf _ _ Hp') as (s & Hlk & Hok).
  rewrite Hh. destruct (decide (p' = p)) as [->|Hne].
  - exists (f s). rewrite list_lookup_alter_eq, Hlk. split; [done|].
    destruct (Hwf _ _ Hp) as (s' & Hlk' & Hok'). assert (s' = s) as -> by congruence.
    destruct Hok as [<- _], Hok' as (Hid & Hrest). rewrite Hid. apply Hf. by split.
  - exists s. by rewrite list_lookup_alter_ne.
Qed.

Lemma step_wf P Q idle m T m' T' : step P Q idle (m, T) (m', T') -> manager_wf m -> manager_wf m' /\ T <= T'.
Proof.
  inversion 1 as [? ? req now iat ? r HT _ HC|? ? now id HT _|? ? tv now signed id ? r HT HV|? ? now HT]; subst;
    intros Hwf; (split; [|done]).
  - destruct (relay_Create_cases _ _ _ _ _ _ HC) as [(e & -> & _)|(s & resp & _ & Hok & Hs & Hh & _)]; [done|].
    intros id p. rewrite Hs, Hh. intros [[<- <-]|[_ Hp]]%lookup_insert_Some.
    + exists s. by rewrite list_lookup_middle.
    + destruct (Hwf _ _ Hp) as (s' & Hlk & Hok'). exists s'. split; [|done]. by apply lookup_app_l_Some.
  - unfold Close. destruct (sessions m !! id) as [q|] eqn:Eq; [|done].
    intros id' p. cbn [sessions heap]. intros [Hne Hp]%lookup_delete_Some. destruct (Hwf _ _ Hp) as (s & Hlk & Hok).
    exists s. split; [|done]. rewrite list_lookup_alter_ne; [done|]. intros <-.
    destruct (Hwf _ _ Eq) as (s' & Hlk' & Hok'). destruct Hok as [H1 _], Hok' as [H2 _]. congruence.
  - revert HV. unfold VerifyAndGetSession. destruct (relay_Verify tv signed) as [c|e]; [|by intros [= <- <-]].
    destruct (negb _); [by intros [= <- <-]|]. destruct (sessions m !! id) as [p|] eqn:Ep; intros [= <- <-]; [|done].
    eapply manager_wf_alter; [exact Hwf|exact Ep|reflexivity|reflexivity|]. by intros s (? & ? & ?).
  - intros id p Hp. apply ReapIdle_lookup in Hp as [Hp _]. by apply Hwf.
Qed.

Lemma relay_reachable_wf P Q idle url T0 x : rtc (step P Q idle) (NewManager url, T0) x -> manager_wf (fst x).
Proof.
  assert (forall y x, rtc (step P Q idle) y x -> manager_wf (fst y) -> manager_wf (fst x)) as H.
  { induction 1 as [|[m T] [m1 T1] y Hs _ IH]; [done|]. intros Hwf. by apply IH, (step_wf _ _ _ _ _ _ _ Hs). }
  intros Hr. apply (H _ _ Hr). intros id p. cbn. by rewrite lookup_empty.
Qed.

(** The session of [id] is [p], used at [a] or later, over [proto] for [key]. *)
Definition keeps (id : string) (p : nat) (a : Time) (proto key : string) (m : Manager) : Prop :=
  sessions m !! id = Some p /\
  exists s, heap m !! p = Some s /\ a <= LastActiveAt s /\ s_Protocol s = proto /\ Session_StreamKey s = key.

Definition but (id x : string) : Prop := x <> id.

Lemma relay_step_keeps id p a proto key idle m T m' T' :
  step (but id) (but id) idle (m, T) (m', T') -> manager_wf m -> a <= T -> T' <= a + idle ->
  keeps id p a proto key m -> keeps id p a proto key m'.
Proof.
  intros Hstep Hwf HaT Hidle (Hp & s & Hlk & Ha & Hproto & Hkey).
  inversion Hstep as [? ? req now iat ? r HT Hne HC|? ? now id' HT Hne|? ? tv now signed id' ? r HT HV|? ? now HT]; subst.
  - destruct (relay_Create_cases _ _ _ _ _ _ HC) as [(e & -> & _)|(s' & resp & _ & Hok & Hs & Hh & _)].
    { split; [done|]. eauto. }
    split; [by rewrite Hs, lookup_insert_ne|]. exists s. rewrite Hh. split; [by apply lookup_app_l_Some|done].
  - unfold Close. destruct (sessions m !! id') as [q|] eqn:Eq; [|split; [done|by eauto]].
    split; [by cbn; rewrite lookup_delete_ne|]. exists s. cbn [heap]. rewrite list_lookup_alter_ne; [done|].
    intros <-. destruct (Hwf _ _ Eq) as (s1 & Hs1 & H1 & _), (Hwf _ _ Hp) as (s2 & Hs2 & H2 & _).
    unfold but in Hne. congruence.
  - revert HV. unfold VerifyAndGetSession. destruct (relay_Verify tv signed) as [c|e];
      [|intros [= <- <-]; split; [done|by eauto]].
    destruct (negb _); [intros [= <- <-]; split; [done|by eauto]|].
    destruct (sessions m !! id') as [q|] eqn:Eq; intros [= <- <-]; [|split; [done|by eauto]].
    split; [done|]. cbn [heap]. destruct (decide (p = q)) as [->|Hpq].
    + exists (set_LastActiveAt T' s). rewrite list_lookup_alter_eq, Hlk. split_and!; [done|cbn; lia|done|done].
    + exists s. by rewrite list_lookup_alter_ne.
  - split; [|by eauto]. apply ReapIdle_lookup. split; [done|]. unfold idle_before. rewrite Hlk.
    apply Z.ltb_ge. lia.
Qed.

(** What [serveRelayLiveStream] answers to a token that verifies. *)
Lemma serve_kept id p a proto key m tv now token c :
  keeps id p a proto key m -> proto = ProtocolHLS \/ proto = ProtocolWebRTC ->
  relay_Verify tv token = Ok c -> c_RelaySessionID c = id ->
  exists m', keeps id p now proto key m' /\ VerifyAndGetSession m tv now token id = (m', Ok p) /\
    serveRelayLiveStream (Some m) tv now ("Bearer " +:+ token) proto id
    = (Some m', if bool_decide (proto = ProtocolHLS) then HLS key else WebRTC key).
Proof.
  intros (Hp & s & Hlk & _ & Hproto & Hkey) Hspoken Hv Hid.
  assert (VerifyAndGetSession m tv now token id =
    (mkManager (sessions m) (alter (set_LastActiveAt now) p (heap m)) (baseURL m), Ok p)) as HV.
  { unfold VerifyAndGetSession. by rewrite Hv, Hid, bool_decide_true, Hp by done. }
  eexists. split; [|split; [exact HV|]].
  - split; [done|]. exists (set_LastActiveAt now s). cbn [heap]. by rewrite list_lookup_alter_eq, Hlk.
  - unfold serveRelayLiveStream, TrimPrefix. rewrite HasPrefix_app, strip_prefix_app. cbn [negb from_option Datatypes.id].
    rewrite HV. cbn [heap]. rewrite list_lookup_alter_eq, Hlk. cbn [fmap option_fmap option_map].
    cbn [s_Protocol set_LastActiveAt]. rewrite Hproto, bool_decide_true by done. cbn [negb].
    assert (Session_StreamKey (set_LastActiveAt now s) = key) as -> by done.
    by destruct Hspoken as [-> | ->].
Qed.

(** A viewer and its session: it was created for [req], answered by [resp]; the
    viewer last used it at [a], and it is [T] now. Others do what they like, but
    not to this session; the viewer is not away for longer than [idle]. *)
Inductive watching (idle : Duration) (req : CreateSessionRequest) (resp : CreateSessionResponse)
  : Manager -> Time -> Time -> Prop :=
  | w_create m url T0 T now iat m' :
      rtc (step anything anything idle) (NewManager url, T0) (m, T) -> T <= now ->
      Create m req now iat = (m', Ok resp) -> watching idle req resp m' now now
  | w_others m a T m' T' :
      watching idle req resp m a T ->
      step (but (q_RelaySessionID req)) (but (q_RelaySessionID req)) idle (m, T) (m', T') ->
      T' <= a + idle -> watching idle req resp m' a T'
  | w_access m a T tv now m' r :
      watching idle req resp m a T -> T <= now -> tv < FromUnix (Unix (q_TokenExpiresAt req)) ->
      serveRelayLiveStream (Some m) tv now ("Bearer " +:+ p_Token resp) (p_Protocol resp)
        (q_RelaySessionID req) = (Some m', r) ->
      watching idle req resp m' now now.

Lemma watching_keeps `{!RelayLaws E} idle req resp m a T :
  watching idle req resp m a T ->
  manager_wf m /\ a <= T /\
  (exists iat, relay_Sign (mkClaims (q_RelaySessionID req) (Unix (q_TokenExpiresAt req)) (Unix iat)
      (q_RelaySessionID req) (q_StreamID req) (q_CamID req) (p_Protocol resp)) = Ok (p_Token resp)) /\
  p_Protocol resp = negotiate (RequestedProtocols req) /\
  exists p, keeps (q_RelaySessionID req) p a (p_Protocol resp) (q_CamID req +:+ "/" +:+ q_ProfileID req) m.
Proof.
  induction 1 as [m url T0 T now iat m' Hr HT HC|m a T m' T' _ IH Hstep Hidle|m a T tv now m' r _ IH HT Htv Hserve].
  - pose proof (relay_reachable_wf _ _ _ _ _ _ Hr) as Hwf. cbn [fst] in Hwf.
    destruct (step_wf _ _ _ _ _ _ _ (step_create anything anything idle _ T _ _ _ _ _ HT I HC) Hwf) as [Hwf' _].
    destruct (relay_Create_cases _ _ _ _ _ _ HC) as [(e & _ & [=])|(s & ? & [= <-] & _ & Hs & Hh & Hl & Hk & Hn & Hp & Hsign)].
    split_and!; [done|lia|exists iat; by rewrite Hp|congruence|].
    exists (length (heap m)). split; [by rewrite Hs, lookup_insert_eq|]. exists s. rewrite Hh, list_lookup_middle by done.
    split_and!; [done|lia|done|done].
  - destruct IH as (Hwf & Ha & Hsign & Hn & p & Hk). destruct (step_wf _ _ _ _ _ _ _ Hstep Hwf) as [Hwf' HT].
    split_and!; [done|lia|done|done|]. exists p. by eapply relay_step_keeps.
  - destruct IH as (Hwf & Ha & [iat Hsign] & Hn & p & Hk).
    pose proof (relay_accepts _ _ tv Hsign Htv) as Hv.
    destruct (serve_kept _ _ _ _ _ _ tv now _ _ Hk ltac:(rewrite Hn; apply negotiate_spoken) Hv eq_refl)
      as (m1 & Hk1 & HV & Hserve1).
    rewrite Hserve in Hserve1. injection Hserve1 as -> _.
    destruct (step_wf _ _ _ _ _ _ _ (step_access anything anything idle _ T _ _ _ _ _ _ HT HV) Hwf) as [Hwf' _].
    split_and!; [done|lia|by exists iat|done|]. by exists p.
Qed.

(** C36: a viewer that keeps watching keeps its session. From the creation of a
    session on, whatever else happens to the manager (other sessions created,
    closed or reaped, any token presented), as long as nobody creates or closes
    the session's identifier and the viewer is never away for longer than the
    idle timeout, its token opens, until it expires, the stream the session was
    created for, over the protocol that was negotiated. *)
Theorem relay_session_watched `{!RelayLaws E} idle req resp m a T tv now :
  watching idle req resp m a T -> T <= now -> tv < FromUnix (Unix (q_TokenExpiresAt req)) ->
  let key := q_CamID req +:+ "/" +:+ q_ProfileID req in
  p_Protocol resp = negotiate (RequestedProtocols req) /\
  snd (serveRelayLiveStream (Some m) tv now ("Bearer " +:+ p_Token resp) (p_Protocol resp)
         (q_RelaySessionID req))
  = (if bool_decide (p_Protocol resp = ProtocolHLS) then HLS key else WebRTC key).
Proof.
  intros Hw HT Htv key. destruct (watching_keeps _ _ _ _ _ _ Hw) as (_ & _ & [iat Hsign] & Hn & p & Hk).
  split; [done|]. pose proof (relay_accepts _ _ tv Hsign Htv) as Hv.
  destruct (serve_kept _ _ _ _ _ _ tv now _ _ Hk ltac:(rewrite Hn; apply negotiate_spoken) Hv eq_refl)
    as (m' & _ & _ & ->). done.
Qed.

Lemma step_none P Q idle id x y :
  step P Q idle x y -> ~ P id -> sessions (fst x) !! id = None -> sessions (fst y) !! id = None.
Proof.
  intros Hstep HP. destruct Hstep as [m T req now iat m' r _ Hc HC|m T now id' _ _|m T tv now signed id' m' r _ HV|m T now _];
    cbn [fst]; intros Hn.
  - destruct (relay_Create_cases _ _ _ _ _ _ HC) as [(e & -> & _)|(s & resp & _ & _ & -> & _)]; [done|].
    rewrite lookup_insert_ne; [done|]. intros <-. done.
  - unfold Close. destruct (sessions m !! id'); [|done]. cbn. apply lookup_delete_None. by right.
  - revert HV. unfold VerifyAndGetSession. destruct (relay_Verify tv signed); [|by intros [= <- _]].
    destruct (negb _); [by intros [= <- _]|]. by destruct (sessions m !! id'); intros [= <- _].
  - destruct (sessions (ReapIdle m now idle) !! id) as [p|] eqn:Ep; [|done].
    apply ReapIdle_lookup in Ep as [Ep _]. congruence.
Qed.

Lemma rtc_none P Q idle id x y :
  rtc (step P Q idle) x y -> ~ P id -> sessions (fst x) !! id = None -> sessions (fst y) !! id = None.
Proof. induction 1; [done|]. intros HP Hn. by apply IHrtc, (step_none _ _ _ _ _ _ H). Qed.

(** closing is final: once a session was closed, or reaped after an idle
    period, no token opens it again, as long as the identifier is not given out
    again. *)
Theorem relay_close_is_final m T id idle m' T' :
  let closed := Close m id in
  let reaped := ReapIdle m T idle in
  rtc (step (but id) anything idle) (closed, T) (m', T') \/
  (exists p, sessions m !! id = Some p /\ idle_before m (T - idle) p = true /\
     rtc (step (but id) anything idle) (reaped, T) (m', T')) ->
  forall tv now header protocol, exists msg,
    serveRelayLiveStream (Some m') tv now header protocol id = (Some m', JSONError 401 "unauthorized" msg).
Proof.
  intros closed reaped H tv now header protocol.
  assert (sessions m' !! id = None) as Hn.
  { destruct H as [H|(p & Hp & Hi & H)]; refine (rtc_none _ _ _ id _ _ H _ _); try (intros Hb; by apply Hb).
    - unfold closed, Close. cbn [fst]. destruct (sessions m !! id) eqn:Ei; [|done]. cbn. apply lookup_delete_eq.
    - cbn [fst]. destruct (sessions reaped !! id) as [q|] eqn:Eq; [|done].
      apply ReapIdle_lookup in Eq as [Eq Hf]. congruence. }
  unfold serveRelayLiveStream, VerifyAndGetSession. destruct (negb _); [eauto|].
  destruct (relay_Verify tv _) as [c|e]; [|eauto]. destruct (negb _); [eauto|]. rewrite Hn. eauto.
Qed.

(** C38: a live session is a session on the stream that was started. When
    [createLiveSessionV1] succeeds, [EnsureStream] has returned the stream of
    the camera and profile asked for, and until the token expires the relay
    serves with it the stream of that very key, over the first protocol of the
    client that it speaks (WebRTC when the client names none). Otherwise the
    manager is unchanged, and the answer says what failed. *)
Theorem live_session_serves_the_stream `{!RelayLaws E} {St} (m : Manager)
    (ensure : StreamKey -> option (outcome (string * St) * Engine)) e vid texp now iat req m' e' out :
  createLiveSessionV1 m ensure e vid texp now iat (Some req) = Some (m', e', out) ->
  let key := mkKey (lv_CamID req) (lv_ProfileID req) in
  match out with
  | Returns (LiveCreated vid' sid proto ep token expiry) =>
      vid' = vid /\ expiry = texp + 8 * Hour /\
      (exists s, ensure key = Some (Returns (sid, s), e')) /\
      proto = negotiate (match DeliveryProtocols req with [] => [ProtocolWebRTC; ProtocolHLS] | l => l end) /\
      forall tv t, tv < FromUnix (Unix expiry) ->
        snd (serveRelayLiveStream (Some m') tv t ("Bearer " +:+ token) proto vid)
        = (if bool_decide (proto = ProtocolHLS) then HLS (StreamKey_String key) else WebRTC (StreamKey_String key))
  | Returns (JSONError status code msg) => m' = m /\
      ((status = 400 /\ e' = e /\ Engine.IsZero key = true) \/
       (code = "stream_unavailable" /\ ensure key = Some (Fails msg, e')) \/
       (code = "relay_unavailable" /\ exists p, ensure key = Some (Returns p, e')))
  | Returns _ => False
  | Fails _ => False
  | Panics => m' = m /\ ensure key = Some (Panics, e')
  end.
Proof.
  intros H key. revert H. unfold createLiveSessionV1. fold key.
  change (IsZero key) with (bool_decide (lv_CamID req = "") || bool_decide (lv_ProfileID req = "")).
  destruct (bool_decide (lv_CamID req = "") || bool_decide (lv_ProfileID req = "")) eqn:Ez.
  { intros [= <- <- <-]. split; [done|]. left. by split_and!. }
  destruct (ensure key) as [[[[sid s]|err|] e1]|]; [|intros [= <- <- <-]; eauto 6|intros [= <- <- <-]; eauto 6|done].
  set (protocols := match DeliveryProtocols req with [] => _ | l => l end).
  destruct (Create _ _ _ _) as [m1 [resp|err]] eqn:EC; destruct (relay_Create_cases _ _ _ _ _ _ EC)
    as [(er & -> & Hr)|(s0 & x & Hr & Hok & Hs & Hh & Hl & Hk & Hn & Hp & Hsign)]; try discriminate Hr.
  - injection Hr as <-. intros [= <- <- <-]. cbn [q_RelaySessionID q_TokenExpiresAt q_CamID q_ProfileID RequestedProtocols] in *.
    split_and!; [done|done|eauto|congruence|]. intros tv t Htv.
    assert (keeps vid (length (heap m)) now (s_Protocol s0) (StreamKey_String key) m1) as Hkeep.
    { split; [by rewrite Hs, lookup_insert_eq|]. exists s0. rewrite Hh, list_lookup_middle by done.
      split_and!; [done|lia|done|done]. }
    pose proof (relay_accepts _ _ tv Hsign Htv) as Hv. rewrite Hp.
    destruct (serve_kept _ _ _ _ _ _ tv t _ _ Hkeep ltac:(rewrite Hn; apply negotiate_spoken) Hv eq_refl)
      as (m2 & _ & _ & ->). done.
  - intros [= <- <- <-]. split; [done|]. right. right. eauto.
Qed.

(** a token is bound to an identifier, not to a stream: when the control plane
    gives an identifier out again, for another stream, the token of the first
    session opens the second one's stream. *)
Theorem relay_token_opens_the_new_stream `{!RelayLaws E} m req1 t1 i1 m1 r1 req2 t2 i2 m2 r2 tv t :
  Create m req1 t1 i1 = (m1, Ok r1) -> Create m1 req2 t2 i2 = (m2, Ok r2) ->
  q_RelaySessionID req1 = q_RelaySessionID req2 -> tv < FromUnix (Unix (q_TokenExpiresAt req1)) ->
  let key := q_CamID req2 +:+ "/" +:+ q_ProfileID req2 in
  snd (serveRelayLiveStream (Some m2) tv t ("Bearer " +:+ p_Token r1) (p_Protocol r2) (q_RelaySessionID req2))
  = (if bool_decide (p_Protocol r2 = ProtocolHLS) then HLS key else WebRTC key).
Proof.
  intros H1 H2 Hid Htv key.
  destruct (relay_Create_cases _ _ _ _ _ _ H1) as [(? & _ & [=])|(s1 & ? & [= <-] & _ & _ & _ & _ & _ & _ & _ & Hsign)].
  destruct (relay_Create_cases _ _ _ _ _ _ H2) as [(? & _ & Hr)|(s2 & x & Hr & Hok & Hs & Hh & Hl & Hk & Hn & Hp & _)];
    [done|injection Hr as <-].
  assert (keeps (q_RelaySessionID req2) (length (heap m1)) t2 (s_Protocol s2) key m2) as Hkeep.
  { split; [by rewrite Hs, lookup_insert_eq|]. exists s2. rewrite Hh, list_lookup_middle by done.
    split_and!; [done|lia|done|done]. }
  pose proof (relay_accepts _ _ tv Hsign Htv) as Hv. rewrite Hp.
  destruct (serve_kept _ _ _ _ _ _ tv t _ _ Hkeep ltac:(rewrite Hn; apply negotiate_spoken) Hv Hid)
    as (m' & _ & _ & ->). done.
Qed.
End Relay.

(** ** Witnesses *)

Definition claims_tuple (c : relayTokenClaims) : list string * (Z * Z) :=
  ([c_ID c; c_RelaySessionID c; c_StreamID c; c_CamID c; c_Protocol c], (c_ExpiresAt c, c_IssuedAt c)).
Definition tuple_claims (t : list string * (Z * Z)) : option relayTokenClaims :=
  match t with
  | ([i; r; s; c; p], (exp, iat)) => Some (mkClaims i exp iat r s c p)
  | _ => None
  end.

#[local] Instance example_env : RelayEnv := {
  relay_Sign c := Ok (bits (encode (claims_tuple c)));
  relay_Verify now s :=
    match decode (A := list string * (Z * Z)) (unbits s) ≫= tuple_claims with
    | Some c => if now <? FromUnix (c_ExpiresAt c) then Ok c else Err "token is expired"
    | None => Err "token is malformed"
    end;
}.

#[local] Instance example_laws : RelayLaws example_env.
Proof.
  intros [] s now [= <-] Hnow. cbn in Hnow. unfold relay_Verify, example_env.
  rewrite unbits_bits, decode_encode. cbn. by destruct (Z.ltb_spec now (FromUnix c_ExpiresAt0)); [|lia].
Qed.

Definition example_live : createLiveSessionRequest := mkLive "cam-1" "hd" ["rtsp"; "hls"].
Definition example_ensure (_ : StreamKey) : option (outcome (string * nat) * Engine) :=
  Some (Returns ("stream-1", 7%nat), NewEngine).
Definition example_req : CreateSessionRequest :=
  mkReq "v-1" "stream-1" "cam-1" "hd" ["rtsp"; "hls"] (8 * Hour).

(** Created, reaped in time, watched twice. *)
Lemma relay_session_watched_witness :
  exists m resp, Create (NewManager "http://relay") example_req 0 0 = (m, Ok resp) /\
  let m1 := ReapIdle m (20 * Second) (30 * Second) in
  snd (serveRelayLiveStream (Some m1) (25 * Second) (25 * Second) ("Bearer " +:+ p_Token resp)
         (p_Protocol resp) "v-1") = HLS "cam-1/hd".
Proof.
  destruct (Create (NewManager "http://relay") example_req 0 0) as [m [resp|e]] eqn:EC; [|discriminate EC].
  exists m, resp. split; [reflexivity|]. intros m1.
  destruct (relay_session_watched (30 * Second) example_req resp m1 0 (20 * Second) (25 * Second) (25 * Second))
    as [Hp Hserve].
  - apply (w_others _ _ _ m 0 0 m1 (20 * Second)).
    + exact (w_create _ _ _ _ "http://relay" 0 0 0 0 m (rtc_refl _ _) ltac:(lia) EC).
    + apply step_reap. vm_compute. discriminate.
    + vm_compute. discriminate.
  - vm_compute. discriminate.
  - vm_compute. reflexivity.
  - rewrite Hp in Hserve |- *. exact Hserve.
Defined.

Lemma relay_close_is_final_witness :
  exists m resp, Create (NewManager "http://relay") example_req 0 0 = (m, Ok resp) /\
  exists msg, serveRelayLiveStream (Some (Close m "v-1")) 1 1 ("Bearer " +:+ p_Token resp) "hls" "v-1"
    = (Some (Close m "v-1"), JSONError 401 "unauthorized" msg).
Proof.
  destruct (Create (NewManager "http://relay") example_req 0 0) as [m [resp|e]] eqn:EC; [|discriminate EC].
  exists m, resp. split; [reflexivity|].
  exact (relay_close_is_final m 0 "v-1" (30 * Second) (Close m "v-1") 0 (or_introl (rtc_refl _ _)) 1 1 _ "hls").
Defined.

Lemma live_session_serves_the_stream_witness :
  exists m' e' out, createLiveSessionV1 (NewManager "http://relay") example_ensure NewEngine "v-1" 0 0 0
      (Some example_live) = Some (m', e', out) /\
    match out with
    | Returns (LiveCreated _ _ proto _ token _) =>
        snd (serveRelayLiveStream (Some m') Hour Hour ("Bearer " +:+ token) proto "v-1") = HLS "cam-1/hd"
    | _ => False
    end.
Proof.
  destruct (createLiveSessionV1 (NewManager "http://relay") example_ensure NewEngine "v-1" 0 0 0
      (Some example_live)) as [[[m' e'] out]|] eqn:EC; [|discriminate EC].
  exists m', e', out. split; [reflexivity|].
  pose proof (live_session_serves_the_stream _ _ _ _ _ _ _ _ _ _ _ EC) as H.
  destruct out as [[]| |]; try (vm_compute in EC; discriminate EC).
  destruct H as (_ & -> & _ & -> & H). exact (H Hour Hour eq_refl).
Defined.

Lemma relay_token_opens_the_new_stream_witness :
  exists m1 r1 m2 r2,
    Create (NewManager "http://relay") example_req 0 0 = (m1, Ok r1) /\
    Create m1 (mkReq "v-1" "stream-2" "cam-2" "hd" [] (8 * Hour)) 1 1 = (m2, Ok r2) /\
    snd (serveRelayLiveStream (Some m2) 2 2 ("Bearer " +:+ p_Token r1) (p_Protocol r2) "v-1") = HLS "cam-2/hd".
Proof.
  destruct (Create (NewManager "http://relay") example_req 0 0) as [m1 [r1|e]] eqn:E1; [|discriminate E1].
  destruct (Create m1 (mkReq "v-1" "stream-2" "cam-2" "hd" [] (8 * Hour)) 1 1) as [m2 [r2|e]] eqn:E2;
    [|discriminate E2].
  exists m1, r1, m2, r2. split; [reflexivity|]. split; [exact E2|].
  pose proof (relay_token_opens_the_new_stream _ _ _ _ _ _ _ _ _ _ _ 2 2 E1 E2 eq_refl eq_refl) as H.
  assert (p_Protocol r2 = "hls") as Hp by (injection E2 as _ <-; reflexivity).
  rewrite Hp in H |- *. exact H.
Defined.
