(* ===== verification/Node.v ===== *)
(** * Cluster discovery

    [internal/node/selector.go] and [registry.go]: the choice of a node, the
    heartbeats and the stream locations kept in Redis, and the lookup of the
    source of a relay ([EnsureRelay] of relay.go). Redis is the interface of
    Redis.v; [json.Marshal] and [json.Unmarshal] on [NodeInfo] are the class
    [NodeEnv]. *)

From S2P Require Import Prelude GoStrings Redis.

(** ** Data *)

Record NodeInfo := mkNode {
  n_ID : string; HTTPAddr : string; Role : string; StreamCount : Z; UpdatedAt : Time }.

Definition nodeTTL : Duration := 15 * Second.
Definition streamTTL : Duration := 30 * Second.
Definition node_key (id : string) : string := "node:" +:+ id.
Definition stream_key (key : string) : string := "stream:" +:+ key.

Class NodeEnv := {
  node_Marshal : NodeInfo -> string;
  node_Unmarshal : string -> option NodeInfo;
}.

Class NodeLaws (E : NodeEnv) : Prop :=
  node_roundtrip : forall n, node_Unmarshal (node_Marshal n) = Some n.

(** ** Choice of a node *)

Definition staleThreshold : Duration := 10 * Second.
Definition MaxInt32 : Z := 2 ^ 31 - 1.

Definition eligible (now : Time) (preferRole : string) (n : NodeInfo) : bool :=
  negb (staleThreshold <? now - UpdatedAt n) &&
  (bool_decide (preferRole = "") || bool_decide (Role n = preferRole)).

(** The loop: the best node so far and its load. *)
Fixpoint select_loop (now : Time) (preferRole : string) (best : NodeInfo) (bestLoad : Z)
    (nodes : list NodeInfo) : NodeInfo * Z :=
  match nodes with
  | [] => (best, bestLoad)
  | n :: nodes =>
      if staleThreshold <? now - UpdatedAt n then select_loop now preferRole best bestLoad nodes
      else if negb (bool_decide (preferRole = "")) && negb (bool_decide (Role n = preferRole))
      then select_loop now preferRole best bestLoad nodes
      else if StreamCount n <? bestLoad
      then select_loop now preferRole n (StreamCount n) nodes
      else select_loop now preferRole best bestLoad nodes
  end.

Definition no_node : NodeInfo := mkNode "" "" "" 0 zero_time.

(** [None]: [ErrNoAvailableNode]. *)
Definition SelectNode (now : Time) (nodes : list NodeInfo) (preferRole : string) : option NodeInfo :=
  let '(best, bestLoad) := select_loop now preferRole no_node MaxInt32 nodes in
  if bestLoad =? MaxInt32 then None else Some best.

(** The source of a relay, by its id ([EnsureRelay]): the first node of that id,
    unless it has no address. *)
Fixpoint source_addr (nodes : list NodeInfo) (sourceNodeID : string) : string :=
  match nodes with
  | [] => ""
  | n :: nodes => if bool_decide (n_ID n = sourceNodeID) then HTTPAddr n
                  else source_addr nodes sourceNodeID
  end.

(** ** The registry *)

Section Registry.
Context `{E : NodeEnv} {R} `{!Redis R}.

(** One heartbeat; a failure is logged. *)
Definition publish (self : NodeInfo) (count : Z) (now : Time) (r : R) : NodeInfo * R :=
  let self := mkNode (n_ID self) (HTTPAddr self) (Role self) count now in
  (self, match r_Set r now (node_key (n_ID self)) (node_Marshal self) nodeTTL with
         | Ok r => r
         | Err _ => r
         end).

(** The end of the heartbeat loop. *)
Definition deregister (id : string) (now : Time) (r : R) : R :=
  match r_Del r now (node_key id) with Ok r => r | Err _ => r end.

Definition AnnounceStream (id key : string) (now : Time) (r : R) : result string R :=
  r_Set r now (stream_key key) id streamTTL.

Definition RevokeStream (key : string) (now : Time) (r : R) : result string R :=
  r_Del r now (stream_key key).

(** The error "not found in cluster", or Redis's. *)
Definition FindStream (key : string) (now : Time) (r : R) : result string string :=
  match r_Get r now (stream_key key) with
  | Err e => Err e
  | Ok None => Err ("stream " +:+ quote key +:+ " not found in cluster")
  | Ok (Some id) => Ok id
  end.

(** The loop of [AllNodes] over the keys: those that are gone or unreadable are
    skipped. *)
Fixpoint read_nodes (r : R) (now : Time) (keys : list string) : list NodeInfo :=
  match keys with
  | [] => []
  | k :: keys =>
      match r_Get r now k with
      | Ok (Some data) =>
          match node_Unmarshal data with
          | Some n => n :: read_nodes r now keys
          | None => read_nodes r now keys
          end
      | _ => read_nodes r now keys
      end
  end.

Definition AllNodes (r : R) (now : Time) : result string (list NodeInfo) :=
  let? keys := r_Keys r now "node:" in
  Ok (read_nodes r now keys).

(** What happens in the cluster, apart from the heartbeats of node [id0] and
    from announcements of stream [key0]: a time and the contents of Redis. *)
Inductive cluster_step (id0 key0 : string) : R * Time -> R * Time -> Prop :=
  | step_publish r T now self count :
      T <= now -> n_ID self <> id0 ->
      cluster_step id0 key0 (r, T) (snd (publish self count now r), now)
  | step_deregister r T now id :
      T <= now -> id <> id0 -> cluster_step id0 key0 (r, T) (deregister id now r, now)
  | step_announce r T now id key r' :
      T <= now -> key <> key0 -> AnnounceStream id key now r = Ok r' ->
      cluster_step id0 key0 (r, T) (r', now)
  | step_revoke r T now key r' :
      T <= now -> key <> key0 -> RevokeStream key now r = Ok r' ->
      cluster_step id0 key0 (r, T) (r', now).
End Registry.

(** ** Lemmas *)

Lemma select_loop_spec now role nodes : forall best load,
  let '(b, l) := select_loop now role best load nodes in
  (forall m, m ∈ nodes -> eligible now role m = true -> l <= StreamCount m) /\ l <= load /\
  ((b = best /\ l = load) \/
   exists l1 l2, nodes = l1 ++ b :: l2 /\ eligible now role b = true /\ StreamCount b = l /\ l < load /\
     forall m, m ∈ l1 -> eligible now role m = true -> l < StreamCount m).
Proof.
  induction nodes as [|n nodes IH]; intros best load; cbn [select_loop].
  { split_and!; [by intros m ?%elem_of_nil|done|by left]. }
  assert (forall b l, (eligible now role n = true -> load <= StreamCount n) ->
    (forall m, m ∈ nodes -> eligible now role m = true -> l <= StreamCount m) /\ l <= load /\
    ((b = best /\ l = load) \/
     exists l1 l2, nodes = l1 ++ b :: l2 /\ eligible now role b = true /\ StreamCount b = l /\ l < load /\
       forall m, m ∈ l1 -> eligible now role m = true -> l < StreamCount m) ->
    (forall m, m ∈ n :: nodes -> eligible now role m = true -> l <= StreamCount m) /\ l <= load /\
    ((b = best /\ l = load) \/
     exists l1 l2, n :: nodes = l1 ++ b :: l2 /\ eligible now role b = true /\ StreamCount b = l /\ l < load /\
       forall m, m ∈ l1 -> eligible now role m = true -> l < StreamCount m)) as Hskip.
  { intros b l Hn (Hmin & Hle & Hb). split_and!; [|done|].
    - intros m [-> |Hm]%elem_of_cons He; [apply Hn in He; lia|by apply Hmin].
    - destruct Hb as [Hb|(l1 & l2 & -> & He & Hc & Hlt & Hfst)]; [by left|right].
      exists (n :: l1), l2. split_and!; [done..|]. intros m [-> |Hm]%elem_of_cons Hem.
      + apply Hn in Hem. lia.
      + by apply Hfst. }
  destruct (Z.ltb_spec staleThreshold (now - UpdatedAt n)) as [Hst|Hst].
  { specialize (IH best load). destruct (select_loop _ _ _ _ nodes) as [b l]. apply Hskip, IH.
    unfold eligible. by destruct (Z.ltb_spec staleThreshold (now - UpdatedAt n)); [|lia]. }
  destruct (negb _ && negb _) eqn:Erole.
  { specialize (IH best load). destruct (select_loop _ _ _ _ nodes) as [b l]. apply Hskip, IH.
    unfold eligible. rewrite <- negb_orb in Erole. apply negb_true_iff in Erole. by rewrite Erole, andb_false_r. }
  assert (eligible now role n = true) as Hel.
  { unfold eligible. rewrite <- negb_orb in Erole. apply negb_false_iff in Erole. rewrite Erole.
    by destruct (Z.ltb_spec staleThreshold (now - UpdatedAt n)); [lia|]. }
  destruct (Z.ltb_spec (StreamCount n) load) as [Hload|Hload].
  - specialize (IH n (StreamCount n)). destruct (select_loop _ _ _ _ nodes) as [b l].
    destruct IH as (Hmin & Hle & Hb). split_and!; [|lia|right].
    + intros m [-> |Hm]%elem_of_cons He; [done|by apply Hmin].
    + destruct Hb as [[-> ->]|(l1 & l2 & -> & He & Hc & Hlt & Hfst)].
      * exists [], nodes. split_and!; [done..|by intros m ?%elem_of_nil].
      * exists (n :: l1), l2. split_and!; [done..|lia|]. intros m [-> |Hm]%elem_of_cons Hem; [lia|by apply Hfst].
  - specialize (IH best load). destruct (select_loop _ _ _ _ nodes) as [b l]. by apply Hskip, IH.
Qed.

Lemma node_key_inj a b : node_key a = node_key b -> a = b.
Proof. apply (inj (String.append "node:")). Qed.

Lemma stream_key_inj a b : stream_key a = stream_key b -> a = b.
Proof. apply (inj (String.append "stream:")). Qed.

Lemma node_stream_key a b : node_key a <> stream_key b.
Proof. intros H%(f_equal (fun s => HasPrefix s "n")). cbn in H. done. Qed.

Section Discovery.
Context `{E : NodeEnv} `{L : !NodeLaws E} {R} `{!Redis R} `{!RedisLaws R}.

Lemma read_nodes_elem r now keys n :
  (forall k, is_ok (r_Get r now k) = true) ->
  n ∈ read_nodes r now keys <->
  exists k data, k ∈ keys /\ r_view r now k = Some data /\ node_Unmarshal data = Some n.
Proof.
  intros Hup. induction keys as [|k keys IH]; cbn [read_nodes].
  { split; [by intros ?%elem_of_nil|by intros (k & d & ?%elem_of_nil & _)]. }
  pose proof (Hup k) as Hk. destruct (r_Get r now k) as [v|] eqn:Ev; [|done].
  apply r_Get_view in Ev. subst v. split.
  - assert (n ∈ read_nodes r now keys ->
      exists k0 data, k0 ∈ k :: keys /\ r_view r now k0 = Some data /\ node_Unmarshal data = Some n) as Hin.
    { intros (k0 & d & ? & ? & ?)%IH. exists k0, d. split_and!; [by apply list_elem_of_further|done|done]. }
    destruct (r_view r now k) as [d|] eqn:Ed; [|done]. destruct (node_Unmarshal d) as [x|] eqn:Ex; [|done].
    intros [-> |Hn]%elem_of_cons; [|by apply Hin]. exists k, d. split_and!; [constructor|done|done].
  - intros (k0 & d & [-> |Hk0]%elem_of_cons & Hd & Hn).
    + rewrite Hd, Hn. constructor.
    + assert (n ∈ read_nodes r now keys) as Hin by (apply IH; eauto).
      destruct (r_view r now k) as [d'|]; [|done]. destruct (node_Unmarshal d'); [|done].
      by apply list_elem_of_further.
Qed.

(** What the clients of one key see does not depend on the others. *)
Lemma publish_other self count now r t k :
  now <= t -> node_key (n_ID self) <> k -> r_view (snd (publish self count now r)) t k = r_view r t k.
Proof.
  intros Ht Hk. unfold publish. cbn [snd n_ID]. destruct (r_Set r now _ _ nodeTTL) as [r'|] eqn:Es; [|done].
  rewrite (r_Set_view _ _ _ _ _ _ t k Es) by (done || exact Ht). by rewrite decide_False.
Qed.

Lemma cluster_step_frame id0 key0 r T r' T' :
  cluster_step id0 key0 (r, T) (r', T') ->
  T <= T' /\ forall t, T' <= t ->
    r_view r' t (node_key id0) = r_view r t (node_key id0) /\
    r_view r' t (stream_key key0) = r_view r t (stream_key key0).
Proof.
  inversion 1 as [? ? now self count HT Hid|? ? now id HT Hid|? ? now id key ? HT Hkey HA|? ? now key ? HT Hkey HA];
    subst; (split; [done|]); intros t Ht.
  - split; apply (publish_other self count T' r t); [done|by intros ?%node_key_inj|done|].
    apply node_stream_key.
  - unfold deregister. destruct (r_Del r T' (node_key id)) as [x|] eqn:Ed; [|done].
    rewrite !(r_Del_view _ _ _ _ t _ Ed) by done.
    by rewrite !decide_False by (apply node_stream_key || by intros ?%node_key_inj).
  - unfold AnnounceStream in HA. rewrite !(r_Set_view _ _ _ _ _ _ t _ HA) by done.
    by rewrite !decide_False by (by intros ?%stream_key_inj || (intros ?; by eapply node_stream_key)).
  - unfold RevokeStream in HA. rewrite !(r_Del_view _ _ _ _ t _ HA) by done.
    by rewrite !decide_False by (by intros ?%stream_key_inj || (intros ?; by eapply node_stream_key)).
Qed.

Lemma cluster_steps_frame id0 key0 r T r' T' :
  rtc (cluster_step id0 key0) (r, T) (r', T') ->
  T <= T' /\ forall t, T' <= t ->
    r_view r' t (node_key id0) = r_view r t (node_key id0) /\
    r_view r' t (stream_key key0) = r_view r t (stream_key key0).
Proof.
  intros H. remember (r, T) as y eqn:Ey. remember (r', T') as y' eqn:Ey'. revert r T Ey.
  induction H as [y|y [r1 T1] y' Hs _ IH]; intros r T Ey.
  - rewrite Ey in Ey'. by injection Ey' as -> ->.
  - subst y. apply cluster_step_frame in Hs as [HT Hv]. destruct (IH Ey' r1 T1 eq_refl) as [HT' Hv'].
    split; [lia|]. intros t Ht. destruct (Hv' t Ht) as [-> ->]. apply Hv. lia.
Qed.
End Discovery.

(** ** Properties *)

(** the choice of a node. [SelectNode] returns the least loaded node with a
    heartbeat at most ten seconds old and the wanted role, the first one of the
    list among equals, and fails exactly when there is none (with a load below
    the 32-bit bound the search starts from). *)
Theorem SelectNode_least_loaded now nodes role :
  match SelectNode now nodes role with
  | Some n =>
      exists l1 l2, nodes = l1 ++ n :: l2 /\ eligible now role n = true /\
        (forall m, m ∈ nodes -> eligible now role m = true -> StreamCount n <= StreamCount m) /\
        (forall m, m ∈ l1 -> eligible now role m = true -> StreamCount n < StreamCount m)
  | None => forall m, m ∈ nodes -> eligible now role m = true -> MaxInt32 <= StreamCount m
  end.
Proof.
  unfold SelectNode. pose proof (select_loop_spec now role nodes no_node MaxInt32) as H.
  destruct (select_loop _ _ _ _ _) as [b l]. destruct H as (Hmin & Hle & Hb).
  destruct (Z.eqb_spec l MaxInt32) as [-> |Hl].
  - done.
  - destruct Hb as [[_ ?]|(l1 & l2 & -> & He & <- & _ & Hfst)]; [done|].
    exists l1, l2. split_and!; done.
Qed.

(** C35: discovery. After a heartbeat of a node at [t0], and whatever the other
    nodes do, the node is listed, with the state it published, exactly until
    [t0 + 15 s]: a node that stops sending heartbeats disappears on its own. Its
    entry is eligible for selection only for the first ten seconds. A stream
    announced at [t0] is located on its node exactly until [t0 + 30 s], unless
    announced or revoked again. *)
Theorem cluster_discovery `{E : NodeEnv, L : !NodeLaws E} {R} `{!Redis R, !RedisLaws R}
    self count t0 key r0 r1 r T t :
  AnnounceStream (n_ID self) key t0 r0 = Ok r1 ->
  is_ok (r_Set r1 t0 (node_key (n_ID self)) (node_Marshal (fst (publish self count t0 r1))) nodeTTL) = true ->
  rtc (cluster_step (n_ID self) key) (snd (publish self count t0 r1), t0) (r, T) ->
  T <= t -> (forall k, is_ok (r_Get r t k) = true) ->
  let n := fst (publish self count t0 r1) in
  (forall nodes, AllNodes r t = Ok nodes ->
     (t < t0 + 15 * Second -> n ∈ nodes) /\
     (t0 + 15 * Second <= t -> forall m, m ∈ nodes ->
        exists k d, k <> node_key (n_ID self) /\ r_view r t k = Some d /\ node_Unmarshal d = Some m)) /\
  (eligible t "" n = true <-> t <= t0 + 10 * Second) /\
  (FindStream key t r = Ok (n_ID self) <-> t < t0 + 30 * Second).
Proof.
  intros HA HS Hsteps HT Hup n.
  destruct (cluster_steps_frame _ _ _ _ _ _ Hsteps) as [HT0 Hv]. destruct (Hv t HT) as [Hnode Hstream].
  assert (r_view r t (node_key (n_ID self)) = if t <? t0 + nodeTTL then Some (node_Marshal n) else None) as Hview.
  { assert (exists r2, r_Set r1 t0 (node_key (n_ID self)) (node_Marshal n) nodeTTL = Ok r2 /\
                       snd (publish self count t0 r1) = r2) as (r2 & Es & E2).
    { unfold n. revert HS. unfold publish. cbn [fst snd n_ID].
      destruct (r_Set r1 _ _ _ _); [eauto|done]. }
    rewrite Hnode, E2, (r_Set_view _ _ _ _ _ _ t _ Es) by (done || lia). by rewrite decide_True. }
  split_and!.
  - intros nodes. unfold AllNodes. destruct (r_Keys r t "node:") as [keys|] eqn:Ek; [|done].
    intros [= <-]. split.
    + intros Hlt. apply read_nodes_elem; [done|]. exists (node_key (n_ID self)), (node_Marshal n).
      rewrite (proj2 (Z.ltb_lt t (t0 + nodeTTL)) Hlt) in Hview. split_and!; [|done|apply node_roundtrip].
      apply (r_Keys_view _ _ _ _ _ Ek). rewrite Hview. split; [apply HasPrefix_app|eauto].
    + intros Hge m (k & d & _ & Hd & Hm)%read_nodes_elem; [|done]. exists k, d. split_and!; [|done..].
      intros ->. rewrite Hview in Hd. destruct (Z.ltb_spec t (t0 + nodeTTL)) as [H|H]; [|done].
      unfold nodeTTL in H. lia.
  - unfold eligible, staleThreshold. rewrite bool_decide_true by done. rewrite orb_true_l, andb_true_r.
    change (UpdatedAt n) with t0. destruct (Z.ltb_spec (10 * Second) (t - t0)); cbn; split; done || lia.
  - assert (r_view r t (stream_key key) = if t <? t0 + streamTTL then Some (n_ID self) else None) as Hs.
    { rewrite Hstream. rewrite publish_other; [|lia|apply node_stream_key].
      unfold AnnounceStream in HA. rewrite (r_Set_view _ _ _ _ _ _ t _ HA) by (done || lia).
      by rewrite decide_True. }
    unfold FindStream. pose proof (Hup (stream_key key)) as Hg.
    destruct (r_Get r t (stream_key key)) as [v|] eqn:Eg; [|done]. apply r_Get_view in Eg. subst v.
    rewrite Hs. unfold streamTTL. destruct (Z.ltb_spec t (t0 + 30 * Second)); split; done || lia.
Qed.

(** a relay takes over the location of the stream it pulls, and takes it
    away. The node that relays a stream registers it under the same key, so it
    announces itself in place of the source ([OnRegister]); when the relay ends
    it revokes the key ([OnUnregister]), and from then on the stream is not
    found in the cluster although its source still publishes it. *)
Theorem relay_revokes_the_source {R} `{!Redis R, !RedisLaws R}
    source relay key t0 t1 t2 r0 r1 r2 r3 t :
  AnnounceStream source key t0 r0 = Ok r1 -> AnnounceStream relay key t1 r1 = Ok r2 ->
  RevokeStream key t2 r2 = Ok r3 -> t0 <= t1 -> t1 <= t ->
  (t < t1 + 30 * Second -> forall id, FindStream key t r2 = Ok id -> id = relay) /\
  (t2 <= t -> forall id, FindStream key t r3 <> Ok id).
Proof.
  intros HA HB HR Ht1 Ht. unfold FindStream, AnnounceStream, RevokeStream, streamTTL in *. split.
  - intros Hlt id. destruct (r_Get r2 t _) as [v|] eqn:Eg; [|done]. apply r_Get_view in Eg. subst v.
    rewrite (r_Set_view _ _ _ _ _ _ t _ HB) by (done || lia). rewrite decide_True by done.
    destruct (Z.ltb_spec t (t1 + 30 * Second)); [by intros [= ->]|lia].
  - intros Ht2 id. destruct (r_Get r3 t _) as [v|] eqn:Eg; [|done]. apply r_Get_view in Eg. subst v.
    rewrite (r_Del_view _ _ _ _ t _ HR) by done. by rewrite decide_True.
Qed.

(** ** Witnesses *)

Definition node_tuple (n : NodeInfo) : list string * (Z * Z) :=
  ([n_ID n; HTTPAddr n; Role n], (StreamCount n, UpdatedAt n)).
Definition tuple_node (x : list string * (Z * Z)) : option NodeInfo :=
  match x with ([a; b; c], (s, u)) => Some (mkNode a b c s u) | _ => None end.

Definition example_env : NodeEnv := {|
  node_Marshal n := bits (encode (node_tuple n));
  node_Unmarshal s := decode (A := list string * (Z * Z)) (unbits s) ≫= tuple_node;
|}.

#[local] Instance example_laws : NodeLaws example_env.
Proof. intros []. cbn. by rewrite unbits_bits, decode_encode. Qed.

Definition node_a : NodeInfo := mkNode "a" "10.0.0.1:8080" "master" 0 zero_time.
Definition node_b : NodeInfo := mkNode "b" "10.0.0.2:8080" "slave" 0 zero_time.

(** Node a publishes at time 0 with two streams, and node b after 4 s; at 12 s
    node a is listed and too old to be selected, at 40 s its stream is lost. *)
Definition example_r1 : expiring := {["stream:cam" := ("a", 0 + streamTTL)]}.
Definition example_r2 : expiring := snd (publish (E := example_env) node_a 2 0 example_r1).
Definition example_r3 : expiring := snd (publish (E := example_env) node_b 1 (4 * Second) example_r2).

Lemma cluster_discovery_witness :
  (exists nodes, AllNodes (E := example_env) example_r3 (12 * Second) = Ok nodes /\
     fst (publish (E := example_env) node_a 2 0 example_r1) ∈ nodes) /\
  n_ID <$> SelectNode (12 * Second)
    [fst (publish (E := example_env) node_a 2 0 example_r1)] "" = None.
Proof.
  split; [|vm_compute; reflexivity].
  destruct (cluster_discovery (E := example_env) node_a 2 0 "cam" ∅ example_r1 example_r3 (4 * Second)
    (12 * Second)) as [H _].
  - vm_compute. reflexivity.
  - reflexivity.
  - apply rtc_once. apply (step_publish (E := example_env) "a" "cam" example_r2 0 (4 * Second) node_b 1).
    + vm_compute. discriminate.
    + discriminate.
  - vm_compute. discriminate.
  - intros k. reflexivity.
  - destruct (AllNodes (E := example_env) example_r3 (12 * Second)) as [nodes|e] eqn:EA;
      [|discriminate EA].
    exists nodes. split; [reflexivity|]. apply (H nodes eq_refl). unfold Second, Millisecond. lia.
Defined.

Definition example_r4 : expiring := <["stream:cam" := ("b", 5 + streamTTL)]> example_r1.
Definition example_r5 : expiring := delete "stream:cam" example_r4.

Lemma relay_revokes_the_source_witness :
  FindStream "cam" 4 example_r1 = Ok "a" /\ FindStream "cam" 7 example_r4 = Ok "b" /\
  forall id, FindStream "cam" 10 example_r5 <> Ok id.
Proof.
  split; [vm_compute; reflexivity|]. split; [vm_compute; reflexivity|].
  refine (proj2 (relay_revokes_the_source "a" "b" "cam" 0 5 9 (∅ : expiring)
    example_r1 example_r4 example_r5 10 _ _ _ _ _) _); [reflexivity|reflexivity|reflexivity|lia|lia|lia].
Defined.
