(* ===== verification/Rbac.v ===== *)
(** * Role-based access control

    [internal/auth/rbac_store.go] and [rbac_layered.go]: the interface of the
    RBAC stores, the in-memory store, the layered store (reads from memory,
    writes to a second store first), the warm-up of the one from the other, and
    [SeedRBAC] of [service.go]. Operations that return an [error] return
    [option string], [None] for [nil]. Lists made by ranging over a map are in
    the order of [map_to_list] or [elements]: the properties are on membership. *)

From S2P Require Import Prelude GoStrings.

(** ** Data *)

Record Permission := mkPermission {
  PermissionID : string; p_Name : string; p_Description : string; p_CreatedAt : Time }.

Record RoleModel := mkRole {
  RoleID : string; r_Name : string; r_Description : string; r_CreatedAt : Time }.

(** ** The interface *)

Class RBACStore (S : Type) := {
  SavePermission : S -> Permission -> S * option string;
  GetPermissionByName : S -> string -> option Permission;
  ListPermissions : S -> list Permission;
  SaveRole : S -> RoleModel -> S * option string;
  GetRoleByName : S -> string -> option RoleModel;
  ListRoles : S -> list RoleModel;
  AssignPermissionToRole : S -> string -> string -> S * option string;
  RolePermissionNames : S -> string -> list string;
  AssignRoleToUser : S -> string -> string -> S * option string;
  RemoveRoleFromUser : S -> string -> string -> S * option string;
  UserRoles : S -> string -> list RoleModel;
  UserHasPermission : S -> string -> string -> bool;
}.

(** ** The in-memory store *)

Record InMemRBACStore := mkInMem {
  permissions : gmap string Permission;
  permsByName : gmap string Permission;
  roles : gmap string RoleModel;
  rolesByName : gmap string RoleModel;
  rolePerms : gmap string (gset string);
  userRoles : gmap string (gset string);
}.

Definition NewInMemRBACStore : InMemRBACStore := mkInMem ∅ ∅ ∅ ∅ ∅ ∅.

(** The set under a key; a missing map is empty. *)
Definition members (f : gmap string (gset string)) (k : string) : gset string := default ∅ (f !! k).

Definition mem_SavePermission (s : InMemRBACStore) (p : Permission) : InMemRBACStore * option string :=
  (mkInMem (<[PermissionID p := p]> (permissions s)) (<[p_Name p := p]> (permsByName s))
     (roles s) (rolesByName s) (rolePerms s) (userRoles s), None).

Definition mem_SaveRole (s : InMemRBACStore) (r : RoleModel) : InMemRBACStore * option string :=
  (mkInMem (permissions s) (permsByName s) (<[RoleID r := r]> (roles s))
     (<[r_Name r := r]> (rolesByName s)) (rolePerms s) (userRoles s), None).

Definition mem_AssignPermissionToRole (s : InMemRBACStore) (roleID permID : string)
  : InMemRBACStore * option string :=
  match permissions s !! permID with
  | None => (s, Some ("rbac: permission " +:+ quote permID +:+ " not found"))
  | Some perm =>
      match roles s !! roleID with
      | None => (s, Some ("rbac: role " +:+ quote roleID +:+ " not found"))
      | Some _ =>
          (mkInMem (permissions s) (permsByName s) (roles s) (rolesByName s)
             (<[roleID := {[p_Name perm]} ∪ members (rolePerms s) roleID]> (rolePerms s))
             (userRoles s), None)
      end
  end.

Definition mem_AssignRoleToUser (s : InMemRBACStore) (userID roleID : string)
  : InMemRBACStore * option string :=
  match roles s !! roleID with
  | None => (s, Some ("rbac: role " +:+ quote roleID +:+ " not found"))
  | Some _ =>
      (mkInMem (permissions s) (permsByName s) (roles s) (rolesByName s) (rolePerms s)
         (<[userID := {[roleID]} ∪ members (userRoles s) userID]> (userRoles s)), None)
  end.

Definition mem_RemoveRoleFromUser (s : InMemRBACStore) (userID roleID : string)
  : InMemRBACStore * option string :=
  match userRoles s !! userID with
  | None => (s, None)
  | Some rs =>
      (mkInMem (permissions s) (permsByName s) (roles s) (rolesByName s) (rolePerms s)
         (<[userID := rs ∖ {[roleID]}]> (userRoles s)), None)
  end.

Definition mem_UserRoles (s : InMemRBACStore) (userID : string) : list RoleModel :=
  omap (fun rid => roles s !! rid) (elements (members (userRoles s) userID)).

Definition mem_UserHasPermission (s : InMemRBACStore) (userID perm : string) : bool :=
  existsb (fun rid => bool_decide (perm ∈ members (rolePerms s) rid))
    (elements (members (userRoles s) userID)).

#[export] Instance InMem_store : RBACStore InMemRBACStore := {
  SavePermission := mem_SavePermission;
  GetPermissionByName s name := permsByName s !! name;
  ListPermissions s := (map_to_list (permissions s)).*2;
  SaveRole := mem_SaveRole;
  GetRoleByName s name := rolesByName s !! name;
  ListRoles s := (map_to_list (roles s)).*2;
  AssignPermissionToRole := mem_AssignPermissionToRole;
  RolePermissionNames s roleID := elements (members (rolePerms s) roleID);
  AssignRoleToUser := mem_AssignRoleToUser;
  RemoveRoleFromUser := mem_RemoveRoleFromUser;
  UserRoles := mem_UserRoles;
  UserHasPermission := mem_UserHasPermission;
}.

(** ** Warm-up *)

Fixpoint warm_permissions (s : InMemRBACStore) (ps : list Permission) : InMemRBACStore :=
  match ps with [] => s | p :: ps => warm_permissions (fst (mem_SavePermission s p)) ps end.

(** The names of a role's permissions that the store knows. *)
Fixpoint warm_grants (s : InMemRBACStore) (roleID : string) (names : list string) : InMemRBACStore :=
  match names with
  | [] => s
  | name :: names =>
      match GetPermissionByName s name with
      | None => warm_grants s roleID names
      | Some p => warm_grants (fst (mem_AssignPermissionToRole s roleID (PermissionID p))) roleID names
      end
  end.

Fixpoint warm_roles (s : InMemRBACStore) (rs : list RoleModel) (names : string -> list string)
  : InMemRBACStore :=
  match rs with
  | [] => s
  | r :: rs => warm_roles (warm_grants (fst (mem_SaveRole s r)) (RoleID r) (names (RoleID r))) rs names
  end.

(** [WarmFrom]; saving in memory does not fail. *)
Definition WarmFrom {S} `{!RBACStore S} (s : InMemRBACStore) (src : S) : InMemRBACStore :=
  warm_roles (warm_permissions s (ListPermissions src)) (ListRoles src) (RolePermissionNames src).

(** ** The layered store *)

Record LayeredRBACStore (R : Type) := mkLayered { mem : InMemRBACStore; redis : R }.
Arguments mkLayered {R} mem redis.
Arguments mem {R}.
Arguments redis {R}.

(** Write to the second store, then, unless that failed, to memory. *)
Definition write_through {R} (name : string) (s : LayeredRBACStore R)
    (w2 : R -> R * option string) (w1 : InMemRBACStore -> InMemRBACStore * option string)
  : LayeredRBACStore R * option string :=
  match w2 (redis s) with
  | (r, Some e) => (mkLayered (mem s) r, Some ("rbac.layered: redis " +:+ name +:+ ": " +:+ e))
  | (r, None) => let '(m, e) := w1 (mem s) in (mkLayered m r, e)
  end.

#[export] Instance Layered_store {R} `{!RBACStore R} : RBACStore (LayeredRBACStore R) := {
  SavePermission s p := write_through "SavePermission" s (fun r => SavePermission r p) (fun m => SavePermission m p);
  GetPermissionByName s name := GetPermissionByName (mem s) name;
  ListPermissions s := ListPermissions (mem s);
  SaveRole s x := write_through "SaveRole" s (fun r => SaveRole r x) (fun m => SaveRole m x);
  GetRoleByName s name := GetRoleByName (mem s) name;
  ListRoles s := ListRoles (mem s);
  AssignPermissionToRole s rid pid := write_through "AssignPermissionToRole" s
    (fun r => AssignPermissionToRole r rid pid) (fun m => AssignPermissionToRole m rid pid);
  RolePermissionNames s rid := RolePermissionNames (mem s) rid;
  AssignRoleToUser s u rid := write_through "AssignRoleToUser" s
    (fun r => AssignRoleToUser r u rid) (fun m => AssignRoleToUser m u rid);
  RemoveRoleFromUser s u rid := write_through "RemoveRoleFromUser" s
    (fun r => RemoveRoleFromUser r u rid) (fun m => RemoveRoleFromUser m u rid);
  UserRoles s u := UserRoles (mem s) u;
  UserHasPermission s u p := UserHasPermission (mem s) u p;
}.

Definition Layered_WarmFrom {R} `{!RBACStore R} (s : LayeredRBACStore R) : LayeredRBACStore R :=
  mkLayered (WarmFrom (mem s) (redis s)) (redis s).

(** ** Seeding *)

Definition permSeeds : list (string * string) :=
  [("camera:view", "View camera feeds and live sessions");
   ("camera:manage", "Create, update, and delete cameras");
   ("relay:manage", "Manage relay sessions");
   ("user:manage", "Create, update, and delete users")].

Definition roleSeeds : list (string * string * list string) :=
  [("admin", "Full system access", ["camera:view"; "camera:manage"; "relay:manage"; "user:manage"]);
   ("operator", "Camera viewing access", ["camera:view"])].

Section Seed.
Context {S} `{!RBACStore S}.

(** The identifiers [uuid.NewV7] gives come from the list [ids]. *)
Fixpoint seed_permissions (s : S) (ids : list string) (now : Time) (seeds : list (string * string))
  : S * result string (list string) :=
  match seeds with
  | [] => (s, Ok ids)
  | (name, desc) :: seeds =>
      match GetPermissionByName s name with
      | Some _ => seed_permissions s ids now seeds
      | None =>
          match ids with
          | [] => (s, Err "rbac.seed: generate permission id")
          | id :: ids =>
              match SavePermission s (mkPermission id name desc now) with
              | (s, Some e) => (s, Err ("rbac.seed: permission " +:+ name +:+ ": " +:+ e))
              | (s, None) => seed_permissions s ids now seeds
              end
          end
      end
  end.

Fixpoint seed_grants (s : S) (role : RoleModel) (names : list string) : S * option string :=
  match names with
  | [] => (s, None)
  | permName :: names =>
      match GetPermissionByName s permName with
      | None => (s, Some ("rbac.seed: permission " +:+ permName +:+ " not found for role " +:+ r_Name role))
      | Some perm =>
          match AssignPermissionToRole s (RoleID role) (PermissionID perm) with
          | (s, Some e) => (s, Some ("rbac.seed: assign " +:+ permName +:+ "→" +:+ r_Name role +:+ ": " +:+ e))
          | (s, None) => seed_grants s role names
          end
      end
  end.

Fixpoint seed_roles (s : S) (ids : list string) (now : Time) (seeds : list (string * string * list string))
  : S * option string :=
  match seeds with
  | [] => (s, None)
  | (name, desc, perms) :: seeds =>
      match GetRoleByName s name with
      | Some _ => seed_roles s ids now seeds
      | None =>
          match ids with
          | [] => (s, Some "rbac.seed: generate role id")
          | id :: ids =>
              let role := mkRole id name desc now in
              match SaveRole s role with
              | (s, Some e) => (s, Some ("rbac.seed: role " +:+ name +:+ ": " +:+ e))
              | (s, None) =>
                  match seed_grants s role perms with
                  | (s, Some e) => (s, Some e)
                  | (s, None) => seed_roles s ids now seeds
                  end
              end
          end
      end
  end.

Definition SeedRBAC (s : S) (ids : list string) (now : Time) : S * option string :=
  match seed_permissions s ids now permSeeds with
  | (s, Err e) => (s, Some e)
  | (s, Ok ids) => seed_roles s ids now roleSeeds
  end.
End Seed.

(** ** What the stores promise

    [rb_assigned] are the roles of a user, [rb_grants] the permission names of a
    role; [rb_wf] holds of the stores the operations build. *)

Class RBACLaws (S : Type) `{!RBACStore S} := {
  rb_wf : S -> Prop;
  rb_assigned : S -> string -> gset string;
  rb_grants : S -> string -> gset string;
  law_permission : forall s u p, rb_wf s ->
    (UserHasPermission s u p = true <-> exists rid, rid ∈ rb_assigned s u /\ p ∈ rb_grants s rid);
  law_roles : forall s u rid, rb_wf s ->
    (rid ∈ rb_assigned s u <-> exists r, r ∈ UserRoles s u /\ RoleID r = rid);
  law_names : forall s rid p, p ∈ RolePermissionNames s rid <-> p ∈ rb_grants s rid;
  law_assign : forall s u rid s' e, rb_wf s -> AssignRoleToUser s u rid = (s', e) ->
    rb_wf s' /\ (forall r, rb_grants s' r = rb_grants s r) /\
    (forall n, GetRoleByName s' n = GetRoleByName s n) /\
    forall v, rb_assigned s' v = if bool_decide (v = u /\ e = None) then {[rid]} ∪ rb_assigned s v
                                 else rb_assigned s v;
  law_remove : forall s u rid s' e, rb_wf s -> RemoveRoleFromUser s u rid = (s', e) ->
    rb_wf s' /\ (forall r, rb_grants s' r = rb_grants s r) /\
    (forall n, GetRoleByName s' n = GetRoleByName s n) /\
    forall v, rb_assigned s' v = if bool_decide (v = u /\ e = None) then rb_assigned s v ∖ {[rid]}
                                 else rb_assigned s v;
}.

Lemma members_insert f k x k' :
  members (<[k := x]> f) k' = if bool_decide (k' = k) then x else members f k'.
Proof.
  unfold members. case_bool_decide as H; [subst; by rewrite lookup_insert_eq|].
  by rewrite lookup_insert_ne.
Qed.

(** Roles are filed under their identifier, and the assigned ones exist. *)
Record mem_wf (s : InMemRBACStore) : Prop := {
  wf_role : forall rid r, roles s !! rid = Some r -> RoleID r = rid;
  wf_user : forall u rid, rid ∈ members (userRoles s) u -> is_Some (roles s !! rid);
}.

Lemma mem_has_permission s u p :
  mem_UserHasPermission s u p = true <->
  exists rid, rid ∈ members (userRoles s) u /\ p ∈ members (rolePerms s) rid.
Proof.
  unfold mem_UserHasPermission. rewrite existsb_exists. split.
  - intros (rid & Hin & Hp%bool_decide_eq_true). exists rid. split; [|done].
    by apply elem_of_elements, list_elem_of_In.
  - intros (rid & Hin & Hp). exists rid. split; [by apply list_elem_of_In, elem_of_elements|].
    by apply bool_decide_eq_true.
Qed.

Lemma mem_user_roles s u r :
  r ∈ mem_UserRoles s u <-> exists rid, rid ∈ members (userRoles s) u /\ roles s !! rid = Some r.
Proof. unfold mem_UserRoles. rewrite list_elem_of_omap. by setoid_rewrite elem_of_elements. Qed.

#[export] Instance InMem_laws : RBACLaws InMemRBACStore.
Proof.
  refine {| rb_wf := mem_wf; rb_assigned s u := members (userRoles s) u;
            rb_grants s rid := members (rolePerms s) rid |}.
  - intros s u p _. apply mem_has_permission.
  - intros s u rid [Hr Hu]. cbn [UserRoles InMem_store]. setoid_rewrite mem_user_roles. split.
    + intros Hin. destruct (Hu _ _ Hin) as [r Hx]. exists r. split; [eauto|by apply Hr].
    + intros (r & (rid' & Hin & Hx) & <-). by rewrite (Hr _ _ Hx).
  - intros s rid p. apply elem_of_elements.
  - intros s u rid s' e [Hr Hu] H. cbn [AssignRoleToUser InMem_store] in H.
    unfold mem_AssignRoleToUser in H. destruct (roles s !! rid) as [x|] eqn:Ex; injection H as <- <-.
    + split_and!; [split; cbn|done|done|].
      * done.
      * intros v rid'. rewrite members_insert. case_bool_decide; [|apply Hu].
        intros [->%elem_of_singleton|Hin]%elem_of_union; [by rewrite Ex|by eapply Hu].
      * intros v. cbn [userRoles]. rewrite members_insert.
        case_bool_decide as H1; case_bool_decide as H2; naive_solver.
    + split_and!; [done..|]. intros v. rewrite bool_decide_false; [done|naive_solver].
  - intros s u rid s' e [Hr Hu] H. cbn [RemoveRoleFromUser InMem_store] in H.
    unfold mem_RemoveRoleFromUser in H. destruct (userRoles s !! u) as [rs|] eqn:Eu; injection H as <- <-.
    + assert (members (userRoles s) u = rs) as Em by (unfold members; by rewrite Eu).
      split_and!; [split; cbn|done|done|].
      * done.
      * intros v rid'. rewrite members_insert. case_bool_decide; [|apply Hu].
        intros [Hin _]%elem_of_difference. apply (Hu u). by rewrite Em.
      * intros v. cbn [userRoles]. rewrite members_insert.
        case_bool_decide as H1; case_bool_decide as H2; naive_solver.
    + split_and!; [done..|]. intros v. case_bool_decide as H1; [|done]. destruct H1 as [-> _].
      unfold members. rewrite Eu. set_solver.
Defined.

#[export] Instance Layered_laws {R} `{!RBACStore R} : RBACLaws (LayeredRBACStore R).
Proof.
  refine {| rb_wf s := rb_wf (mem s); rb_assigned s := rb_assigned (mem s);
            rb_grants s := rb_grants (mem s) |}.
  - intros s u p H. by apply (law_permission (mem s)).
  - intros s u rid H. by apply (law_roles (mem s)).
  - intros s rid p. apply (law_names (mem s)).
  - intros s u rid s' e Hwf H. cbn [AssignRoleToUser Layered_store] in H. unfold write_through in H.
    destruct (AssignRoleToUser (redis s) u rid) as [r [e2|]].
    + injection H as <- <-. split_and!; [done..|]. intros v. rewrite bool_decide_false; [done|naive_solver].
    + destruct (AssignRoleToUser (mem s) u rid) as [m e1] eqn:Em. injection H as <- <-.
      by apply law_assign in Em.
  - intros s u rid s' e Hwf H. cbn [RemoveRoleFromUser Layered_store] in H. unfold write_through in H.
    destruct (RemoveRoleFromUser (redis s) u rid) as [r [e2|]].
    + injection H as <- <-. split_and!; [done..|]. intros v. rewrite bool_decide_false; [done|naive_solver].
    + destruct (RemoveRoleFromUser (mem s) u rid) as [m e1] eqn:Em. injection H as <- <-.
      by apply law_remove in Em.
Defined.

(** ** Warm-up *)

Lemma warm_permissions_users ps : forall s, userRoles (warm_permissions s ps) = userRoles s.
Proof. induction ps as [|p ps IH]; intros s; [done|]. cbn [warm_permissions]. by rewrite IH. Qed.

Lemma mem_Assign_users s rid pid : userRoles (fst (mem_AssignPermissionToRole s rid pid)) = userRoles s.
Proof. unfold mem_AssignPermissionToRole. by destruct (permissions s !! pid), (roles s !! rid). Qed.

Lemma warm_grants_users rid names : forall s, userRoles (warm_grants s rid names) = userRoles s.
Proof.
  induction names as [|n names IH]; intros s; [done|]. cbn [warm_grants].
  destruct (GetPermissionByName s n); rewrite IH; [apply mem_Assign_users|done].
Qed.

Lemma warm_roles_users rs names : forall s, userRoles (warm_roles s rs names) = userRoles s.
Proof.
  induction rs as [|r rs IH]; intros s; [done|]. cbn [warm_roles].
  by rewrite IH, warm_grants_users.
Qed.

(** ** Seeding *)

Definition seeded {S} `{!RBACStore S} (s : S) : Prop :=
  (forall seed, seed ∈ permSeeds -> is_Some (GetPermissionByName s (fst seed))) /\
  (forall seed, seed ∈ roleSeeds -> is_Some (GetRoleByName s (fst (fst seed)))).

Lemma seed_permissions_noop {S} `{!RBACStore S} (s : S) ids now seeds :
  (forall seed, seed ∈ seeds -> is_Some (GetPermissionByName s (fst seed))) ->
  seed_permissions s ids now seeds = (s, Ok ids).
Proof.
  induction seeds as [|[n d] seeds IH]; intros H; [done|]. cbn [seed_permissions].
  destruct (H (n, d)) as [x Hx]; [constructor|]. cbn in Hx. rewrite Hx. apply IH.
  intros seed Hs. apply H. by constructor.
Qed.

Lemma seed_roles_noop {S} `{!RBACStore S} (s : S) ids now seeds :
  (forall seed, seed ∈ seeds -> is_Some (GetRoleByName s (fst (fst seed)))) ->
  seed_roles s ids now seeds = (s, None).
Proof.
  induction seeds as [|[[n d] ps] seeds IH]; intros H; [done|]. cbn [seed_roles].
  destruct (H (n, d, ps)) as [x Hx]; [constructor|]. cbn in Hx. rewrite Hx. apply IH.
  intros seed Hs. apply H. by constructor.
Qed.

(** What is there under a name stays there. *)
Definition names_kept (s s' : InMemRBACStore) : Prop :=
  (forall n, is_Some (permsByName s !! n) -> is_Some (permsByName s' !! n)) /\
  (forall n, is_Some (rolesByName s !! n) -> is_Some (rolesByName s' !! n)).

#[export] Instance names_kept_preorder : PreOrder names_kept.
Proof. split; [done|]. intros a b c [] []. split; auto. Qed.

Lemma is_Some_insert {A} (f : gmap string A) k x n : is_Some (f !! n) -> is_Some (<[k := x]> f !! n).
Proof. intros H. destruct (decide (k = n)) as [->|?]; [rewrite lookup_insert_eq; eauto|by rewrite lookup_insert_ne]. Qed.

Lemma seed_permissions_kept now seeds : forall (s : InMemRBACStore) ids s' r,
  seed_permissions s ids now seeds = (s', Ok r) ->
  names_kept s s' /\ forall seed, seed ∈ seeds -> is_Some (permsByName s' !! fst seed).
Proof.
  induction seeds as [|[n d] seeds IH]; intros s ids s' r.
  { intros [= <- _]. split; [done|]. by intros ? ?%elem_of_nil. }
  cbn [seed_permissions]. destruct (GetPermissionByName s n) as [x|] eqn:Ex.
  - intros [Hk Hs]%IH. split; [done|]. intros seed [-> |Hin]%elem_of_cons; [|by apply Hs].
    apply (proj1 Hk). cbn in *. by rewrite Ex.
  - destruct ids as [|id ids]; [done|]. intros [Hk Hs]%IH.
    assert (names_kept s (fst (mem_SavePermission s (mkPermission id n d now)))) as Hk1.
    { split; [|done]. intros m Hm. cbn. by apply is_Some_insert. }
    split; [by etrans|]. intros seed [-> |Hin]%elem_of_cons; [|by apply Hs].
    apply (proj1 Hk). cbn. rewrite lookup_insert_eq. eauto.
Qed.

Lemma seed_grants_kept role names : forall (s s' : InMemRBACStore) e,
  seed_grants s role names = (s', e) -> names_kept s s'.
Proof.
  induction names as [|n names IH]; intros s s' e; [by intros [= <- _]|]. cbn [seed_grants].
  destruct (GetPermissionByName s n) as [p|]; [|by intros [= <- _]].
  assert (names_kept s (fst (mem_AssignPermissionToRole s (RoleID role) (PermissionID p)))) as Hk.
  { unfold mem_AssignPermissionToRole. by repeat case_match. }
  cbn [AssignPermissionToRole InMem_store]. destruct (mem_AssignPermissionToRole _ _ _) as [s1 [e1|]].
  - by intros [= <- _].
  - intros H%IH. by etrans.
Qed.

Lemma seed_roles_kept now seeds : forall (s : InMemRBACStore) ids s',
  seed_roles s ids now seeds = (s', None) ->
  names_kept s s' /\ forall seed, seed ∈ seeds -> is_Some (rolesByName s' !! fst (fst seed)).
Proof.
  induction seeds as [|[[n d] ps] seeds IH]; intros s ids s'.
  { intros [= <-]. split; [done|]. by intros ? ?%elem_of_nil. }
  cbn [seed_roles]. destruct (GetRoleByName s n) as [x|] eqn:Ex.
  - intros [Hk Hs]%IH. split; [done|]. intros seed [-> |Hin]%elem_of_cons; [|by apply Hs].
    apply (proj2 Hk). cbn in *. by rewrite Ex.
  - destruct ids as [|id ids]; [done|]. cbn [SaveRole InMem_store mem_SaveRole].
    set (s1 := mkInMem _ _ _ _ _ _).
    assert (names_kept s s1) as Hk1 by (split; [done|]; intros m Hm; by apply is_Some_insert).
    destruct (seed_grants s1 _ ps) as [s2 [e|]] eqn:Eg; [done|]. apply seed_grants_kept in Eg.
    intros [Hk Hs]%IH. split; [by do 2 etrans|]. intros seed [-> |Hin]%elem_of_cons; [|by apply Hs].
    apply (proj2 Hk), (proj2 Eg). cbn. rewrite lookup_insert_eq. eauto.
Qed.

Lemma seed_success_seeded (s : InMemRBACStore) ids now s' :
  SeedRBAC s ids now = (s', None) -> seeded s'.
Proof.
  unfold SeedRBAC. destruct (seed_permissions s ids now permSeeds) as [s1 [ids1|]] eqn:E1; [|done].
  apply seed_permissions_kept in E1 as [_ Hp]. intros [Hk Hr]%seed_roles_kept. split; [|exact Hr].
  intros seed Hin. by apply (proj1 Hk), Hp.
Qed.

(** ** Properties *)

(** the warm-up loses the users' roles. Whatever the second store holds, a
    memory store warmed from it has no role assigned to any user: after a restart
    nobody has any permission until roles are assigned again, although the
    assignments are still in the second store. *)
Theorem warm_up_loses_user_roles {S} `{!RBACStore S} (src : S) (u p : string) :
  UserRoles (WarmFrom NewInMemRBACStore src) u = [] /\
  UserHasPermission (WarmFrom NewInMemRBACStore src) u p = false.
Proof.
  assert (members (userRoles (WarmFrom NewInMemRBACStore src)) u = ∅) as E.
  { unfold WarmFrom. by rewrite warm_roles_users, warm_permissions_users. }
  cbn [UserRoles UserHasPermission InMem_store]. unfold mem_UserRoles, mem_UserHasPermission.
  by rewrite E, elements_empty.
Qed.

(** seeding is idempotent, and does not repair. When the permissions and the
    roles exist by name, [SeedRBAC] changes nothing, in any store, whatever the
    roles grant; in the memory store they exist once it has succeeded, so that
    calling it again, at every start, changes nothing. A role saved before a
    failure to grant it its permissions is thus never completed. *)
Theorem SeedRBAC_idempotent :
  (forall S `(!RBACStore S) (s : S) ids now, seeded s -> SeedRBAC s ids now = (s, None)) /\
  (forall (s s' : InMemRBACStore) ids now ids' now',
     SeedRBAC s ids now = (s', None) -> SeedRBAC s' ids' now' = (s', None)).
Proof.
  assert (forall S `(!RBACStore S) (s : S) ids now, seeded s -> SeedRBAC s ids now = (s, None)) as H.
  { intros S HS s ids now [Hp Hr]. unfold SeedRBAC. rewrite seed_permissions_noop by done.
    by apply seed_roles_noop. }
  split; [exact H|]. intros s s' ids now ids' now' HS. by eapply H, seed_success_seeded.
Qed.
