(* ===== verification/RbacRedis.v ===== *)
(** * Roles and permissions in Redis

    [internal/auth/rbac_redis.go]: the store that keeps roles and permissions in
    hashes and sets of a Redis server, as an instance of the interface of Rbac.v;
    what the layered store of memory and Redis keeps in agreement, and what a
    restart recovers. The commands of the client library are a class, each
    possibly failing; a date is formatted and parsed as the process's time zone
    says, which is also an argument. *)

From S2P Require Import Prelude GoStrings Rbac.

(** ** The commands used *)

Class HashRedis (R : Type) := {
  HSet : R -> string -> gmap string string -> R * option string;
  HGetAll : R -> string -> result string (gmap string string);
  HGet : R -> string -> string -> result string string;
  SAdd : R -> string -> string -> R * option string;
  SRem : R -> string -> string -> R * option string;
  SMembers : R -> string -> result string (list string);
  (** [time.Format] and [time.Parse] with [time.RFC3339] *)
  FormatTime : R -> Time -> string;
  ParseTime : R -> string -> option Time;
}.

(** What a command that succeeded did, and what a read that succeeded saw. *)
Class HashRedisLaws (R : Type) `{!HashRedis R} := {
  hv : R -> string -> gmap string string;
  sv : R -> string -> gset string;
  HSet_done : forall r k f r', HSet r k f = (r', None) ->
    (forall k', hv r' k' = if decide (k = k') then f ∪ hv r k else hv r k') /\ (forall k', sv r' k' = sv r k');
  SAdd_done : forall r k x r', SAdd r k x = (r', None) ->
    (forall k', sv r' k' = if decide (k = k') then {[x]} ∪ sv r k else sv r k') /\ (forall k', hv r' k' = hv r k');
  SRem_done : forall r k x r', SRem r k x = (r', None) ->
    (forall k', sv r' k' = if decide (k = k') then sv r k ∖ {[x]} else sv r k') /\ (forall k', hv r' k' = hv r k');
  HGetAll_seen : forall r k f, HGetAll r k = Ok f -> f = hv r k;
  HGet_seen : forall r k f v, HGet r k f = Ok v -> hv r k !! f = Some v;
  SMembers_seen : forall r k l, SMembers r k = Ok l -> NoDup l /\ forall x, x ∈ l <-> x ∈ sv r k;
  FormatTime_same : forall r r', FormatTime r = FormatTime r';
}.

(** ** Keys *)

Definition keyPerm (id : string) : string := "rbac:perm:" +:+ id.
Definition keyRole (id : string) : string := "rbac:role:" +:+ id.
Definition keyRolePerms (id : string) : string := "rbac:role_perms:" +:+ id.
Definition keyUserRoles (id : string) : string := "rbac:user_roles:" +:+ id.
Definition keyPerms : string := "rbac:perms".
Definition keyRoles : string := "rbac:roles".

Section Store.
Context {R} `{!HashRedis R}.

(** [fields[name]]: the empty string when there is none. *)
Definition field (f : gmap string string) (name : string) : string := default "" (f !! name).

Definition hash (idname id name desc created : string) : gmap string string :=
  <[idname := id]> (<["name" := name]> (<["description" := desc]> {["created_at" := created]})).

(** [pipe.Exec]: both commands are sent; the error is the first one. *)
Definition pipe_save (r : R) (key : string) (f : gmap string string) (set id : string) : R * option string :=
  let '(r, e1) := HSet r key f in
  let '(r, e2) := SAdd r set id in
  (r, match e1 with Some e => Some e | None => e2 end).

Definition redis_SavePermission (r : R) (p : Permission) : R * option string :=
  pipe_save r (keyPerm (PermissionID p))
    (hash "permission_id" (PermissionID p) (p_Name p) (p_Description p) (FormatTime r (p_CreatedAt p)))
    keyPerms (PermissionID p).

Definition redis_SaveRole (r : R) (x : RoleModel) : R * option string :=
  pipe_save r (keyRole (RoleID x))
    (hash "role_id" (RoleID x) (r_Name x) (r_Description x) (FormatTime r (r_CreatedAt x)))
    keyRoles (RoleID x).

Definition created_at (r : R) (f : gmap string string) : Time :=
  default zero_time (ParseTime r (field f "created_at")).

Definition to_permission (r : R) (f : gmap string string) : Permission :=
  mkPermission (field f "permission_id") (field f "name") (field f "description") (created_at r f).

Definition to_role (r : R) (f : gmap string string) : RoleModel :=
  mkRole (field f "role_id") (field f "name") (field f "description") (created_at r f).

(** The hashes under [key id], for the ids in turn; unreadable and empty ones are
    skipped. *)
Fixpoint load {A} (r : R) (key : string -> string) (make : gmap string string -> A) (ids : list string)
  : list A :=
  match ids with
  | [] => []
  | id :: ids =>
      match HGetAll r (key id) with
      | Err _ => load r key make ids
      | Ok f => if bool_decide (f = ∅) then load r key make ids else make f :: load r key make ids
      end
  end.

Definition redis_ListPermissions (r : R) : list Permission :=
  match SMembers r keyPerms with
  | Err _ => []
  | Ok ids => load r keyPerm (to_permission r) ids
  end.

Definition redis_ListRoles (r : R) : list RoleModel :=
  match SMembers r keyRoles with
  | Err _ => []
  | Ok ids => load r keyRole (to_role r) ids
  end.

Definition redis_GetPermissionByName (r : R) (name : string) : option Permission :=
  head (filter (fun p => p_Name p = name) (redis_ListPermissions r)).

Definition redis_GetRoleByName (r : R) (name : string) : option RoleModel :=
  head (filter (fun x => r_Name x = name) (redis_ListRoles r)).

Definition redis_AssignPermissionToRole (r : R) (roleID permID : string) : R * option string :=
  SAdd r (keyRolePerms roleID) permID.

Fixpoint permission_names (r : R) (pids : list string) : list string :=
  match pids with
  | [] => []
  | pid :: pids =>
      match HGet r (keyPerm pid) "name" with
      | Err _ => permission_names r pids
      | Ok name => if bool_decide (name = "") then permission_names r pids
                   else name :: permission_names r pids
      end
  end.

Definition redis_RolePermissionNames (r : R) (roleID : string) : list string :=
  match SMembers r (keyRolePerms roleID) with
  | Err _ => []
  | Ok pids => permission_names r pids
  end.

Definition redis_UserRoles (r : R) (userID : string) : list RoleModel :=
  match SMembers r (keyUserRoles userID) with
  | Err _ => []
  | Ok rids => load r keyRole (to_role r) rids
  end.

(** Does one of the permissions have the name? *)
Definition grants_name (r : R) (perm : string) (pids : list string) : bool :=
  existsb (fun pid => match HGet r (keyPerm pid) "name" with
                      | Ok name => bool_decide (name = perm)
                      | Err _ => false
                      end) pids.

Definition redis_UserHasPermission (r : R) (userID perm : string) : bool :=
  match SMembers r (keyUserRoles userID) with
  | Err _ => false
  | Ok rids =>
      existsb (fun rid => match SMembers r (keyRolePerms rid) with
                          | Err _ => false
                          | Ok pids => grants_name r perm pids
                          end) rids
  end.

#[export] Instance Redis_store : RBACStore R := {
  SavePermission := redis_SavePermission;
  GetPermissionByName := redis_GetPermissionByName;
  ListPermissions := redis_ListPermissions;
  SaveRole := redis_SaveRole;
  GetRoleByName := redis_GetRoleByName;
  ListRoles := redis_ListRoles;
  AssignPermissionToRole := redis_AssignPermissionToRole;
  RolePermissionNames := redis_RolePermissionNames;
  AssignRoleToUser r u rid := SAdd r (keyUserRoles u) rid;
  RemoveRoleFromUser r u rid := SRem r (keyUserRoles u) rid;
  UserRoles := redis_UserRoles;
  UserHasPermission := redis_UserHasPermission;
}.
End Store.

(** ** The layered store over Redis, as a sequence of successful operations

    A permission is not renamed, and has a name. *)

Section Coherence.
Context {R} `{!HashRedis R} `{L : !HashRedisLaws R}.

Notation layered := (LayeredRBACStore R).

Inductive op :=
  | OpSavePermission (p : Permission)
  | OpSaveRole (x : RoleModel)
  | OpGrant (roleID permID : string)
  | OpAssign (userID roleID : string)
  | OpRemove (userID roleID : string).

Definition perform (s : layered) (o : op) : layered * option string :=
  match o with
  | OpSavePermission p => SavePermission s p
  | OpSaveRole x => SaveRole s x
  | OpGrant rid pid => AssignPermissionToRole s rid pid
  | OpAssign u rid => AssignRoleToUser s u rid
  | OpRemove u rid => RemoveRoleFromUser s u rid
  end.

Definition admissible (s : layered) (o : op) : Prop :=
  match o with
  | OpSavePermission p => p_Name p <> "" /\
      forall q, permissions (mem s) !! PermissionID p = Some q -> p_Name q = p_Name p
  | _ => True
  end.

Inductive succeeds (s : layered) : layered -> Prop :=
  | succeeds_op o s' : admissible s o -> perform s o = (s', None) -> succeeds s s'.

Definition perm_hash (r : R) (p : Permission) : gmap string string :=
  hash "permission_id" (PermissionID p) (p_Name p) (p_Description p) (FormatTime r (p_CreatedAt p)).
Definition role_hash (r : R) (x : RoleModel) : gmap string string :=
  hash "role_id" (RoleID x) (r_Name x) (r_Description x) (FormatTime r (r_CreatedAt x)).

(** Memory and Redis hold the same. *)
Record coherent (m : InMemRBACStore) (r : R) : Prop := {
  co_perm : forall id, hv r (keyPerm id) = from_option (perm_hash r) ∅ (permissions m !! id);
  co_perms : forall id, id ∈ sv r keyPerms <-> is_Some (permissions m !! id);
  co_perm_id : forall id p, permissions m !! id = Some p -> PermissionID p = id /\ p_Name p <> "";
  co_role : forall id, hv r (keyRole id) = from_option (role_hash r) ∅ (roles m !! id);
  co_roles : forall id, id ∈ sv r keyRoles <-> is_Some (roles m !! id);
  co_role_id : forall id x, roles m !! id = Some x -> RoleID x = id;
  co_users : forall u, sv r (keyUserRoles u) = members (userRoles m) u;
  co_users_known : forall u rid, rid ∈ members (userRoles m) u -> is_Some (roles m !! rid);
  co_grants : forall rid n, n ∈ members (rolePerms m) rid <->
    exists pid p, pid ∈ sv r (keyRolePerms rid) /\ permissions m !! pid = Some p /\ p_Name p = n;
  co_grants_known : forall rid pid, pid ∈ sv r (keyRolePerms rid) ->
    is_Some (roles m !! rid) /\ is_Some (permissions m !! pid);
}.

(** No read fails. *)
Record reads_ok (r : R) : Prop := {
  ok_SMembers : forall k, is_ok (SMembers r k) = true;
  ok_HGetAll : forall k, is_ok (HGetAll r k) = true;
  ok_HGet : forall k f v, hv r k !! f = Some v -> HGet r k f = Ok v;
}.

(** ** Lemmas on keys and hashes *)

Lemma union_covered (f g : gmap string string) : dom g ⊆ dom f -> f ∪ g = f.
Proof.
  intros Hd. apply map_eq. intros k. rewrite lookup_union. destruct (f !! k) eqn:E; [by destruct (g !! k)|].
  destruct (g !! k) eqn:Eg; [|done]. apply elem_of_dom_2, Hd, elem_of_dom in Eg. rewrite E in Eg. by destruct Eg.
Qed.

Lemma hash_union i id n d c id' n' d' c' : hash i id n d c ∪ hash i id' n' d' c' = hash i id n d c.
Proof. apply union_covered. unfold hash. set_solver. Qed.

Lemma hash_fields i id n d c : i <> "name" -> i <> "description" -> i <> "created_at" ->
  let f := hash i id n d c in
  field f i = id /\ field f "name" = n /\ field f "description" = d /\ field f "created_at" = c /\ f <> ∅ /\
  f !! "name" = Some n.
Proof.
  intros H1 H2 H3 f. assert (f !! "name" = Some n) as Hn.
  { unfold f, hash. rewrite lookup_insert_ne by done. apply lookup_insert_eq. }
  assert (f <> ∅) as Hf by (intros He; by rewrite He, lookup_empty in Hn).
  unfold field. rewrite Hn. unfold f, hash. rewrite lookup_insert_eq.
  rewrite !(lookup_insert_ne _ i) by done. rewrite !(lookup_insert_ne _ "name") by done.
  rewrite lookup_insert_eq, lookup_insert_ne, lookup_singleton_eq by done.
  by split_and!.
Qed.

Lemma perm_hash_same r r' p : perm_hash r p = perm_hash r' p.
Proof. unfold perm_hash. by rewrite (FormatTime_same r r'). Qed.

Lemma role_hash_same r r' x : role_hash r x = role_hash r' x.
Proof. unfold role_hash. by rewrite (FormatTime_same r r'). Qed.

Lemma perms_same r r' o : from_option (perm_hash r) ∅ o = from_option (perm_hash r') ∅ o.
Proof. destruct o; [apply perm_hash_same|done]. Qed.

Lemma roles_same r r' o : from_option (role_hash r) ∅ o = from_option (role_hash r') ∅ o.
Proof. destruct o; [apply role_hash_same|done]. Qed.

Lemma pipe_save_done r key f set id r' :
  pipe_save r key f set id = (r', None) ->
  (forall k, hv r' k = if decide (key = k) then f ∪ hv r key else hv r k) /\
  (forall k, sv r' k = if decide (set = k) then {[id]} ∪ sv r set else sv r k).
Proof.
  unfold pipe_save. destruct (HSet r key f) as [r1 [e|]] eqn:E1; destruct (SAdd r1 set id) as [r2 e2] eqn:E2;
    [done|]. intros [= -> ->]. apply HSet_done in E1 as [Hh Hs]. apply SAdd_done in E2 as [Hs2 Hh2].
  split; intros k; [by rewrite Hh2|]. rewrite Hs2. by destruct (decide (set = k)); rewrite !Hs.
Qed.

(** Different keys hold different things. *)
Ltac keys :=
  unfold keyPerm, keyRole, keyRolePerms, keyUserRoles, keyPerms, keyRoles in *;
  repeat match goal with
  | H : context [decide (?a = ?b)] |- _ => destruct (decide (a = b)) as [?|?]; [discriminate|]
  | |- context [decide (?a = ?b)] => destruct (decide (a = b)) as [?|?]; [discriminate|]
  end.

Lemma keyPerm_dec {A} id id' (x y : A) :
  (if decide (keyPerm id = keyPerm id') then x else y) = if decide (id = id') then x else y.
Proof.
  destruct (decide (id = id')) as [->|Hn]; [by rewrite decide_True|]. rewrite decide_False; [done|].
  unfold keyPerm. cbn. by intros [= ?].
Qed.

Lemma keyRole_dec {A} id id' (x y : A) :
  (if decide (keyRole id = keyRole id') then x else y) = if decide (id = id') then x else y.
Proof.
  destruct (decide (id = id')) as [->|Hn]; [by rewrite decide_True|]. rewrite decide_False; [done|].
  unfold keyRole. cbn. by intros [= ?].
Qed.

Lemma keyRolePerms_dec {A} id id' (x y : A) :
  (if decide (keyRolePerms id = keyRolePerms id') then x else y) = if decide (id = id') then x else y.
Proof.
  destruct (decide (id = id')) as [->|Hn]; [by rewrite decide_True|]. rewrite decide_False; [done|].
  unfold keyRolePerms. cbn. by intros [= ?].
Qed.

Lemma keyUserRoles_dec {A} id id' (x y : A) :
  (if decide (keyUserRoles id = keyUserRoles id') then x else y) = if decide (id = id') then x else y.
Proof.
  destruct (decide (id = id')) as [->|Hn]; [by rewrite decide_True|]. rewrite decide_False; [done|].
  unfold keyUserRoles. cbn. by intros [= ?].
Qed.

(** ** Each operation keeps the agreement *)

Lemma coherent_SavePermission m r p r' :
  coherent m r -> p_Name p <> "" ->
  (forall q, permissions m !! PermissionID p = Some q -> p_Name q = p_Name p) ->
  redis_SavePermission r p = (r', None) -> coherent (fst (mem_SavePermission m p)) r'.
Proof.
  intros [Hp Hps Hpi Hr Hrs Hri Hu Huk Hg Hgk] Hname Hsame HS.
  apply pipe_save_done in HS as [Hh Hs]. split; cbn [fst mem_SavePermission permissions roles rolePerms userRoles].
  - intros id. rewrite Hh, keyPerm_dec. destruct (decide (PermissionID p = id)) as [<-|Hne].
    + rewrite lookup_insert_eq, Hp. cbn. rewrite (perm_hash_same r' r p). unfold perm_hash at 2.
      destruct (permissions m !! PermissionID p) as [q|]; cbn; [apply hash_union|apply map_union_empty].
    + rewrite lookup_insert_ne, Hp by done. apply perms_same.
  - intros id. rewrite Hs, decide_True by done. rewrite elem_of_union, elem_of_singleton, Hps, lookup_insert_is_Some'.
    naive_solver.
  - intros id q [[<- <-]|[_ Hq]]%lookup_insert_Some; [done|by apply Hpi].
  - intros id. rewrite Hh. keys. rewrite Hr. apply roles_same.
  - intros id. rewrite Hs. keys. apply Hrs.
  - done.
  - intros u. rewrite Hs. keys. apply Hu.
  - done.
  - intros rid n. rewrite Hg, Hs. keys. split; intros (pid & q & Hin & Hq & Hn).
    + destruct (decide (PermissionID p = pid)) as [<-|Hne].
      * exists (PermissionID p), p. rewrite lookup_insert_eq. split_and!; [done|done|]. by rewrite <- Hn, (Hsame q).
      * exists pid, q. by rewrite lookup_insert_ne.
    + destruct (decide (PermissionID p = pid)) as [<-|Hne].
      * rewrite lookup_insert_eq in Hq. injection Hq as <-. destruct (Hgk _ _ Hin) as [_ [q Hq]].
        exists (PermissionID p), q. by rewrite (Hsame q Hq).
      * rewrite lookup_insert_ne in Hq by done. by exists pid, q.
  - intros rid pid. rewrite Hs. keys. intros [? ?]%Hgk. split; [done|]. apply lookup_insert_is_Some'. by right.
Qed.

Lemma coherent_SaveRole m r x r' :
  coherent m r -> redis_SaveRole r x = (r', None) -> coherent (fst (mem_SaveRole m x)) r'.
Proof.
  intros [Hp Hps Hpi Hr Hrs Hri Hu Huk Hg Hgk] HS.
  apply pipe_save_done in HS as [Hh Hs]. split; cbn [fst mem_SaveRole permissions roles rolePerms userRoles].
  - intros id. rewrite Hh. keys. rewrite Hp. apply perms_same.
  - intros id. rewrite Hs. keys. apply Hps.
  - done.
  - intros id. rewrite Hh, keyRole_dec. destruct (decide (RoleID x = id)) as [<-|Hne].
    + rewrite lookup_insert_eq, Hr. cbn. rewrite (role_hash_same r' r x). unfold role_hash at 2.
      destruct (roles m !! RoleID x) as [q|]; cbn; [apply hash_union|apply map_union_empty].
    + rewrite lookup_insert_ne, Hr by done. apply roles_same.
  - intros id. rewrite Hs, decide_True by done. rewrite elem_of_union, elem_of_singleton, Hrs, lookup_insert_is_Some'.
    naive_solver.
  - intros id q [[<- <-]|[_ Hq]]%lookup_insert_Some; [done|by apply Hri].
  - intros u. rewrite Hs. keys. apply Hu.
  - intros u rid Hin. apply lookup_insert_is_Some'. right. by eapply Huk.
  - intros rid n. rewrite Hg, Hs. by keys.
  - intros rid pid. rewrite Hs. keys. intros [? ?]%Hgk. split; [|done]. apply lookup_insert_is_Some'. by right.
Qed.

(** What an added set member leaves alone. *)
Lemma coherent_grant m m' r rid pid r' :
  coherent m r -> mem_AssignPermissionToRole m rid pid = (m', None) ->
  redis_AssignPermissionToRole r rid pid = (r', None) -> coherent m' r'.
Proof.
  intros [Hp Hps Hpi Hr Hrs Hri Hu Huk Hg Hgk] HM HS. unfold mem_AssignPermissionToRole in HM.
  destruct (permissions m !! pid) as [q|] eqn:Eq; [|done]. destruct (roles m !! rid) as [x|] eqn:Ex; [|done].
  injection HM as <-. apply SAdd_done in HS as [Hs Hh].
  split; cbn [permissions roles rolePerms userRoles].
  - intros id. rewrite Hh, Hp. apply perms_same.
  - intros id. rewrite Hs. keys. apply Hps.
  - done.
  - intros id. rewrite Hh, Hr. apply roles_same.
  - intros id. rewrite Hs. keys. apply Hrs.
  - done.
  - intros u. rewrite Hs. keys. apply Hu.
  - done.
  - intros rid' n. rewrite Hs, keyRolePerms_dec, members_insert.
    destruct (decide (rid = rid')) as [<-|Hne]; [rewrite bool_decide_true by done|rewrite bool_decide_false by done; apply Hg].
    rewrite elem_of_union, elem_of_singleton, Hg. split.
    + intros [->|(pid' & p & Hin & Hp' & Hn)]; [exists pid, q|exists pid', p]; set_solver.
    + intros (pid' & p & [->%elem_of_singleton|Hin]%elem_of_union & Hp' & Hn); [left; congruence|right; eauto].
  - intros rid' pid'. rewrite Hs, keyRolePerms_dec. destruct (decide (rid = rid')) as [<-|Hne]; [|apply Hgk].
    intros [->%elem_of_singleton|Hin]%elem_of_union; [rewrite Ex, Eq; by split; eexists|by apply Hgk].
Qed.

(** The sets of a user's roles, changed the same way on both sides. *)
Lemma coherent_user_roles m r r' uid (X : gset string) :
  coherent m r -> (forall rid, rid ∈ X -> is_Some (roles m !! rid)) ->
  (forall k, hv r' k = hv r k) ->
  (forall k, sv r' k = if decide (keyUserRoles uid = k) then X else sv r k) ->
  coherent (mkInMem (permissions m) (permsByName m) (roles m) (rolesByName m) (rolePerms m)
              (<[uid := X]> (userRoles m))) r'.
Proof.
  intros [Hp Hps Hpi Hr Hrs Hri Hu Huk Hg Hgk] HX Hh Hs.
  split; cbn [permissions roles rolePerms userRoles].
  - intros id. rewrite Hh, Hp. apply perms_same.
  - intros id. rewrite Hs. keys. apply Hps.
  - done.
  - intros id. rewrite Hh, Hr. apply roles_same.
  - intros id. rewrite Hs. keys. apply Hrs.
  - done.
  - intros u. rewrite Hs, keyUserRoles_dec, members_insert.
    destruct (decide (uid = u)) as [<-|Hne]; [by rewrite bool_decide_true|by rewrite bool_decide_false, Hu].
  - intros u rid. rewrite members_insert. case_bool_decide; [apply HX|apply Huk].
  - intros rid n. rewrite Hg, Hs. by keys.
  - intros rid pid. rewrite Hs. keys. apply Hgk.
Qed.

Lemma coherent_same m r r' :
  coherent m r -> (forall k, hv r' k = hv r k) -> (forall k, sv r' k = sv r k) -> coherent m r'.
Proof.
  intros [Hp Hps Hpi Hr Hrs Hri Hu Huk Hg Hgk] Hh Hs. split; try done; try setoid_rewrite Hs; try done.
  - intros id. rewrite Hh, Hp. apply perms_same.
  - intros id. rewrite Hh, Hr. apply roles_same.
Qed.

Lemma coherent_step (s s' : layered) : coherent (mem s) (redis s) -> succeeds s s' -> coherent (mem s') (redis s').
Proof.
  intros Hc [o s1 Ha HP]. destruct o as [p|x|rid pid|u rid|u rid]; cbn in HP; unfold write_through in HP.
  - destruct Ha as [Hn Hsame]. destruct (redis_SavePermission (redis s) p) as [r' [e|]] eqn:E; [done|].
    injection HP as <-. by eapply coherent_SavePermission.
  - destruct (redis_SaveRole (redis s) x) as [r' [e|]] eqn:E; [done|]. injection HP as <-. by eapply coherent_SaveRole.
  - destruct (redis_AssignPermissionToRole (redis s) rid pid) as [r' [e|]] eqn:E; [done|].
    destruct (mem_AssignPermissionToRole (mem s) rid pid) as [m' e'] eqn:Em. injection HP as <- ->.
    by eapply coherent_grant.
  - destruct (SAdd (redis s) (keyUserRoles u) rid) as [r' [e|]] eqn:E; [done|]. unfold mem_AssignRoleToUser in HP.
    destruct (roles (mem s) !! rid) as [x|] eqn:Ex; [|done]. injection HP as <-. apply SAdd_done in E as [Hs Hh].
    eapply coherent_user_roles; [done| |done|].
    + intros rid' [->%elem_of_singleton|Hin]%elem_of_union; [by rewrite Ex|by eapply co_users_known].
    + intros k. rewrite Hs. by rewrite (co_users _ _ Hc).
  - destruct (SRem (redis s) (keyUserRoles u) rid) as [r' [e|]] eqn:E; [done|]. unfold mem_RemoveRoleFromUser in HP.
    apply SRem_done in E as [Hs Hh]. rewrite (co_users _ _ Hc) in Hs. unfold members in Hs.
    destruct (userRoles (mem s) !! u) as [X|] eqn:EX; injection HP as <-; cbn in Hs |- *.
    + eapply coherent_user_roles; [done| |done|exact Hs]. intros rid' [Hin _]%elem_of_difference.
      eapply co_users_known; [done|]. unfold members. by rewrite EX.
    + eapply coherent_same; [done|done|]. intros k. rewrite Hs. destruct (decide _) as [<-|]; [|done].
      rewrite (co_users _ _ Hc). unfold members. rewrite EX. cbn. set_solver.
Qed.

(** ** What the reads see *)

Lemma SMembers_ok r k : reads_ok r -> exists l, SMembers r k = Ok l /\ NoDup l /\ forall x, x ∈ l <-> x ∈ sv r k.
Proof.
  intros [H _ _]. specialize (H k). destruct (SMembers r k) as [l|] eqn:E; [|done].
  exists l. by apply SMembers_seen in E as [? ?].
Qed.

Lemma load_elem {A} r key (make : gmap string string -> A) ids y :
  reads_ok r -> (y ∈ load r key make ids <-> exists id, id ∈ ids /\ hv r (key id) <> ∅ /\ y = make (hv r (key id))).
Proof.
  intros Hok. induction ids as [|id ids IH]; cbn [load].
  { split; [by intros ?%elem_of_nil|by intros (? & ?%elem_of_nil & _)]. }
  pose proof (ok_HGetAll _ Hok (key id)) as Hg. destruct (HGetAll r (key id)) as [f|] eqn:E; [|done].
  apply HGetAll_seen in E. subst f. case_bool_decide as Hf; rewrite ?elem_of_cons, IH; split.
  - intros (id' & ? & ?). exists id'. split; [by constructor|done].
  - intros (id' & [-> |?]%elem_of_cons & ? & ?); [done|eauto].
  - intros [-> |(id' & ? & ?)]; [exists id|exists id']; split; try done; by constructor.
  - intros (id' & [-> |?]%elem_of_cons & ? & ->); [by left|right; eauto].
Qed.

Lemma grants_name_spec r perm pids :
  reads_ok r -> (grants_name r perm pids = true <-> exists pid, pid ∈ pids /\ hv r (keyPerm pid) !! "name" = Some perm).
Proof.
  intros Hok. unfold grants_name. rewrite existsb_exists. setoid_rewrite list_elem_of_In. split.
  - intros (pid & Hin & Hp). destruct (HGet r (keyPerm pid) "name") as [n|] eqn:E; [|done].
    apply bool_decide_eq_true in Hp. subst n. apply HGet_seen in E. eauto.
  - intros (pid & Hin & Hp). exists pid. split; [done|]. rewrite (ok_HGet _ Hok _ _ _ Hp). by apply bool_decide_eq_true.
Qed.

Lemma permission_names_elem r pids n :
  reads_ok r -> (n ∈ permission_names r pids <-> n <> "" /\ exists pid, pid ∈ pids /\ hv r (keyPerm pid) !! "name" = Some n).
Proof.
  intros Hok. induction pids as [|pid pids IH]; cbn [permission_names].
  { split; [by intros ?%elem_of_nil|by intros (_ & ? & ?%elem_of_nil & _)]. }
  destruct (HGet r (keyPerm pid) "name") as [m|] eqn:E.
  - apply HGet_seen in E. case_bool_decide as Hm; rewrite ?elem_of_cons, IH; set_unfold; naive_solver.
  - rewrite IH. set_unfold. split; [naive_solver|]. intros (Hn & pid' & [->|?] & Hp); [|naive_solver].
    by rewrite (ok_HGet _ Hok _ _ _ Hp) in E.
Qed.

(** The same things, up to a projection. *)
Definition same_members {A B} (f : A -> B) (l k : list A) : Prop := forall y, y ∈ f <$> l <-> y ∈ f <$> k.

Definition perm_view (p : Permission) : string * string * string := (PermissionID p, p_Name p, p_Description p).
Definition role_view (x : RoleModel) : string * string * string := (RoleID x, r_Name x, r_Description x).

Lemma to_permission_view r p : perm_view (to_permission r (perm_hash r p)) = perm_view p.
Proof.
  unfold perm_view, to_permission, perm_hash. cbn [PermissionID p_Name p_Description].
  by destruct (hash_fields "permission_id" (PermissionID p) (p_Name p) (p_Description p)
    (FormatTime r (p_CreatedAt p))) as (-> & -> & -> & _).
Qed.

Lemma to_role_view r x : role_view (to_role r (role_hash r x)) = role_view x.
Proof.
  unfold role_view, to_role, role_hash. cbn [RoleID r_Name r_Description].
  by destruct (hash_fields "role_id" (RoleID x) (r_Name x) (r_Description x)
    (FormatTime r (r_CreatedAt x))) as (-> & -> & -> & _).
Qed.

Lemma perm_hash_nonempty r p : perm_hash r p <> ∅.
Proof. by apply (hash_fields "permission_id" (PermissionID p) (p_Name p) (p_Description p) (FormatTime r (p_CreatedAt p))). Qed.

Lemma role_hash_nonempty r x : role_hash r x <> ∅.
Proof. by apply (hash_fields "role_id" (RoleID x) (r_Name x) (r_Description x) (FormatTime r (r_CreatedAt x))). Qed.

Lemma perm_hash_name m r pid n :
  coherent m r -> (hv r (keyPerm pid) !! "name" = Some n <-> exists p, permissions m !! pid = Some p /\ p_Name p = n).
Proof.
  intros Hc. rewrite (co_perm _ _ Hc). destruct (permissions m !! pid) as [p|]; cbn; [|split; [by rewrite lookup_empty|naive_solver]].
  destruct (hash_fields "permission_id" (PermissionID p) (p_Name p) (p_Description p)
    (FormatTime r (p_CreatedAt p))) as (_ & _ & _ & _ & _ & Hn); [done..|]. unfold perm_hash. rewrite Hn. naive_solver.
Qed.

(** The roles under a set of ids that memory knows. *)
Lemma load_roles m r ids x :
  coherent m r -> reads_ok r ->
  (x ∈ role_view <$> load r keyRole (to_role r) ids <-> exists id y, id ∈ ids /\ roles m !! id = Some y /\ x = role_view y).
Proof.
  intros Hc Hok. rewrite list_elem_of_fmap. setoid_rewrite load_elem; [|done]. setoid_rewrite (co_role _ _ Hc). split.
  - intros (y & -> & id & Hin & Hne & ->). destruct (roles m !! id) as [z|] eqn:Ez; cbn in *; [|done].
    exists id, z. by rewrite to_role_view.
  - intros (id & y & Hin & Hy & ->). exists (to_role r (role_hash r y)). rewrite to_role_view. split; [done|].
    exists id. rewrite Hy. cbn. split_and!; [done|apply role_hash_nonempty|done].
Qed.

Lemma load_perms m r ids x :
  coherent m r -> reads_ok r ->
  (x ∈ perm_view <$> load r keyPerm (to_permission r) ids <->
   exists id y, id ∈ ids /\ permissions m !! id = Some y /\ x = perm_view y).
Proof.
  intros Hc Hok. rewrite list_elem_of_fmap. setoid_rewrite load_elem; [|done]. setoid_rewrite (co_perm _ _ Hc). split.
  - intros (y & -> & id & Hin & Hne & ->). destruct (permissions m !! id) as [z|] eqn:Ez; cbn in *; [|done].
    exists id, z. by rewrite to_permission_view.
  - intros (id & y & Hin & Hy & ->). exists (to_permission r (perm_hash r y)). rewrite to_permission_view. split; [done|].
    exists id. rewrite Hy. cbn. split_and!; [done|apply perm_hash_nonempty|done].
Qed.

Lemma values_elem {A B} (f : A -> B) (m : gmap string A) y :
  y ∈ f <$> (map_to_list m).*2 <-> exists id x, m !! id = Some x /\ y = f x.
Proof.
  rewrite list_elem_of_fmap. setoid_rewrite list_elem_of_fmap. split.
  - intros (x & -> & [id z] & -> & Hin%elem_of_map_to_list). eauto.
  - intros (id & x & Hx & ->). exists x. split; [done|]. exists (id, x). split; [done|]. by apply elem_of_map_to_list.
Qed.

(** Memory and Redis answer alike. *)
Record agree (m : InMemRBACStore) (r : R) : Prop := {
  ag_has : forall u p, UserHasPermission r u p = UserHasPermission m u p;
  ag_user : forall u, same_members role_view (UserRoles m u) (UserRoles r u);
  ag_names : forall rid, same_members id (RolePermissionNames m rid) (RolePermissionNames r rid);
  ag_perms : same_members perm_view (ListPermissions m) (ListPermissions r);
  ag_roles : same_members role_view (ListRoles m) (ListRoles r);
}.

Lemma coherent_has m r u p : coherent m r -> reads_ok r -> UserHasPermission r u p = UserHasPermission m u p.
Proof.
  intros Hc Hok. apply eq_true_iff_eq. cbn. rewrite mem_has_permission. unfold redis_UserHasPermission.
  destruct (SMembers_ok r (keyUserRoles u) Hok) as (rids & -> & _ & Hr). rewrite existsb_exists.
  setoid_rewrite <- list_elem_of_In. setoid_rewrite Hr. setoid_rewrite (co_users _ _ Hc).
  apply exist_proper. intros rid. apply and_iff_compat_l.
  destruct (SMembers_ok r (keyRolePerms rid) Hok) as (pids & -> & _ & Hp). rewrite grants_name_spec, (co_grants _ _ Hc) by done.
  setoid_rewrite Hp. setoid_rewrite (perm_hash_name _ _ _ _ Hc). naive_solver.
Qed.

Lemma coherent_agree m r : coherent m r -> reads_ok r -> agree m r.
Proof.
  intros Hc Hok. split.
  - intros u p. by apply coherent_has.
  - intros u x. cbn [UserRoles Redis_store InMem_store]. unfold redis_UserRoles.
    destruct (SMembers_ok r (keyUserRoles u) Hok) as (rids & -> & _ & Hr). rewrite (load_roles _ _ _ _ Hc Hok).
    setoid_rewrite Hr. setoid_rewrite (co_users _ _ Hc). rewrite list_elem_of_fmap. setoid_rewrite mem_user_roles.
    naive_solver.
  - intros rid n. rewrite !list_fmap_id. cbn [RolePermissionNames Redis_store InMem_store]. unfold redis_RolePermissionNames.
    destruct (SMembers_ok r (keyRolePerms rid) Hok) as (pids & -> & _ & Hp).
    rewrite elem_of_elements, (co_grants _ _ Hc), permission_names_elem by done. setoid_rewrite Hp.
    setoid_rewrite (perm_hash_name _ _ _ _ Hc). split; [|naive_solver].
    intros (pid & p & Hin & Hpm & <-). split; [by apply (co_perm_id _ _ Hc _ _ Hpm)|eauto].
  - intros x. cbn [ListPermissions Redis_store InMem_store]. unfold redis_ListPermissions.
    destruct (SMembers_ok r keyPerms Hok) as (ids & -> & _ & Hi). rewrite (load_perms _ _ _ _ Hc Hok), values_elem.
    setoid_rewrite Hi. setoid_rewrite (co_perms _ _ Hc). naive_solver.
  - intros x. cbn [ListRoles Redis_store InMem_store]. unfold redis_ListRoles.
    destruct (SMembers_ok r keyRoles Hok) as (ids & -> & _ & Hi). rewrite (load_roles _ _ _ _ Hc Hok), values_elem.
    setoid_rewrite Hi. setoid_rewrite (co_roles _ _ Hc). naive_solver.
Qed.
End Coherence.

(** ** Properties *)


(** ** Warm-up from Redis *)

(** What is known by name is known by identifier. *)
Definition names_resolve (s : InMemRBACStore) : Prop :=
  forall n p, permsByName s !! n = Some p -> permissions s !! PermissionID p = Some p /\ p_Name p = n.

Lemma warm_permissions_spec ps : forall s,
  NoDup (PermissionID <$> ps) -> (forall p, p ∈ ps -> permissions s !! PermissionID p = None) -> names_resolve s ->
  let s' := warm_permissions s ps in
  roles s' = roles s /\ rolePerms s' = rolePerms s /\ names_resolve s' /\
  (forall id p, permissions s' !! id = Some p <-> (p ∈ ps /\ PermissionID p = id) \/ permissions s !! id = Some p) /\
  (forall n, is_Some (permsByName s' !! n) <-> (exists p, p ∈ ps /\ p_Name p = n) \/ is_Some (permsByName s !! n)).
Proof.
  induction ps as [|p ps IH]; intros s Hnd Hfresh Hres.
  { cbn. split_and!; [done|done|done| |]; intros; set_solver. }
  cbn [fmap list_fmap] in Hnd. apply NoDup_cons in Hnd as [Hnin Hnd]. cbn [warm_permissions].
  assert (permissions s !! PermissionID p = None) as Hnone by (apply Hfresh; by constructor).
  destruct (IH (fst (mem_SavePermission s p))) as (H1 & H2 & H3 & H4 & H5); [done| | |].
  - intros q Hq. cbn. rewrite lookup_insert_ne; [apply Hfresh; by constructor|].
    intros Heq. apply Hnin. rewrite Heq. by apply list_elem_of_fmap_2.
  - intros n q. cbn. intros [[<- <-]|[Hne Hq]]%lookup_insert_Some; [by rewrite lookup_insert_eq|].
    destruct (Hres _ _ Hq) as [Hq1 Hq2]. split; [|done]. rewrite lookup_insert_ne; [done|]. congruence.
  - cbv zeta. rewrite H1, H2. split_and!; [done|done|done| |].
    + intros id q. rewrite H4. cbn. rewrite lookup_insert_Some, elem_of_cons. split; [naive_solver|].
      intros [[[-> |Hq] <-]|Hq]; [by right; left|by left|]. right. right. split; [|done]. congruence.
    + intros n. rewrite H5. cbn. rewrite lookup_insert_is_Some'. setoid_rewrite elem_of_cons. naive_solver.
Qed.

Lemma warm_grants_spec rid names : forall s,
  names_resolve s -> is_Some (roles s !! rid) ->
  let s' := warm_grants s rid names in
  permissions s' = permissions s /\ permsByName s' = permsByName s /\ roles s' = roles s /\
  forall rid' n, n ∈ members (rolePerms s') rid' <->
    n ∈ members (rolePerms s) rid' \/ (rid' = rid /\ n ∈ names /\ is_Some (permsByName s !! n)).
Proof.
  induction names as [|x names IH]; intros s Hres Hrole.
  { cbn. split_and!; [done|done|done|]. intros. set_solver. }
  cbn [warm_grants GetPermissionByName InMem_store]. destruct (permsByName s !! x) as [p|] eqn:Ex.
  - destruct (Hres _ _ Ex) as [Hp Hn]. unfold mem_AssignPermissionToRole. rewrite Hp.
    destruct (roles s !! rid) as [r|] eqn:Er; [|by destruct Hrole]. cbn [fst].
    match goal with |- context [warm_grants ?t rid names] => destruct (IH t) as (H1 & H2 & H3 & H4) end;
      [exact Hres|cbn; by rewrite Er|]. cbv zeta. rewrite H1, H2, H3. split_and!; [done|done|done|].
    intros rid' n. rewrite H4. cbn [rolePerms permsByName]. rewrite members_insert, elem_of_cons.
    case_bool_decide as Hr; [subst rid'|naive_solver].
    rewrite elem_of_union, elem_of_singleton, Hn. split; [naive_solver|].
    intros [?|(_ & [->|?] & ?)]; naive_solver.
  - destruct (IH s Hres Hrole) as (H1 & H2 & H3 & H4). cbv zeta. rewrite H1, H2, H3. split_and!; [done|done|done|].
    intros rid' n. rewrite H4, elem_of_cons. split; [naive_solver|].
    intros [?|(-> & [->|?] & Hs)]; [naive_solver| |naive_solver]. rewrite Ex in Hs. by destruct Hs.
Qed.

Lemma warm_roles_spec rs names : forall s,
  names_resolve s -> NoDup (RoleID <$> rs) ->
  let s' := warm_roles s rs names in
  permissions s' = permissions s /\
  (forall id x, roles s' !! id = Some x <->
     (x ∈ rs /\ RoleID x = id) \/ (id ∉ RoleID <$> rs /\ roles s !! id = Some x)) /\
  (forall rid n, n ∈ members (rolePerms s') rid <->
     n ∈ members (rolePerms s) rid \/
     (rid ∈ RoleID <$> rs /\ n ∈ names rid /\ is_Some (permsByName s !! n))).
Proof.
  induction rs as [|r rs IH]; intros s Hres Hnd.
  { cbn. split_and!; [done| |]; intros; set_solver. }
  cbn [fmap list_fmap] in Hnd. apply NoDup_cons in Hnd as [Hnin Hnd]. cbn [warm_roles].
  destruct (warm_grants_spec (RoleID r) (names (RoleID r)) (fst (mem_SaveRole s r))) as (G1 & G2 & G3 & G4);
    [exact Hres|cbn; rewrite lookup_insert_eq; eauto|].
  destruct (IH (warm_grants (fst (mem_SaveRole s r)) (RoleID r) (names (RoleID r)))) as (H1 & H2 & H3); [|done|].
  { intros n p. rewrite G1, G2. apply Hres. }
  cbv zeta. rewrite H1, G1. cbn [fmap list_fmap]. split_and!; [done| |].
  - intros id x. rewrite H2, G3. cbn [fst mem_SaveRole roles]. rewrite lookup_insert_Some, !elem_of_cons.
    destruct (decide (id = RoleID r)) as [->|Hne]; [|naive_solver].
    split; [naive_solver|]. intros [[[-> |Hx] Hid]|[Hx _]]; [right; naive_solver|left; naive_solver|naive_solver].
  - intros rid n. rewrite H3, G4, G2. cbn [fst mem_SaveRole rolePerms permsByName]. rewrite elem_of_cons. naive_solver.
Qed.

Lemma load_ids {A B} `{!HashRedis B, !HashRedisLaws B} (r : B) key (make : gmap string string -> A) (idf : A -> string) ids :
  reads_ok r -> NoDup ids -> (forall id, id ∈ ids -> hv r (key id) <> ∅ -> idf (make (hv r (key id))) = id) ->
  NoDup (idf <$> load r key make ids).
Proof.
  intros Hok. induction ids as [|id ids IH]; intros Hnd Hid; cbn [load]; [constructor|].
  apply NoDup_cons in Hnd as [Hnin Hnd].
  assert (NoDup (idf <$> load r key make ids)) as HIH by (apply IH; [done|]; intros; apply Hid; [by constructor|done]).
  pose proof (ok_HGetAll _ Hok (key id)) as Hg. destruct (HGetAll r (key id)) as [f|] eqn:E; [|done].
  apply HGetAll_seen in E. subst f. case_bool_decide as Hf; [done|]. cbn [fmap list_fmap]. constructor; [|done].
  rewrite (Hid id) by (done || by constructor). intros (y & -> & Hy)%list_elem_of_fmap.
  apply load_elem in Hy as (id' & Hin & Hne & ->); [|done]. rewrite (Hid id') in Hnin by (done || by constructor). done.
Qed.

Lemma warm_from_spec {R} `{!HashRedis R, !HashRedisLaws R} m (r : R) :
  coherent m r -> reads_ok r ->
  let w := WarmFrom NewInMemRBACStore r in
  (forall id p, permissions w !! id = Some p <-> p ∈ redis_ListPermissions r /\ PermissionID p = id) /\
  (forall id x, roles w !! id = Some x <-> x ∈ redis_ListRoles r /\ RoleID x = id) /\
  (forall rid n, n ∈ members (rolePerms w) rid <->
     rid ∈ RoleID <$> redis_ListRoles r /\ n ∈ redis_RolePermissionNames r rid /\
     exists p, p ∈ redis_ListPermissions r /\ p_Name p = n).
Proof.
  intros Hc Hok w.
  assert (NoDup (PermissionID <$> redis_ListPermissions r)) as Hnd1.
  { unfold redis_ListPermissions. destruct (SMembers_ok r keyPerms Hok) as (ids & -> & Hnd & _).
    apply load_ids; [done|done|]. intros id _. rewrite (co_perm _ _ Hc).
    destruct (permissions m !! id) as [p|] eqn:Ep; cbn [from_option]; [|done]. intros _.
    destruct (co_perm_id _ _ Hc _ _ Ep) as [<- _]. exact (f_equal (fun v => v.1.1) (to_permission_view r p)). }
  assert (NoDup (RoleID <$> redis_ListRoles r)) as Hnd2.
  { unfold redis_ListRoles. destruct (SMembers_ok r keyRoles Hok) as (ids & -> & Hnd & _).
    apply load_ids; [done|done|]. intros id _. rewrite (co_role _ _ Hc).
    destruct (roles m !! id) as [x|] eqn:Ex; cbn [from_option]; [|done]. intros _.
    rewrite <- (co_role_id _ _ Hc _ _ Ex). exact (f_equal (fun v => v.1.1) (to_role_view r x)). }
  destruct (warm_permissions_spec (redis_ListPermissions r) NewInMemRBACStore Hnd1) as (P1 & P2 & P3 & P4 & P5);
    [by intros; apply lookup_empty|by intros n p Hn; cbn in Hn; rewrite lookup_empty in Hn|].
  destruct (warm_roles_spec (redis_ListRoles r) (redis_RolePermissionNames r) _ P3 Hnd2) as (Q1 & Q2 & Q3).
  split_and!.
  - intros id p. unfold w, WarmFrom. cbn [ListPermissions ListRoles RolePermissionNames Redis_store].
    rewrite Q1, P4. cbn. rewrite lookup_empty. naive_solver.
  - intros id x. unfold w, WarmFrom. cbn [ListPermissions ListRoles RolePermissionNames Redis_store].
    rewrite Q2, P1. cbn. rewrite lookup_empty. naive_solver.
  - intros rid n. unfold w, WarmFrom. cbn [ListPermissions ListRoles RolePermissionNames Redis_store].
    rewrite Q3, P2, P5. unfold NewInMemRBACStore, members. cbn [rolePerms permsByName]. rewrite !lookup_empty. cbn.
    split; [intros [?%elem_of_empty|(? & ? & [?|[? ?]])]; naive_solver|naive_solver].
Qed.

(** what a restart recovers. A memory store warmed from the Redis the layered store
    wrote has the same permissions and roles (creation dates, kept to the second,
    aside), and each role grants the same names; but no user has a role, and so
    nobody any permission, although Redis still holds who had which. *)
Theorem restart_recovers_roles_only {R} `{!HashRedis R, !HashRedisLaws R} (s0 s : LayeredRBACStore R) :
  coherent (mem s0) (redis s0) -> rtc succeeds s0 s -> reads_ok (redis s) ->
  let w := WarmFrom NewInMemRBACStore (redis s) in
  same_members perm_view (ListPermissions (mem s)) (ListPermissions w) /\
  same_members role_view (ListRoles (mem s)) (ListRoles w) /\
  (forall rid n, n ∈ RolePermissionNames w rid <-> n ∈ RolePermissionNames (mem s) rid) /\
  (forall u p, UserRoles w u = [] /\ UserHasPermission w u p = false).
Proof.
  intros Hc0 Hs Hok w. assert (coherent (mem s) (redis s)) as Hc.
  { clear Hok w. induction Hs as [|a b c Hab _ IH]; [done|]. apply IH. by eapply coherent_step. }
  destruct (coherent_agree _ _ Hc Hok) as [_ _ Hn Hps Hrs]. destruct (warm_from_spec _ _ Hc Hok) as (W1 & W2 & W3).
  split_and!.
  - intros x. rewrite (Hps x). cbn [ListPermissions Redis_store InMem_store]. rewrite values_elem, list_elem_of_fmap.
    unfold w. setoid_rewrite W1. naive_solver.
  - intros x. rewrite (Hrs x). cbn [ListRoles Redis_store InMem_store]. rewrite values_elem, list_elem_of_fmap.
    unfold w. setoid_rewrite W2. naive_solver.
  - intros rid n. specialize (Hn rid n). rewrite !list_fmap_id in Hn. rewrite Hn.
    cbn [RolePermissionNames InMem_store Redis_store] in *. rewrite elem_of_elements. unfold w. rewrite W3.
    split; [naive_solver|]. intros Hin. split_and!; [|done|].
    + apply Hn, elem_of_elements, (co_grants _ _ Hc) in Hin as (pid & p & Hin & _).
      destruct (co_grants_known _ _ Hc _ _ Hin) as [[x Hx] _].
      assert (role_view x ∈ role_view <$> ListRoles (redis s)) as (y & Hy & Hyin)%list_elem_of_fmap.
      { apply Hrs. cbn. apply values_elem. eauto. }
      apply list_elem_of_fmap. exists y. split; [|done]. injection Hy as <- _ _. by rewrite (co_role_id _ _ Hc _ _ Hx).
    + apply Hn, elem_of_elements, (co_grants _ _ Hc) in Hin as (pid & p & _ & Hp & <-).
      assert (perm_view p ∈ perm_view <$> ListPermissions (redis s)) as (y & Hy & Hyin)%list_elem_of_fmap.
      { apply Hps. cbn. apply values_elem. eauto. }
      exists y. split; [done|]. by injection Hy as _ <- _.
  - intros u p. assert (members (userRoles w) u = ∅) as E.
    { unfold w, WarmFrom. by rewrite warm_roles_users, warm_permissions_users. }
    cbn [UserRoles UserHasPermission InMem_store]. unfold mem_UserRoles, mem_UserHasPermission.
    by rewrite E, elements_empty.
Qed.

(** ** Witnesses

    A server that never fails, and the operations that give ann a role. *)

Record server := mkServer { hashes : gmap string (gmap string string); sets : gmap string (gset string) }.

#[local] Instance server_redis : HashRedis server := {
  HSet r k f := (mkServer (<[k := f ∪ default ∅ (hashes r !! k)]> (hashes r)) (sets r), None);
  HGetAll r k := Ok (default ∅ (hashes r !! k));
  HGet r k f := match default ∅ (hashes r !! k) !! f with Some v => Ok v | None => Err "redis: nil" end;
  SAdd r k x := (mkServer (hashes r) (<[k := {[x]} ∪ members (sets r) k]> (sets r)), None);
  SRem r k x := (mkServer (hashes r) (<[k := members (sets r) k ∖ {[x]}]> (sets r)), None);
  SMembers r k := Ok (elements (members (sets r) k));
  FormatTime _ _ := "1970-01-01T00:00:00Z";
  ParseTime _ _ := Some 0;
}.

#[local] Instance server_laws : HashRedisLaws server.
Proof.
  refine {| hv r k := default ∅ (hashes r !! k); sv r k := members (sets r) k |}.
  - intros r k f r' [= <-]. split; [|done]. intros k'. cbn.
    destruct (decide (k = k')) as [<-|Hne]; [by rewrite lookup_insert_eq|by rewrite lookup_insert_ne].
  - intros r k x r' [= <-]. split; [|done]. intros k'. cbn. rewrite members_insert.
    destruct (decide (k = k')) as [<-|Hne]; [by rewrite bool_decide_true|by rewrite bool_decide_false].
  - intros r k x r' [= <-]. split; [|done]. intros k'. cbn. rewrite members_insert.
    destruct (decide (k = k')) as [<-|Hne]; [by rewrite bool_decide_true|by rewrite bool_decide_false].
  - by intros r k f [= <-].
  - intros r k f v. cbn. destruct (default ∅ (hashes r !! k) !! f); by intros [= <-].
  - intros r k l [= <-]. split; [apply NoDup_elements|]. intros x. apply elem_of_elements.
  - done.
Defined.

Definition nothing : LayeredRBACStore server := mkLayered NewInMemRBACStore (mkServer ∅ ∅).

Lemma nothing_coherent : coherent (mem nothing) (redis nothing).
Proof.
  split; cbn; unfold members; cbn.
  - intros id. by rewrite !lookup_empty.
  - intros id. rewrite !lookup_empty. cbn. split; [set_solver|by intros []].
  - intros id p. by rewrite lookup_empty.
  - intros id. by rewrite !lookup_empty.
  - intros id. rewrite !lookup_empty. cbn. split; [set_solver|by intros []].
  - intros id x. by rewrite lookup_empty.
  - intros u. by rewrite !lookup_empty.
  - intros u rid. rewrite lookup_empty. cbn. set_solver.
  - intros rid n. rewrite !lookup_empty. cbn. set_solver.
  - intros rid pid. rewrite !lookup_empty. cbn. set_solver.
Qed.

Lemma server_reads (r : server) : reads_ok r.
Proof. split; [done|done|]. intros k f v H. cbn in *. by rewrite H. Qed.

Definition example_ops : list op :=
  [OpSavePermission (mkPermission "p1" "camera:view" "View" 0); OpSaveRole (mkRole "r1" "operator" "" 0);
   OpGrant "r1" "p1"; OpAssign "ann" "r1"].
Definition example_layered : LayeredRBACStore server :=
  foldl (fun s o => fst (perform s o)) nothing example_ops.

Lemma succeeds_perform (s : LayeredRBACStore server) o :
  admissible s o -> snd (perform s o) = None -> succeeds s (fst (perform s o)).
Proof. intros Ha Hn. apply (succeeds_op _ o); [done|]. rewrite <- Hn. by destruct (perform s o). Qed.

Fixpoint all_succeed (s : LayeredRBACStore server) (os : list op) : Prop :=
  match os with
  | [] => True
  | o :: os => admissible s o /\ snd (perform s o) = None /\ all_succeed (fst (perform s o)) os
  end.

Lemma run_succeeds os : forall s, all_succeed s os -> rtc succeeds s (foldl (fun s o => fst (perform s o)) s os).
Proof.
  induction os as [|o os IH]; intros s H; [done|]. destruct H as (Ha & Hn & H).
  eapply rtc_l; [by apply (succeeds_perform _ o)|by apply IH].
Qed.

Lemma example_succeeds : rtc succeeds nothing example_layered.
Proof.
  apply run_succeeds. unfold example_ops. cbn [all_succeed].
  split_and!; first [exact I | by intros q Hq; cbn in Hq; rewrite lookup_empty in Hq | vm_compute; reflexivity | done].
Qed.


(** After a restart the operators still may, but ann is none. *)
Lemma restart_recovers_roles_only_witness :
  let w := WarmFrom NewInMemRBACStore (redis example_layered) in
  "camera:view" ∈ RolePermissionNames w "r1" /\ UserHasPermission w "ann" "camera:view" = false.
Proof.
  destruct (restart_recovers_roles_only nothing example_layered nothing_coherent example_succeeds (server_reads _))
    as (_ & _ & Hn & Hu).
  split; [|exact (proj2 (Hu "ann" "camera:view"))].
  apply Hn, (bool_decide_unpack _). vm_compute. exact I.
Defined.
