(* ===== verification/Auth.v ===== *)
(** * Authentication and users

    [internal/auth]: users and sessions ([model.go], [store.go]), the session
    tokens ([jwt.go]), the service ([service.go]) over any RBAC store
    (Rbac.v), and the middleware ([middleware.go]). The JWT library and bcrypt
    are the class [AuthEnv]; the identifiers of [uuid.NewV7] and [uuid.New] and
    the times of [time.Now] are arguments. *)

From S2P Require Import Prelude GoStrings Rbac.

(** ** Data *)

Record User := mkUser {
  UserID : string; Username : string; PasswordHash : string;
  CreatedAt : Time; UpdatedAt : Time; IsActive : bool }.

Record SessionToken := mkSession {
  TokenID : string; s_UserID : string; RoleNames : list string;
  IssuedAt : Time; ExpiresAt : Time; InvalidatedAt : option Time }.

(** The dates of a JWT are in seconds. *)
Record jwtClaims := mkJwtClaims {
  j_ID : string; j_Subject : string; j_IssuedAt : Z; j_ExpiresAt : Z; j_Roles : list string }.

Record LoginRequest := mkLogin { l_Username : string; l_Password : string }.
Record UserInfo := mkUserInfo { ui_UserID : string; ui_Username : string; ui_Roles : list string }.
Record LoginResponse := mkLoginResponse {
  lr_Token : string; lr_ExpiresAt : Time; lr_User : UserInfo }.
Record SessionInfo := mkSessionInfo {
  si_UserID : string; si_Username : string; si_Roles : list string;
  si_Permissions : list string; si_ExpiresAt : Time }.
Record CreateUserRequest := mkCreateUser {
  c_Username : string; c_Password : string; c_Roles : list string }.
Record UserDetail := mkUserDetail {
  d_UserID : string; d_Username : string; d_Roles : list string; d_IsActive : bool;
  d_CreatedAt : Time; d_UpdatedAt : Time }.

Inductive auth_error :=
  | ErrInvalidCredentials (detail : string)
  | ErrAccountDisabled
  | ErrUserNotFound
  | ErrUserAlreadyExists
  | ErrRoleNotFound (name : string)
  | ErrStoreUserExists (username : string)
  | ErrOther (e : string)
  | NilPointer.

(** The errors of [ValidateToken]. *)
Inductive token_error := ErrTokenInvalid | ErrTokenExpired.

(** [err.Error()] *)
Definition token_error_text (e : token_error) : string :=
  match e with ErrTokenInvalid => "token_invalid" | ErrTokenExpired => "token_expired" end.

(** ** Libraries *)

(** [bcrypt_Generate] is given its salt; [jwt_Verify] the time. *)
Class AuthEnv := {
  bcrypt_Compare : string -> string -> bool;
  bcrypt_Generate : string -> string -> result string string;
  jwt_Sign : jwtClaims -> result string string;
  jwt_Verify : Time -> string -> option jwtClaims;
}.

(** A hash accepts its password; what was signed has the three parts of a JWT and
    verifies until it expires. *)
Class AuthLaws (E : AuthEnv) : Prop := {
  bcrypt_accepts : forall pw salt h, bcrypt_Generate pw salt = Ok h -> bcrypt_Compare h pw = true;
  jwt_accepts : forall c s now, jwt_Sign c = Ok s -> now < FromUnix (j_ExpiresAt c) ->
    jwt_Verify now s = Some c;
  jwt_nonempty : forall c s, jwt_Sign c = Ok s -> s <> "";
}.

(** ** Store *)

Record Store := mkStore {
  users : gmap string User;
  byID : gmap string User;
  tokens : gmap string SessionToken;
}.

Definition NewStore : Store := mkStore ∅ ∅ ∅.

(** [None]: the error "already exists". *)
Definition AddUser (s : Store) (u : User) : option Store :=
  match users s !! Username u with
  | Some _ => None
  | None => Some (mkStore (<[Username u := u]> (users s)) (<[UserID u := u]> (byID s)) (tokens s))
  end.

Definition GetByUsername (s : Store) (username : string) : option User := users s !! username.
Definition GetByID (s : Store) (userID : string) : option User := byID s !! userID.
Definition ListUsers (s : Store) : list User := (map_to_list (byID s)).*2.

Definition Store_DeleteUser (s : Store) (userID : string) : Store * bool :=
  match byID s !! userID with
  | None => (s, false)
  | Some u => (mkStore (delete (Username u) (users s)) (delete userID (byID s)) (tokens s), true)
  end.

Definition SaveToken (s : Store) (tok : SessionToken) : Store :=
  mkStore (users s) (byID s) (<[TokenID tok := tok]> (tokens s)).

Definition GetToken (s : Store) (tokenID : string) : option SessionToken := tokens s !! tokenID.

Definition InvalidateToken (s : Store) (now : Time) (tokenID : string) : Store * bool :=
  match tokens s !! tokenID with
  | None => (s, false)
  | Some t =>
      match InvalidatedAt t with
      | Some _ => (s, false)
      | None =>
          (mkStore (users s) (byID s)
             (<[tokenID := mkSession (TokenID t) (s_UserID t) (RoleNames t) (IssuedAt t)
                             (ExpiresAt t) (Some now)]> (tokens s)), true)
      end
  end.

Definition ActiveCount (s : Store) (now : Time) : nat :=
  size (filter (fun kv => InvalidatedAt kv.2 = None /\ now < ExpiresAt kv.2) (tokens s)).

(** ** JWT *)

Record JWTService := mkJWT { j_ttl : Duration }.

Definition NewJWTService (ttlHours : Z) : JWTService :=
  mkJWT (i64 ((if ttlHours <=? 0 then 8 else ttlHours) * Hour)).

Definition Issue `{E : AuthEnv} (j : JWTService) (u : User) (roleNames : list string)
    (now : Time) (tokenID : string) : result string (SessionToken * string) :=
  let exp := now + j_ttl j in
  match jwt_Sign (mkJwtClaims tokenID (UserID u) (Unix now) (Unix exp) roleNames) with
  | Err e => Err ("sign token: " +:+ e)
  | Ok signed => Ok (mkSession tokenID (UserID u) roleNames now exp None, signed)
  end.

(** ** Service *)

(** [s.jwt] does not change: it is an argument of the operations that use it. *)
Record Service (R : Type) := mkService { store : Store; rbac : R }.
Arguments mkService {R} store rbac.
Arguments store {R}.
Arguments rbac {R}.

Definition dummy_hash : string := "$2a$10$invalidhashfornonexistentuser000000000000000000000000".

Section Service.
Context `{E : AuthEnv} {R} `{!RBACStore R}.

Definition role_names (r : R) (userID : string) : list string := r_Name <$> UserRoles r userID.

Definition userDetail (s : Service R) (u : User) : UserDetail :=
  mkUserDetail (UserID u) (Username u) (role_names (rbac s) (UserID u)) (IsActive u)
    (CreatedAt u) (UpdatedAt u).

Fixpoint resolveRoles (r : R) (names : list string) : result auth_error (list RoleModel) :=
  match names with
  | [] => Ok []
  | name :: names =>
      match GetRoleByName r name with
      | None => Err (ErrRoleNotFound name)
      | Some role => let? rest := resolveRoles r names in Ok (role :: rest)
      end
  end.

(** [AssignRoleToUser] for each role, up to the first error. *)
Fixpoint assign_all (r : R) (userID : string) (roles : list RoleModel) : R * option auth_error :=
  match roles with
  | [] => (r, None)
  | x :: roles =>
      match AssignRoleToUser r userID (RoleID x) with
      | (r, Some e) => (r, Some (ErrOther ("assign role " +:+ r_Name x +:+ ": " +:+ e)))
      | (r, None) => assign_all r userID roles
      end
  end.

(** [RemoveRoleFromUser] for each role; errors are ignored. *)
Fixpoint remove_all (r : R) (userID : string) (roles : list RoleModel) : R :=
  match roles with
  | [] => r
  | x :: roles => remove_all (fst (RemoveRoleFromUser r userID (RoleID x))) userID roles
  end.

(** [generated]: the password made when none is configured. The result is the
    password, empty when the admin was there. *)
Definition SeedAdmin (s : Service R) (now : Time) (id salt generated username password : string)
  : Service R * result auth_error string :=
  match GetByUsername (store s) username with
  | Some _ => (s, Ok "")
  | None =>
      let password := if bool_decide (password = "") then generated else password in
      match bcrypt_Generate password salt with
      | Err e => (s, Err (ErrOther ("hash seed password: " +:+ e)))
      | Ok hash =>
          let u := mkUser id username hash now now true in
          match AddUser (store s) u with
          | None => (s, Err (ErrStoreUserExists username))
          | Some st =>
              match GetRoleByName (rbac s) "admin" with
              | None => (mkService st (rbac s), Err (ErrOther "auth.seed: admin role not found — call SeedRBAC first"))
              | Some adminRole =>
                  match AssignRoleToUser (rbac s) (UserID u) (RoleID adminRole) with
                  | (r, Some e) =>
                      (mkService st r, Err (ErrOther ("auth.seed: assign admin role: " +:+ e)))
                  | (r, None) => (mkService st r, Ok password)
                  end
              end
          end
      end
  end.

Definition Login (j : JWTService) (s : Service R) (now : Time) (tokenID : string) (req : LoginRequest)
  : Service R * result auth_error (LoginResponse * SessionToken) :=
  let u := GetByUsername (store s) (l_Username req) in
  let hash := match u with Some u => PasswordHash u | None => dummy_hash end in
  if negb (bcrypt_Compare hash (l_Password req)) then (s, Err (ErrInvalidCredentials ""))
  else match u with
  | None => (s, Err NilPointer)
  | Some u =>
      if negb (IsActive u) then (s, Err ErrAccountDisabled)
      else
        let roleNames := role_names (rbac s) (UserID u) in
        match Issue j u roleNames now tokenID with
        | Err e => (s, Err (ErrOther ("issue token: " +:+ e)))
        | Ok (sess, signed) =>
            (mkService (SaveToken (store s) sess) (rbac s),
             Ok (mkLoginResponse signed (ExpiresAt sess)
                   (mkUserInfo (UserID u) (Username u) roleNames), sess))
        end
  end.

Definition ValidateToken (s : Service R) (now : Time) (signed : string)
  : result token_error (SessionToken * User) :=
  match jwt_Verify now signed with
  | None => Err ErrTokenInvalid
  | Some claims =>
      match GetToken (store s) (j_ID claims) with
      | None => Err ErrTokenInvalid
      | Some sess =>
          match InvalidatedAt sess with
          | Some _ => Err ErrTokenInvalid
          | None =>
              if ExpiresAt sess <? now then Err ErrTokenExpired
              else match GetByID (store s) (s_UserID sess) with
              | None => Err ErrTokenInvalid
              | Some u => if negb (IsActive u) then Err ErrTokenInvalid else Ok (sess, u)
              end
          end
      end
  end.

Definition Logout (s : Service R) (now : Time) (tokenID : string) : Service R :=
  mkService (fst (InvalidateToken (store s) now tokenID)) (rbac s).

Definition GetSessionInfo (s : Service R) (sess : SessionToken) (u : User) : SessionInfo :=
  let roles := UserRoles (rbac s) (UserID u) in
  let permSet : gset string :=
    list_to_set (concat ((fun r => RolePermissionNames (rbac s) (RoleID r)) <$> roles)) in
  mkSessionInfo (UserID u) (Username u) (r_Name <$> roles) (elements permSet) (ExpiresAt sess).

Definition CreateUser (s : Service R) (now : Time) (id salt : string) (req : CreateUserRequest)
  : Service R * result auth_error UserDetail :=
  if bool_decide (c_Username req = "") then (s, Err (ErrInvalidCredentials "username is required"))
  else if len (c_Password req) <? 8
  then (s, Err (ErrInvalidCredentials "password must be at least 8 characters"))
  else match GetByUsername (store s) (c_Username req) with
  | Some _ => (s, Err ErrUserAlreadyExists)
  | None =>
      let roleNames := match c_Roles req with [] => ["operator"] | l => l end in
      match resolveRoles (rbac s) roleNames with
      | Err e => (s, Err e)
      | Ok roles =>
          match bcrypt_Generate (c_Password req) salt with
          | Err e => (s, Err (ErrOther ("hash password: " +:+ e)))
          | Ok hash =>
              let u := mkUser id (c_Username req) hash now now true in
              match AddUser (store s) u with
              | None => (s, Err ErrUserAlreadyExists)
              | Some st =>
                  match assign_all (rbac s) id roles with
                  | (r, Some e) => (mkService st r, Err e)
                  | (r, None) => let s := mkService st r in (s, Ok (userDetail s u))
                  end
              end
          end
      end
  end.

Definition GetUser (s : Service R) (userID : string) : result auth_error UserDetail :=
  match GetByID (store s) userID with
  | None => Err ErrUserNotFound
  | Some u => Ok (userDetail s u)
  end.

Definition ListAllUsers (s : Service R) : list UserDetail := userDetail s <$> ListUsers (store s).

(** [None]: no error. *)
Definition DeleteUser (s : Service R) (userID : string) : Service R * option auth_error :=
  let r := remove_all (rbac s) userID (UserRoles (rbac s) userID) in
  match Store_DeleteUser (store s) userID with
  | (st, false) => (mkService st r, Some ErrUserNotFound)
  | (st, true) => (mkService st r, None)
  end.

Definition UpdateUserRoles (s : Service R) (userID : string) (roleNames : list string)
  : Service R * result auth_error UserDetail :=
  match GetByID (store s) userID with
  | None => (s, Err ErrUserNotFound)
  | Some u =>
      match resolveRoles (rbac s) roleNames with
      | Err e => (s, Err e)
      | Ok newRoles =>
          let r := remove_all (rbac s) userID (UserRoles (rbac s) userID) in
          match assign_all r userID newRoles with
          | (r, Some e) => (mkService (store s) r, Err e)
          | (r, None) => let s := mkService (store s) r in (s, Ok (userDetail s u))
          end
      end
  end.

(** ** Middleware *)

Inductive verdict :=
  | Unauthorized (m : string)
  | Forbidden (m : string)
  | Next.

Definition extractBearer (authorization : string) : string :=
  if HasPrefix authorization "Bearer " then TrimPrefix authorization "Bearer " else "".

(** The user the request's context gets, or the answer. *)
Definition Middleware (s : Service R) (now : Time) (authorization : string)
  : result verdict (SessionToken * User) :=
  let signed := extractBearer authorization in
  if bool_decide (signed = "") then Err (Unauthorized "missing token")
  else match ValidateToken s now signed with
  | Err e => Err (Unauthorized (token_error_text e))
  | Ok p => Ok p
  end.

Definition RequirePermission (s : Service R) (perm : string) (u : option User) : verdict :=
  match u with
  | None => Unauthorized "missing auth context"
  | Some u => if negb (UserHasPermission (rbac s) (UserID u) perm)
              then Forbidden ("missing permission: " +:+ perm) else Next
  end.

(** A request to a route behind both: what [next] is called with. *)
Definition guarded (s : Service R) (now : Time) (perm authorization : string) : result verdict User :=
  match Middleware s now authorization with
  | Err v => Err v
  | Ok (_, u) => match RequirePermission s perm (Some u) with Next => Ok u | v => Err v end
  end.
End Service.

(** ** Steps

    What clients and the seeding do to the service. An identifier is drawn once:
    [issued] are the ones drawn so far. *)

Section Steps.
Context `{E : AuthEnv} {R} `{!RBACStore R}.

Record Sys := mkSys { svc : Service R; issued : gset string }.

Inductive step (j : JWTService) : Sys -> Sys -> Prop :=
  | step_seed y now id salt gen u p s r :
      id ∉ issued y -> SeedAdmin (svc y) now id salt gen u p = (s, r) ->
      step j y (mkSys s ({[id]} ∪ issued y))
  | step_login y now id req s r :
      id ∉ issued y -> Login j (svc y) now id req = (s, r) ->
      step j y (mkSys s ({[id]} ∪ issued y))
  | step_logout y now tid : step j y (mkSys (Logout (svc y) now tid) (issued y))
  | step_create y now id salt req s r :
      id ∉ issued y -> CreateUser (svc y) now id salt req = (s, r) ->
      step j y (mkSys s ({[id]} ∪ issued y))
  | step_delete y uid s e : DeleteUser (svc y) uid = (s, e) -> step j y (mkSys s (issued y))
  | step_roles y uid names s r :
      UpdateUserRoles (svc y) uid names = (s, r) -> step j y (mkSys s (issued y))
  | step_rbac y r : step j y (mkSys (mkService (store (svc y)) r) (issued y)).

Definition start (r : R) : Sys := mkSys (mkService NewStore r) ∅.
End Steps.

(** ** Lemmas on the stores *)

(** Both indexes hold the same users, and what is filed was drawn. *)
Record store_wf (ids : gset string) (s : Store) : Prop := {
  sw_users : forall n u, users s !! n = Some u <-> byID s !! UserID u = Some u /\ Username u = n;
  sw_byID : forall id u, byID s !! id = Some u -> UserID u = id /\ id ∈ ids;
  sw_tokens : forall id t, tokens s !! id = Some t -> TokenID t = id /\ id ∈ ids;
}.

Lemma AddUser_wf ids s u s' :
  store_wf ids s -> UserID u ∉ ids -> AddUser s u = Some s' -> store_wf ({[UserID u]} ∪ ids) s'.
Proof.
  intros [Hu Hb Ht] Hid. unfold AddUser. destruct (users s !! Username u) as [x|] eqn:Eu; [done|].
  intros [= <-]. split; cbn.
  - intros n v. destruct (decide (Username u = n)) as [<-|Hn].
    + rewrite lookup_insert_eq. split.
      * intros [= <-]. by rewrite lookup_insert_eq.
      * intros [[[Hid' Hv]|[Hne Hv]]%lookup_insert_Some Hname]; [by subst|].
        assert (users s !! Username u = Some v) as Hx by (by apply Hu). congruence.
    + rewrite lookup_insert_ne by done. rewrite Hu. split.
      * intros [Hv <-]. rewrite lookup_insert_ne; [done|]. intros Heq. apply Hid. rewrite Heq.
        by apply (Hb _ _ Hv).
      * intros [[[_ <-]|[_ Hv]]%lookup_insert_Some Hname]; done.
  - intros id v [[<- <-]|[_ Hv]]%lookup_insert_Some; [set_solver|].
    apply Hb in Hv as [? ?]. set_solver.
  - intros id t [? ?]%Ht. set_solver.
Qed.

Lemma Store_DeleteUser_wf ids s uid s' b :
  store_wf ids s -> Store_DeleteUser s uid = (s', b) -> store_wf ids s' /\ byID s' !! uid = None.
Proof.
  intros [Hu Hb Ht]. unfold Store_DeleteUser. destruct (byID s !! uid) as [u|] eqn:Eu; intros [= <- <-].
  - destruct (Hb _ _ Eu) as [<- Hin]. split; [|cbn; apply lookup_delete_eq]. split; cbn.
    + intros n v. rewrite lookup_delete_Some, Hu. rewrite lookup_delete_Some. split.
      * intros (Hn & Hv & Hname). split_and!; [|done|done]. intros Heq. rewrite <- Heq in Hv. congruence.
      * intros [[Hne Hv] Hname]. split_and!; [|done|done]. intros Heq.
        assert (users s !! Username u = Some u) as H1 by (by apply Hu).
        assert (users s !! Username u = Some v) as H2 by (apply Hu; split; congruence). congruence.
    + intros id v [_ Hv]%lookup_delete_Some. by apply Hb.
    + done.
  - by split.
Qed.

Lemma SaveToken_wf ids s t :
  store_wf ids s -> store_wf ({[TokenID t]} ∪ ids) (SaveToken s t).
Proof.
  intros [Hu Hb Ht]. split; cbn; [done| |].
  - intros id u [? ?]%Hb. set_solver.
  - intros id x [[<- <-]|[_ [? ?]%Ht]]%lookup_insert_Some; set_solver.
Qed.

Lemma InvalidateToken_wf ids s now tid : store_wf ids s -> store_wf ids (fst (InvalidateToken s now tid)).
Proof.
  intros [Hu Hb Ht]. unfold InvalidateToken. destruct (tokens s !! tid) as [t|] eqn:Et; [|done].
  destruct (InvalidatedAt t); [done|]. split; cbn; [done|done|].
  intros id x [[<- <-]|[_ Hx]]%lookup_insert_Some; [cbn; by apply (Ht _ _ Et)|by apply Ht].
Qed.

Lemma store_wf_mono ids ids' s : ids ⊆ ids' -> store_wf ids s -> store_wf ids' s.
Proof.
  intros Hsub [Hu Hb Ht]. split; [done| |].
  - intros id u [? ?]%Hb. set_solver.
  - intros id t [? ?]%Ht. set_solver.
Qed.

(** ** Lemmas on the service *)

Section Lemmas.
Context `{E : AuthEnv} {R} `{!RBACStore R}.

Lemma CreateUser_store s now id salt req s' r :
  CreateUser s now id salt req = (s', r) ->
  (store s' = store s /\ is_ok r = false) \/
  exists hash st, bcrypt_Generate (c_Password req) salt = Ok hash /\
    AddUser (store s) (mkUser id (c_Username req) hash now now true) = Some st /\ store s' = st.
Proof.
  unfold CreateUser. case_bool_decide; [intros [= <- <-]; by left|].
  destruct (_ <? _); [intros [= <- <-]; by left|].
  destruct (GetByUsername _ _); [intros [= <- <-]; by left|].
  destruct (resolveRoles _ _); [|intros [= <- <-]; by left].
  destruct (bcrypt_Generate _ _) as [hash|]; [|intros [= <- <-]; by left].
  destruct (AddUser _ _) as [st|] eqn:Ea; [|intros [= <- <-]; by left].
  destruct (assign_all _ _ _) as [x [e|]]; intros [= <- <-]; right; eauto 6.
Qed.

Lemma SeedAdmin_store s now id salt gen u p s' r :
  SeedAdmin s now id salt gen u p = (s', r) ->
  store s' = store s \/ exists hash, AddUser (store s) (mkUser id u hash now now true) = Some (store s').
Proof.
  unfold SeedAdmin. destruct (GetByUsername _ _); [intros [= <- <-]; by left|].
  destruct (bcrypt_Generate _ _) as [hash|]; [|intros [= <- <-]; by left].
  destruct (AddUser _ _) as [st|] eqn:Ea; [|intros [= <- <-]; by left].
  destruct (GetRoleByName _ _); [|intros [= <- <-]; right; eauto].
  destruct (AssignRoleToUser _ _ _) as [x [e|]]; intros [= <- <-]; right; eauto.
Qed.

Lemma Login_store j s now id req s' r :
  Login j s now id req = (s', r) ->
  store s' = store s \/ exists t, TokenID t = id /\ store s' = SaveToken (store s) t.
Proof.
  unfold Login. destruct (negb _); [intros [= <- <-]; by left|].
  destruct (GetByUsername _ _) as [u|]; [|intros [= <- <-]; by left].
  destruct (negb _); [intros [= <- <-]; by left|]. unfold Issue.
  destruct (jwt_Sign _); [|intros [= <- <-]; by left].
  intros [= <- <-]. right. eexists. split; [|reflexivity]; done.
Qed.

Lemma UpdateUserRoles_store s uid names s' r :
  UpdateUserRoles s uid names = (s', r) -> store s' = store s.
Proof.
  unfold UpdateUserRoles. destruct (GetByID _ _); [|by intros [= <- <-]].
  destruct (resolveRoles _ _); [|by intros [= <- <-]].
  destruct (assign_all _ _ _) as [x [e|]]; by intros [= <- <-].
Qed.

Lemma DeleteUser_store s uid s' e :
  DeleteUser s uid = (s', e) -> store s' = fst (Store_DeleteUser (store s) uid).
Proof. unfold DeleteUser. destruct (Store_DeleteUser _ _) as [st []]; by intros [= <- <-]. Qed.

(** A session that no longer opens anything; a user that is gone. *)
Definition dead_token (tid : string) (s : Store) : Prop :=
  forall t, tokens s !! tid = Some t -> InvalidatedAt t <> None.
Definition dead_user (uid : string) (s : Store) : Prop := byID s !! uid = None.

Lemma AddUser_dead s u s' tid uid :
  AddUser s u = Some s' -> UserID u <> uid ->
  (dead_token tid s -> dead_token tid s') /\ (dead_user uid s -> dead_user uid s').
Proof.
  unfold AddUser, dead_user. destruct (users s !! _); [done|]. intros [= <-] Hne. split; [done|].
  cbn. by rewrite lookup_insert_ne.
Qed.

Lemma InvalidateToken_dead s now tid : dead_token tid (fst (InvalidateToken s now tid)).
Proof.
  unfold InvalidateToken, dead_token. destruct (tokens s !! tid) as [t|] eqn:Et.
  - destruct (InvalidatedAt t) eqn:Ei; cbn.
    + intros x Hx. congruence.
    + rewrite lookup_insert_eq. by intros x [= <-].
  - intros x Hx. cbn in Hx. congruence.
Qed.

Lemma InvalidateToken_keeps s now tid' tid uid :
  (dead_token tid s -> dead_token tid (fst (InvalidateToken s now tid'))) /\
  (dead_user uid s -> dead_user uid (fst (InvalidateToken s now tid'))).
Proof.
  unfold InvalidateToken. destruct (tokens s !! tid') as [t|]; [|done].
  destruct (InvalidatedAt t) eqn:Ei; [done|]. split; [|done]. unfold dead_token; cbn.
  intros H x [[_ <-]|[_ Hx]]%lookup_insert_Some; [done|by apply (H x)].
Qed.

Lemma step_keeps j y y' tid uid :
  step j y y' -> store_wf (issued y) (store (svc y)) ->
  store_wf (issued y') (store (svc y')) /\ issued y ⊆ issued y' /\
  (tid ∈ issued y -> dead_token tid (store (svc y)) -> dead_token tid (store (svc y'))) /\
  (uid ∈ issued y -> dead_user uid (store (svc y)) -> dead_user uid (store (svc y'))).
Proof.
  assert (forall ids id s u s', store_wf ids s -> id ∉ ids -> UserID u = id -> AddUser s u = Some s' ->
    store_wf ({[id]} ∪ ids) s' /\ ids ⊆ {[id]} ∪ ids /\
    (tid ∈ ids -> dead_token tid s -> dead_token tid s') /\
    (uid ∈ ids -> dead_user uid s -> dead_user uid s')) as Hadd.
  { intros ids id s u s' Hwf Hid <- Ha. split_and!; [by eapply AddUser_wf|set_solver| |]; intros Hin.
    - revert Ha. unfold AddUser. by destruct (users s !! _); intros [= <-].
    - apply (AddUser_dead s u s' tid uid Ha). set_solver. }
  assert (forall ids id s, store_wf ids s ->
    store_wf ({[id]} ∪ ids) s /\ ids ⊆ {[id]} ∪ ids /\
    (tid ∈ ids -> dead_token tid s -> dead_token tid s) /\
    (uid ∈ ids -> dead_user uid s -> dead_user uid s)) as Hsame.
  { intros ids id s Hwf. split_and!; [eapply store_wf_mono; [|exact Hwf]; set_solver|set_solver|done|done]. }
  intros Hstep Hwf.
  destruct Hstep as [y now id salt gen u p s r Hid H|y now id req s r Hid H|y now tid'|y now id salt req s r Hid H
                    |y uid' s e H|y uid' names s r H|y r]; cbn [svc issued] in *.
  - apply SeedAdmin_store in H as [-> |[hash H]]; [by apply Hsame|].
    eapply Hadd; [done|done| |exact H]; done.
  - apply Login_store in H as [-> |(t & <- & ->)]; [by apply Hsame|].
    split_and!; [by apply SaveToken_wf|set_solver| |done]. unfold dead_token; cbn.
    intros Hin Hd x [[Heq _]|[_ Hx]]%lookup_insert_Some; [set_solver|by apply (Hd x)].
  - destruct (InvalidateToken_keeps (store (svc y)) now tid' tid uid) as [? ?].
    split_and!; [by apply InvalidateToken_wf|done|done|done].
  - apply CreateUser_store in H as [[-> _]|(hash & st & _ & H & ->)]; [by apply Hsame|].
    eapply Hadd; [done|done| |exact H]; done.
  - apply DeleteUser_store in H. rewrite H. destruct (Store_DeleteUser (store (svc y)) uid') as [st b] eqn:Ed.
    destruct (Store_DeleteUser_wf _ _ _ _ _ Hwf Ed) as [Hwf' Hgone]. cbn [fst].
    split_and!; [done|done| |]; intros _.
    + unfold Store_DeleteUser in Ed. destruct (byID _ !! uid'); by injection Ed as <- _.
    + unfold Store_DeleteUser, dead_user in *. destruct (byID _ !! uid'); injection Ed as <- _; [|done].
      cbn. intros Hd. apply lookup_delete_None. by right.
  - apply UpdateUserRoles_store in H. rewrite H. by split_and!.
  - by split_and!.
Qed.

Lemma steps_keep j y y' tid uid :
  rtc (step j) y y' -> store_wf (issued y) (store (svc y)) ->
  store_wf (issued y') (store (svc y')) /\
  (tid ∈ issued y -> dead_token tid (store (svc y)) -> dead_token tid (store (svc y'))) /\
  (uid ∈ issued y -> dead_user uid (store (svc y)) -> dead_user uid (store (svc y'))).
Proof.
  induction 1 as [|y y1 y' Hs _ IH]; [done|]. intros Hwf.
  destruct (step_keeps _ _ _ tid uid Hs Hwf) as (Hwf1 & Hsub & Hd1 & Hd2).
  destruct (IH Hwf1) as (? & H1 & H2). split_and!; [done|..]; intros Hin Hd.
  - apply H1; [set_solver|auto].
  - apply H2; [set_solver|auto].
Qed.

Lemma reachable_wf j r y : rtc (step j) (start r) y -> store_wf (issued y) (store (svc y)).
Proof.
  intros H. apply (steps_keep _ _ _ "" "" H). split; cbn.
  - intros n u. by rewrite !lookup_empty; naive_solver.
  - intros id u. by rewrite lookup_empty.
  - intros id u. by rewrite lookup_empty.
Qed.

(** What it takes for a token to be accepted. *)
Lemma ValidateToken_Ok (s : Service R) now signed sess u :
  ValidateToken s now signed = Ok (sess, u) <->
  exists claims, jwt_Verify now signed = Some claims /\ tokens (store s) !! j_ID claims = Some sess /\
    InvalidatedAt sess = None /\ now <= ExpiresAt sess /\
    byID (store s) !! s_UserID sess = Some u /\ IsActive u = true.
Proof.
  unfold ValidateToken, GetToken, GetByID. split.
  - destruct (jwt_Verify now signed) as [c|]; [|done].
    destruct (tokens (store s) !! j_ID c) as [t|] eqn:Et; [|done].
    destruct (InvalidatedAt t) eqn:Ei; [done|]. destruct (Z.ltb_spec (ExpiresAt t) now); [done|].
    destruct (byID (store s) !! s_UserID t) as [v|] eqn:Ev; [|done].
    destruct (IsActive v) eqn:Ea; [|done]. cbn. intros [= -> ->]. exists c. by split_and!.
  - intros (c & -> & -> & -> & Hexp & -> & ->). by destruct (Z.ltb_spec (ExpiresAt sess) now); [lia|].
Qed.
End Lemmas.

(** ** Properties *)

(** C32: revocation is final. After a logout, its token is never accepted again;
    after a user is deleted, no token is accepted for that user again: whatever
    anybody does next (logins, other users, roles), as long as identifiers are
    not drawn twice. *)
Theorem revocation_is_final `{E : AuthEnv} {R} `{!RBACStore R} j (r0 : R) y now0 tid uid :
  rtc (step j) (start r0) y ->
  (is_Some (GetToken (store (svc y)) tid) -> forall y' now signed sess u,
     rtc (step j) (mkSys (Logout (svc y) now0 tid) (issued y)) y' ->
     ValidateToken (svc y') now signed = Ok (sess, u) -> TokenID sess <> tid) /\
  (is_Some (GetByID (store (svc y)) uid) -> forall y' now signed sess u,
     rtc (step j) (mkSys (fst (DeleteUser (svc y) uid)) (issued y)) y' ->
     ValidateToken (svc y') now signed = Ok (sess, u) -> UserID u <> uid).
Proof.
  intros Hreach%reachable_wf. split.
  - intros [t Ht] y' now signed sess u Hs (c & _ & Hc & Hi & _)%ValidateToken_Ok Heq.
    destruct (steps_keep _ _ _ tid tid Hs) as (Hwf & Hd & _); [by apply InvalidateToken_wf|].
    apply (sw_tokens _ _ Hreach) in Ht as [_ Hin].
    destruct (sw_tokens _ _ Hwf _ _ Hc) as [Hid _]. rewrite <- Hid, Heq in Hc.
    by apply (Hd Hin (InvalidateToken_dead _ _ _) sess).
  - intros [v Hv] y' now signed sess u Hs (c & _ & _ & _ & _ & Hu & _)%ValidateToken_Ok Heq.
    destruct (DeleteUser (svc y) uid) as [s e] eqn:Ed. cbn [fst] in Hs. apply DeleteUser_store in Ed.
    destruct (Store_DeleteUser (store (svc y)) uid) as [st b] eqn:Es. cbn [fst] in Ed.
    destruct (Store_DeleteUser_wf _ _ _ _ _ Hreach Es) as [Hwf1 Hgone].
    destruct (steps_keep _ _ _ uid uid Hs) as (Hwf & _ & Hd); [cbn; by rewrite Ed|].
    apply (sw_byID _ _ Hreach) in Hv as [_ Hin].
    assert (dead_user uid (store (svc y'))) as Hdead by (apply Hd; [done|unfold dead_user; cbn; by rewrite Ed]).
    destruct (sw_byID _ _ Hwf _ _ Hu) as [Hid _]. unfold dead_user in Hdead. congruence.
Qed.

(** ** Roles *)

Lemma elem_of_concat {A} (x : A) ls : x ∈ concat ls <-> exists l, l ∈ ls /\ x ∈ l.
Proof. rewrite list_elem_of_In, in_concat. by setoid_rewrite list_elem_of_In. Qed.

Lemma Forall2_elem_r {A B} (P : A -> B -> Prop) l k y :
  Forall2 P l k -> y ∈ k -> exists x, x ∈ l /\ P x y.
Proof.
  intros Hf (i & Hi)%list_elem_of_lookup. destruct (Forall2_lookup_r _ _ _ _ _ Hf Hi) as (x & Hx & HP).
  exists x. split; [|done]. by eapply list_elem_of_lookup_2.
Qed.

Lemma Forall2_elem_l {A B} (P : A -> B -> Prop) l k x :
  Forall2 P l k -> x ∈ l -> exists y, y ∈ k /\ P x y.
Proof. intros Hf. apply (Forall2_elem_r (flip P)). by apply Forall2_flip. Qed.

Section Roles.
Context `{E : AuthEnv} {R} `{!RBACStore R} `{!RBACLaws R}.

(** The store answers the reads of roles and grants the same. *)
Definition same_definitions (r r' : R) : Prop :=
  (forall x, rb_grants r' x = rb_grants r x) /\ (forall n, GetRoleByName r' n = GetRoleByName r n).

Definition ids_of (l : list RoleModel) : gset string := list_to_set (RoleID <$> l).

Lemma assign_all_spec uid l : forall r r' e,
  rb_wf r -> assign_all r uid l = (r', e) ->
  rb_wf r' /\ same_definitions r r' /\
  (forall v, v <> uid -> rb_assigned r' v = rb_assigned r v) /\
  (e = None -> rb_assigned r' uid = ids_of l ∪ rb_assigned r uid).
Proof.
  induction l as [|x l IH]; intros r r' e Hwf; cbn [assign_all].
  { intros [= <- <-]. split_and!; [done|done|done|]. intros _. unfold ids_of. cbn. set_solver. }
  destruct (AssignRoleToUser r uid (RoleID x)) as [r1 [e1|]] eqn:Ea;
    destruct (law_assign _ _ _ _ _ Hwf Ea) as (Hwf1 & Hg1 & Hn1 & Ha1).
  - intros [= <- <-]. split_and!; [done|done| |done]. intros v Hv. rewrite Ha1.
    by rewrite bool_decide_false by naive_solver.
  - intros H. destruct (IH _ _ _ Hwf1 H) as (Hwf' & [Hg Hn] & Ho & Hset). split_and!; [done| | |].
    + split; intros; [by rewrite Hg|by rewrite Hn].
    + intros v Hv. rewrite Ho by done. rewrite Ha1. by rewrite bool_decide_false by naive_solver.
    + intros He. rewrite Hset by done. rewrite Ha1, bool_decide_true by done.
      unfold ids_of. cbn. set_solver.
Qed.

(** Removals that fail leave the role. *)
Lemma remove_all_spec uid l : forall r,
  rb_wf r ->
  rb_wf (remove_all r uid l) /\ same_definitions r (remove_all r uid l) /\
  (forall v, v <> uid -> rb_assigned (remove_all r uid l) v = rb_assigned r v) /\
  rb_assigned (remove_all r uid l) uid ⊆ rb_assigned r uid /\
  ((forall r x, rb_wf r -> snd (RemoveRoleFromUser r uid x) = None) ->
   rb_assigned (remove_all r uid l) uid = rb_assigned r uid ∖ ids_of l).
Proof.
  induction l as [|x l IH]; intros r Hwf; cbn [remove_all].
  { split_and!; [done|done|done|done|]. intros _. unfold ids_of. cbn. set_solver. }
  destruct (RemoveRoleFromUser r uid (RoleID x)) as [r1 e] eqn:Er. cbn [fst].
  destruct (law_remove _ _ _ _ _ Hwf Er) as (Hwf1 & Hg1 & Hn1 & Ha1).
  destruct (IH r1 Hwf1) as (Hwf' & [Hg Hn] & Ho & Hsub & Hset). split_and!; [done| | | |].
  - split; intros; [by rewrite Hg|by rewrite Hn].
  - intros v Hv. rewrite Ho by done. rewrite Ha1. by rewrite bool_decide_false by naive_solver.
  - rewrite Hsub, Ha1. case_bool_decide; set_solver.
  - intros Hrel. rewrite (Hset Hrel), Ha1. pose proof (Hrel r (RoleID x) Hwf) as Hnone.
    rewrite Er in Hnone. cbn in Hnone. rewrite bool_decide_true by done.
    unfold ids_of. cbn. set_solver.
Qed.

Lemma resolveRoles_Ok (r : R) names l :
  resolveRoles r names = Ok l <-> Forall2 (fun n x => GetRoleByName r n = Some x) names l.
Proof.
  revert l. induction names as [|n names IH]; intros l; cbn [resolveRoles].
  { split; [intros [= <-]; constructor|]. by inversion 1. }
  destruct (GetRoleByName r n) as [x|] eqn:Ex.
  - destruct (resolveRoles r names) as [rest|e] eqn:Er.
    + split.
      * intros [= <-]. constructor; [done|]. by apply IH.
      * inversion 1 as [|? y ? l' Hy Hl]; subst. apply IH in Hl as [= ->]. congruence.
    + split; [done|]. inversion 1 as [|? y ? l' Hy Hl]; subst. by apply IH in Hl.
  - split; [done|]. inversion 1; congruence.
Qed.

(** All of a user's roles are listed, so removing the listed ones removes all. *)
Lemma ids_of_UserRoles (r : R) uid : rb_wf r -> ids_of (UserRoles r uid) = rb_assigned r uid.
Proof.
  intros Hwf. apply set_eq. intros x. unfold ids_of. rewrite elem_of_list_to_set, list_elem_of_fmap.
  rewrite (law_roles r uid x Hwf). naive_solver.
Qed.

Lemma permission_by_roles (r : R) uid l p :
  rb_wf r -> rb_assigned r uid = ids_of l ->
  (UserHasPermission r uid p = true <-> exists x, x ∈ l /\ p ∈ rb_grants r (RoleID x)).
Proof.
  intros Hwf Ha. rewrite (law_permission r uid p Hwf), Ha. unfold ids_of.
  setoid_rewrite elem_of_list_to_set. setoid_rewrite list_elem_of_fmap. naive_solver.
Qed.
End Roles.

(** what the session endpoint shows is what the middleware enforces: the
    permissions of [GetSessionInfo] are, without repetition, the permissions for
    which [RequirePermission] lets the user through; the token's copy of the
    roles plays no part. *)
Theorem session_info_is_enforced {R} `{!RBACStore R, !RBACLaws R} (s : Service R) sess u :
  rb_wf (rbac s) ->
  NoDup (si_Permissions (GetSessionInfo s sess u)) /\
  forall p, p ∈ si_Permissions (GetSessionInfo s sess u) <-> RequirePermission s p (Some u) = Next.
Proof.
  intros Hwf. unfold GetSessionInfo; cbn [si_Permissions]. split; [apply NoDup_elements|]. intros p.
  unfold RequirePermission. rewrite elem_of_elements, elem_of_list_to_set, elem_of_concat.
  setoid_rewrite list_elem_of_fmap.
  assert (UserHasPermission (rbac s) (UserID u) p = true <->
          exists x, x ∈ UserRoles (rbac s) (UserID u) /\ p ∈ RolePermissionNames (rbac s) (RoleID x)) as Hp.
  { rewrite (law_permission _ _ _ Hwf). setoid_rewrite law_names. split.
    - intros (rid & (x & Hx & <-)%(law_roles _ _ _ Hwf) & Hg). eauto.
    - intros (x & Hx & Hg). exists (RoleID x). split; [|done]. apply (law_roles _ _ _ Hwf). eauto. }
  destruct (UserHasPermission (rbac s) (UserID u) p); cbn [negb]; split; try done.
  - intros _. destruct (proj1 Hp eq_refl) as (x & Hx & Hg). eauto.
  - intros (l & (x & -> & Hx) & Hg). by assert (false = true) by (apply Hp; eauto).
Qed.


(** The user a successful creation files. *)
Lemma CreateUser_Ok `{E : AuthEnv} {R} `{!RBACStore R} (s s' : Service R) now id salt req d :
  CreateUser s now id salt req = (s', Ok d) ->
  exists hash roles,
    bcrypt_Generate (c_Password req) salt = Ok hash /\
    resolveRoles (rbac s) (match c_Roles req with [] => ["operator"] | l => l end) = Ok roles /\
    assign_all (rbac s) id roles = (rbac s', None) /\
    users (store s') !! c_Username req = Some (mkUser id (c_Username req) hash now now true) /\
    byID (store s') !! id = Some (mkUser id (c_Username req) hash now now true).
Proof.
  unfold CreateUser. case_bool_decide; [done|]. destruct (_ <? _); [done|].
  destruct (GetByUsername _ _) eqn:Eu; [done|].
  destruct (resolveRoles _ _) as [roles|]; [|done].
  destruct (bcrypt_Generate _ _) as [hash|]; [|done].
  unfold AddUser. cbn [Username]. unfold GetByUsername in Eu. rewrite Eu. cbn [UserID].
  destruct (assign_all _ _ _) as [x [e|]] eqn:Ea; intros [= <- _]. exists hash, roles.
  cbn. rewrite !lookup_insert_eq. by split_and!.
Qed.

Lemma Middleware_accepts `{E : AuthEnv} {R} (s : Service R) now token p :
  token <> "" -> ValidateToken s now token = Ok p -> Middleware s now ("Bearer " +:+ token) = Ok p.
Proof.
  intros Hne HV. unfold Middleware, extractBearer, TrimPrefix.
  rewrite HasPrefix_app, strip_prefix_app. cbn [from_option id]. rewrite bool_decide_false by done. by rewrite HV.
Qed.

(** C33: the way in. Whoever was created with a name and a password logs in with
    them (unless the token cannot be signed) and, until the token expires, the
    token lets exactly those requests through whose permission one of the roles
    asked for grants, ["operator"] when none was asked for; the others are
    answered that the permission is missing. *)
Theorem created_user_can_log_in `{E : AuthEnv} {R} `{!RBACStore R, !RBACLaws R, !AuthLaws E}
    j (s s' : Service R) now id salt req d now' tid s'' res :
  rb_wf (rbac s) -> rb_assigned (rbac s) id = ∅ ->
  CreateUser s now id salt req = (s', Ok d) ->
  Login j s' now' tid (mkLogin (c_Username req) (c_Password req)) = (s'', res) ->
  (exists e, s'' = s' /\ res = Err (ErrOther ("issue token: sign token: " +:+ e))) \/
  exists resp sess u, res = Ok (resp, sess) /\ UserID u = id /\ Username u = c_Username req /\
    forall t perm, t < FromUnix (Unix (now' + j_ttl j)) ->
      Middleware s'' t ("Bearer " +:+ lr_Token resp) = Ok (sess, u) /\
      let granted := exists n x, n ∈ match c_Roles req with [] => ["operator"] | l => l end /\
        GetRoleByName (rbac s) n = Some x /\ perm ∈ rb_grants (rbac s) (RoleID x) in
      (granted /\ guarded s'' t perm ("Bearer " +:+ lr_Token resp) = Ok u \/
       ~ granted /\ guarded s'' t perm ("Bearer " +:+ lr_Token resp)
                      = Err (Forbidden ("missing permission: " +:+ perm))).
Proof.
  intros Hwf Hnew (hash & roles & Hhash & Hroles & Hassign & Hu & Hb)%CreateUser_Ok.
  apply resolveRoles_Ok in Hroles.
  destruct (assign_all_spec _ _ _ _ _ Hwf Hassign) as (Hwf' & [Hg _] & _ & Hset).
  specialize (Hset eq_refl). rewrite Hnew, union_empty_r_L in Hset.
  unfold Login, GetByUsername. cbn [l_Username l_Password]. rewrite Hu. cbn [PasswordHash IsActive].
  rewrite (bcrypt_accepts _ _ _ Hhash). cbn [negb]. unfold Issue. cbn [UserID Username].
  destruct (jwt_Sign _) as [signed|e] eqn:Es; intros [= <- <-]; [right|left; eauto].
  eexists _, _, (mkUser id (c_Username req) hash now now true). split; [reflexivity|].
  split; [done|]. split; [done|]. intros t perm Ht. cbn [lr_Token].
  match goal with |- ?A /\ _ => assert A as HM end.
  { apply Middleware_accepts; [by eapply jwt_nonempty|]. apply ValidateToken_Ok. eexists. split; [by apply (jwt_accepts _ _ _ Es)|]. cbn. rewrite lookup_insert_eq.
    split; [reflexivity|]. cbn. rewrite Hb. split_and!; [done| |done|done].
    unfold FromUnix, Unix, Second, Millisecond in Ht. lia. }
  split; [exact HM|]. match goal with |- (?G /\ _) \/ _ => set (granted := G) end. unfold guarded. rewrite HM. unfold RequirePermission. cbn [rbac UserID].
  assert (UserHasPermission (rbac s') id perm = true <-> granted) as Hperm.
  { rewrite (permission_by_roles _ _ _ _ Hwf' Hset). unfold granted. split.
    - intros (x & Hx & Hp). destruct (Forall2_elem_r _ _ _ _ Hroles Hx) as (n & Hn & Hnx).
      rewrite Hg in Hp. eauto.
    - intros (n & x & Hn & Hnx & Hp). destruct (Forall2_elem_l _ _ _ _ Hroles Hn) as (y & Hy & Hny).
      exists y. rewrite Hg. by assert (y = x) as -> by congruence. }
  destruct (UserHasPermission (rbac s') id perm); cbn [negb].
  - left. split; [by apply Hperm|done].
  - right. split; [|done]. intros H. by apply Hperm in H.
Qed.

(** ** Witnesses

    A toy library, the seeded store, an operator who is created and logs in. *)

Definition jwt_tuple (c : jwtClaims) : list string * (Z * Z) :=
  (j_ID c :: j_Subject c :: j_Roles c, (j_IssuedAt c, j_ExpiresAt c)).
Definition tuple_jwt (t : list string * (Z * Z)) : option jwtClaims :=
  match t with
  | (id :: sub :: roles, (iat, exp)) => Some (mkJwtClaims id sub iat exp roles)
  | _ => None
  end.

#[local] Instance example_env : AuthEnv := {
  bcrypt_Compare h pw := bool_decide (h = "$" +:+ pw);
  bcrypt_Generate pw salt := Ok ("$" +:+ pw);
  jwt_Sign c := Ok ("j" +:+ bits (encode (jwt_tuple c)));
  jwt_Verify now s :=
    match strip_prefix "j" s ≫= (fun b => decode (A := list string * (Z * Z)) (unbits b) ≫= tuple_jwt) with
    | Some c => if now <? FromUnix (j_ExpiresAt c) then Some c else None
    | None => None
    end;
}.

#[local] Instance example_env_laws : AuthLaws example_env.
Proof.
  split.
  - intros pw salt h [= <-]. by apply bool_decide_true.
  - intros c s now [= <-] Hnow. unfold jwt_Verify, example_env. rewrite strip_prefix_app.
    cbn [mbind option_bind]. rewrite unbits_bits, decode_encode. destruct c; cbn in *.
    by destruct (Z.ltb_spec now (FromUnix j_ExpiresAt0)); [|lia].
  - intros c s [= <-]. done.
Qed.

Definition example_rbac : InMemRBACStore :=
  fst (SeedRBAC NewInMemRBACStore ["p1"; "p2"; "p3"; "p4"; "r1"; "r2"] 0).

Lemma example_rbac_wf : rb_wf example_rbac.
Proof.
  split.
  - change (map_Forall (fun k x => RoleID x = k) (roles example_rbac)).
    apply (bool_decide_unpack _). by vm_compute.
  - intros u rid. assert (userRoles example_rbac = ∅) as Hnone by (vm_compute; reflexivity).
    unfold members. by rewrite Hnone, lookup_empty.
Qed.

Definition example_jwt : JWTService := NewJWTService 8.
Definition example_req : CreateUserRequest := mkCreateUser "ann" "correct horse" [].
Definition example_created := CreateUser (mkService NewStore example_rbac) 0 "u1" "salt" example_req.
Definition example_login :=
  Login example_jwt (fst example_created) Second "t1" (mkLogin "ann" "correct horse").

(** With more than an hour left, she may see the cameras and not manage them. *)
Lemma created_user_can_log_in_witness :
  exists resp sess u, snd example_login = Ok (resp, sess) /\ Username u = "ann" /\
    guarded (fst example_login) Hour "camera:view" ("Bearer " +:+ lr_Token resp) = Ok u /\
    Middleware (fst example_login) Hour ("Bearer " +:+ lr_Token resp) = Ok (sess, u).
Proof.
  destruct example_created as [s' [d|e]] eqn:EC; [|vm_compute in EC; discriminate EC].
  destruct example_login as [s'' res] eqn:EL. unfold example_login in EL. rewrite EC in EL.
  pose proof (created_user_can_log_in example_jwt (mkService NewStore example_rbac) s' 0 "u1" "salt"
    example_req d Second "t1" s'' res example_rbac_wf eq_refl EC EL) as [H|H].
  - destruct H as (e & _ & Hres). subst res. vm_compute in EC. injection EC as <- <-.
    vm_compute in EL. discriminate EL.
  - destruct H as (resp & sess & u & -> & _ & Hname & Hall).
    exists resp, sess, u. split; [reflexivity|]. split; [exact Hname|].
    destruct (Hall Hour "camera:view") as [HM [[_ HG]|[HG _]]]; [vm_compute; reflexivity|..].
    + split; [exact HG|exact HM].
    + exfalso. apply HG. exists "operator". eexists. split; [by constructor|]. split; [reflexivity|].
      apply (bool_decide_unpack _). vm_compute. exact I.
Defined.

Lemma example_run s' r' s'' r'' :
  example_created = (s', r') ->
  Login example_jwt s' Second "t1" (mkLogin "ann" "correct horse") = (s'', r'') ->
  rtc (step example_jwt) (start example_rbac) (mkSys s'' ({["t1"]} ∪ ({["u1"]} ∪ ∅))).
Proof.
  intros H1 H2. eapply rtc_l; [|apply rtc_once].
  - exact (step_create _ (start example_rbac) _ _ _ _ _ _ (not_elem_of_empty _) H1).
  - refine (step_login _ (mkSys s' _) _ _ _ _ _ _ H2). cbn [issued start]. clear. set_solver.
Qed.

(** She logs out, and her token is dead. *)
Lemma revocation_is_final_witness :
  exists s resp sess0, example_login = (s, Ok (resp, sess0)) /\
    is_Some (GetToken (store s) "t1") /\
    forall sess u, ValidateToken (E := example_env) (Logout s Hour "t1") Hour (lr_Token resp) = Ok (sess, u) ->
      TokenID sess <> "t1".
Proof.
  assert (bool_decide (is_Some (GetToken (store (fst example_login)) "t1")) && is_ok (snd example_login) = true)
    as Hc by (vm_compute; reflexivity).
  unfold example_login in *. destruct example_created as [s1 r1] eqn:EC. cbn [fst] in Hc |- *.
  destruct (Login example_jwt s1 Second "t1" _) as [s r] eqn:EL. cbn [fst snd] in Hc.
  apply andb_prop in Hc as [Htok%bool_decide_eq_true Hok]. destruct r as [[resp sess0]|e]; [|done].
  exists s, resp, sess0. split; [reflexivity|]. split; [exact Htok|]. intros sess u.
  exact (proj1 (revocation_is_final example_jwt example_rbac _ Hour "t1" "u1" (example_run _ _ _ _ EC EL))
    Htok _ Hour _ sess u (rtc_refl _ _)).
Defined.

Lemma example_created_wf : rb_wf (rbac (fst example_created)).
Proof.
  destruct (assign_all example_rbac "u1" (match resolveRoles example_rbac ["operator"] with
    | Ok l => l | Err _ => [] end)) as [r e] eqn:Ea.
  assert (rbac (fst example_created) = r) as ->.
  { change r with (fst (r, e)). rewrite <- Ea. by vm_compute. }
  by apply (assign_all_spec _ _ _ _ _ example_rbac_wf Ea).
Qed.

Definition example_user : User := mkUser "u1" "ann" "$correct horse" 0 0 true.
Definition example_sess : SessionToken := mkSession "t1" "u1" ["operator"] 0 Hour None.

Lemma session_info_is_enforced_witness :
  let s := fst example_created in
  si_Permissions (GetSessionInfo s example_sess example_user) = ["camera:view"] /\
  RequirePermission s "camera:view" (Some example_user) = Next /\
  RequirePermission s "user:manage" (Some example_user) <> Next.
Proof.
  intros s. assert (si_Permissions (GetSessionInfo s example_sess example_user) = ["camera:view"]) as Hsi
    by (vm_compute; reflexivity).
  destruct (session_info_is_enforced s example_sess example_user example_created_wf) as [_ H].
  split; [exact Hsi|]. split.
  - apply H. rewrite Hsi. constructor.
  - intros Hn. apply H in Hn. rewrite Hsi in Hn. apply list_elem_of_singleton in Hn. discriminate Hn.
Defined.

