(* ===== verification/Camera.v ===== *)
(** * Cameras

    [internal/camera]: the camera aggregate ([model.go]), its validation
    ([validation.go]), the in-memory store ([store.go]), the service
    ([service.go]) and the source adapters ([adapter.go], [manual_adapter.go],
    [onvif_adapter.go]).

    [errors.Join] is the concatenation of lists of errors: the empty list is
    [nil]. The order in which the errors of [Labels] come is the one of
    [map_to_list] (in Go, any). Of two libraries the code calls, [google/uuid]
    and [net/url], the class [CamEnv] has the functions, and [UUIDLaws] the
    facts about the first one. *)

From S2P Require Import Prelude GoStrings.

(** ** Libraries *)

(** What the code reads of a parsed [url.URL]. *)
Record ParsedURL := mkURL { Scheme : string; Host : string; HasUser : bool }.

Class CamEnv := {
  UUID : Type;
  uuid_Parse : string -> option UUID;
  uuid_Version : UUID -> Z;
  uuid_String : UUID -> string;
  url_ParseRequestURI : string -> option ParsedURL;
}.

(** A UUID's canonical text is not empty and parses to the UUID. *)
Class UUIDLaws (E : CamEnv) : Prop := {
  uuid_Parse_String : forall u : UUID, uuid_Parse (uuid_String u) = Some u;
  uuid_String_nonempty : forall u : UUID, uuid_String u <> "";
}.

(** ** Data *)

Definition DefaultConnectTimeoutMS : Z := 5000.
Definition DefaultReadTimeoutMS : Z := 15000.
Definition DefaultProbeCadenceMS : Z := 30000.

Definition EndpointProtocolRTSP : string := "rtsp".
Definition EndpointTransportTCP : string := "tcp".
Definition EndpointTransportUDP : string := "udp".
Definition EndpointTransportAuto : string := "auto".
Definition CredentialSchemeBasic : string := "basic".
Definition CredentialSchemeDigest : string := "digest".
Definition CredentialSchemeNone : string := "none".
Definition CodecHintH264 : string := "h264".
Definition CodecHintH265 : string := "h265".
Definition CodecHintMJPEG : string := "mjpeg".
Definition CodecHintUnknown : string := "unknown".
Definition HealthStatusUnknown : string := "unknown".
Definition HealthStatusOnline : string := "online".
Definition HealthStatusOffline : string := "offline".
Definition HealthStatusDegraded : string := "degraded".

Record CamIdentity := mkIdentity {
  i_Name : string; Description : string; Vendor : string; Model : string; SerialNumber : string }.

Record CamSite := mkSite { SiteID : string; GroupID : string; Labels : gmap string string }.

Record CamEndpoint := mkEndpoint {
  e_Protocol : string; URL : string; Transport : string;
  ConnectTimeoutMS : Z; ReadTimeoutMS : Z }.

Record CamCredentials := mkCredentials {
  c_Scheme : string; c_Username : string; PasswordRef : string; RotatedAt : option Time }.

Record CamCredentialsWrite := mkCredentialsWrite {
  cw_Scheme : string; cw_Username : string; Password : string }.

Record ResolutionHint := mkResolution { Width : Z; Height : Z }.

(** The client-controlled fields of a profile: the whole of [CamProfileWrite]. *)
Record CamProfileWrite := mkProfileWrite {
  p_Name : string; StreamPath : string; p_CodecHint : string;
  p_ResolutionHint : option ResolutionHint; BitrateKbpsHint : option Z;
  FramerateHint : option Z; IsDefault : bool }.

(** [CamProfile] has the same fields, and its id. *)
Record CamProfile := mkProfile { ProfileID : string; fields : CamProfileWrite }.

Record CamCapabilities := mkCapabilities {
  SupportsAudio : bool; SupportsPTZ : bool; SupportsONVIF : bool;
  DiscoveredCodecs : list string; Notes : string }.

Record CamHealthError := mkHealthError { Code : string; Message : string; ObservedAt : Time }.

Record HealthProbePointer := mkProbe {
  ProbeID : string; CadenceMS : Z; LastRunAt : option Time; NextRunAt : option Time;
  OwnerNodeID : string }.

Record CamHealth := mkHealth {
  Status : string; LastSeenAt : option Time; LastError : option CamHealthError;
  Probe : HealthProbePointer; ConsecutiveFailures : Z }.

Record Cam := mkCam {
  CamID : string; TenantID : string; Identity : CamIdentity; Site : CamSite;
  Endpoint : CamEndpoint; Credentials : option CamCredentials; Profiles : list CamProfile;
  Capabilities : CamCapabilities; Health : CamHealth;
  CreatedAt : Time; UpdatedAt : Time; Version : Z }.

Record CamWrite := mkCamWrite {
  w_Identity : CamIdentity; w_Site : CamSite; w_Endpoint : CamEndpoint;
  w_Credentials : option CamCredentialsWrite; w_Profiles : list CamProfileWrite;
  w_Capabilities : CamCapabilities }.

(** One error of a validation. *)
Inductive verr :=
  | NotUUIDv7 (field : string)
  | NotTrimmed (field : string)
  | TooShort (field : string) (min : Z)
  | TooLong (field : string) (max : Z)
  | InvalidValue (field value : string)
  | BadLabelKey (key : string)
  | LongLabel (key : string)
  | DuplicateName (name : string)
  | Msg (m : string).

(** ** Validation *)

(** [if c { errs = append(errs, e) }] *)
Definition when (c : bool) (e : verr) : list verr := if c then [e] else [].

(** [^[a-z0-9._-]{1,63}$] *)
Definition label_byte (a : ascii) : bool :=
  in_range 97 122 a || in_range 48 57 a || in_range 45 46 a || in_range 95 95 a.
Definition labelKeyPattern_MatchString (s : string) : bool :=
  (1 <=? len s) && (len s <=? 63) && all_bytes label_byte s.

Definition Protocol_Valid (p : string) : bool := bool_decide (p = EndpointProtocolRTSP).
Definition Transport_Valid (t : string) : bool :=
  bool_decide (t ∈ [EndpointTransportTCP; EndpointTransportUDP; EndpointTransportAuto]).
Definition Scheme_Valid (s : string) : bool :=
  bool_decide (s ∈ [CredentialSchemeBasic; CredentialSchemeDigest; CredentialSchemeNone]).
Definition CodecHint_Valid (c : string) : bool :=
  bool_decide (c ∈ [CodecHintH264; CodecHintH265; CodecHintMJPEG; CodecHintUnknown]).
Definition HealthStatus_Valid (s : string) : bool :=
  bool_decide (s ∈ [HealthStatusUnknown; HealthStatusOnline; HealthStatusOffline;
                    HealthStatusDegraded]).

Definition outside (lo hi v : Z) : bool := (v <? lo) || (hi <? v).

Definition validateTrimmedString (field value : string) (minRunes maxRunes : Z) : list verr :=
  if negb (bool_decide (value = TrimSpace value)) then [NotTrimmed field]
  else
    let length := RuneCountInString value in
    if length <? minRunes then [TooShort field minRunes]
    else if (0 <? maxRunes) && (maxRunes <? length) then [TooLong field maxRunes]
    else [].

Definition CamIdentity_Validate (i : CamIdentity) : list verr :=
  validateTrimmedString "identity.name" (i_Name i) 1 120 ++
  when (2000 <? RuneCountInString (Description i))
    (Msg "identity.description must be at most 2000 characters").

Definition CamCredentials_Validate (c : CamCredentials) : list verr :=
  if negb (Scheme_Valid (c_Scheme c)) then [InvalidValue "credentials.scheme" (c_Scheme c)]
  else if bool_decide (c_Scheme c = CredentialSchemeNone) then
    when (negb (bool_decide (c_Username c = "")))
      (Msg "credentials.username must be absent when credentials.scheme is none") ++
    when (negb (bool_decide (PasswordRef c = "")))
      (Msg "credentials.password_ref must be absent when credentials.scheme is none")
  else
    validateTrimmedString "credentials.username" (c_Username c) 1 128 ++
    when (bool_decide (PasswordRef c = ""))
      (Msg "credentials.password_ref is required when credentials.scheme is not none").

Definition CamCredentialsWrite_Validate (c : CamCredentialsWrite) : list verr :=
  if negb (Scheme_Valid (cw_Scheme c)) then [InvalidValue "credentials.scheme" (cw_Scheme c)]
  else if bool_decide (cw_Scheme c = CredentialSchemeNone) then
    when (negb (bool_decide (cw_Username c = "")))
      (Msg "credentials.username must be absent when credentials.scheme is none") ++
    when (negb (bool_decide (Password c = "")))
      (Msg "credentials.password must be absent when credentials.scheme is none")
  else
    validateTrimmedString "credentials.username" (cw_Username c) 1 128 ++
    when (bool_decide (Password c = ""))
      (Msg "credentials.password is required when credentials.scheme is not none").

Definition ResolutionHint_Validate (r : ResolutionHint) : list verr :=
  when (outside 1 8192 (Width r)) (Msg "profile.resolution_hint.width must be between 1 and 8192") ++
  when (outside 1 8192 (Height r)) (Msg "profile.resolution_hint.height must be between 1 and 8192").

(** [if p != nil { errs = append(errs, check p) }] *)
Definition opt_errs {A} (o : option A) (check : A -> list verr) : list verr :=
  match o with Some a => check a | None => [] end.

(** The arguments are the fields of the profile. *)
Definition validateProfileFields (p : CamProfileWrite) : list verr :=
  validateTrimmedString "profile.name" (p_Name p) 1 64 ++
  when (negb (bool_decide (StreamPath p = "")) && negb (HasPrefix (StreamPath p) "/"))
    (Msg "profile.stream_path must begin with / when present") ++
  when (negb (CodecHint_Valid (p_CodecHint p)))
    (InvalidValue "profile.codec_hint" (p_CodecHint p)) ++
  opt_errs (p_ResolutionHint p) ResolutionHint_Validate ++
  opt_errs (BitrateKbpsHint p) (fun v => when (outside 1 200000 v)
    (Msg "profile.bitrate_kbps_hint must be between 1 and 200000")) ++
  opt_errs (FramerateHint p) (fun v => when (outside 1 240 v)
    (Msg "profile.framerate_hint must be between 1 and 240")).

Definition CamProfileWrite_Validate (p : CamProfileWrite) : list verr := validateProfileFields p.

Definition CamCapabilities_Validate (c : CamCapabilities) : list verr :=
  when (2000 <? RuneCountInString (Notes c))
    (Msg "capabilities.notes must be at most 2000 characters").

Definition CamHealthError_Validate (e : CamHealthError) : list verr :=
  validateTrimmedString "health.last_error.code" (Code e) 1 0 ++
  validateTrimmedString "health.last_error.message" (Message e) 1 0 ++
  when (IsZero (ObservedAt e)) (Msg "health.last_error.observed_at is required").

(** The loop of [validateProfiles] and [validateWriteProfiles]: the errors, and
    how many profiles are the default; [seen] are the names so far. *)
Fixpoint check_profiles {A} (check : A -> list verr) (write : A -> CamProfileWrite)
    (seen : gset string) (profiles : list A) : list verr * Z :=
  match profiles with
  | [] => ([], 0)
  | p :: ps =>
      let name := p_Name (write p) in
      let '(errs, defaults) := check_profiles check write ({[name]} ∪ seen) ps in
      (check p ++ when (bool_decide (name ∈ seen)) (DuplicateName name) ++ errs,
       if IsDefault (write p) then 1 + defaults else defaults)
  end.

Definition validate_profiles_with {A} (check : A -> list verr) (write : A -> CamProfileWrite)
    (profiles : list A) : list verr :=
  match profiles with
  | [] => [Msg "profiles must contain at least one profile"]
  | _ =>
      let '(errs, defaultCount) := check_profiles check write ∅ profiles in
      errs ++ when (negb (defaultCount =? 1))
                (Msg "profiles must contain exactly one default profile")
  end.

Definition validateWriteProfiles (profiles : list CamProfileWrite) : list verr :=
  validate_profiles_with CamProfileWrite_Validate (fun p => p) profiles.

Section Validation.
Context `{E : CamEnv}.

Definition validateUUIDV7 (field value : string) : list verr :=
  match uuid_Parse value with
  | Some u => when (negb (uuid_Version u =? 7) || negb (bool_decide (uuid_String u = value)))
                (NotUUIDv7 field)
  | None => [NotUUIDv7 field]
  end.

Definition CamSite_Validate (s : CamSite) : list verr :=
  validateUUIDV7 "site.site_id" (SiteID s) ++
  (if bool_decide (GroupID s = "") then [] else validateUUIDV7 "site.group_id" (GroupID s)) ++
  concat ((fun kv =>
    when (negb (labelKeyPattern_MatchString (fst kv))) (BadLabelKey (fst kv)) ++
    when (256 <? RuneCountInString (snd kv)) (LongLabel (fst kv)))
    <$> map_to_list (Labels s)).

Definition CamEndpoint_Validate (e : CamEndpoint) : list verr :=
  when (negb (Protocol_Valid (e_Protocol e))) (InvalidValue "endpoint.protocol" (e_Protocol e)) ++
  match url_ParseRequestURI (URL e) with
  | Some parsed =>
      if bool_decide (Scheme parsed = "") || bool_decide (Host parsed = "")
      then [Msg "endpoint.url must be an absolute URI"]
      else
        when (negb (bool_decide (Scheme parsed = e_Protocol e)))
          (Msg "endpoint.url scheme must equal endpoint.protocol") ++
        when (HasUser parsed) (Msg "endpoint.url must not include userinfo")
  | None => [Msg "endpoint.url must be an absolute URI"]
  end ++
  when (negb (Transport_Valid (Transport e))) (InvalidValue "endpoint.transport" (Transport e)) ++
  when (outside 1000 30000 (ConnectTimeoutMS e))
    (Msg "endpoint.connect_timeout_ms must be between 1000 and 30000") ++
  when (outside 1000 60000 (ReadTimeoutMS e))
    (Msg "endpoint.read_timeout_ms must be between 1000 and 60000").

Definition CamProfile_Validate (p : CamProfile) : list verr :=
  validateUUIDV7 "profile.profile_id" (ProfileID p) ++ validateProfileFields (fields p).

Definition validateProfiles (profiles : list CamProfile) : list verr :=
  validate_profiles_with CamProfile_Validate fields profiles.

Definition HealthProbePointer_Validate (p : HealthProbePointer) : list verr :=
  validateUUIDV7 "health.probe.probe_id" (ProbeID p) ++
  when (outside 5000 600000 (CadenceMS p))
    (Msg "health.probe.cadence_ms must be between 5000 and 600000") ++
  validateTrimmedString "health.probe.owner_node_id" (OwnerNodeID p) 1 0.

Definition CamHealth_Validate (h : CamHealth) : list verr :=
  when (negb (HealthStatus_Valid (Status h))) (InvalidValue "health.status" (Status h)) ++
  opt_errs (LastError h) CamHealthError_Validate ++
  when ((bool_decide (Status h = HealthStatusOffline) ||
         bool_decide (Status h = HealthStatusDegraded)) &&
        bool_decide (LastError h = None))
    (Msg "health.last_error is required when health.status is offline or degraded") ++
  HealthProbePointer_Validate (Probe h) ++
  when (ConsecutiveFailures h <? 0) (Msg "health.consecutive_failures must be non-negative").

Definition Cam_Validate (c : Cam) : list verr :=
  validateUUIDV7 "cam_id" (CamID c) ++
  validateUUIDV7 "tenant_id" (TenantID c) ++
  CamIdentity_Validate (Identity c) ++
  CamSite_Validate (Site c) ++
  CamEndpoint_Validate (Endpoint c) ++
  validateProfiles (Profiles c) ++
  CamCapabilities_Validate (Capabilities c) ++
  CamHealth_Validate (Health c) ++
  opt_errs (Credentials c) CamCredentials_Validate ++
  when (IsZero (CreatedAt c)) (Msg "created_at is required") ++
  when (IsZero (UpdatedAt c)) (Msg "updated_at is required") ++
  when (negb (IsZero (CreatedAt c)) && negb (IsZero (UpdatedAt c)) &&
        (UpdatedAt c <? CreatedAt c)) (Msg "updated_at must not be before created_at") ++
  when (Version c <? 0) (Msg "version must be non-negative").

Definition CamWrite_Validate (c : CamWrite) : list verr :=
  CamIdentity_Validate (w_Identity c) ++
  CamSite_Validate (w_Site c) ++
  CamEndpoint_Validate (w_Endpoint c) ++
  validateWriteProfiles (w_Profiles c) ++
  CamCapabilities_Validate (w_Capabilities c) ++
  opt_errs (w_Credentials c) CamCredentialsWrite_Validate.
End Validation.

(** ** Store

    [cameras] and [creds], both keyed by camera id. A [*Cam] is shared with the
    callers of [Get]; no code of the program writes through it. *)

Record Store := mkStore {
  cameras : gmap string Cam;
  creds : gmap string CamCredentialsWrite;
}.

Definition NewStore : Store := mkStore ∅ ∅.

(** [None]: the error "already exists". *)
Definition Save (s : Store) (cam : Cam) (cw : option CamCredentialsWrite) : option Store :=
  match cameras s !! CamID cam with
  | Some _ => None
  | None => Some (mkStore (<[CamID cam := cam]> (cameras s))
                    (match cw with
                     | Some c => <[CamID cam := c]> (creds s)
                     | None => creds s
                     end))
  end.

Definition Store_Get (s : Store) (camID : string) : option Cam := cameras s !! camID.

Definition Store_List (s : Store) : list Cam := snd <$> map_to_list (cameras s).

Definition Store_Delete (s : Store) (camID : string) : Store * bool :=
  match cameras s !! camID with
  | None => (s, false)
  | Some _ => (mkStore (delete camID (cameras s)) (delete camID (creds s)), true)
  end.

(** ** Service *)

Inductive service_error :=
  | ErrCamNotFound
  | ErrCamValidation (errs : list verr)
  | ErrGenerate (what : string)
  | ErrSave (camID : string).

Definition applyDefaults (body : CamWrite) : CamWrite :=
  let e := w_Endpoint body in
  mkCamWrite (w_Identity body) (w_Site body)
    (mkEndpoint (e_Protocol e) (URL e)
       (if bool_decide (Transport e = "") then EndpointTransportAuto else Transport e)
       (if ConnectTimeoutMS e =? 0 then DefaultConnectTimeoutMS else ConnectTimeoutMS e)
       (if ReadTimeoutMS e =? 0 then DefaultReadTimeoutMS else ReadTimeoutMS e))
    (w_Credentials body) (w_Profiles body) (w_Capabilities body).

(** Credentials of a camera whose id is [camID]: the password becomes a reference. *)
Definition store_credentials (camID : string) (c : CamCredentialsWrite) : CamCredentials :=
  mkCredentials (cw_Scheme c) (cw_Username c) (camID +:+ ":creds") None.

Section Service.
Context `{E : CamEnv}.

(** [s.nodeID] and [s.tenantID]. *)
Variables (nodeID tenantID : string).

(** The results of the calls of [uuid.NewV7] to come; [None] is an error. *)
Definition NewV7 (what : string) (src : list (option UUID))
  : result service_error (string * list (option UUID)) :=
  match src with
  | Some u :: src => Ok (uuid_String u, src)
  | _ => Err (ErrGenerate what)
  end.

Fixpoint make_profiles (ps : list CamProfileWrite) (src : list (option UUID))
  : result service_error (list CamProfile * list (option UUID)) :=
  match ps with
  | [] => Ok ([], src)
  | pw :: ps =>
      let? (pid, src) := NewV7 "profile_id" src in
      let? (rest, src) := make_profiles ps src in
      Ok (mkProfile pid pw :: rest, src)
  end.

Definition new_cam (body : CamWrite) (camID siteID : string) (profiles : list CamProfile)
    (probeID : string) (now : Time) : Cam :=
  mkCam camID tenantID (w_Identity body)
    (mkSite siteID (GroupID (w_Site body)) (Labels (w_Site body)))
    (w_Endpoint body)
    (store_credentials camID <$> w_Credentials body)
    profiles (w_Capabilities body)
    (mkHealth HealthStatusUnknown None None
       (mkProbe probeID DefaultProbeCadenceMS None None nodeID) 0)
    now now 0.

(** [now] is the time of [time.Now()]. *)
Definition Create (s : Store) (src : list (option UUID)) (now : Time) (body : CamWrite)
  : Store * result service_error Cam :=
  let body := applyDefaults body in
  match CamWrite_Validate body with
  | (_ :: _) as errs => (s, Err (ErrCamValidation errs))
  | [] =>
      let built :=
        let? (camID, src) := NewV7 "cam_id" src in
        let? (siteID, src) :=
          (if bool_decide (SiteID (w_Site body) = "") then NewV7 "site_id" src
           else Ok (SiteID (w_Site body), src)) in
        let? (profiles, src) := make_profiles (w_Profiles body) src in
        let? (probeID, _) := NewV7 "probe_id" src in
        Ok (new_cam body camID siteID profiles probeID now) in
      match built with
      | Err e => (s, Err e)
      | Ok cam =>
          match Cam_Validate cam with
          | (_ :: _) as errs => (s, Err (ErrCamValidation errs))
          | [] =>
              match Save s cam (w_Credentials body) with
              | None => (s, Err (ErrSave (CamID cam)))
              | Some s' => (s', Ok cam)
              end
          end
      end
  end.

Definition Service_Get (s : Store) (camID : string) : result service_error Cam :=
  match Store_Get s camID with
  | None => Err ErrCamNotFound
  | Some cam => Ok cam
  end.

Definition Service_List (s : Store) : list Cam := Store_List s.

(** [None]: no error. *)
Definition Service_Delete (s : Store) (camID : string) : Store * option service_error :=
  match Store_Delete s camID with
  | (s, true) => (s, None)
  | (s, false) => (s, Some ErrCamNotFound)
  end.

(** What callers do to the store. *)
Inductive service_step (s : Store) : Store -> Prop :=
  | step_Create src now body s' r :
      Create s src now body = (s', r) -> service_step s s'
  | step_Delete camID s' e :
      Service_Delete s camID = (s', e) -> service_step s s'.
End Service.

(** ** Source adapters *)

Definition QualityMain : string := "main".
Definition QualitySub : string := "sub".

Record DeviceCapabilities := mkDeviceCapabilities { CanPTZ : bool; CanSnapshot : bool }.

Record CameraStream := mkCameraStream {
  CameraID : string;
  Streams : gmap string string;
  s_Name : string;
  Source : string;
  s_Capabilities : DeviceCapabilities;
}.

Definition MainStream (c : CameraStream) : string := default "" (Streams c !! QualityMain).
Definition SubStream (c : CameraStream) : string := default "" (Streams c !! QualitySub).

Record ResolveParams := mkResolveParams {
  r_Endpoint : string; r_Username : string; r_Password : string;
  r_CameraID : string; ManualMain : string; ManualSub : string; NIC : string }.

Inductive adapter_error :=
  | ManualMainRequired
  | CameraIDRequired
  | EndpointRequired
  | ResolveStreams (e : string)
  | NoMainStream (endpoint : string).

(** The map both adapters build. *)
Definition make_streams (main sub : string) : gmap string string :=
  if bool_decide (sub = "") then {[QualityMain := main]}
  else <[QualitySub := sub]> {[QualityMain := main]}.

Definition ManualAdapter_Name : string := "manual".

Definition ManualAdapter_Resolve (params : ResolveParams) : result adapter_error CameraStream :=
  if bool_decide (ManualMain params = "") then Err ManualMainRequired
  else if bool_decide (r_CameraID params = "") then Err CameraIDRequired
  else Ok (mkCameraStream (r_CameraID params)
             (make_streams (ManualMain params) (ManualSub params))
             (r_CameraID params) ManualAdapter_Name (mkDeviceCapabilities false false)).

Definition alnum (a : ascii) : bool :=
  in_range 97 122 a || in_range 65 90 a || in_range 48 57 a.

(** [for _, r := range raw]: one hyphen for each rune that is not an ASCII
    letter or digit; [skip] bytes of the current rune are left. *)
Fixpoint replace_runes (skip : nat) (s : string) : string :=
  match s with
  | EmptyString => ""
  | String a s =>
      match skip with
      | S skip => replace_runes skip s
      | O => if alnum a then String a (replace_runes 0 s)
             else String "-" (replace_runes (rune_len a s - 1) s)
      end
  end.

Definition sanitizeID (raw : string) : string :=
  let raw := TrimPrefix raw "http://" in
  let raw := TrimPrefix raw "https://" in
  let raw := before "/" raw in
  replace_runes 0 raw.

(** What [onvif.GetStreams] returns. *)
Record StreamInfo := mkStreamInfo {
  o_MainStream : string; o_SubStream : string; o_CanPTZ : bool; o_CanSnapshot : bool }.

Definition ONVIFAdapter_Name : string := "onvif".

(** [info] is the result of [onvif.GetStreams] on the endpoint: a device's answer. *)
Definition ONVIFAdapter_Resolve (info : result string StreamInfo) (params : ResolveParams)
  : result adapter_error CameraStream :=
  if bool_decide (r_Endpoint params = "") then Err EndpointRequired
  else match info with
  | Err e => Err (ResolveStreams e)
  | Ok info =>
      if bool_decide (o_MainStream info = "") then Err (NoMainStream (r_Endpoint params))
      else
        let cameraID :=
          if bool_decide (r_CameraID params = "") then "onvif-" +:+ sanitizeID (r_Endpoint params)
          else r_CameraID params in
        Ok (mkCameraStream cameraID (make_streams (o_MainStream info) (o_SubStream info))
              cameraID ONVIFAdapter_Name
              (mkDeviceCapabilities (o_CanPTZ info) (o_CanSnapshot info)))
  end.

(** ** Lemmas *)

Lemma when_nil c e : when c e = [] <-> c = false.
Proof. by destruct c. Qed.

(** The names and the number of defaults of a list of profiles. *)
Definition names (ps : list CamProfileWrite) : list string := p_Name <$> ps.
Definition defaults (ps : list CamProfileWrite) : list CamProfileWrite :=
  filter (fun p => IsDefault p = true) ps.

Lemma check_profiles_spec {A} (check : A -> list verr) (write : A -> CamProfileWrite) ps :
  forall seen,
  (fst (check_profiles check write seen ps) = [] <->
     Forall (fun p => check p = []) ps /\ NoDup (names (write <$> ps)) /\
     forall n, n ∈ names (write <$> ps) -> n ∉ seen) /\
  snd (check_profiles check write seen ps) = Z.of_nat (length (defaults (write <$> ps))).
Proof.
  induction ps as [|p ps IH]; intros seen.
  { split; [|done]. split; [|done]. intros _. split_and!; [constructor|constructor|].
    by intros n ?%elem_of_nil. }
  specialize (IH ({[p_Name (write p)]} ∪ seen)) as [IH1 IH2]. cbn [check_profiles].
  destruct (check_profiles _ _ _ ps) as [errs n]. cbn [fst snd] in *. split.
  - rewrite !app_nil, when_nil, bool_decide_eq_false, IH1, Forall_cons.
    change (names (write <$> p :: ps)) with (p_Name (write p) :: names (write <$> ps)).
    rewrite NoDup_cons. generalize (names (write <$> ps)) as ns. intros ns. split.
    + intros (Hp & Hn & Hf & Hnd & Hd). split_and!; try done.
      * intros Hin. apply (Hd _ Hin). set_solver.
      * intros m [-> |Hm]%elem_of_cons; [done|]. apply Hd in Hm. set_solver.
    + intros ((Hp & Hf) & [Hni Hnd] & Hd). split_and!; try done.
      * apply Hd. constructor.
      * intros m Hm. pose proof (Hd m ltac:(by constructor)). set_solver.
  - rewrite IH2. unfold defaults. rewrite fmap_cons, filter_cons.
    destruct (IsDefault (write p)); [rewrite decide_True by done; cbn; lia|].
    by rewrite decide_False.
Qed.

Lemma validate_profiles_nil {A} (check : A -> list verr) (write : A -> CamProfileWrite) ps :
  validate_profiles_with check write ps = [] <->
  Forall (fun p => check p = []) ps /\ NoDup (names (write <$> ps)) /\
  length (defaults (write <$> ps)) = 1%nat.
Proof.
  destruct ps as [|p ps]; [cbn; naive_solver|]. unfold validate_profiles_with.
  destruct (check_profiles_spec check write (p :: ps) ∅) as [H1 H2].
  destruct (check_profiles _ _ _ _) as [errs n]. cbn [fst snd] in *.
  rewrite app_nil, H1, when_nil, H2, negb_false_iff, Z.eqb_eq. split.
  - intros [(? & ? & _) ?]. split_and!; [done|done|lia].
  - intros (? & ? & ?). split_and!; [done|done|set_solver|lia].
Qed.

Section Lemmas.
Context `{E : CamEnv} `{L : !UUIDLaws E}.
Variables (nodeID tenantID : string).

Lemma validateUUIDV7_fresh f u : uuid_Version u = 7 -> validateUUIDV7 f (uuid_String u) = [].
Proof.
  intros Hu. unfold validateUUIDV7. rewrite uuid_Parse_String, Hu, bool_decide_true by done. done.
Qed.

(** The profiles [Create] makes from enough identifiers. *)
Lemma make_profiles_ok ps : forall us,
  Forall (fun u => uuid_Version u = 7) us -> (length ps <= length us)%nat ->
  exists profiles, make_profiles ps (Some <$> us) = Ok (profiles, Some <$> drop (length ps) us) /\
    fields <$> profiles = ps /\ forall f, Forall (fun p => validateUUIDV7 f (ProfileID p) = []) profiles.
Proof.
  induction ps as [|p ps IH]; intros us Hus Hlen.
  { exists []. by rewrite drop_0. }
  destruct us as [|u us]; [cbn in Hlen; lia|]. apply Forall_cons in Hus as [Hu Hus].
  destruct (IH us Hus ltac:(cbn in Hlen; lia)) as (profiles & E1 & E2 & E3).
  exists (mkProfile (uuid_String u) p :: profiles). cbn [make_profiles fmap list_fmap NewV7].
  change (list_fmap _ _ Some us) with (Some <$> us). rewrite E1. split_and!; [done|cbn; by f_equal|].
  intros f. constructor; [by apply validateUUIDV7_fresh|done].
Qed.

(** What the camera's own validation adds to the one of the request. *)
Lemma new_cam_valid body camID siteID profiles probeID now :
  CamWrite_Validate body = [] ->
  siteID = SiteID (w_Site body) ->
  (forall f, validateUUIDV7 f camID = []) -> (forall f, validateUUIDV7 f probeID = []) ->
  fields <$> profiles = w_Profiles body ->
  (forall f, Forall (fun p => validateUUIDV7 f (ProfileID p) = []) profiles) ->
  Cam_Validate (new_cam nodeID tenantID body camID siteID profiles probeID now) = [] <->
  validateUUIDV7 "tenant_id" tenantID = [] /\
  validateTrimmedString "health.probe.owner_node_id" nodeID 1 0 = [] /\
  IsZero now = false /\
  forall c, w_Credentials body = Some c -> cw_Scheme c <> CredentialSchemeNone.
Proof.
  unfold CamWrite_Validate. rewrite !app_nil. intros (Hi & Hs & He & Hp & Hc & Hcr) ->
    Hcam Hprobe Hf Hids.
  assert (validateProfiles profiles = []) as Hprof.
  { unfold validateProfiles, validateWriteProfiles in *. apply validate_profiles_nil in Hp as (H1 & H2 & H3).
    rewrite list_fmap_id in H2, H3. apply validate_profiles_nil. rewrite Hf. split_and!; [|done|done].
    rewrite <- Hf, Forall_fmap in H1. specialize (Hids "profile.profile_id").
    eapply Forall_impl; [apply Forall_and; split; [exact H1|exact Hids]|]. intros p [Hp1 Hp2]. cbn in *.
    unfold CamProfile_Validate. by rewrite Hp2. }
  assert (CamSite_Validate (mkSite (SiteID (w_Site body)) (GroupID (w_Site body)) (Labels (w_Site body)))
          = []) as Hsite by (destruct (w_Site body); exact Hs).
  assert (opt_errs (store_credentials camID <$> w_Credentials body) CamCredentials_Validate = [] <->
          forall c, w_Credentials body = Some c -> cw_Scheme c <> CredentialSchemeNone) as Hcreds.
  { destruct (w_Credentials body) as [c|]; cbn; [|naive_solver].
    cbn in Hcr. unfold CamCredentialsWrite_Validate, CamCredentials_Validate in *. cbn.
    assert (camID +:+ ":creds" <> "") as Href.
    { intros H%(f_equal String.length). rewrite length_app_string in H. cbn in H. lia. }
    destruct (Scheme_Valid (cw_Scheme c)); [cbn in *|done].
    destruct (decide (cw_Scheme c = CredentialSchemeNone)) as [Hn|Hn].
    - rewrite (bool_decide_true _ Hn), app_nil, !when_nil, !negb_false_iff, !bool_decide_eq_true.
      naive_solver.
    - rewrite (bool_decide_false _ Hn) in *. apply app_nil in Hcr as [-> _].
      rewrite bool_decide_false by done. cbn. naive_solver. }
  unfold Cam_Validate, new_cam; cbn [CamID TenantID Identity Site Endpoint Credentials Profiles
    Capabilities Health CreatedAt UpdatedAt Version].
  rewrite Hi, He, Hprof, Hc, Hcam, Hsite. cbn [app]. rewrite !app_nil, Hcreds, !when_nil.
  rewrite Z.ltb_irrefl, andb_false_r.
  unfold CamHealth_Validate, HealthProbePointer_Validate; cbn [Status LastError Probe
    ConsecutiveFailures ProbeID CadenceMS OwnerNodeID]. rewrite Hprobe.
  rewrite !app_nil, !when_nil. cbn. naive_solver.
Qed.
End Lemmas.

(** ** Properties *)

(** what a valid list of profiles is. The loop over the profiles, with its
    set of names and its counter, finds no error exactly when every profile is
    valid, names are pairwise distinct and one profile, no more, is the default. *)
Theorem validateProfiles_iff `{E : CamEnv} (profiles : list CamProfile) :
  validateProfiles profiles = [] <->
  Forall (fun p => CamProfile_Validate p = []) profiles /\
  NoDup (names (fields <$> profiles)) /\ length (defaults (fields <$> profiles)) = 1%nat.
Proof. apply validate_profiles_nil. Qed.


(** What holds of the store: every camera is filed under its identifier and is
    valid, and the credentials' map has an entry exactly for the cameras with
    credentials, of which the camera shows the scheme, the user and a reference. *)
Record store_inv `{E : CamEnv} (s : Store) : Prop := {
  si_cams : forall id cam, cameras s !! id = Some cam -> CamID cam = id /\ Cam_Validate cam = [];
  si_creds : forall id, (cameras s !! id ≫= Credentials) = store_credentials id <$> creds s !! id;
}.

Lemma store_inv_creds `{E : CamEnv} s id :
  store_inv s -> cameras s !! id = None -> creds s !! id = None.
Proof.
  intros [_ H] Hid. specialize (H id). rewrite Hid in H. cbn in H.
  by destruct (creds s !! id).
Qed.

(** What [Create] leaves behind, whatever the identifiers. *)
Lemma Create_cases `{E : CamEnv} nodeID tenantID s src now body s' r :
  Create nodeID tenantID s src now body = (s', r) ->
  s' = s \/ exists cam, r = Ok cam /\ Cam_Validate cam = [] /\
    Credentials cam = store_credentials (CamID cam) <$> w_Credentials body /\
    Save s cam (w_Credentials body) = Some s'.
Proof.
  unfold Create. destruct (CamWrite_Validate _); [|intros [= <- _]; by left].
  destruct (NewV7 "cam_id" src) as [[camID src1]|]; [|intros [= <- _]; by left].
  destruct (if bool_decide _ then _ else _) as [[siteID src2]|]; [|intros [= <- _]; by left].
  destruct (make_profiles _ _) as [[profiles src3]|]; [|intros [= <- _]; by left].
  destruct (NewV7 "probe_id" _) as [[probeID src4]|]; [|intros [= <- _]; by left].
  destruct (Cam_Validate _) eqn:Ev; [|intros [= <- _]; by left].
  change (w_Credentials (applyDefaults body)) with (w_Credentials body).
  destruct (Save s _ _) as [s2|] eqn:Es; [|intros [= <- _]; by left].
  intros [= <- <-]. right. eexists. split_and!; [done|done|done|exact Es].
Qed.

Lemma store_step_inv `{E : CamEnv} nodeID tenantID s s' :
  service_step nodeID tenantID s s' -> store_inv s -> store_inv s'.
Proof.
  intros [src now body s2 r HC|camID s2 e HD] Hinv.
  - apply Create_cases in HC as [-> |(cam & _ & Hv & Hcr & HS)]; [done|].
    unfold Save in HS. destruct (cameras s !! CamID cam) eqn:Ef; [done|].
    pose proof (store_inv_creds _ _ Hinv Ef) as Hcn. destruct Hinv as [H1 H2].
    injection HS as <-. split; cbn.
    + intros id c [[<- <-]|[_ Hc]]%lookup_insert_Some; [done|by apply H1].
    + intros id. destruct (decide (CamID cam = id)) as [<-|Hne].
      * rewrite lookup_insert_eq. cbn. rewrite Hcr.
        destruct (w_Credentials body); [by rewrite lookup_insert_eq|by rewrite Hcn].
      * rewrite lookup_insert_ne, H2 by done.
        destruct (w_Credentials body); [by rewrite lookup_insert_ne|done].
  - unfold Service_Delete, Store_Delete in HD.
    destruct (cameras s !! camID); [|by injection HD as <- _].
    injection HD as <- _. destruct Hinv as [H1 H2]. split; cbn.
    + intros id x [_ Hc]%lookup_delete_Some. by apply H1.
    + intros id. destruct (decide (camID = id)) as [<-|Hne].
      * by rewrite !lookup_delete_eq.
      * by rewrite !lookup_delete_ne.
Qed.

(** C28: the camera store is sound. After any sequence of creations and
    deletions, successful or not and whatever identifiers are drawn, [Get]
    answers with a valid camera of that identifier, its credentials are the
    reference form of the ones kept apart, and no credentials outlive or precede
    their camera. *)
Theorem camera_store_sound `{E : CamEnv} nodeID tenantID s :
  rtc (service_step nodeID tenantID) NewStore s ->
  (forall id cam, Service_Get s id = Ok cam ->
     CamID cam = id /\ Cam_Validate cam = [] /\
     Credentials cam = store_credentials id <$> creds s !! id) /\
  (forall id, is_Some (creds s !! id) -> is_ok (Service_Get s id) = true) /\
  (forall id s' e, Service_Delete s id = (s', e) ->
     (e = None <-> is_ok (Service_Get s id) = true) /\
     is_ok (Service_Get s' id) = false /\ creds s' !! id = None).
Proof.
  intros Hs. assert (store_inv s) as Hinv.
  { eapply (rtc_ind_r store_inv); [|intros; by eapply store_step_inv|exact Hs].
    split; cbn; [intros id cam H|intros id]; rewrite lookup_empty in *; done. }
  unfold Service_Get, Store_Get. split_and!.
  - intros id cam. destruct (cameras s !! id) eqn:E1; [|done]. intros [= ->].
    destruct (si_cams _ Hinv _ _ E1) as [? ?]. split_and!; [done|done|].
    pose proof (si_creds _ Hinv id) as Hcr. by rewrite E1 in Hcr.
  - intros id [c Hc]. destruct (cameras s !! id) eqn:E1; [done|].
    rewrite (store_inv_creds _ _ Hinv E1) in Hc. done.
  - intros id s' e. unfold Service_Delete, Store_Delete.
    destruct (cameras s !! id) eqn:E1; intros [= <- <-]; cbn.
    + by rewrite !lookup_delete_eq.
    + rewrite E1. split_and!; [done|done|by apply store_inv_creds].
Qed.

(** The scheme "none" is valid in a request and in the model, but [Create]
    gives every camera with credentials a password reference, which the
    validation of the camera then refuses. *)
Lemma scheme_none_rejected `{E : CamEnv} nodeID tenantID s src now body c :
  w_Credentials body = Some c -> cw_Scheme c = CredentialSchemeNone ->
  is_ok (snd (Create nodeID tenantID s src now body)) = false.
Proof.
  intros Hc Hn. destruct (Create nodeID tenantID s src now body) as [s' r] eqn:EC.
  destruct r as [cam|]; [|done]. revert EC. unfold Create.
  destruct (CamWrite_Validate _); [|done].
  destruct (NewV7 "cam_id" src) as [[camID src1]|]; [|done].
  destruct (if bool_decide _ then _ else _) as [[siteID src2]|]; [|done].
  destruct (make_profiles _ _) as [[profiles src3]|]; [|done].
  destruct (NewV7 "probe_id" _) as [[probeID src4]|]; [|done].
  destruct (Cam_Validate _) eqn:Ev; [|done]. intros _. revert Ev.
  unfold Cam_Validate. rewrite !app_nil. intros (_ & _ & _ & _ & _ & _ & _ & _ & Hcr & _).
  revert Hcr. unfold new_cam, applyDefaults. cbn [Credentials w_Credentials]. rewrite Hc.
  cbn [fmap option_fmap option_map opt_errs].
  unfold CamCredentials_Validate, store_credentials. cbn [c_Scheme PasswordRef c_Username].
  rewrite Hn. change (negb (Scheme_Valid CredentialSchemeNone)) with false.
  rewrite bool_decide_true, app_nil, !when_nil, !negb_false_iff, !bool_decide_eq_true by done.
  intros [_ H%(f_equal String.length)]. rewrite length_app_string in H. cbn in H. lia.
Qed.

(** The text of an identifier a URL, a file name or a stream key can hold. *)
Definition key_byte (a : ascii) : bool := alnum a || bool_decide (a = "-"%char).

Lemma replace_runes_safe s : forall skip, all_bytes key_byte (replace_runes skip s) = true.
Proof.
  induction s as [|a s IH]; intros skip; [done|]. cbn [replace_runes].
  destruct skip as [|skip]; [|apply IH].
  destruct (alnum a) eqn:Ea; cbn [all_bytes]; rewrite IH, andb_true_r.
  - unfold key_byte. by rewrite Ea.
  - done.
Qed.

Lemma make_streams_lookup main sub id nm src caps :
  MainStream (mkCameraStream id (make_streams main sub) nm src caps) = main /\
  SubStream (mkCameraStream id (make_streams main sub) nm src caps) = sub.
Proof.
  unfold MainStream, SubStream, make_streams. cbn [Streams].
  case_bool_decide as H; [subst; by vm_compute|]. split; by vm_compute.
Qed.

(** the adapters normalise. A camera stream that the manual or the ONVIF
    adapter resolves has the adapter's name as source, an identifier, used as
    its name, and the main and sub URLs the source gave, the main one not empty;
    the identifier is the caller's when it gave one, and else, for ONVIF, made of
    letters, digits and hyphens. *)
Theorem adapters_normalise info params :
  match ManualAdapter_Resolve params with
  | Ok c => MainStream c = ManualMain params /\ MainStream c <> "" /\
            SubStream c = ManualSub params /\ CameraID c = r_CameraID params /\
            CameraID c <> "" /\ s_Name c = CameraID c /\ Source c = "manual"
  | Err _ => ManualMain params = "" \/ r_CameraID params = ""
  end /\
  match ONVIFAdapter_Resolve info params with
  | Ok c => exists i, info = Ok i /\ MainStream c = o_MainStream i /\ MainStream c <> "" /\
            SubStream c = o_SubStream i /\ s_Name c = CameraID c /\ Source c = "onvif" /\
            (r_CameraID params <> "" -> CameraID c = r_CameraID params) /\
            (r_CameraID params = "" -> all_bytes key_byte (CameraID c) = true /\ CameraID c <> "")
  | Err _ => r_Endpoint params = "" \/ is_ok info = false \/
             exists i, info = Ok i /\ o_MainStream i = ""
  end.
Proof.
  split.
  - unfold ManualAdapter_Resolve. case_bool_decide; [by left|]. case_bool_decide; [by right|].
    pose proof (make_streams_lookup (ManualMain params) (ManualSub params) (r_CameraID params)
      (r_CameraID params) ManualAdapter_Name (mkDeviceCapabilities false false)) as [-> ->].
    split_and!; done.
  - unfold ONVIFAdapter_Resolve. case_bool_decide; [by left|]. destruct info as [i|e]; [|auto].
    case_bool_decide as Hm; [by eauto|]. exists i.
    match goal with |- context [mkCameraStream ?a (make_streams ?m ?u) ?b ?sr ?d] =>
      pose proof (make_streams_lookup m u a b sr d) as [-> ->] end.
    split_and!; try done; cbn [CameraID]; intros Hid.
    + by rewrite bool_decide_false.
    + rewrite bool_decide_true by done. split; [|done].
      unfold sanitizeID. rewrite !app_cons_string. cbn [all_bytes].
      change ("" +:+ ?x) with x. by rewrite replace_runes_safe.
Qed.

(** ** Witnesses *)

(** UUIDs as their text with a tag, and URLs of the form rtsp://host/path. *)
Definition example_env : CamEnv := {|
  UUID := string;
  uuid_Parse s := match strip_prefix "u-" s with Some t => Some t | None => None end;
  uuid_Version t := if HasPrefix t "7" then 7 else 4;
  uuid_String t := "u-" +:+ t;
  url_ParseRequestURI s :=
    match strip_prefix "rtsp://" s with
    | Some rest => Some (mkURL "rtsp" (before "/" rest) (contains_byte "@" rest))
    | None => None
    end;
|}.

#[local] Instance example_laws : UUIDLaws example_env.
Proof.
  split; [|done]. intros u. unfold uuid_Parse, uuid_String, example_env.
  by rewrite strip_prefix_app.
Qed.

Definition example_profiles : list CamProfileWrite :=
  [mkProfileWrite "main" "/main" "h264" (Some (mkResolution 1920 1080)) (Some 4000) (Some 25) true;
   mkProfileWrite "sub" "" "unknown" None None None false].

Definition example_body (scheme : string) : CamWrite :=
  mkCamWrite (mkIdentity "Gate 4" "" "" "" "")
    (mkSite "u-7s" "" {["zone" := "north"]})
    (mkEndpoint "rtsp" "rtsp://10.0.0.9/main" "" 0 0)
    (Some (mkCredentialsWrite scheme "admin" "secret"))
    example_profiles (mkCapabilities false false false [] "").

Definition example_src : list string := ["7b"; "7c"; "7d"].

Definition example_create (s : Store) (id : string) : Store * result service_error Cam :=
  Create (E := example_env) "node-1" "u-7t" s (Some <$> id :: example_src) 5 (example_body "basic").


Lemma camera_store_sound_witness :
  exists s, rtc (service_step (E := example_env) "node-1" "u-7t") NewStore s /\
    (exists cam, Service_Get s "u-7a" = Ok cam) /\
    (forall id cam, Service_Get s id = Ok cam ->
       CamID cam = id /\ Cam_Validate (E := example_env) cam = [] /\
       Credentials cam = store_credentials id <$> creds s !! id).
Proof.
  assert (rtc (service_step (E := example_env) "node-1" "u-7t") NewStore
            (fst (example_create NewStore "7a"))) as Hs.
  { apply rtc_once. eapply (step_Create (E := example_env)). apply surjective_pairing. }
  exists (fst (example_create NewStore "7a")). split; [exact Hs|]. split.
    assert (is_ok (Service_Get (fst (example_create NewStore "7a")) "u-7a") = true) as H
      by (vm_compute; reflexivity).
    destruct (Service_Get _ _) as [cam|e]; [exists cam; reflexivity|discriminate H].
  - exact (proj1 (camera_store_sound (E := example_env) "node-1" "u-7t" _ Hs)).
Defined.
