(* ===== verification/Api.v ===== *)
(** * The HTTP API: routes, guards, users and cameras

    [internal/api/server.go]: the route table of [buildRouter] with the middleware
    of each route; [internal/auth/handlers.go], [internal/api/user_handler.go] and
    [camera_registry.go]: the handlers over the services of Auth.v and Camera.v.
    The router and the JSON library are not part of the repository: a request is
    the call it was routed to, with the body it decodes to, [None] when it does not
    decode. Panics are answered by the recoverer of the router. *)

From S2P Require Import Prelude GoStrings Rbac Auth.
From S2P Require Camera.

(** ** Routes *)

Inductive access :=
  | Anyone
  | Authenticated
  | Needs (perm : string).

Record route := mkRoute { Method : string; Pattern : string; Access : access }.

Definition GET (p : string) (a : access) : route := mkRoute "GET" p a.
Definition POST (p : string) (a : access) : route := mkRoute "POST" p a.
Definition PUT (p : string) (a : access) : route := mkRoute "PUT" p a.
Definition PATCH (p : string) (a : access) : route := mkRoute "PATCH" p a.
Definition DELETE (p : string) (a : access) : route := mkRoute "DELETE" p a.

Definition auth_routes (camSvc : bool) : list route :=
  [POST "/api/v1/auth/login" Anyone;
   GET "/api/v1/auth/session" Authenticated;
   DELETE "/api/v1/auth/session" Authenticated;
   POST "/api/v1/live-sessions" (Needs "camera:view");
   DELETE "/api/v1/live-sessions/{viewer_session_id}" (Needs "camera:view");
   POST "/api/v1/users" (Needs "user:manage");
   GET "/api/v1/users" (Needs "user:manage");
   GET "/api/v1/users/{user_id}" (Needs "user:manage");
   DELETE "/api/v1/users/{user_id}" (Needs "user:manage");
   PATCH "/api/v1/users/{user_id}/roles" (Needs "user:manage")] ++
  if camSvc then
    [POST "/api/v1/cameras" (Needs "camera:manage");
     GET "/api/v1/cameras" (Needs "camera:view");
     GET "/api/v1/cameras/{cam_id}" (Needs "camera:view");
     DELETE "/api/v1/cameras/{cam_id}" (Needs "camera:manage")]
  else [].

Definition RegisterRoutes : list route :=
  [POST "/internal/relay/sessions" Anyone;
   DELETE "/internal/relay/sessions/{relay_session_id}" Anyone].

Definition open_routes : list route :=
  [POST "/internal/on-publish" Anyone; POST "/internal/on-unpublish" Anyone;
   GET "/relay/{key}" Anyone; GET "/relay/live/{protocol}/{relay_session_id}" Anyone;
   GET "/hls/{key}/index.m3u8" Anyone; GET "/hls/{key}/{file}" Anyone;
   GET "/storage/{key}/{file}" Anyone; GET "/pion/webrtc/{key}/demo" Anyone;
   GET "/control/health" Anyone; GET "/control/media-mtx" Anyone; GET "/control/slo" Anyone;
   GET "/streams" Anyone; GET "/streams/{key}" Anyone;
   POST "/streams/{key}/pin" Anyone; DELETE "/streams/{key}/pin" Anyone;
   GET "/live/streams" Anyone; GET "/live/{key}/urls" Anyone; GET "/live/{key}/ws" Anyone;
   POST "/live/{key}/session" Anyone; POST "/live/session/reattach" Anyone;
   POST "/pion/webrtc/{key}/offer" Anyone; DELETE "/pion/webrtc/session/{id}" Anyone;
   GET "/playback/streams" Anyone; GET "/playback/{key}/recordings" Anyone;
   GET "/playback/{key}/timespans" Anyone; GET "/nodes" Anyone;
   GET "/monitor/priority" Anyone; PUT "/monitor/weights" Anyone;
   GET "/onvif/discover" Anyone; GET "/onvif/info" Anyone; GET "/onvif/snapshot" Anyone;
   POST "/onvif/ptz" Anyone; POST "/onvif/reboot" Anyone; POST "/onvif/resolve" Anyone;
   POST "/camera/resolve" Anyone].

(** The arguments tell which of the services the server was given. *)
Definition buildRouter (authSvc camSvc relayManager : bool) : list route :=
  (if authSvc then auth_routes camSvc else []) ++
  (if relayManager then RegisterRoutes else []) ++ open_routes.

Definition find_route (method pattern : string) (rs : list route) : option access :=
  Access <$> head (filter (fun r => Method r = method /\ Pattern r = pattern) rs).

(** ** Answers *)

Inductive answer :=
  | JSONError (status : Z) (code message trace : string)  (** [writeJSONError] *)
  | AuthError (status : Z) (code message : string)        (** [writeAuthError] *)
  | ValidationError (status : Z) (errs : list Camera.verr) (trace : string)
  | LoggedIn (status : Z) (r : LoginResponse)
  | SessionIs (status : Z) (i : SessionInfo)
  | UserIs (status : Z) (d : UserDetail)
  | UsersAre (status : Z) (l : list UserDetail)
  | CamIs (status : Z) (c : Camera.Cam)
  | CamsAre (status : Z) (l : list Camera.Cam)
  | Empty (status : Z)                                     (** a status alone *)
  | Panicked (status : Z).

Definition status (a : answer) : Z :=
  match a with
  | JSONError s _ _ _ | AuthError s _ _ | ValidationError s _ _ | LoggedIn s _ | SessionIs s _
  | UserIs s _ | UsersAre s _ | CamIs s _ | CamsAre s _ | Empty s | Panicked s => s
  end.

(** [err.Error()] *)
Definition auth_error_text (e : auth_error) : string :=
  match e with
  | ErrInvalidCredentials "" => "invalid_credentials"
  | ErrInvalidCredentials detail => "invalid_credentials: " +:+ detail
  | ErrAccountDisabled => "account_disabled"
  | ErrUserNotFound => "user_not_found"
  | ErrUserAlreadyExists => "user_already_exists"
  | ErrRoleNotFound name => "role_not_found: " +:+ quote name
  | ErrStoreUserExists username => "user " +:+ quote username +:+ " already exists"
  | ErrOther e => e
  | NilPointer => ""
  end.

(** The text of the failed generator, which follows, is left out. *)
Definition cam_error_text (e : Camera.service_error) : string :=
  match e with
  | Camera.ErrCamNotFound => "camera not found"
  | Camera.ErrCamValidation _ => "camera validation failed: "
  | Camera.ErrGenerate what => "camera: generate " +:+ what +:+ ": "
  | Camera.ErrSave id => "camera: save: camera " +:+ quote id +:+ " already exists"
  end.

Definition bad_json (trace : string) : answer := JSONError 400 "bad_request" "invalid JSON" trace.

Section Handlers.
Context `{E : AuthEnv} {R} `{!RBACStore R} `{CE : Camera.CamEnv}.
Variables (j : JWTService) (nodeID tenantID : string).

(** ** Authentication *)

(** [switch err { case ErrInvalidCredentials: … }] compares with [==]. *)
Definition Login_handler (s : Service R) (now : Time) (tokenID : string) (body : option LoginRequest)
  : Service R * answer :=
  match body with
  | None => (s, AuthError 400 "bad_request" "invalid JSON body")
  | Some req =>
      if bool_decide (l_Username req = "") || bool_decide (l_Password req = "")
      then (s, AuthError 400 "bad_request" "username and password required")
      else match Login j s now tokenID req with
      | (s, Ok (resp, _)) => (s, LoggedIn 200 resp)
      | (s, Err (ErrInvalidCredentials "")) =>
          (s, AuthError 401 "invalid_credentials" "invalid username or password")
      | (s, Err ErrAccountDisabled) => (s, AuthError 403 "account_disabled" "account is disabled")
      | (s, Err NilPointer) => (s, Panicked 500)
      | (s, Err _) => (s, AuthError 500 "internal_error" "login failed")
      end
  end.

Definition Logout_handler (s : Service R) (now : Time) (sess : option SessionToken) : Service R * answer :=
  match sess with
  | None => (s, Empty 204)
  | Some sess => (Logout s now (TokenID sess), Empty 204)
  end.

(** A context without a session gives nil pointers. *)
Definition SessionInfo_handler (s : Service R) (caller : option (SessionToken * User)) : answer :=
  match caller with
  | None => Panicked 500
  | Some (sess, u) => SessionIs 200 (GetSessionInfo s sess u)
  end.

(** ** Users *)

Definition createUser (s : Service R) (now : Time) (id salt trace : string) (body : option CreateUserRequest)
  : Service R * answer :=
  match body with
  | None => (s, bad_json trace)
  | Some req =>
      match CreateUser s now id salt req with
      | (s, Ok detail) => (s, UserIs 201 detail)
      | (s, Err e) =>
          (s, match e with
              | ErrUserAlreadyExists => JSONError 409 "conflict" "username already exists" trace
              | ErrRoleNotFound _ => JSONError 400 "bad_request" (auth_error_text e) trace
              | ErrInvalidCredentials _ => JSONError 400 "bad_request" (auth_error_text e) trace
              | _ => JSONError 500 "internal_error" (auth_error_text e) trace
              end)
      end
  end.

Definition listUsers (s : Service R) : answer := UsersAre 200 (ListAllUsers s).

Definition user_error (e : auth_error) (trace : string) : answer :=
  match e with
  | ErrUserNotFound => JSONError 404 "not_found" "user not found" trace
  | _ => JSONError 500 "internal_error" (auth_error_text e) trace
  end.

Definition getUser (s : Service R) (trace userID : string) : answer :=
  match GetUser s userID with
  | Err e => user_error e trace
  | Ok detail => UserIs 200 detail
  end.

Definition deleteUser (s : Service R) (trace userID : string) : Service R * answer :=
  match DeleteUser s userID with
  | (s, Some e) => (s, user_error e trace)
  | (s, None) => (s, Empty 204)
  end.

Definition updateUserRoles (s : Service R) (trace userID : string) (body : option (list string))
  : Service R * answer :=
  match body with
  | None => (s, bad_json trace)
  | Some [] => (s, JSONError 400 "bad_request" "roles must not be empty" trace)
  | Some roles =>
      match UpdateUserRoles s userID roles with
      | (s, Ok detail) => (s, UserIs 200 detail)
      | (s, Err e) =>
          (s, match e with
              | ErrUserNotFound => JSONError 404 "not_found" "user not found" trace
              | ErrRoleNotFound _ => JSONError 400 "bad_request" (auth_error_text e) trace
              | _ => JSONError 500 "internal_error" (auth_error_text e) trace
              end)
      end
  end.

(** ** Cameras *)

Definition createCamera (s : Camera.Store) (src : list (option Camera.UUID)) (now : Time) (trace : string)
    (body : option Camera.CamWrite) : Camera.Store * answer :=
  match body with
  | None => (s, bad_json trace)
  | Some body =>
      match Camera.Create nodeID tenantID s src now body with
      | (s, Ok cam) => (s, CamIs 201 cam)
      | (s, Err (Camera.ErrCamValidation errs)) => (s, ValidationError 400 errs trace)
      | (s, Err e) => (s, JSONError 500 "internal_error" (cam_error_text e) trace)
      end
  end.

Definition listCameras (s : Camera.Store) : answer := CamsAre 200 (Camera.Service_List s).

Definition cam_error (e : Camera.service_error) (trace : string) : answer :=
  match e with
  | Camera.ErrCamNotFound => JSONError 404 "not_found" "camera not found" trace
  | _ => JSONError 500 "internal_error" (cam_error_text e) trace
  end.

Definition getCamera (s : Camera.Store) (trace camID : string) : answer :=
  match Camera.Service_Get s camID with
  | Err e => cam_error e trace
  | Ok cam => CamIs 200 cam
  end.

Definition deleteCamera (s : Camera.Store) (trace camID : string) : Camera.Store * answer :=
  match Camera.Service_Delete s camID with
  | (s, Some e) => (s, cam_error e trace)
  | (s, None) => (s, Empty 204)
  end.

(** ** Dispatch *)

Inductive call :=
  | CallLogin (body : option LoginRequest)
  | CallSessionInfo
  | CallLogout
  | CallCreateUser (body : option CreateUserRequest)
  | CallListUsers
  | CallGetUser (userID : string)
  | CallDeleteUser (userID : string)
  | CallUpdateUserRoles (userID : string) (body : option (list string))
  | CallCreateCamera (body : option Camera.CamWrite)
  | CallListCameras
  | CallGetCamera (camID : string)
  | CallDeleteCamera (camID : string).

(** The method and pattern [buildRouter] registers the handler under. *)
Definition endpoint (c : call) : string * string :=
  match c with
  | CallLogin _ => ("POST", "/api/v1/auth/login")
  | CallSessionInfo => ("GET", "/api/v1/auth/session")
  | CallLogout => ("DELETE", "/api/v1/auth/session")
  | CallCreateUser _ => ("POST", "/api/v1/users")
  | CallListUsers => ("GET", "/api/v1/users")
  | CallGetUser _ => ("GET", "/api/v1/users/{user_id}")
  | CallDeleteUser _ => ("DELETE", "/api/v1/users/{user_id}")
  | CallUpdateUserRoles _ _ => ("PATCH", "/api/v1/users/{user_id}/roles")
  | CallCreateCamera _ => ("POST", "/api/v1/cameras")
  | CallListCameras => ("GET", "/api/v1/cameras")
  | CallGetCamera _ => ("GET", "/api/v1/cameras/{cam_id}")
  | CallDeleteCamera _ => ("DELETE", "/api/v1/cameras/{cam_id}")
  end.

Record Api := mkApi { auth : Service R; cams : Camera.Store }.

(** [fresh]: the identifier and the salt drawn for the request; [uuids] the ones
    the camera service draws. *)
Record Request := mkRequest {
  Authorization : string; Trace : string; At : Time;
  fresh_id : string; salt : string; uuids : list (option Camera.UUID) }.

Definition on_auth (st : Api) (x : Service R * answer) : Api * answer := (mkApi (fst x) (cams st), snd x).
Definition on_cams (st : Api) (x : Camera.Store * answer) : Api * answer := (mkApi (auth st) (fst x), snd x).

Definition handle (st : Api) (rq : Request) (caller : option (SessionToken * User)) (c : call) : Api * answer :=
  let s := auth st in
  match c with
  | CallLogin body => on_auth st (Login_handler s (At rq) (fresh_id rq) body)
  | CallSessionInfo => (st, SessionInfo_handler s caller)
  | CallLogout => on_auth st (Logout_handler s (At rq) (fst <$> caller))
  | CallCreateUser body => on_auth st (createUser s (At rq) (fresh_id rq) (salt rq) (Trace rq) body)
  | CallListUsers => (st, listUsers s)
  | CallGetUser uid => (st, getUser s (Trace rq) uid)
  | CallDeleteUser uid => on_auth st (deleteUser s (Trace rq) uid)
  | CallUpdateUserRoles uid body => on_auth st (updateUserRoles s (Trace rq) uid body)
  | CallCreateCamera body => on_cams st (createCamera (cams st) (uuids rq) (At rq) (Trace rq) body)
  | CallListCameras => (st, listCameras (cams st))
  | CallGetCamera id => (st, getCamera (cams st) (Trace rq) id)
  | CallDeleteCamera id => on_cams st (deleteCamera (cams st) (Trace rq) id)
  end.

(** The answers of the middleware; [Next] is not one. *)
Definition refuse (v : verdict) : answer :=
  match v with
  | Unauthorized m => AuthError 401 "unauthorized" m
  | Forbidden m => AuthError 403 "forbidden" m
  | Next => Empty 200
  end.

(** A request through the middleware of its route. *)
Definition serve (rs : list route) (st : Api) (rq : Request) (c : call) : Api * answer :=
  match find_route (fst (endpoint c)) (snd (endpoint c)) rs with
  | None => (st, Empty 404)
  | Some Anyone => handle st rq None c
  | Some Authenticated =>
      match Middleware (auth st) (At rq) (Authorization rq) with
      | Err v => (st, refuse v)
      | Ok p => handle st rq (Some p) c
      end
  | Some (Needs perm) =>
      match Middleware (auth st) (At rq) (Authorization rq) with
      | Err v => (st, refuse v)
      | Ok p =>
          match RequirePermission (auth st) perm (Some (snd p)) with
          | Next => handle st rq (Some p) c
          | v => (st, refuse v)
          end
      end
  end.
End Handlers.

(** ** Lemmas *)

Section Lemmas.
Context `{E : AuthEnv} {R} `{!RBACStore R} `{CE : Camera.CamEnv}.
Context (j : JWTService) (nodeID tenantID : string).

(** A request behind a permission is refused, and changes nothing, or the caller
    has it. *)
Lemma serve_needs rs st rq c perm st' a :
  find_route (fst (endpoint c)) (snd (endpoint c)) rs = Some (Needs perm) ->
  serve j nodeID tenantID rs st rq c = (st', a) ->
  (st' = st /\ exists v, guarded (auth st) (At rq) perm (Authorization rq) = Err v /\ a = refuse v) \/
  exists p, guarded (auth st) (At rq) perm (Authorization rq) = Ok (snd p) /\
    handle j nodeID tenantID st rq (Some p) c = (st', a).
Proof.
  intros Hr. unfold serve, guarded. rewrite Hr.
  destruct (Middleware _ _ _) as [[sess u]|v]; [|intros [= <- <-]; left; eauto]. cbn [snd].
  destruct (RequirePermission _ perm (Some u)) eqn:Ep.
  - intros [= <- <-]. left. eauto.
  - intros [= <- <-]. left. eauto.
  - right. by exists (sess, u).
Qed.

Lemma serve_authenticated rs st rq c st' a :
  find_route (fst (endpoint c)) (snd (endpoint c)) rs = Some Authenticated ->
  serve j nodeID tenantID rs st rq c = (st', a) ->
  (st' = st /\ exists v, Middleware (auth st) (At rq) (Authorization rq) = Err v /\ a = refuse v) \/
  exists p, Middleware (auth st) (At rq) (Authorization rq) = Ok p /\
    handle j nodeID tenantID st rq (Some p) c = (st', a).
Proof.
  intros Hr. unfold serve. rewrite Hr.
  destruct (Middleware _ _ _) as [p|v]; [|intros [= <- <-]; left; eauto]. right. eauto.
Qed.

(** The guard of each call in the table. *)
Definition guard_of (c : call) : access :=
  match c with
  | CallLogin _ => Anyone
  | CallSessionInfo | CallLogout => Authenticated
  | CallCreateUser _ | CallListUsers | CallGetUser _ | CallDeleteUser _ | CallUpdateUserRoles _ _ =>
      Needs "user:manage"
  | CallCreateCamera _ | CallDeleteCamera _ => Needs "camera:manage"
  | CallListCameras | CallGetCamera _ => Needs "camera:view"
  end.

Lemma route_of_call relay c :
  find_route (fst (endpoint c)) (snd (endpoint c)) (buildRouter true true relay) = Some (guard_of c).
Proof. by destruct relay, c; vm_compute. Qed.

Lemma refuse_status s now perm authz (v : verdict) :
  guarded (R := R) s now perm authz = Err v -> status (refuse v) = 401 \/ status (refuse v) = 403.
Proof.
  unfold guarded, Middleware. case_bool_decide; [intros [= <-]; by left|].
  destruct (ValidateToken _ _ _) as [[sess u]|e]; [|intros [= <-]; by left]. unfold RequirePermission.
  destruct (negb _); [|done]. intros [= <-]. by right.
Qed.

Lemma Middleware_verdict (s : Service R) now authz v :
  Middleware s now authz = Err v -> exists m, v = Unauthorized m.
Proof.
  unfold Middleware. case_bool_decide; [intros [= <-]; eauto|].
  destruct (ValidateToken _ _ _); [done|]. intros [= <-]. eauto.
Qed.

Lemma api_eta (st : Api (R := R)) : mkApi (auth st) (cams st) = st.
Proof. by destruct st. Qed.
Lemma AddUser_tokens s u s' : AddUser s u = Some s' -> tokens s' = tokens s.
Proof. unfold AddUser. destruct (users s !! _); [done|]. by intros [= <-]. Qed.

Lemma Login_effect (s : Service R) now id req s' r :
  Login j s now id req = (s', r) ->
  (s' = s /\ is_ok r = false) \/
  exists u t, GetByUsername (store s) (l_Username req) = Some u /\
    bcrypt_Compare (PasswordHash u) (l_Password req) = true /\ IsActive u = true /\
    TokenID t = id /\ s' = mkService (SaveToken (store s) t) (rbac s) /\ is_ok r = true.
Proof.
  unfold Login. destruct (bcrypt_Compare _ _) eqn:Eb; cbn [negb]; [|intros [= <- <-]; by left].
  destruct (GetByUsername _ _) as [u|]; [|intros [= <- <-]; by left].
  destruct (IsActive u) eqn:Ea; cbn [negb]; [|intros [= <- <-]; by left]. unfold Issue.
  destruct (jwt_Sign _); intros [= <- <-]; [|by left]. right. exists u. eexists.
  do 3 (split; [done|]). split; [|split; reflexivity]. done.
Qed.

(** What each call may change. *)
Definition effect (st : Api (R := R)) (rq : Request) (caller : option (SessionToken * User)) (c : call)
    (st' : Api (R := R)) : Prop :=
  match c with
  | CallLogin body =>
      st' = st \/ exists req u t, body = Some req /\
        GetByUsername (store (auth st)) (l_Username req) = Some u /\
        bcrypt_Compare (PasswordHash u) (l_Password req) = true /\ IsActive u = true /\
        TokenID t = fresh_id rq /\
        st' = mkApi (mkService (SaveToken (store (auth st)) t) (rbac (auth st))) (cams st)
  | CallLogout =>
      st' = st \/ exists p, caller = Some p /\
        st' = mkApi (Logout (auth st) (At rq) (TokenID (fst p))) (cams st)
  | CallCreateUser _ | CallDeleteUser _ | CallUpdateUserRoles _ _ =>
      cams st' = cams st /\ tokens (store (auth st')) = tokens (store (auth st))
  | CallCreateCamera _ | CallDeleteCamera _ => auth st' = auth st
  | _ => st' = st
  end.

Lemma handle_effect st rq caller c st' a :
  handle j nodeID tenantID st rq caller c = (st', a) -> effect st rq caller c st'.
Proof.
  destruct c as [body| | |body| |uid|uid|uid body|body| |id|id]; cbn [handle effect]; try by intros [= <- _].
  - unfold on_auth, Login_handler. destruct body as [req|]; [|intros [= <- _]; left; apply api_eta].
    destruct (_ || _); [intros [= <- _]; left; apply api_eta|].
    destruct (Login j (auth st) (At rq) (fresh_id rq) req) as [s r] eqn:EL.
    assert (forall x : Service R * answer, fst x = s ->
      (mkApi (fst x) (cams st), snd x) = (st', a) -> st' = mkApi s (cams st)) as Hx
      by (by intros ? <- [= <- _]).
    intros H. apply Hx in H; [|by repeat case_match]. subst st'.
    apply Login_effect in EL as [[-> _]|(u & t & Hu & Hb & Ha & Ht & -> & _)]; [left; apply api_eta|].
    right. exists req, u, t. by split_and!.
  - unfold on_auth, Logout_handler. destruct caller as [p|]; intros [= <- _]; [|left; apply api_eta].
    right. by exists p.
  - unfold on_auth, createUser. intros [= <- _]. cbn. split; [done|]. destruct body as [req|]; [|done].
    destruct (CreateUser _ _ _ _ _) as [s r] eqn:EC. apply CreateUser_store in EC.
    assert (tokens (store s) = tokens (store (auth st))) as <-; [|by repeat case_match].
    destruct EC as [[-> _]|(h & x & _ & Ha & ->)]; [done|by apply AddUser_tokens in Ha].
  - unfold on_auth, deleteUser. intros [= <- _]. cbn. split; [done|].
    destruct (DeleteUser _ _) as [s r] eqn:ED. apply DeleteUser_store in ED.
    assert (tokens (store s) = tokens (store (auth st))) as <-; [|by repeat case_match].
    rewrite ED. unfold Store_DeleteUser. by case_match.
  - unfold on_auth, updateUserRoles. intros [= <- _]. cbn. split; [done|].
    destruct body as [[|x l]|]; [done| |done].
    destruct (UpdateUserRoles _ _ _) as [s r] eqn:EU. apply UpdateUserRoles_store in EU.
    rewrite <- EU. by repeat case_match.
Qed.

Lemma serve_effect relay st rq c st' a :
  serve j nodeID tenantID (buildRouter true true relay) st rq c = (st', a) ->
  st' = st \/ exists caller, effect st rq caller c st' /\
    (forall p, c = CallLogout -> caller = Some p -> Middleware (auth st) (At rq) (Authorization rq) = Ok p).
Proof.
  intros HS. destruct (guard_of c) as [| |perm] eqn:Eg;
    pose proof (eq_trans (route_of_call relay c) (f_equal Some Eg)) as Hr.
  - revert HS. unfold serve. rewrite Hr. intros HS%handle_effect. right. exists None. by split.
  - destruct (serve_authenticated _ _ _ _ _ _ Hr HS) as [[-> _]|(p & Hp & HS'%handle_effect)]; [by left|].
    right. exists (Some p). split; [done|]. by intros ? _ [= <-].
  - destruct (serve_needs _ _ _ _ _ _ _ Hr HS) as [[-> _]|(p & _ & HS'%handle_effect)]; [by left|].
    right. exists (Some p). split; [done|]. intros q ->. discriminate Eg.
Qed.

Lemma CreateUser_detail (s s' : Service R) now id salt req d :
  CreateUser s now id salt req = (s', Ok d) ->
  exists u, users (store s') !! c_Username req = Some u /\ byID (store s') !! id = Some u /\
    Username u = c_Username req /\ c_Username req <> "" /\ d = userDetail s' u.
Proof.
  intros HC. destruct (CreateUser_Ok _ _ _ _ _ _ _ HC) as (hash & roles & Hh & Hr & Ha & Hu & Hb).
  eexists. split_and!; [exact Hu|exact Hb|done| |].
  - revert HC. unfold CreateUser. by case_bool_decide.
  - revert HC. unfold CreateUser. case_bool_decide; [done|]. destruct (_ <? _); [done|].
    destruct (GetByUsername _ _); [done|]. rewrite Hr, Hh.
    destruct (AddUser _ _); [|done]. rewrite Ha. by intros [= <- <-].
Qed.

(** Only an error of the store on an assignment leaves traces. *)
Lemma assign_all_error uid l : forall (r r' : R) e,
  assign_all r uid l = (r', Some e) -> exists m, e = ErrOther m.
Proof.
  induction l as [|x l IH]; intros r r' e; [done|]. cbn [assign_all].
  destruct (AssignRoleToUser r uid (RoleID x)) as [r1 [e1|]]; [intros [= _ <-]; eauto|apply IH].
Qed.

Lemma CreateUser_error (s s' : Service R) now id salt req e :
  CreateUser s now id salt req = (s', Err e) -> s' = s \/ exists m, e = ErrOther m.
Proof.
  unfold CreateUser. case_bool_decide; [intros [= <- _]; by left|].
  destruct (_ <? _); [intros [= <- _]; by left|].
  destruct (GetByUsername _ _); [intros [= <- _]; by left|].
  destruct (resolveRoles _ _); [|intros [= <- _]; by left].
  destruct (bcrypt_Generate _ _); [|intros [= <- _]; by left].
  destruct (AddUser _ _); [|intros [= <- _]; by left].
  destruct (assign_all _ _ _) as [x [e'|]] eqn:Ea; [|done]. intros [= _ <-]. right. by eapply assign_all_error.
Qed.

Lemma UpdateUserRoles_error (s s' : Service R) uid names e :
  UpdateUserRoles s uid names = (s', Err e) -> s' = s \/ exists m, e = ErrOther m.
Proof.
  unfold UpdateUserRoles. destruct (GetByID _ _); [|intros [= <- _]; by left].
  destruct (resolveRoles _ _); [|intros [= <- _]; by left].
  destruct (assign_all _ _ _) as [x [e'|]] eqn:Ea; [|done]. intros [= _ <-]. right. by eapply assign_all_error.
Qed.

Lemma Create_error s s' src now body e :
  Camera.Create nodeID tenantID s src now body = (s', Err e) -> s' = s.
Proof.
  unfold Camera.Create. cbv zeta. destruct (Camera.CamWrite_Validate _); [|by intros [= <- _]].
  match goal with |- context [match ?b with Ok _ => _ | Err _ => _ end] => destruct b as [cam|] end;
    [|by intros [= <- _]].
  destruct (Camera.Cam_Validate cam); [|by intros [= <- _]]. by destruct (Camera.Save _ _ _); intros [= <- _].
Qed.

Definition statuses : list Z := [200; 201; 204; 400; 401; 403; 404; 409; 500].

(** The status of an answer and what a 4xx one leaves. *)
Definition answered (c : call) (st : Api (R := R)) (st' : Api (R := R)) (a : answer) : Prop :=
  status a ∈ statuses /\
  (400 <= status a < 500 -> st' = st \/
     exists uid, c = CallDeleteUser uid /\ GetByID (store (auth st)) uid = None /\ status a = 404 /\
       st' = mkApi (mkService (store (auth st))
                      (remove_all (rbac (auth st)) uid (UserRoles (rbac (auth st)) uid))) (cams st)).

Ltac solve_status := cbn [status snd]; unfold statuses; set_solver.

(** A handler of users answers 4xx only when its service is as it was. *)
Lemma answered_auth c st x st' a :
  on_auth st x = (st', a) -> status (snd x) ∈ statuses ->
  fst x = auth st \/ status (snd x) < 400 \/ 500 <= status (snd x) -> answered c st st' a.
Proof.
  intros [= <- <-] Hs Hx. split; [done|]. intros Ha. left. destruct Hx as [-> | ?]; [apply api_eta|lia].
Qed.

Lemma answered_cams c st x st' a :
  on_cams st x = (st', a) -> status (snd x) ∈ statuses ->
  fst x = cams st \/ status (snd x) < 400 \/ 500 <= status (snd x) -> answered c st st' a.
Proof.
  intros [= <- <-] Hs Hx. split; [done|]. intros Ha. left. destruct Hx as [-> | ?]; [apply api_eta|lia].
Qed.

Lemma answered_read c st st' a a' : (st, a') = (st', a) -> status a' ∈ statuses -> answered c st st' a.
Proof. intros [= <- <-] Hs. split; [done|]. by left. Qed.

Lemma Login_status s now tid body :
  let x := Login_handler j s now tid body in
  status (snd x) ∈ statuses /\ (fst x = s \/ status (snd x) < 400 \/ 500 <= status (snd x)).
Proof.
  unfold Login_handler. destruct body as [req|]; [|split; [solve_status|by left]].
  destruct (_ || _); [split; [solve_status|by left]|].
  destruct (Login j s now tid req) as [s' r] eqn:EL.
  apply Login_effect in EL as [[-> Hr]|(u & t & _ & _ & _ & _ & -> & Hr)];
    destruct r as [[resp sess]|e]; try done.
  - split; [|left]; destruct e as [[]| | | | | | |]; try done; solve_status.
  - split; [solve_status|right; left; done].
Qed.

Lemma createUser_status s now id salt tr body :
  let x := createUser s now id salt tr body in
  status (snd x) ∈ statuses /\ (fst x = s \/ status (snd x) < 400 \/ 500 <= status (snd x)).
Proof.
  unfold createUser. destruct body as [req|]; [|split; [solve_status|by left]].
  destruct (CreateUser s now id salt req) as [s' [d|e]] eqn:EC; [split; [solve_status|right; by left]|].
  apply CreateUser_error in EC as [-> |[m ->]]; [|split; [solve_status|right; by right]].
  split; [destruct e; solve_status|by left].
Qed.

Lemma updateUserRoles_status s tr uid body :
  let x := updateUserRoles s tr uid body in
  status (snd x) ∈ statuses /\ (fst x = s \/ status (snd x) < 400 \/ 500 <= status (snd x)).
Proof.
  unfold updateUserRoles. destruct body as [[|n l]|]; [split; [solve_status|by left]| |split; [solve_status|by left]].
  destruct (UpdateUserRoles s uid (n :: l)) as [s' [d|e]] eqn:EU; [split; [solve_status|right; by left]|].
  apply UpdateUserRoles_error in EU as [-> |[m ->]]; [|split; [solve_status|right; by right]].
  split; [destruct e; solve_status|by left].
Qed.

Lemma createCamera_status s src now tr body :
  let x := createCamera nodeID tenantID s src now tr body in
  status (snd x) ∈ statuses /\ (fst x = s \/ status (snd x) < 400 \/ 500 <= status (snd x)).
Proof.
  unfold createCamera. destruct body as [body|]; [|split; [solve_status|by left]].
  destruct (Camera.Create _ _ _ _ _ _) as [s' [cam|e]] eqn:EC; [split; [solve_status|right; by left]|].
  apply Create_error in EC as ->. destruct e; (split; [solve_status|by left]).
Qed.

Lemma deleteCamera_status s tr id :
  let x := deleteCamera s tr id in
  status (snd x) ∈ statuses /\ (fst x = s \/ status (snd x) < 400 \/ 500 <= status (snd x)).
Proof.
  unfold deleteCamera, Camera.Service_Delete, Camera.Store_Delete.
  destruct (_ !! id); (split; [solve_status|]); [right; by left|by left].
Qed.

Lemma handle_status st rq caller c st' a :
  handle j nodeID tenantID st rq caller c = (st', a) -> answered c st st' a.
Proof.
  destruct c as [body| | |body| |uid|uid|uid body|body| |id|id]; cbn [handle]; intros H.
  - destruct (Login_status (auth st) (At rq) (fresh_id rq) body). by eapply answered_auth.
  - eapply answered_read; [exact H|]. destruct caller as [[]|]; solve_status.
  - eapply answered_auth; [exact H| |]; destruct caller; cbn; [solve_status..|right; by left|by left].
  - destruct (createUser_status (auth st) (At rq) (fresh_id rq) (salt rq) (Trace rq) body). by eapply answered_auth.
  - eapply answered_read; [exact H|]. solve_status.
  - eapply answered_read; [exact H|]. unfold getUser, GetUser. destruct (GetByID _ _); solve_status.
  - injection H as <- <-. unfold deleteUser, DeleteUser, Store_DeleteUser, answered, GetByID.
    destruct (byID _ !! uid) as [u|] eqn:Eu; (split; [solve_status|]); [cbn; lia|]. intros _. right. by exists uid.
  - destruct (updateUserRoles_status (auth st) (Trace rq) uid body). by eapply answered_auth.
  - destruct (createCamera_status (cams st) (uuids rq) (At rq) (Trace rq) body). by eapply answered_cams.
  - eapply answered_read; [exact H|]. solve_status.
  - eapply answered_read; [exact H|]. unfold getCamera, Camera.Service_Get. destruct (Camera.Store_Get _ _); solve_status.
  - destruct (deleteCamera_status (cams st) (Trace rq) id). by eapply answered_cams.
Qed.
End Lemmas.

(** ** Properties *)

(** C5: nobody changes anything without the permission. A request whose token does
    not grant ["user:manage"] leaves the users and all roles and permissions as
    they are, one whose token does not grant ["camera:manage"] the cameras; a
    session appears only by a login with the password of an active user, and
    is ended only by its own token. *)
Theorem only_the_authorised_change `{E : AuthEnv} {R} `{!RBACStore R} `{CE : Camera.CamEnv}
    j nodeID tenantID relay st rq c st' a :
  serve j nodeID tenantID (buildRouter true true relay) st rq c = (st', a) ->
  let may perm := exists u, guarded (auth st) (At rq) perm (Authorization rq) = Ok u in
  (~ may "user:manage" ->
     users (store (auth st')) = users (store (auth st)) /\
     byID (store (auth st')) = byID (store (auth st)) /\ rbac (auth st') = rbac (auth st)) /\
  (~ may "camera:manage" -> cams st' = cams st) /\
  (forall tid, tokens (store (auth st')) !! tid <> tokens (store (auth st)) !! tid ->
     (exists req u, c = CallLogin (Some req) /\ tid = fresh_id rq /\
        GetByUsername (store (auth st)) (l_Username req) = Some u /\
        bcrypt_Compare (PasswordHash u) (l_Password req) = true /\ IsActive u = true) \/
     (exists sess u, c = CallLogout /\ tid = TokenID sess /\
        Middleware (auth st) (At rq) (Authorization rq) = Ok (sess, u))).
Proof.
  intros HS may.
  assert (forall perm, guard_of c = Needs perm -> ~ may perm -> st' = st) as Hno.
  { intros perm Hg Hn. pose proof (route_of_call relay c) as Hr. rewrite Hg in Hr.
    destruct (serve_needs _ _ _ _ _ _ _ _ _ _ Hr HS) as [[-> _]|(p & Hp & _)]; [done|].
    destruct Hn. by exists (snd p). }
  destruct (serve_effect _ _ _ _ _ _ _ _ _ HS) as [-> |(caller & He & Hc)].
  { split_and!; [done|done|]. by intros tid []. }
  destruct c; cbn [effect guard_of] in *; try (subst st'; split_and!; [done|done|by intros tid []]).
  { destruct He as [-> |(req & u & t & -> & Hu & Hb & Ha & <- & ->)]; [split_and!; [done|done|by intros tid []]|].
    split_and!; [done|done|]. intros tid Hne. left. exists req, u. split_and!; [done| |done|done|done].
    destruct (decide (TokenID t = tid)); [done|]. destruct Hne. cbn. by rewrite lookup_insert_ne. }
  { destruct He as [-> |(p & -> & ->)]; [split_and!; [done|done|by intros tid []]|].
    split_and!; [by intros _; cbn; unfold InvalidateToken; repeat case_match|done|].
    intros tid Hne. right. exists (fst p), (snd p). split_and!; [done| |by destruct p; apply Hc].
    destruct (decide (tid = TokenID (fst p))); [done|]. destruct Hne. cbn. unfold InvalidateToken.
    repeat case_match; [done| |done]. cbn. by rewrite lookup_insert_ne. }
  all: first [destruct He as [Hcam Htok]; rewrite Htok | rewrite He]; split_and!; try done; try by intros tid [].
  all: intros Hn; by rewrite (Hno _ eq_refl Hn).
Qed.

(** a request refused as the client's mistake changes nothing. Every answer
    has one of nine statuses; with a 4xx one the state is what it was, except that
    deleting an unknown user, which is answered 404, takes the roles filed under
    that identifier away before it notices. *)
Theorem client_error_changes_nothing `{E : AuthEnv} {R} `{!RBACStore R} `{CE : Camera.CamEnv}
    j nodeID tenantID relay st rq c st' a :
  serve j nodeID tenantID (buildRouter true true relay) st rq c = (st', a) ->
  status a ∈ [200; 201; 204; 400; 401; 403; 404; 409; 500] /\
  (400 <= status a < 500 ->
     st' = st \/
     exists uid, c = CallDeleteUser uid /\ GetByID (store (auth st)) uid = None /\ status a = 404 /\
       st' = mkApi (mkService (store (auth st))
                      (remove_all (rbac (auth st)) uid (UserRoles (rbac (auth st)) uid))) (cams st)).
Proof.
  intros HS. pose proof (route_of_call relay c) as Hr. destruct (guard_of c) as [| |perm] eqn:Eg.
  - unfold serve in HS. rewrite Hr in HS. by eapply handle_status.
  - destruct (serve_authenticated _ _ _ _ _ _ _ _ _ Hr HS) as [[-> (v & Hv & ->)]|(p & _ & Hh)];
      [|by eapply handle_status].
    split; [|by left]. apply Middleware_verdict in Hv as [m ->]. set_solver.
  - destruct (serve_needs _ _ _ _ _ _ _ _ _ _ Hr HS) as [[-> (v & Hv & ->)]|(p & _ & Hh)];
      [|by eapply handle_status].
    split; [|by left]. destruct (refuse_status _ _ _ _ _ Hv) as [-> | ->]; set_solver.
Qed.

(** a user as a resource. The user answered to a creation is the one a GET then
    finds and the list holds; a second creation under the name conflicts; a
    deletion is answered 204, after which the user is not found, the name is free
    and the second deletion is answered 404. *)
Theorem user_resource `{E : AuthEnv} {R} `{!RBACStore R} (s s1 : Service R) now id salt tr req a d :
  createUser s now id salt tr (Some req) = (s1, a) -> a = UserIs 201 d ->
  getUser s1 tr id = UserIs 200 d /\
  (exists l, listUsers s1 = UsersAre 200 l /\ d ∈ l) /\
  (forall now' id' salt' req', c_Username req' = c_Username req -> 8 <= len (c_Password req') ->
     createUser s1 now' id' salt' tr (Some req') = (s1, JSONError 409 "conflict" "username already exists" tr)) /\
  exists s2, deleteUser s1 tr id = (s2, Empty 204) /\ status (getUser s2 tr id) = 404 /\
    GetByUsername (store s2) (c_Username req) = None /\ status (snd (deleteUser s2 tr id)) = 404.
Proof.
  intros HC ->. unfold createUser in HC.
  destruct (CreateUser s now id salt req) as [s' [d'|e]] eqn:EC; [|by destruct e; injection HC].
  injection HC as -> ->. destruct (CreateUser_detail _ _ _ _ _ _ _ EC) as (u & Hu & Hb & Hn & Hname & ->).
  split_and!.
  - unfold getUser, GetUser, GetByID. by rewrite Hb.
  - eexists. split; [reflexivity|]. apply list_elem_of_fmap. exists u. split; [done|].
    apply list_elem_of_fmap. exists (id, u). split; [done|]. by apply elem_of_map_to_list.
  - intros now' id' salt' req' Hreq Hlen. unfold createUser, CreateUser, GetByUsername. rewrite Hreq, Hu.
    rewrite bool_decide_false by done. destruct (Z.ltb_spec (len (c_Password req')) 8); [lia|done].
  - unfold deleteUser, DeleteUser, Store_DeleteUser. rewrite Hb. eexists. split; [reflexivity|].
    unfold getUser, GetUser, GetByID, GetByUsername. cbn [store users byID].
    rewrite Hn, !lookup_delete_eq. by split_and!.
Qed.

(** ** Witnesses

    The operator of Auth.v, logged in, tries to create a camera and may list them. *)

#[local] Existing Instance Auth.example_env.
#[local] Existing Instance Camera.example_env.

Definition example_token : string :=
  match snd example_login with Ok (resp, _) => lr_Token resp | Err _ => "" end.
Definition example_api : Api (R := InMemRBACStore) := mkApi (fst example_login) Camera.NewStore.
Definition example_rq : Request := mkRequest ("Bearer " +:+ example_token) "trace" Hour "u2" "salt" [].

Lemma only_the_authorised_change_witness :
  let x := serve example_jwt "n" "t" (buildRouter true true true) example_api example_rq (CallCreateCamera None) in
  status (snd x) = 403 /\ users (store (auth (fst x))) = users (store (auth example_api)) /\
  cams (fst x) = Camera.NewStore.
Proof.
  assert (forall perm, bool_decide (perm = "user:manage" \/ perm = "camera:manage") = true ->
    ~ exists u, guarded (auth example_api) Hour perm (Authorization example_rq) = Ok u) as Hno.
  { intros perm [-> | ->]%bool_decide_eq_true [u H]; vm_compute in H; discriminate H. }
  intros x. split; [vm_compute; reflexivity|].
  destruct x as [st' a] eqn:Ex.
  destruct (only_the_authorised_change example_jwt "n" "t" true example_api example_rq _ _ _ Ex) as (Hu & Hc & _).
  split; [apply Hu|apply Hc]; by apply Hno.
Defined.

Lemma client_error_changes_nothing_witness :
  let x := serve example_jwt "n" "t" (buildRouter true true true) example_api example_rq (CallCreateUser None) in
  status (snd x) = 403 /\ fst x = example_api.
Proof.
  intros x. assert (status (snd x) = 403) as Hs by (vm_compute; reflexivity). split; [exact Hs|].
  destruct x as [st' a] eqn:Ex. cbn [fst snd] in *.
  destruct (client_error_changes_nothing example_jwt "n" "t" true example_api example_rq _ _ _ Ex) as [_ H].
  destruct H as [-> |(uid & Hc & _)]; [rewrite Hs; lia|reflexivity|discriminate Hc].
Defined.

Lemma user_resource_witness :
  exists s1 d, createUser (mkService NewStore example_rbac) 0 "u1" "salt" "" (Some example_req) = (s1, UserIs 201 d) /\
    getUser s1 "" "u1" = UserIs 200 d.
Proof.
  destruct (createUser (mkService NewStore example_rbac) 0 "u1" "salt" "" (Some example_req)) as [s1 a] eqn:EC.
  assert (exists d, a = UserIs 201 d) as [d Ha].
  { change a with (snd (s1, a)). rewrite <- EC. eexists. vm_compute. reflexivity. }
  exists s1, d. split; [by rewrite Ha|]. by apply (user_resource _ _ _ _ _ _ _ _ _ EC Ha).
Defined.
