(* ===== verification/Supervisor.v ===== *)
(** * The MediaMTX subprocess

    [internal/mediamtxproc/manager.go]: starting the process and waiting until it
    answers, restarting it when it exits, with a delay that doubles, and stopping
    it. [waitReady] is a function of what each poll sees; the supervising goroutine
    and [Stop] are a step relation. The process and its pipes belong to the
    operating system: they are the set of the processes that run. *)

From S2P Require Import Prelude GoStrings.

Definition defaultReadyTimeout : Duration := 15 * Second.
Definition defaultReadyPoll : Duration := 300 * Millisecond.
Definition minRestartDelay : Duration := 1 * Second.
Definition maxRestartDelay : Duration := 30 * Second.

(** [New]: the timeout used. *)
Definition ready_timeout (ReadyTimeout : Duration) : Duration :=
  if ReadyTimeout =? 0 then defaultReadyTimeout else ReadyTimeout.

(** ** Waiting for the API *)

(** What one round of the loop sees: the time, the error of the context, the status
    of the answer, if there is one. *)
Record poll := mkPoll { p_at : Time; p_ctx : option string; p_answer : option Z }.

Inductive ready_error := ErrTimeout | ErrContext (e : string).

Definition answers (a : option Z) : bool :=
  match a with Some status => status <? 500 | None => false end.

(** [Some None]: ready; the outer [None]: the fuel is spent. [i] is the number of the
    round. *)
Fixpoint wait_rounds (fuel : nat) (deadline : Time) (polls : nat -> poll) (i : nat)
  : option (option ready_error) :=
  match fuel with
  | O => None
  | S fuel =>
      if deadline <? p_at (polls i) then Some (Some ErrTimeout)
      else match p_ctx (polls i) with
      | Some e => Some (Some (ErrContext e))
      | None => if answers (p_answer (polls i)) then Some None
                else wait_rounds fuel deadline polls (S i)
      end
  end.

(** A round takes at least the sleep at its end. *)
Definition wait_fuel (timeout : Duration) : nat := Z.to_nat (Z.max 0 timeout / defaultReadyPoll + 2).

Definition waitReady (timeout : Duration) (start : Time) (polls : nat -> poll) : option (option ready_error) :=
  wait_rounds (wait_fuel timeout) (start + timeout) polls 0.

(** ** Supervision *)

(** Where the goroutine of [supervise] is: in [cmd.Wait], before it reads [stopped],
    in the delay, in [launch], in [waitReady], gone. *)
Inductive place := Waiting | Checking | Sleeping | Launching | Readying | Gone.

(** [live] are the processes that run, [launched] how many were started: the next
    has that number. [slept] are the delays since the last restart that became
    ready. *)
Record Manager := mkManager {
  at_ : place; delay : Duration; cmd : nat; stopped : bool;
  live : gset nat; launched : nat; slept : list Duration }.

(** Nothing started yet, and no supervisor. *)
Definition not_started : Manager := mkManager Gone minRestartDelay 0 false ∅ 0 [].

Definition goto (p : place) (m : Manager) : Manager :=
  mkManager p (delay m) (cmd m) (stopped m) (live m) (launched m) (slept m).

(** [launch], when the process starts *)
Definition launch (m : Manager) : Manager :=
  mkManager Readying (delay m) (launched m) (stopped m) ({[launched m]} ∪ live m) (S (launched m)) (slept m).

(** The end of [terminate]: the process exited, or was killed after eight seconds. *)
Definition kill (pid : nat) (m : Manager) : Manager :=
  mkManager (at_ m) (delay m) (cmd m) (stopped m) (live m ∖ {[pid]}) (launched m) (slept m).

Inductive start_error := ErrLaunch (e : string) | ErrNotReady (e : ready_error).

(** [Start], by the error of [launch] and the result of [waitReady] *)
Definition Start (launch_err : option string) (ready : option ready_error) : Manager * option start_error :=
  match launch_err with
  | Some e => (not_started, Some (ErrLaunch e))
  | None =>
      let m := launch not_started in
      match ready with
      | Some e => (goto Gone (kill (cmd m) m), Some (ErrNotReady e))
      | None => (goto Waiting m, None)
      end
  end.

Definition started : Manager := fst (Start None None).

Definition next_delay (d : Duration) : Duration :=
  let d := i64 (d * 2) in if maxRestartDelay <? d then maxRestartDelay else d.

Definition doubled (m : Manager) : Manager :=
  mkManager Launching (next_delay (delay m)) (cmd m) (stopped m) (live m) (launched m) (slept m ++ [delay m]).

Definition restarted (m : Manager) : Manager :=
  mkManager Waiting minRestartDelay (cmd m) (stopped m) (live m) (launched m) [].

(** [Stop] sets the flag and then terminates the process. *)
Definition set_stopped (m : Manager) : Manager :=
  mkManager (at_ m) (delay m) (cmd m) true (live m) (launched m) (slept m).

Inductive step (m : Manager) : Manager -> Prop :=
  | step_waited : at_ m = Waiting -> cmd m ∉ live m -> step m (goto Checking m)
  | step_checked : at_ m = Checking -> step m (goto (if stopped m then Gone else Sleeping) m)
  | step_cancelled : at_ m = Sleeping -> step m (goto Gone m)
  | step_slept : at_ m = Sleeping -> step m (doubled m)
  | step_launch_failed : at_ m = Launching -> step m (goto Waiting m)
  | step_launched : at_ m = Launching -> step m (launch m)
  | step_not_ready : at_ m = Readying -> step m (goto Waiting m)
  | step_ready : at_ m = Readying -> step m (restarted m)
  | step_exit pid : step m (kill pid m)
  | step_stop : step m (set_stopped m)
  | step_terminate : stopped m = true -> step m (kill (cmd m) m).

(** ** Lemmas *)

(** The delays of a run of failed restarts. *)
Fixpoint schedule (n : nat) (d : Duration) : list Duration :=
  match n with
  | O => []
  | S n => d :: schedule n (next_delay d)
  end.

Definition nth_delay (n : nat) : Duration := Z.min (2 ^ Z.of_nat n * Second) maxRestartDelay.

Record inv (m : Manager) : Prop := {
  i_one : live m ⊆ {[cmd m]};
  i_fresh : (cmd m < launched m)%nat;
  i_free : at_ m <> Waiting -> at_ m <> Readying -> live m = ∅;
  i_delay : delay m = nth_delay (length (slept m));
  i_slept : slept m = nth_delay <$> seq 0 (length (slept m));
}.

Lemma next_delay_min d : 0 <= d <= maxRestartDelay -> next_delay d = Z.min (d * 2) maxRestartDelay.
Proof.
  unfold next_delay, maxRestartDelay, i64, Second, Millisecond. intros Hd. rewrite Z.mod_small by lia.
  destruct (Z.ltb_spec (30 * (1000 * 1000000)) (d * 2 + 2 ^ 63 - 2 ^ 63)); lia.
Qed.

Lemma next_nth n : next_delay (nth_delay n) = nth_delay (S n).
Proof.
  assert (0 < 2 ^ Z.of_nat n) by (apply Z.pow_pos_nonneg; lia). rewrite next_delay_min.
  - unfold nth_delay, maxRestartDelay. rewrite Nat2Z.inj_succ, Z.pow_succ_r by lia.
    unfold Second, Millisecond. lia.
  - unfold nth_delay, maxRestartDelay, Second, Millisecond. lia.
Qed.

Lemma inv_step m m' : inv m -> step m m' -> inv m'.
Proof.
  intros [H1 H2 H3 H4 H5] Hs. destruct Hs as [Hp Hl|Hp|Hp|Hp|Hp|Hp|Hp|Hp|pid| |]; split; cbn; try done; try set_solver.
  - destruct (stopped m); intros _ _; apply H3; by rewrite Hp.
  - intros _ _. apply H3; by rewrite Hp.
  - intros _ _. apply H3; by rewrite Hp.
  - rewrite H4, length_app, Nat.add_1_r. apply next_nth.
  - rewrite length_app, Nat.add_1_r, seq_S, fmap_app, <- H5, H4. done.
  - rewrite H3 by (by rewrite Hp). set_solver.
Qed.

Lemma inv_reachable m : rtc step started m -> inv m.
Proof.
  intros Hr. assert (inv started) as Hi.
  { split; cbn; [set_solver|lia|done|done|done]. }
  revert Hi. induction Hr as [|a b c Hab _ IH]; [done|]. intros Hi. by eapply IH, inv_step.
Qed.

(** A round that decides, and what it decides. *)
Definition decides (deadline : Time) (p : poll) (r : option ready_error) : Prop :=
  if deadline <? p_at p then r = Some ErrTimeout
  else match p_ctx p with
  | Some e => r = Some (ErrContext e)
  | None => answers (p_answer p) = true /\ r = None
  end.

Definition undecided (deadline : Time) (p : poll) : Prop :=
  p_at p <= deadline /\ p_ctx p = None /\ answers (p_answer p) = false.

Lemma wait_rounds_spec fuel deadline polls : forall i,
  (exists k r, (k < fuel)%nat /\ wait_rounds fuel deadline polls i = Some r /\ decides deadline (polls (i + k)%nat) r /\
     forall k', (k' < k)%nat -> undecided deadline (polls (i + k')%nat)) \/
  (forall k, (k < fuel)%nat -> undecided deadline (polls (i + k)%nat)).
Proof.
  induction fuel as [|fuel IH]; intros i; [right; lia|]. cbn [wait_rounds].
  assert (forall r, decides deadline (polls i) r -> exists k r0, (k < S fuel)%nat /\ Some r = Some r0 /\
    decides deadline (polls (i + k)%nat) r0 /\ forall k', (k' < k)%nat -> undecided deadline (polls (i + k')%nat)) as Hnow.
  { intros r Hr. exists 0%nat, r. rewrite Nat.add_0_r. split_and!; [lia|done|done|lia]. }
  destruct (Z.ltb_spec deadline (p_at (polls i))) as [Hl|Hl].
  { left. apply Hnow. unfold decides. by destruct (Z.ltb_spec deadline (p_at (polls i))); [|lia]. }
  destruct (p_ctx (polls i)) as [e|] eqn:Ec.
  { left. apply Hnow. unfold decides. rewrite Ec. by destruct (Z.ltb_spec deadline (p_at (polls i))); [lia|]. }
  destruct (answers (p_answer (polls i))) eqn:Ea.
  { left. apply Hnow. unfold decides. rewrite Ec. by destruct (Z.ltb_spec deadline (p_at (polls i))); [lia|]. }
  assert (undecided deadline (polls i)) as Hu by (by split_and!).
  assert (forall n (P : poll -> Prop), P (polls i) -> (forall k, (k < n)%nat -> P (polls (S i + k)%nat)) ->
    forall k, (k < S n)%nat -> P (polls (i + k)%nat)) as Hshift.
  { intros n P H0 HS [|k] Hk; [by rewrite Nat.add_0_r|]. rewrite Nat.add_succ_r. apply HS. lia. }
  destruct (IH (S i)) as [(k & r & Hk & Hw & Hd & Hb)|Hall].
  - left. exists (S k), r. rewrite Nat.add_succ_r. split_and!; [lia|done|done|]. by apply Hshift.
  - right. by apply Hshift.
Qed.

(** ** Properties *)

(** waiting for MediaMTX ends. The loop of [waitReady] always returns, within one
    round per 300 ms of the timeout, and its result is what the first decisive round
    saw: past the deadline, the timeout; else a context that is done, its error;
    else an answer below 500, readiness. *)
Theorem waitReady_terminates timeout start polls :
  start <= p_at (polls 0%nat) -> (forall i, p_at (polls i) + defaultReadyPoll <= p_at (polls (S i))) ->
  exists k r, waitReady timeout start polls = Some r /\ Z.of_nat k <= Z.max 0 timeout / defaultReadyPoll + 1 /\
    decides (start + timeout) (polls k) r /\ forall k', (k' < k)%nat -> undecided (start + timeout) (polls k').
Proof.
  intros H0 HS. unfold waitReady.
  assert (0 <= Z.max 0 timeout / defaultReadyPoll) as Hpos by (apply Z.div_pos; [lia|done]).
  destruct (wait_rounds_spec (wait_fuel timeout) (start + timeout) polls 0) as [(k & r & Hk & Hw & Hd & Hb)|Hall].
  - exists k, r. unfold wait_fuel in Hk. split_and!; [done|lia|done|exact Hb].
  - exfalso. assert (forall i, start + Z.of_nat i * defaultReadyPoll <= p_at (polls i)) as Hat.
    { induction i as [|i IH]; [lia|]. specialize (HS i). lia. }
    set (n := Z.to_nat (Z.max 0 timeout / defaultReadyPoll + 1)).
    destruct (Hall n) as (Hn & _); [unfold wait_fuel, n; lia|]. specialize (Hat n). cbn [Nat.add] in Hn.
    assert (Z.of_nat n = Z.max 0 timeout / defaultReadyPoll + 1) as Hz by (unfold n; lia).
    pose proof (Z.mul_succ_div_gt (Z.max 0 timeout) defaultReadyPoll eq_refl). lia.
Qed.

(** C20: supervision. At any time at most one MediaMTX process runs, the one the manager
    knows; a process is started only when none runs; and the delays before the
    restarts since the last one that became ready were 1, 2, 4, 8, 16 and then 30
    seconds. *)
Theorem one_process_and_backoff m :
  rtc step started m ->
  live m ⊆ {[cmd m]} /\ (at_ m = Launching -> live m = ∅) /\
  slept m = nth_delay <$> seq 0 (length (slept m)) /\ Forall (fun d => Second <= d <= 30 * Second) (slept m).
Proof.
  intros [H1 _ H3 _ H5]%inv_reachable. split_and!; [done|by intros Hp; apply H3; rewrite Hp|done|].
  rewrite H5. apply Forall_fmap, Forall_forall. intros n _. unfold nth_delay, compose, maxRestartDelay.
  assert (0 < 2 ^ Z.of_nat n) by (apply Z.pow_pos_nonneg; lia). unfold Second, Millisecond. lia.
Qed.

(** when [Stop] is final. While the supervisor waits for the process, or has just
    seen it exit, nothing is started after the flag is set. But the flag is read only
    there: set during the delay, or during the start, it does not keep the next
    process from being started, and left running. *)
Theorem stop_before_the_delay m :
  stopped m = true ->
  (at_ m ∈ [Waiting; Checking; Gone] -> forall m', rtc step m m' -> launched m' = launched m /\ live m' ⊆ live m) /\
  (at_ m ∈ [Sleeping; Launching] ->
   exists m', rtc step m m' /\ stopped m' = true /\ launched m' = S (launched m) /\ launched m ∈ live m').
Proof.
  intros Hstop. split.
  - intros Hat m' Hr. revert Hstop Hat. induction Hr as [|a b c Hab _ IH]; [done|]. intros Hs Hat.
    assert (stopped b = true /\ at_ b ∈ [Waiting; Checking; Gone] /\ launched b = launched a /\ live b ⊆ live a)
      as (Hs' & Hat' & Hl & Hlive).
    { destruct Hab as [Hp ?|Hp|Hp|Hp|Hp|Hp|Hp|Hp|pid| |]; cbn; rewrite ?Hs; split_and!; try done; try set_solver;
        rewrite Hp in Hat; set_solver. }
    destruct (IH Hs' Hat') as [-> ?]. split; [done|]. by etrans.
  - assert (forall a, stopped a = true -> at_ a = Launching -> exists m', rtc step a m' /\ stopped m' = true /\
      launched m' = S (launched a) /\ launched a ∈ live m') as HL.
    { intros a Hs Hp. exists (launch a). split; [by apply rtc_once, step_launched|]. cbn. split_and!; [done|done|set_solver]. }
    rewrite !elem_of_cons. intros [Hp|[Hp|[]%elem_of_nil]]; [|by apply HL].
    destruct (HL (doubled m)) as (m' & Hr & ?); [done|done|]. exists m'. split; [|done].
    eapply rtc_l; [by apply step_slept|done].
Qed.

(** ** Witnesses *)

(** An answer 503 at once, 200 after 300 ms. *)
Definition example_polls (i : nat) : poll :=
  mkPoll (Z.of_nat i * defaultReadyPoll) None (if (i =? 0)%nat then Some 503 else Some 200).

Lemma waitReady_terminates_witness :
  exists k r, waitReady defaultReadyTimeout 0 example_polls = Some r /\ decides (0 + defaultReadyTimeout) (example_polls k) r.
Proof.
  destruct (waitReady_terminates defaultReadyTimeout 0 example_polls) as (k & r & Hw & _ & Hd & _); [done| |].
  - intros i. unfold example_polls. cbn [p_at]. lia.
  - by exists k, r.
Defined.

(** The process dies and is started again. *)
Definition example_restart : Manager := launch (doubled (goto Sleeping (goto Checking (kill 0 started)))).

Lemma example_restart_reachable : rtc step started example_restart.
Proof.
  eapply rtc_l; [apply (step_exit _ 0)|]. eapply rtc_l; [apply step_waited; [done|set_solver]|].
  eapply rtc_l; [by apply step_checked|]. eapply rtc_l; [by apply step_slept|]. by apply rtc_once, step_launched.
Qed.

Lemma one_process_and_backoff_witness :
  live example_restart ⊆ {[1%nat]} /\ slept example_restart = [Second].
Proof.
  destruct (one_process_and_backoff example_restart example_restart_reachable) as (H1 & _ & H2 & _).
  split; [exact H1|]. rewrite H2. reflexivity.
Defined.

Lemma stop_before_the_delay_witness :
  exists m', rtc step (set_stopped (goto Sleeping (goto Checking (kill 0 started)))) m' /\
    stopped m' = true /\ 1%nat ∈ live m'.
Proof.
  destruct (proj2 (stop_before_the_delay (set_stopped (goto Sleeping (goto Checking (kill 0 started)))) eq_refl))
    as (m' & Hr & Hs & _ & Hl); [constructor|]. by exists m'.
Defined.
