(* ===== verification/Pion.v ===== *)
(** * The WebRTC bridge

    [internal/pionbridge/service.go] and the handlers of [internal/api/pion.go]: an
    offer opens an RTSP client and a peer connection, which a session owns from
    then on. What the RTSP and WebRTC libraries answer is the argument [Library];
    the world is which clients and connections are open, and the sessions. The
    demo page and the forwarding of packets are left out. *)

From S2P Require Import Prelude GoStrings Urls.

(** ** Tracks *)

(** The formats of an RTSP description, each with the media that carries it, as the
    identity of that object. *)
Record Description := mkDescription {
  h264 : option nat; vp8 : option nat; vp9 : option nat; opus : option nat }.

Inductive Codec := H264 | VP8 | VP9 | Opus.

#[export] Instance codec_eq_dec : EqDecision Codec.
Proof. solve_decision. Defined.

Definition FindFormat (d : Description) (c : Codec) : option nat :=
  match c with H264 => h264 d | VP8 => vp8 d | VP9 => vp9 d | Opus => opus d end.

Record selectedTrack := mkTrack { t_media : nat; t_codec : Codec }.

Definition no_codecs : string := "no supported rtsp codecs found (need h264/vp8/vp9/opus)".

(** [seen] is the map of the loop. *)
Fixpoint unique_loop (seen : gset nat) (l : list nat) : list nat :=
  match l with
  | [] => []
  | m :: l => if bool_decide (m ∈ seen) then unique_loop seen l else m :: unique_loop ({[m]} ∪ seen) l
  end.

Definition uniqueMedias (l : list nat) : list nat :=
  if (length l <=? 1)%nat then l else unique_loop ∅ l.

(** [newTrack]: the error of [NewTrackLocalStaticRTP]. *)
Definition add_track (newTrack : Codec -> option string) (d : Description) (c : Codec)
    (tracks : list selectedTrack) : result string (list selectedTrack) :=
  match FindFormat d c with
  | None => Ok tracks
  | Some m => match newTrack c with
              | Some e => Err e
              | None => Ok (tracks ++ [mkTrack m c])
              end
  end.

(** [if len(tracks) == 0 { … }] *)
Definition if_none (tracks : list selectedTrack) (next : result string (list selectedTrack))
  : result string (list selectedTrack) :=
  match tracks with [] => next | _ => Ok tracks end.

Definition selectTracks (newTrack : Codec -> option string) (d : Description)
  : result string (list selectedTrack * list nat) :=
  let? tracks := add_track newTrack d H264 [] in
  let? tracks := if_none tracks (add_track newTrack d VP8 []) in
  let? tracks := if_none tracks (add_track newTrack d VP9 []) in
  let? tracks := add_track newTrack d Opus tracks in
  match tracks with
  | [] => Err no_codecs
  | _ => Ok (tracks, uniqueMedias (t_media <$> tracks))
  end.

(** ** The service *)

(** Clients and connections are numbered by the offer that opened them. *)
Record World := mkWorld {
  clients : gset nat; pcs : gset nat; sessions : gmap string nat }.

Definition open_client (n : nat) (w : World) : World := mkWorld ({[n]} ∪ clients w) (pcs w) (sessions w).
Definition close_client (n : nat) (w : World) : World := mkWorld (clients w ∖ {[n]}) (pcs w) (sessions w).
Definition open_pc (n : nat) (w : World) : World := mkWorld (clients w) ({[n]} ∪ pcs w) (sessions w).
Definition close_pc (n : nat) (w : World) : World := mkWorld (clients w) (pcs w ∖ {[n]}) (sessions w).

(** [putSession] *)
Definition putSession (id : string) (n : nat) (w : World) : World :=
  mkWorld (clients w) (pcs w) (<[id := n]> (sessions w)).

Record PionConfig := mkPion { Enabled : bool; PublicBaseURL : string; SourceRTSPBaseURL : string;
  SessionTTLSeconds : Z }.

(** [New]: [None] when disabled. *)
Definition New (cfg : PionConfig) : option PionConfig :=
  if negb (Enabled cfg) then None
  else Some (mkPion true
    (if bool_decide (PublicBaseURL cfg = "") then "http://localhost:8080" else PublicBaseURL cfg)
    (if bool_decide (SourceRTSPBaseURL cfg = "") then "rtsp://localhost:8554" else SourceRTSPBaseURL cfg)
    (SessionTTLSeconds cfg)).

Definition SessionTTL (cfg : PionConfig) : Duration :=
  if SessionTTLSeconds cfg <=? 0 then 120 * Second else i64 (SessionTTLSeconds cfg * Second).

(** What the libraries answer to one offer: errors, the description of the source,
    the id of the session, the local description. *)
Record Library := mkLibrary {
  ParseURL : string -> option string;
  ClientStart : option string;
  Describe : result string Description;
  NewTrack : Codec -> option string;
  SetupAll : list nat -> option string;
  NewPeerConnection : option string;
  AddTrack : selectedTrack -> option string;
  Play : option string;
  SetRemoteDescription : string -> option string;
  CreateAnswer : option string;
  SetLocalDescription : option string;
  NewString : string;
  LocalSDP : string }.

(** The first error of a loop. *)
Fixpoint first_error {A} (f : A -> option string) (l : list A) : option string :=
  match l with
  | [] => None
  | x :: l => match f x with Some e => Some e | None => first_error f l end
  end.

Definition source_url (cfg : PionConfig) (key : string) : string :=
  TrimRightByte slash (SourceRTSPBaseURL cfg) +:+ "/" +:+ key.

(** [n] numbers the offer. *)
Definition HandleOffer (cfg : PionConfig) (lib : Library) (n : nat) (w : World) (streamKey offerSDP : string)
  : World * result string (string * string) :=
  let key := TrimByte slash (TrimSpace streamKey) in
  if bool_decide (key = "") then (w, Err "stream key is required")
  else if bool_decide (TrimSpace offerSDP = "") then (w, Err "offer sdp is required")
  else match ParseURL lib (source_url cfg key) with
  | Some e => (w, Err e)
  | None =>
  match ClientStart lib with
  | Some e => (w, Err e)
  | None =>
  let w := open_client n w in
  match Describe lib with
  | Err e => (close_client n w, Err e)
  | Ok desc =>
  match selectTracks (NewTrack lib) desc with
  | Err e => (close_client n w, Err e)
  | Ok (tracks, medias) =>
  match SetupAll lib medias with
  | Some e => (close_client n w, Err e)
  | None =>
  match NewPeerConnection lib with
  | Some e => (close_client n w, Err e)
  | None =>
  let w := open_pc n w in
  match first_error (AddTrack lib) tracks with
  | Some e => (close_client n (close_pc n w), Err e)
  | None =>
  match Play lib with
  | Some e => (close_client n (close_pc n w), Err e)
  | None =>
  match SetRemoteDescription lib offerSDP with
  | Some e => (close_client n (close_pc n w), Err e)
  | None =>
  match CreateAnswer lib with
  | Some e => (close_client n (close_pc n w), Err e)
  | None =>
  match SetLocalDescription lib with
  | Some e => (close_client n (close_pc n w), Err e)
  | None => (putSession (NewString lib) n w, Ok (NewString lib, LocalSDP lib))
  end end end end end end end end end end end.

(** The critical section takes the session out; whoever took it closes it. *)
Definition closeSession (id : string) (w : World) : World :=
  if bool_decide (id = "") then w
  else match sessions w !! id with
  | None => w
  | Some n => close_client n (close_pc n (mkWorld (clients w) (pcs w) (delete id (sessions w))))
  end.

Definition CloseSession (id : string) (w : World) : World := closeSession (TrimSpace id) w.

(** [Close] closes the sessions there are when it starts. *)
Definition Close (w : World) : World := foldr closeSession w (map_to_list (sessions w)).*1.

(** Offers with a number and a session id of their own; a session is closed by a
    client, by the state of its connection or by the end of its source. *)
Inductive step (cfg : PionConfig) (w : World) : World -> Prop :=
  | step_offer lib n key sdp w' r :
      n ∉ clients w -> n ∉ pcs w -> sessions w !! NewString lib = None -> NewString lib <> "" ->
      HandleOffer cfg lib n w key sdp = (w', r) -> step cfg w w'
  | step_close id : step cfg w (closeSession id w)
  | step_shutdown : step cfg w (Close w).

Definition quiet : World := mkWorld ∅ ∅ ∅.

(** ** The handlers *)

(** The body: type and SDP, and those of the nested offer, if there is one. *)
Record pionOfferRequest := mkOffer { o_Type : string; o_SDP : string; o_Offer : option (string * string) }.

Inductive reply :=
  | Error (status : Z) (m : string)
  | Answer (streamKey sessionID sdp : string) (ttl_seconds : Z)
  | Closed (sessionID : string).

Definition or_else (s t : string) : string := if bool_decide (s = "") then t else s.

(** No character but its capital folds to one of ["offer"]. *)
Definition EqualFold_offer (s : string) : bool := bool_decide (ToLower s = "offer").

Definition pionOffer (pion : option PionConfig) (lib : Library) (n : nat) (w : World) (param : string)
    (body : option pionOfferRequest) : World * reply :=
  match pion with
  | None => (w, Error 503 "pion_webrtc is disabled")
  | Some cfg =>
      let key := TrimSpace param in
      if bool_decide (key = "") then (w, Error 400 "stream key is required")
      else match body with
      | None => (w, Error 400 "invalid json body")
      | Some req =>
          let inner := default ("", "") (o_Offer req) in
          let typ := or_else (TrimSpace (o_Type req)) (TrimSpace (fst inner)) in
          let sdp := or_else (TrimSpace (o_SDP req)) (TrimSpace (snd inner)) in
          if negb (bool_decide (typ = "")) && negb (EqualFold_offer typ)
          then (w, Error 400 "request type must be offer")
          else if bool_decide (sdp = "") then (w, Error 400 "offer sdp is required")
          else match HandleOffer cfg lib n w key sdp with
          | (w, Err e) => (w, Error 502 e)
          | (w, Ok (id, answer)) => (w, Answer key id answer (Z.quot (SessionTTL cfg) Second))
          end
      end
  end.

Definition pionCloseSession (pion : option PionConfig) (w : World) (param : string) : World * reply :=
  match pion with
  | None => (w, Error 503 "pion_webrtc is disabled")
  | Some _ =>
      let id := TrimSpace param in
      if bool_decide (id = "") then (w, Error 400 "session id is required")
      else (CloseSession id w, Closed id)
  end.

(** ** Lemmas *)

Lemma unique_loop_spec l : forall seen,
  NoDup (unique_loop seen l) /\ forall m, m ∈ unique_loop seen l <-> m ∈ l /\ m ∉ seen.
Proof.
  induction l as [|x l IH]; intros seen; cbn [unique_loop]; [split; [constructor|set_solver]|].
  case_bool_decide as Hx.
  - destruct (IH seen) as [Hnd Hm]. split; [done|]. intros m. rewrite Hm, elem_of_cons. naive_solver.
  - destruct (IH ({[x]} ∪ seen)) as [Hnd Hm]. split.
    + constructor; [|done]. rewrite Hm. set_solver.
    + intros m. rewrite !elem_of_cons, Hm. destruct (decide (m = x)); set_solver.
Qed.

Lemma uniqueMedias_spec l : NoDup (uniqueMedias l) /\ forall m, m ∈ uniqueMedias l <-> m ∈ l.
Proof.
  unfold uniqueMedias. destruct l as [|x [|y l]]; cbn [length Nat.leb]; [split; [constructor|done]|split; [apply NoDup_singleton|done]|].
  destruct (unique_loop_spec (x :: y :: l) ∅) as [Hnd Hm]. split; [done|]. intros m. rewrite Hm. set_solver.
Qed.

(** The video codec chosen. *)
Definition video (d : Description) : option (Codec * nat) :=
  match h264 d, vp8 d, vp9 d with
  | Some m, _, _ => Some (H264, m)
  | None, Some m, _ => Some (VP8, m)
  | None, None, Some m => Some (VP9, m)
  | None, None, None => None
  end.

Definition wanted (d : Description) : list selectedTrack :=
  from_option (fun p => [mkTrack (snd p) (fst p)]) [] (video d) ++
  from_option (fun m => [mkTrack m Opus]) [] (opus d).

(** Nothing an offer opened stays open when it fails. *)
Lemma closed_again n w : n ∉ clients w -> close_client n (open_client n w) = w.
Proof. destruct w as [c p s]. unfold close_client, open_client. cbn. intros Hn. f_equal. set_solver. Qed.

Lemma closed_both n w :
  n ∉ clients w -> n ∉ pcs w -> close_client n (close_pc n (open_pc n (open_client n w))) = w.
Proof.
  destruct w as [c p s]. unfold close_client, open_client, close_pc, open_pc. cbn. intros Hc Hp. f_equal; set_solver.
Qed.

Lemma HandleOffer_cases cfg lib n w key sdp w' r :
  n ∉ clients w -> n ∉ pcs w -> HandleOffer cfg lib n w key sdp = (w', r) ->
  match r with
  | Err _ => w' = w
  | Ok (id, answer) => id = NewString lib /\ answer = LocalSDP lib /\ w' = putSession id n (open_pc n (open_client n w))
  end.
Proof.
  intros Hc Hp. unfold HandleOffer.
  repeat first [case_bool_decide | case_match]; intros [= <- <-]; auto using closed_again, closed_both.
Qed.

Lemma closeSession_map id w :
  sessions (closeSession id w) = if bool_decide (id = "") then sessions w else delete id (sessions w).
Proof.
  unfold closeSession. case_bool_decide; [done|]. destruct (sessions w !! id) eqn:E; [done|]. by rewrite delete_id.
Qed.

(** Every open client and connection belongs to one session. *)
Record tidy (w : World) : Prop := {
  t_same : pcs w = clients w;
  t_owned : forall n, n ∈ clients w <-> exists id, sessions w !! id = Some n;
  t_one : forall id id' n, sessions w !! id = Some n -> sessions w !! id' = Some n -> id = id';
  t_id : sessions w !! "" = None;
}.

Lemma tidy_close id w : tidy w -> tidy (closeSession id w).
Proof.
  intros [Hs Ho H1 Hid]. unfold closeSession. case_bool_decide as He; [done|].
  destruct (sessions w !! id) as [n|] eqn:En; [|done]. split; cbn.
  - by rewrite Hs.
  - intros m. rewrite elem_of_difference, elem_of_singleton, Ho. split.
    + intros [[id' Hm] Hne]. exists id'. rewrite lookup_delete_ne; [done|]. congruence.
    + intros [id' [Hne Hm]%lookup_delete_Some]. split; [eauto|]. intros ->. by apply Hne, (H1 _ _ n).
  - intros a b m [_ Ha]%lookup_delete_Some [_ Hb]%lookup_delete_Some. by eapply H1.
  - rewrite lookup_delete_ne; done.
Qed.

Lemma tidy_Close w : tidy w -> tidy (Close w).
Proof.
  unfold Close. generalize (map_to_list (sessions w)).*1. intros ids Hw.
  induction ids as [|id ids IH]; [done|]. by apply tidy_close.
Qed.

Lemma tidy_step cfg w w' : tidy w -> step cfg w w' -> tidy w'.
Proof.
  intros Hw Hstep. destruct Hstep as [lib n key sdp w' r Hc Hp Hid Hne H|id|]; [|by apply tidy_close|by apply tidy_Close].
  apply HandleOffer_cases in H; [|done..]. destruct r as [[id a]|e]; [|by subst].
  destruct H as (-> & _ & ->), Hw as [Hs Ho H1 H0]. split; cbn.
  - by rewrite Hs.
  - intros m. rewrite elem_of_union, elem_of_singleton, Ho. split.
    + intros [->|[id Hm]]; [exists (NewString lib); apply lookup_insert_eq|]. exists id. rewrite lookup_insert_ne; [done|]. congruence.
    + intros [id [[_ ->]|[_ Hm]]%lookup_insert_Some]; [by left|right; eauto].
  - assert (forall id, sessions w !! id <> Some n) as Hno by (intros id Hx; apply Hc, Ho; eauto).
    intros i1 i2 m [[<- <-]|[? Ha]]%lookup_insert_Some [[? ?]|[? Hb]]%lookup_insert_Some; subst;
      [done|by edestruct Hno|by edestruct Hno|by eapply H1].
  - rewrite lookup_insert_ne; done.
Qed.

Lemma tidy_reachable cfg w : rtc (step cfg) quiet w -> tidy w.
Proof.
  intros Hr. assert (tidy quiet) as Ht.
  { split; cbn; [done| | |done].
    - intros n. split; [set_solver|]. intros [id H]. by rewrite lookup_empty in H.
    - intros id id' n H. by rewrite lookup_empty in H. }
  revert Ht. induction Hr as [|a b c Hab _ IH]; [done|]. intros Ht. by eapply IH, tidy_step.
Qed.

Lemma Close_sessions w : sessions w !! "" = None -> sessions (Close w) = ∅.
Proof.
  intros H0. apply map_eq. intros id. rewrite lookup_empty. unfold Close.
  destruct (decide (id ∈ (map_to_list (sessions w)).*1)) as [Hin|Hout].
  - induction (map_to_list (sessions w)).*1 as [|x l IH]; [by apply elem_of_nil in Hin|]. cbn [foldr].
    rewrite closeSession_map. case_bool_decide as Hx.
    + apply elem_of_cons in Hin as [->|Hin]; [|by apply IH]. subst.
      clear IH. induction l as [|y l IH]; [done|]. cbn [foldr]. rewrite closeSession_map.
      case_bool_decide; [done|]. rewrite lookup_delete_ne; done.
    + destruct (decide (id = x)) as [->|Hne]; [apply lookup_delete_eq|]. rewrite lookup_delete_ne by done.
      apply elem_of_cons in Hin as [?|Hin]; [done|by apply IH].
  - assert (sessions w !! id = None) as Hn.
    { destruct (sessions w !! id) as [n|] eqn:E; [|done]. destruct Hout. apply list_elem_of_fmap.
      exists (id, n). split; [done|]. by apply elem_of_map_to_list. }
    clear Hout H0. induction (map_to_list (sessions w)).*1 as [|x l IH]; [done|]. cbn [foldr]. rewrite closeSession_map.
    case_bool_decide; [done|]. by apply lookup_delete_None; right.
Qed.

(** ** Properties *)


(** an offer is all or nothing. It is answered with an SDP exactly when it opened a
    client and a connection and filed them under the id it gives, and that id closes
    them; any other answer, with status 400, 502 or 503, leaves the world as it was. *)
Theorem pion_offer_all_or_nothing pion lib n w param body w' r :
  n ∉ clients w -> n ∉ pcs w -> sessions w !! NewString lib = None ->
  TrimSpace (NewString lib) = NewString lib -> NewString lib <> "" ->
  pionOffer pion lib n w param body = (w', r) ->
  match r with
  | Answer key id sdp ttl =>
      key = TrimSpace param /\ key <> "" /\ id = NewString lib /\ sdp = LocalSDP lib /\
      w' = mkWorld ({[n]} ∪ clients w) ({[n]} ∪ pcs w) (<[id := n]> (sessions w)) /\
      pionCloseSession pion w' id = (w, Closed id)
  | Error status _ => w' = w /\ status ∈ [400; 502; 503]
  | Closed _ => False
  end.
Proof.
  intros Hc Hp Hid Htrim Hne. unfold pionOffer. destruct pion as [cfg|]; [|intros [= <- <-]; split; [done|set_solver]].
  case_bool_decide as Hk; [intros [= <- <-]; split; [done|set_solver]|].
  destruct body as [req|]; [|intros [= <- <-]; split; [done|set_solver]].
  destruct (_ && _); [intros [= <- <-]; split; [done|set_solver]|].
  case_bool_decide; [intros [= <- <-]; split; [done|set_solver]|].
  destruct (HandleOffer _ _ _ _ _ _) as [w1 res] eqn:EH. apply HandleOffer_cases in EH; [|done..].
  destruct res as [[id a]|e].
  - destruct EH as (-> & -> & ->). intros [= <- <-]. split_and!; [done..|].
    unfold pionCloseSession, CloseSession, closeSession. rewrite !Htrim, bool_decide_false by done.
    cbn. rewrite lookup_insert_eq.
    unfold close_client, close_pc. cbn. rewrite delete_insert_id by done.
    destruct w as [c p s]. cbn in *. do 2 f_equal; [f_equal|]; set_solver.
  - subst. intros [= <- <-]. split; [done|set_solver].
Qed.

(** the tracks of an answer. One video track, of the first of H.264, VP8 and VP9 the
    source has, and one audio track when it has Opus; the media set up are theirs,
    each once. Selection fails when there is neither, or a track cannot be made. *)
Theorem selectTracks_spec newTrack d :
  match selectTracks newTrack d with
  | Ok (tracks, medias) =>
      tracks = wanted d /\ tracks <> [] /\ NoDup medias /\ (forall m, m ∈ medias <-> m ∈ t_media <$> tracks) /\
      Forall (fun t => newTrack (t_codec t) = None) tracks
  | Err e => (wanted d = [] /\ e = no_codecs) \/ exists t, t ∈ wanted d /\ newTrack (t_codec t) = Some e
  end.
Proof.
  unfold selectTracks, add_track, if_none, wanted, video, FindFormat. destruct d as [h v8 v9 o].
  destruct h, v8, v9, o; cbn -[uniqueMedias];
    repeat match goal with |- context [newTrack ?c] => destruct (newTrack c) eqn:?; cbn -[uniqueMedias] end;
    first [ by left | right; eexists; split; [apply elem_of_cons; left; reflexivity|done]
          | right; eexists; split; [apply elem_of_cons; right; apply elem_of_cons; left; reflexivity|done]
          | split; [done|]; split; [done|]; split; [apply uniqueMedias_spec|]; split; [apply uniqueMedias_spec|by repeat constructor] ].
Qed.

(** ** Witnesses *)

Definition example_desc : Description := mkDescription (Some 1%nat) None None (Some 1%nat).
Definition example_lib : Library :=
  mkLibrary (fun _ => None) None (Ok example_desc) (fun _ => None) (fun _ => None) None (fun _ => None) None
    (fun _ => None) None None "s1" "v=0".
Definition example_cfg : PionConfig := mkPion true "http://h" "rtsp://m/" 0.
Definition example_world : World := fst (HandleOffer example_cfg example_lib 7 quiet "cam" "v=0").


Lemma pion_offer_all_or_nothing_witness :
  exists w', pionOffer (Some example_cfg) example_lib 7 quiet " cam " (Some (mkOffer "OFFER" "v=0" None))
      = (w', Answer "cam" "s1" "v=0" 120) /\
    pionCloseSession (Some example_cfg) w' "s1" = (quiet, Closed "s1").
Proof.
  destruct (pionOffer (Some example_cfg) example_lib 7 quiet " cam " (Some (mkOffer "OFFER" "v=0" None))) as [w' r] eqn:E.
  assert (r = Answer "cam" "s1" "v=0" 120) as Hr.
  { change r with (snd (w', r)). rewrite <- E. vm_compute. reflexivity. }
  subst r. exists w'. split; [reflexivity|].
  by apply (pion_offer_all_or_nothing _ example_lib _ quiet _ _ _ _ (not_elem_of_empty _) (not_elem_of_empty _)
    eq_refl (eq_refl "s1") ltac:(discriminate) E).
Defined.
