(* ===== verification/Streams.v ===== *)
(** * Streams over HTTP

    The stream handlers of the API: the HLS playlist, which starts a relay when
    the stream is on another node ([internal/api/streams.go], with [EnsureRelay] of
    [internal/node/relay.go]), the lists of streams ([streams.go], [live.go]), the
    hooks MediaMTX calls ([hooks.go]), pins ([monitor.go]), and the path list of the
    MediaMTX client ([internal/mediamtx/client.go]). Files, JSON and HTTP are the
    arguments; the nodes come from Node.v, the pulls from Pull.v, the URLs from
    Urls.v. *)

From stdpp Require Import pretty.
From S2P Require Import Prelude GoStrings Redis Node Urls.
From S2P Require Pull.

(** ** MediaMTX's paths *)

Record PathInfo := mkPath { Name : string; Ready : bool; Source : string; BytesReceived : Z }.

(** What the HTTP client gives: an error, or a status with the body and what it
    decodes to. *)
Inductive http_result :=
  | Failed (e : string)
  | Response (status : Z) (body : string) (items : result string (list PathInfo)).

(** [sort.Slice] leaves the order of equal names open. *)
Definition by_name (a b : PathInfo) : Prop := String.le (Name a) (Name b).
#[export] Instance by_name_dec a b : Decision (by_name a b) := decide (String.le _ _).

Definition ListPaths (APIBaseURL : string) (answer : http_result) : result string (list PathInfo) :=
  if bool_decide (APIBaseURL = "") then Err "mediamtx api_base_url is empty"
  else match answer with
  | Failed e => Err e
  | Response status body items =>
      if 400 <=? status
      then Err ("mediamtx paths list: status=" +:+ pretty status +:+ " body=" +:+ body)
      else match items with
      | Err e => Err e
      | Ok items => Ok (merge_sort by_name items)
      end
  end.

Record Summary := mkSummary {
  PathCount : Z; ReadyPathCount : Z; s_BytesReceived : Z; Paths : list PathInfo }.

Definition count_path (out : Z * Z) (p : PathInfo) : Z * Z :=
  ((if Ready p then fst out + 1 else fst out), u64 (snd out + BytesReceived p)).

Definition Summarise (paths : result string (list PathInfo)) : result string Summary :=
  match paths with
  | Err e => Err e
  | Ok paths => let '(ready, bytes) := foldl count_path (0, 0) paths in
                Ok (mkSummary (Z.of_nat (length paths)) ready bytes paths)
  end.

(** ** Lists *)

(** A local stream, as the handlers see it. *)
Record Local := mkLocal {
  l_Key : string; l_NodeID : string; l_IsLive : bool; l_StartedAt : Time; l_Packets : Z;
  l_subs : list (string * string * Z) }.

Record streamResponse := mkStreamResponse {
  Key : string; NodeID : string; r_IsLive : bool; StartedAt : Time; SubscriberCount : Z;
  PacketsTotal : Z; HLSUrl : string; WebRTCUrl : string; WebRTCOfferURL : string;
  Subscribers : list (string * string * Z) }.

Record Config := mkConfig { c_mtx : option MediaMTXConfig; c_pion : option string; c_addr : string }.

Definition urls_of (cfg : Config) (key : string) : resolvedLiveURLs :=
  resolveLiveURLs (c_mtx cfg) (c_pion cfg) (c_addr cfg) key.

Definition toStreamResponse (cfg : Config) (st : Local) : streamResponse :=
  let urls := urls_of cfg (l_Key st) in
  mkStreamResponse (l_Key st) (l_NodeID st) (l_IsLive st) (l_StartedAt st) (Z.of_nat (length (l_subs st)))
    (l_Packets st) (HLS urls) (WebRTC urls) (WebRTCOffer urls) [].

Definition mediamtx_response (cfg : Config) (p : PathInfo) : streamResponse :=
  let urls := urls_of cfg (Name p) in
  mkStreamResponse (Name p) "mediamtx" (Ready p) zero_time 0 0 (HLS urls) (WebRTC urls) (WebRTCOffer urls) [].

Definition set_subscribers (l : list (string * string * Z)) (r : streamResponse) : streamResponse :=
  mkStreamResponse (Key r) (NodeID r) (r_IsLive r) (StartedAt r) (SubscriberCount r) (PacketsTotal r)
    (HLSUrl r) (WebRTCUrl r) (WebRTCOfferURL r) l.

(** The streams of [manager.All()], in the order it gives them; [paths] is the
    answer of MediaMTX, [None] without a client. *)
Definition listStreams (cfg : Config) (streams : list Local) (paths : option (result string (list PathInfo)))
  : list streamResponse :=
  let seen : gset string := list_to_set (l_Key <$> streams) in
  (toStreamResponse cfg <$> streams) ++
  match paths with
  | Some (Ok paths) => mediamtx_response cfg <$> filter (fun p => Ready p = true /\ Name p ∉ seen) paths
  | _ => []
  end.

Definition getMediaMTXStream (cfg : Config) (paths : option (result string (list PathInfo))) (key : string)
  : option streamResponse :=
  match paths with
  | Some (Ok paths) => mediamtx_response cfg <$> head (filter (fun p => Name p = key /\ Ready p = true) paths)
  | _ => None
  end.

Definition find_local (streams : list Local) (key : string) : option Local :=
  head (filter (fun s => l_Key s = key) streams).

Inductive stream_answer := Found (r : streamResponse) | StreamNotFound (status : Z) (m : string).

Definition getStream (cfg : Config) (streams : list Local) (paths : option (result string (list PathInfo)))
    (key : string) : stream_answer :=
  match find_local streams key with
  | None => match getMediaMTXStream cfg paths key with
            | Some r => Found r
            | None => StreamNotFound 404 "stream not found"
            end
  | Some st => Found (set_subscribers (l_subs st) (toStreamResponse cfg st))
  end.

(** [GET /live/streams]: key, readiness, source, bytes and the URLs. *)
Record item := mkItem { i_Key : string; i_Ready : bool; i_Source : string; i_Bytes : Z; i_URLs : resolvedLiveURLs }.

Definition listLiveStreams (cfg : Config) (streams : list Local) (paths : option (result string (list PathInfo)))
  : result (Z * string) (list item) :=
  match paths with
  | None => Ok ((fun st => mkItem (l_Key st) (l_IsLive st) "local" 0 (urls_of cfg (l_Key st))) <$> streams)
  | Some (Err e) => Err (502, e)
  | Some (Ok paths) =>
      Ok ((fun p => mkItem (Name p) (Ready p) (Source p) (BytesReceived p) (urls_of cfg (Name p))) <$> paths)
  end.

Definition getLiveURLs (cfg : Config) (streams : list Local) (key : string) : result (Z * string) resolvedLiveURLs :=
  if bool_decide (key = "") then Err (400, "stream key is required")
  else match c_mtx cfg, find_local streams key with
  | None, None => Err (404, "stream not found")
  | _, _ => Ok (urls_of cfg key)
  end.

(** ** Limits *)

(** [strconv.Atoi]: a sign, decimal digits, the range of an [int]. *)
Definition digit (a : ascii) : option Z := if in_range 48 57 a then Some (a2z a - 48) else None.

Fixpoint digits (acc : Z) (s : string) : option Z :=
  match s with
  | EmptyString => Some acc
  | String a s => match digit a with Some d => digits (acc * 10 + d) s | None => None end
  end.

Definition unsigned (s : string) : option Z :=
  match s with EmptyString => None | _ => digits 0 s end.

Definition in_int (z : Z) : option Z := if (- 2 ^ 63 <=? z) && (z <? 2 ^ 63) then Some z else None.

Definition Atoi (s : string) : option Z :=
  match s with
  | String a rest =>
      let n := if Ascii.eqb a "-" then Z.opp <$> unsigned rest
               else if Ascii.eqb a "+" then unsigned rest else unsigned s in
      match n with Some n => in_int n | None => None end
  | EmptyString => None
  end.

Definition parseLimit (raw : string) (fallback : Z) : Z :=
  if bool_decide (raw = "") then fallback
  else match Atoi raw with
  | None => fallback
  | Some limit => if limit <=? 0 then fallback else if fallback <? limit then fallback else limit
  end.

(** [if limit < len(l) { l = l[:limit] }]; a negative bound panics. *)
Definition limited {A} (raw : string) (l : list A) : option (list A) :=
  let n := Z.of_nat (length l) in
  let limit := parseLimit raw n in
  if limit <? n then (if limit <? 0 then None else Some (take (Z.to_nat limit) l)) else Some l.

(** ** Pins *)

Definition pin (key : string) (keys : gmap string bool) : gmap string bool := <[key := true]> keys.
Definition unpin (key : string) (keys : gmap string bool) : gmap string bool := delete key keys.

(** ** Hooks *)

Inductive hook_answer := HookStatus (status : Z) | HookError (status : Z) (m : string).

(** [ingest]: the manager of the pulls, [None] when ingest is disabled. [Start] does
    not fail. *)
Definition onPublish (key : string) (ingest : option Pull.Pulls) : option Pull.Pulls * hook_answer :=
  if bool_decide (key = "") then (ingest, HookError 400 "missing path")
  else match ingest with
  | None => (None, HookStatus 200)
  | Some p => (Some (Pull.Start key p), HookStatus 200)
  end.

Definition onUnpublish (key : string) (ingest : option Pull.Pulls) : option Pull.Pulls * hook_answer :=
  if bool_decide (key = "") then (ingest, HookError 400 "missing path")
  else match ingest with
  | None => (None, HookStatus 200)
  | Some p => (Some (Pull.Stop key p), HookStatus 200)
  end.

(** ** The HLS playlist *)

Section Playlist.
Context `{E : NodeEnv} {R} `{!Redis R}.

(** The address of the source among the nodes. *)
Definition source_addr (sourceNodeID : string) (nodes : list NodeInfo) : string :=
  default "" (HTTPAddr <$> head (filter (fun n => n_ID n = sourceNodeID) nodes)).

(** [EnsureRelay]: the entry, the lookup, and the goroutine or the removal. *)
Definition EnsureRelay (key sourceNodeID : string) (now : Time) (r : R) (p : Pull.Pulls)
  : Pull.Pulls * option string :=
  match Pull.active p !! key with
  | Some _ => (p, None)
  | None =>
      let t := Pull.fresh p in
      let p := Pull.EnsureRelay key p in
      let undone := Pull.finish t (Pull.remove_active key p) in
      match AllNodes r now with
      | Err e => (undone, Some ("relay: list nodes: " +:+ e))
      | Ok nodes =>
          if bool_decide (source_addr sourceNodeID nodes = "")
          then (undone, Some ("relay: node " +:+ quote sourceNodeID +:+ " not found"))
          else (Pull.goto t (Pull.mkTask Pull.RelayTask key Pull.Locating) Pull.Connecting p, None)
      end
  end.

Inductive hls_answer :=
  | ServeFile
  | HTTPError (status : Z) (m : string)
  | Redirect (status : Z) (url retry_after : string).

(** [file]: is there a playlist of the key on the disk? [registry]: this node's id and
    Redis, [None] without Redis. *)
Definition serveHLSPlaylist (file local : string -> bool) (registry : option (string * R)) (now : Time)
    (p : Pull.Pulls) (key : string) : Pull.Pulls * hls_answer :=
  if file key then (p, ServeFile)
  else if local key then (p, HTTPError 503 "stream starting, retry in 2s")
  else match registry with
  | None => (p, HTTPError 404 "stream not found")
  | Some (self, r) =>
      match FindStream key now r with
      | Err _ => (p, HTTPError 404 "stream not found in cluster")
      | Ok source =>
          if bool_decide (source = self) then (p, HTTPError 503 "stream starting, retry in 2s")
          else match EnsureRelay key source now r p with
          | (p, Some e) => (p, HTTPError 502 ("relay unavailable: " +:+ e))
          | (p, None) => (p, Redirect 307 ("/hls/" +:+ key +:+ "/index.m3u8") "2")
          end
      end
  end.
End Playlist.

Example Atoi_examples :
  (Atoi "42", Atoi "-7", Atoi "+", Atoi "4x", Atoi "9223372036854775808", Atoi "-9223372036854775808", Atoi "")
  = (Some 42, Some (-7), None, None, None, Some (- 2 ^ 63), None).
Proof. reflexivity. Qed.

(** ** Lemmas *)

Lemma parseLimit_bounds raw n : 0 <= n -> 0 <= parseLimit raw n <= n /\ (0 < n -> 0 < parseLimit raw n).
Proof.
  intros Hn. unfold parseLimit. case_bool_decide; [lia|]. destruct (Atoi raw) as [l|]; [|lia].
  destruct (Z.leb_spec l 0); [lia|]. destruct (Z.ltb_spec n l); lia.
Qed.

Lemma limited_prefix {A} raw (l : list A) :
  exists n, limited raw l = Some (take n l) /\ (n <= length l)%nat /\ (0 < length l -> 0 < n)%nat /\
    (raw = "" -> n = length l).
Proof.
  unfold limited. destruct (parseLimit_bounds raw (Z.of_nat (length l))) as [Hb Hpos]; [lia|].
  destruct (Z.ltb_spec (parseLimit raw (Z.of_nat (length l))) (Z.of_nat (length l))) as [Hlt|Hge].
  - destruct (Z.ltb_spec (parseLimit raw (Z.of_nat (length l))) 0); [lia|].
    exists (Z.to_nat (parseLimit raw (Z.of_nat (length l)))). split_and!; [done|lia| |].
    + lia.
    + intros ->. unfold parseLimit in *. rewrite bool_decide_true in * by done. lia.
  - exists (length l). rewrite take_ge by done. by split_and!.
Qed.

Lemma head_filter_Some {A} (P : A -> Prop) `{!forall x, Decision (P x)} (l : list A) x :
  head (filter P l) = Some x -> x ∈ l /\ P x.
Proof.
  intros Hh. assert (x ∈ filter P l) as Hin by (destruct (filter P l); [done|injection Hh as ->; constructor]).
  by apply list_elem_of_filter in Hin as [? ?].
Qed.

Lemma head_filter_None {A} (P : A -> Prop) `{!forall x, Decision (P x)} (l : list A) :
  head (filter P l) = None -> forall x, x ∈ l -> ~ P x.
Proof.
  intros Hh x Hx HP. assert (x ∈ filter P l) as Hin by (by apply list_elem_of_filter).
  destruct (filter P l); [by apply elem_of_nil in Hin|done].
Qed.

Lemma find_local_None streams key : find_local streams key = None -> key ∉ l_Key <$> streams.
Proof. intros Hf (s & -> & Hs)%list_elem_of_fmap. by eapply head_filter_None in Hf. Qed.

Lemma find_local_Some streams key st : find_local streams key = Some st -> st ∈ streams /\ l_Key st = key.
Proof. intros Hf. by apply head_filter_Some in Hf as [? ?]. Qed.

(** The keys listed: the local ones, and the ready paths that are not local. *)
Lemma listed_keys cfg streams paths :
  Key <$> listStreams cfg streams paths =
    (l_Key <$> streams) ++
    match paths with
    | Some (Ok l) => Name <$> filter (fun p => Ready p = true /\ Name p ∉ (list_to_set (l_Key <$> streams) : gset string)) l
    | _ => []
    end.
Proof.
  unfold listStreams. rewrite fmap_app, <- list_fmap_compose. f_equal.
  destruct paths as [[l|]|]; [|done|done]. by rewrite <- list_fmap_compose.
Qed.

(** What [EnsureRelay] does, in steps of the pulls. *)
Lemma EnsureRelay_cases `{E : NodeEnv} {R} `{!Redis R} key src now (r : R) p p' e :
  Pull.reachable p -> EnsureRelay key src now r p = (p', e) ->
  rtc Pull.step p p' /\
  match e with
  | None => Pull.IsRelaying key p' = true /\ (Pull.IsRelaying key p = true -> p' = p) /\
      (Pull.IsRelaying key p = false -> exists nodes, AllNodes r now = Ok nodes /\ source_addr src nodes <> "" /\
         Pull.tasks p' !! Pull.fresh p = Some (Pull.mkTask Pull.RelayTask key Pull.Connecting))
  | Some _ => Pull.IsRelaying key p = false /\ Pull.active p' = Pull.active p /\ Pull.tasks p' = Pull.tasks p /\
      forall nodes, AllNodes r now = Ok nodes -> source_addr src nodes = ""
  end.
Proof.
  intros Hp%Pull.reachable_relay_inv. unfold EnsureRelay, Pull.IsRelaying.
  destruct (Pull.active p !! key) as [t|] eqn:Ea.
  { intros [= <- <-]. rewrite Ea. split_and!; [done|by apply bool_decide_true|done|].
    intros Hf%bool_decide_eq_false. destruct Hf. eauto. }
  set (t := Pull.fresh p). set (x := Pull.mkTask Pull.RelayTask key Pull.Locating).
  assert (Pull.tasks p !! t = None) as Hfr.
  { destruct (Pull.tasks p !! t) eqn:Et; [|done]. apply (Pull.ri_fresh _ Hp) in Et. unfold t in Et. lia. }
  assert (Pull.tasks (Pull.EnsureRelay key p) !! t = Some x) as Hx.
  { unfold Pull.EnsureRelay. rewrite Ea. apply lookup_insert_eq. }
  assert (rtc Pull.step p (Pull.finish t (Pull.remove_active key (Pull.EnsureRelay key p)))) as Hgive.
  { eapply rtc_l; [apply Pull.step_ensure|]. apply rtc_once. by apply (Pull.step_not_located t x). }
  assert (Pull.active (Pull.finish t (Pull.remove_active key (Pull.EnsureRelay key p))) = Pull.active p /\
          Pull.tasks (Pull.finish t (Pull.remove_active key (Pull.EnsureRelay key p))) = Pull.tasks p) as [Hact Htask].
  { unfold Pull.EnsureRelay. rewrite Ea. cbn. fold t. by rewrite !delete_insert_id. }
  assert (bool_decide (is_Some (@None nat)) = false) as Hno by (apply bool_decide_eq_false; by intros []).
  destruct (AllNodes r now) as [nodes|e0];
    [destruct (bool_decide (source_addr src nodes = "")) eqn:Hs;
      [apply bool_decide_eq_true in Hs|apply bool_decide_eq_false in Hs]|]; intros [= <- <-].
  - split_and!; [done|done|done|done|]. by intros ? [= <-].
  - split_and!.
    + eapply rtc_l; [apply Pull.step_ensure|]. apply rtc_once. by apply (Pull.step_located t x).
    + apply bool_decide_true. unfold Pull.EnsureRelay. rewrite Ea. cbn. rewrite lookup_insert_eq. eauto.
    + by rewrite Hno.
    + intros _. exists nodes. split_and!; [done|done|]. apply lookup_insert_eq.
  - split_and!; [done|done|done|done|done].
Qed.

(** ** Properties *)


(** C39: the list of streams and the lookup agree. A key is listed exactly when the lookup
    finds a stream, of that key, given the same answer of MediaMTX; the local stream
    is the one shown when there are both; no key is listed twice when neither source
    repeats one. *)
Theorem list_and_get_agree cfg streams paths key :
  (key ∈ Key <$> listStreams cfg streams paths <-> exists r, getStream cfg streams paths key = Found r /\ Key r = key) /\
  (forall st, find_local streams key = Some st ->
     getStream cfg streams paths key = Found (set_subscribers (l_subs st) (toStreamResponse cfg st)) /\
     toStreamResponse cfg st ∈ listStreams cfg streams paths) /\
  (NoDup (l_Key <$> streams) -> (forall l, paths = Some (Ok l) -> NoDup (Name <$> l)) ->
   NoDup (Key <$> listStreams cfg streams paths)).
Proof.
  rewrite listed_keys, elem_of_app. split_and!.
  - unfold getStream. destruct (find_local streams key) as [st|] eqn:El.
    + apply find_local_Some in El as [Hin Hk]. split; [eauto|]. intros _. left. apply list_elem_of_fmap. eauto.
    + apply find_local_None in El. unfold getMediaMTXStream.
      destruct paths as [[l|]|]; [|split; [by intros [?|?%elem_of_nil]|by intros (? & ? & _)]..].
      destruct (head (filter _ l)) as [p|] eqn:Eh; cbn.
      * apply head_filter_Some in Eh as [Hin [Hn Hr]]. split; [eauto|]. intros _. right.
        apply list_elem_of_fmap. exists p. split; [done|]. apply list_elem_of_filter. split_and!; [done| |done].
        rewrite elem_of_list_to_set. by rewrite Hn.
      * split; [|by intros (? & ? & _)]. intros [?|(p & -> & [[Hr _] Hin]%list_elem_of_filter)%list_elem_of_fmap]; [done|].
        destruct (head_filter_None _ _ Eh p Hin). by split.
  - intros st Hst. split; [unfold getStream; by rewrite Hst|]. apply elem_of_app. left.
    apply list_elem_of_fmap_2. by apply find_local_Some in Hst as [? _].
  - intros Hnd Hpaths. apply NoDup_app. split_and!; [done| |].
    + intros k Hk. destruct paths as [[l|]|]; [|by intros ?%elem_of_nil..].
      intros (p & -> & [[_ Hp] _]%list_elem_of_filter)%list_elem_of_fmap. by rewrite elem_of_list_to_set in Hp.
    + destruct paths as [[l|]|]; [|constructor..]. specialize (Hpaths l eq_refl).
      eapply sublist_NoDup; [exact Hpaths|]. apply fmap_sublist, sublist_filter.
Qed.

(** a limit never breaks an answer. Whatever the client sends, the limit is within
    the number of items, and at least one when there is one: the slice is in range,
    a prefix of the items with that length. *)
Theorem limited_in_range {A} raw (l : list A) :
  exists n, limited raw l = Some (take n l) /\ (n <= length l)%nat /\ (l <> [] -> (0 < n)%nat) /\
    (raw = "" -> n = length l).
Proof.
  destruct (limited_prefix raw l) as (n & Hl & Hn & Hpos & Hall). exists n. split_and!; [done|done| |done].
  intros Hne. apply Hpos. by destruct l; [|cbn; lia].
Qed.

(** the paths of MediaMTX. A listing that succeeds is the items of the answer, sorted
    by name; an error status, an undecodable body or a missing address is an error.
    The summary counts the ready ones, and adds their bytes modulo 2^64. *)
Theorem ListPaths_spec base answer :
  (forall l, ListPaths base answer = Ok l ->
     exists status body items, answer = Response status body (Ok items) /\ status < 400 /\
       l ≡ₚ items /\ Sorted by_name l) /\
  (is_ok (ListPaths base answer) = true <->
     base <> "" /\ exists status body items, answer = Response status body (Ok items) /\ status < 400) /\
  (forall l, Summarise (Ok l) = Ok (mkSummary (Z.of_nat (length l))
     (Z.of_nat (length (filter (fun p => Ready p = true) l))) (u64 (foldr Z.add 0 (BytesReceived <$> l))) l)).
Proof.
  assert (Total by_name) as Htot by (intros a b; apply String.le_total).
  unfold ListPaths. split_and!.
  - intros l. case_bool_decide; [done|]. destruct answer as [e|status body items]; [done|].
    destruct (Z.leb_spec 400 status); [done|]. destruct items as [items|e]; [|done]. intros [= <-].
    exists status, body, items. split_and!; [done|lia|apply merge_sort_Permutation|]. by apply Sorted_merge_sort.
  - case_bool_decide; [naive_solver|]. destruct answer as [e|status body items]; [naive_solver|].
    destruct (Z.leb_spec 400 status); [split; [done|]; intros (_ & ? & ? & ? & [= <- _ _] & ?); lia|].
    destruct items as [items|e]; cbn; [|naive_solver]. split; [|done]. intros _. split; [done|].
    exists status, body, items. split; [done|lia].
  - intros l. unfold Summarise.
    assert (forall a b, foldl count_path (a, u64 b) l =
      (a + Z.of_nat (length (filter (fun p => Ready p = true) l)), u64 (b + foldr Z.add 0 (BytesReceived <$> l)))) as Hf.
    { induction l as [|p l IH]; intros a b; cbn [foldl fmap list_fmap foldr]; [cbn; by rewrite !Z.add_0_r|].
      unfold count_path at 2. cbn [fst snd].
      assert (u64 (u64 b + BytesReceived p) = u64 (b + BytesReceived p)) as -> by (unfold u64; by rewrite Zplus_mod_idemp_l).
      rewrite IH, filter_cons. replace (b + BytesReceived p + foldr Z.add 0 (BytesReceived <$> l))
        with (b + (BytesReceived p + foldr Z.add 0 (BytesReceived <$> l))) by lia.
      apply (f_equal2 pair); [|done].
      destruct (Ready p); [rewrite decide_True by done|rewrite decide_False by done]; cbn [length]; lia. }
    specialize (Hf 0 0). change (u64 0) with 0 in Hf. by rewrite Hf, !Z.add_0_l.
Qed.

(** ** Witnesses

    Node b has announced the stream, and sends heartbeats; node a is asked for it. *)

Definition example_answer : hls_answer := Redirect 307 "/hls/cam/index.m3u8" "2".

