(* ===== verification/Recordings.v ===== *)
(** * Recordings

    [internal/minio/client.go] and [internal/api/playback.go]: the keys under which
    segments are uploaded, the recordings of a stream, newest first, and the streams
    that have some. The object store is an argument: the listing of a prefix, each
    entry an object or an error, and the presigned URL of an object. *)

From stdpp Require Import pretty.
From S2P Require Import Prelude GoStrings Streams.
From S2P Require Urls.

Record Object := mkObject { o_Key : string; o_Size : Z; o_LastModified : Time }.

Record RecordingInfo := mkRecording {
  ObjectKey : string; StreamKey : string; Size : Z; LastModified : Time; PresignedURL : string }.

Definition prefix : string := "recordings/".

(** [UploadSegment]: the key of a segment uploaded at [ms]. *)
Definition segment_key (streamKey : string) (ms : Z) : string :=
  prefix +:+ streamKey +:+ "/" +:+ pretty ms +:+ ".flv".

Definition stream_prefix (streamKey : string) : string := prefix +:+ streamKey +:+ "/".

(** The loop of [ListRecordings]: an object that cannot be presigned is skipped. *)
Fixpoint collect (presign : string -> result string string) (streamKey : string)
    (objs : list (result string Object)) : result string (list RecordingInfo) :=
  match objs with
  | [] => Ok []
  | Err e :: _ => Err e
  | Ok o :: objs =>
      let? rest := collect presign streamKey objs in
      match presign (o_Key o) with
      | Err _ => Ok rest
      | Ok url => Ok (mkRecording (o_Key o) streamKey (o_Size o) (o_LastModified o) url :: rest)
      end
  end.

(** [After] sorts newest first; the order of equal dates is open. *)
Definition newer (a b : RecordingInfo) : Prop := LastModified b <= LastModified a.
#[export] Instance newer_dec a b : Decision (newer a b) := decide (_ <= _).

Definition ListRecordings (ListObjects : string -> list (result string Object))
    (presign : string -> result string string) (streamKey : string) : result string (list RecordingInfo) :=
  let? items := collect presign streamKey (ListObjects (stream_prefix streamKey)) in
  Ok (merge_sort newer items).

(** The stream an object is counted for. *)
Definition first_part (key : string) : option string :=
  match Split Urls.slash (TrimPrefix key prefix) with
  | p :: _ :: _ => if bool_decide (p = "") then None else Some p
  | _ => None
  end.

Fixpoint seen_keys (seen : gset string) (objs : list (result string Object)) : result string (gset string) :=
  match objs with
  | [] => Ok seen
  | Err e :: _ => Err e
  | Ok o :: objs => seen_keys (from_option (fun p => {[p]} ∪ seen) seen (first_part (o_Key o))) objs
  end.

Definition AllStreamKeys (ListObjects : string -> list (result string Object)) : result string (list string) :=
  let? seen := seen_keys ∅ (ListObjects prefix) in
  Ok (merge_sort String.le (elements seen)).

(** ** Handlers *)

Inductive playback_answer :=
  | PlaybackError (status : Z) (m : string)
  | StreamsAre (streams : list string) (total : Z) (source : string)
  | RecordingsAre (key : string) (total available_total : Z) (l : list RecordingInfo)
  | PlaybackPanic.

(** [minio], [mtx]: the clients, when there are. *)
Definition listRecordingStreams (minio : option (string -> list (result string Object)))
    (mtx : option (result string (list PathInfo))) : playback_answer :=
  match minio with
  | None =>
      match mtx with
      | Some (Err e) => PlaybackError 502 e
      | Some (Ok paths) => StreamsAre (Name <$> paths) (Z.of_nat (length paths)) "mediamtx"
      | None => PlaybackError 503 "minio is disabled or unavailable"
      end
  | Some objs =>
      match AllStreamKeys objs with
      | Err e => PlaybackError 500 e
      | Ok keys => StreamsAre keys (Z.of_nat (length keys)) ""
      end
  end.

Definition listRecordings (minio : option (string -> list (result string Object)))
    (presign : string -> result string string) (key limit : string) : playback_answer :=
  match minio with
  | None => PlaybackError 503 "minio is disabled or unavailable; use /playback/{key}/timespans for mediamtx playback"
  | Some objs =>
      if bool_decide (key = "") then PlaybackError 400 "stream key is required"
      else match ListRecordings objs presign key with
      | Err e => PlaybackError 500 e
      | Ok recordings =>
          match limited limit recordings with
          | None => PlaybackPanic
          | Some l => RecordingsAre key (Z.of_nat (length l)) (Z.of_nat (length recordings)) l
          end
      end
  end.

(** ** Lemmas *)

Lemma collect_Ok presign key objs l :
  collect presign key objs = Ok l ->
  (exists os, objs = Ok <$> os) /\
  forall r, r ∈ l <-> exists o url, Ok o ∈ objs /\ presign (o_Key o) = Ok url /\
    r = mkRecording (o_Key o) key (o_Size o) (o_LastModified o) url.
Proof.
  revert l. induction objs as [|[o|e] objs IH]; intros l; cbn [collect]; [|destruct (collect presign key objs) as [rest|e0]|done].
  - intros [= <-]. split; [by exists []|]. intros r. split; [by intros ?%elem_of_nil|by intros (? & ? & ?%elem_of_nil & _)].
  - intros H. destruct (IH rest eq_refl) as [[os ->] Hr]. split; [by exists (o :: os)|]. intros r.
    setoid_rewrite elem_of_cons. destruct (presign (o_Key o)) as [url|e] eqn:Ep; injection H as <-.
    + rewrite elem_of_cons, Hr. split; [naive_solver|]. intros (o' & url' & [[= ->]|Ho] & Hp & ->); [left; congruence|eauto 6].
    + rewrite Hr. split; [naive_solver|]. intros (o' & url' & [[= ->]|Ho] & Hp & ->); [congruence|eauto 6].
  - done.
Qed.

Lemma seen_keys_Ok objs : forall seen s,
  seen_keys seen objs = Ok s -> forall k, k ∈ s <-> k ∈ seen \/ exists o, Ok o ∈ objs /\ first_part (o_Key o) = Some k.
Proof.
  induction objs as [|[o|e] objs IH]; intros seen s; cbn [seen_keys]; [| |done].
  - intros [= <-] k. split; [by left|]. intros [?|(o & ?%elem_of_nil & _)]; done.
  - intros H k. rewrite (IH _ _ H). setoid_rewrite elem_of_cons. destruct (first_part (o_Key o)) as [p|] eqn:Ep; cbn.
    + rewrite elem_of_union, elem_of_singleton. split; [|naive_solver].
      intros [[->|?]|(o' & ? & ?)]; [right; exists o; naive_solver|by left|right; eauto].
    + split; [naive_solver|]. intros [?|(o' & [[= ->]|?] & ?)]; [by left|congruence|right; eauto].
Qed.

Lemma seen_keys_is_ok objs : forall seen, is_ok (seen_keys seen objs) = forallb is_ok objs.
Proof. induction objs as [|[o|e] objs IH]; intros seen; cbn; [done|apply IH|done]. Qed.

Lemma Split_first sep a b : contains_byte sep a = false -> exists l, Split sep (a +:+ String sep b) = a :: l /\ l <> [].
Proof.
  intros Ha. rewrite Split_app by done. exists (Split sep b). split; [done|]. by destruct b; cbn; repeat case_match.
Qed.

(** The first component of a stream key. *)
Definition camera_of (streamKey : string) : string := before Urls.slash streamKey.

Lemma before_no_sep c s : contains_byte c (before c s) = false.
Proof.
  induction s as [|a s IH]; [done|]. cbn [before]. case_bool_decide as Ha; [done|]. cbn [contains_byte].
  by rewrite bool_decide_false, IH.
Qed.

Lemma before_cases c s : s = before c s \/ exists rest, s = before c s +:+ String c rest.
Proof.
  induction s as [|a s IH]; [by left|]. cbn [before]. case_bool_decide as Ha.
  - subst. right. by exists s.
  - destruct IH as [IH|[rest IH]]; [left; exact (f_equal (String a) IH)|right; exists rest; exact (f_equal (String a) IH)].
Qed.

(** The key of a segment starts with the camera, whatever follows. *)
Lemma segment_key_camera streamKey ms :
  exists rest, segment_key streamKey ms = prefix +:+ camera_of streamKey +:+ String Urls.slash rest.
Proof.
  unfold segment_key, camera_of. destruct (before_cases Urls.slash streamKey) as [H|[rest H]].
  - exists (pretty ms +:+ ".flv"). by rewrite <- H.
  - exists (rest +:+ "/" +:+ pretty ms +:+ ".flv"). rewrite H at 1. by rewrite !app_string_assoc.
Qed.

Lemma first_part_segment streamKey ms :
  camera_of streamKey <> "" -> first_part (segment_key streamKey ms) = Some (camera_of streamKey).
Proof.
  intros Hne. destruct (segment_key_camera streamKey ms) as [rest ->]. unfold first_part, TrimPrefix.
  rewrite strip_prefix_app. cbn [from_option id].
  destruct (Split_first Urls.slash (camera_of streamKey) rest) as (l & -> & Hl); [apply before_no_sep|].
  destruct l as [|x l]; [done|]. by rewrite bool_decide_false.
Qed.

Lemma HasPrefix_segment streamKey ms k :
  k = streamKey \/ k = camera_of streamKey -> HasPrefix (segment_key streamKey ms) (stream_prefix k) = true.
Proof.
  unfold stream_prefix. intros [->| ->].
  - unfold segment_key. rewrite <- !app_string_assoc, app_string_assoc. apply HasPrefix_app.
  - destruct (segment_key_camera streamKey ms) as [rest ->]. change (String Urls.slash rest) with ("/" +:+ rest).
    rewrite <- !app_string_assoc. apply HasPrefix_app.
Qed.

Lemma newer_total : Total newer.
Proof. intros a b. unfold newer. lia. Qed.

Lemma newer_trans : Transitive newer.
Proof. intros a b c. unfold newer. lia. Qed.

Lemma ListRecordings_Ok objs presign key l :
  ListRecordings objs presign key = Ok l ->
  StronglySorted newer l /\
  forall r, r ∈ l <-> exists o url, Ok o ∈ objs (stream_prefix key) /\ presign (o_Key o) = Ok url /\
    r = mkRecording (o_Key o) key (o_Size o) (o_LastModified o) url.
Proof.
  unfold ListRecordings. destruct (collect _ _ _) as [items|e] eqn:Ec; [|done]. intros [= <-].
  apply collect_Ok in Ec as [_ Hr]. split; [apply StronglySorted_merge_sort; [exact newer_trans|exact newer_total]|].
  intros r. by rewrite merge_sort_Permutation.
Qed.

Lemma collect_is_ok presign key objs : is_ok (collect presign key objs) = forallb is_ok objs.
Proof.
  induction objs as [|[o|e] objs IH]; cbn [collect forallb]; [done| |done]. rewrite <- IH.
  destruct (collect presign key objs); [|done]. by destruct (presign (o_Key o)).
Qed.

Lemma forallb_ok {E A} (l : list (result E A)) : (forall x, x ∈ l -> is_ok x = true) -> forallb is_ok l = true.
Proof. intros H. apply forallb_forall. intros x Hx. by apply H, list_elem_of_In. Qed.

(** ** Properties *)

(** the streams with recordings, each once and in order: the first path component of
    the objects, where there is a second one. The listing fails exactly when an entry
    is an error. *)
Theorem AllStreamKeys_spec ListObjects :
  is_ok (AllStreamKeys ListObjects) = forallb is_ok (ListObjects prefix) /\
  forall keys, AllStreamKeys ListObjects = Ok keys ->
    NoDup keys /\ StronglySorted String.le keys /\
    forall k, k ∈ keys <-> exists o, Ok o ∈ ListObjects prefix /\ first_part (o_Key o) = Some k.
Proof.
  unfold AllStreamKeys. split.
  - rewrite <- (seen_keys_is_ok _ ∅). by destruct (seen_keys _ _).
  - intros keys. destruct (seen_keys _ _) as [s|e] eqn:Es; [|done]. intros [= <-]. split_and!.
    + rewrite merge_sort_Permutation. apply NoDup_elements.
    + apply StronglySorted_merge_sort; apply _.
    + intros k. rewrite merge_sort_Permutation, elem_of_elements, (seen_keys_Ok _ _ _ Es). set_solver.
Qed.

(** C27: what is uploaded is found again. With a store that lists what it holds, a segment
    uploaded for a stream is among the recordings of its stream key, with its URL, and
    the streams listed hold the first component of that key, under which the
    recordings hold the segment too. Only for a key without a slash is it the key
    itself: those of the engine, camera/profile, are not listed. *)
Theorem recordings_found_again (ListObjects : string -> list (result string Object)) presign (stored : list Object) streamKey ms size t url :
  (forall p x, x ∈ ListObjects p <-> exists o, x = Ok o /\ o ∈ stored /\ HasPrefix (o_Key o) p = true) ->
  camera_of streamKey <> "" -> mkObject (segment_key streamKey ms) size t ∈ stored ->
  presign (segment_key streamKey ms) = Ok url ->
  (exists keys, AllStreamKeys ListObjects = Ok keys /\ camera_of streamKey ∈ keys) /\
  (forall k, k = streamKey \/ k = camera_of streamKey ->
     exists l, ListRecordings ListObjects presign k = Ok l /\ mkRecording (segment_key streamKey ms) k size t url ∈ l) /\
  (camera_of streamKey = streamKey <-> contains_byte Urls.slash streamKey = false).
Proof.
  intros HL Hne Hin Hurl.
  assert (forall p, forallb is_ok (ListObjects p) = true) as Hok.
  { intros p. apply forallb_ok. by intros x (o & -> & _)%HL. }
  split_and!.
  - unfold AllStreamKeys. pose proof (seen_keys_is_ok (ListObjects prefix) ∅) as Hs. rewrite Hok in Hs.
    destruct (seen_keys ∅ (ListObjects prefix)) as [s|] eqn:Es; [|done]. eexists. split; [done|].
    rewrite merge_sort_Permutation, elem_of_elements, (seen_keys_Ok _ _ _ Es). right.
    exists (mkObject (segment_key streamKey ms) size t). split; [|by apply first_part_segment].
    apply HL. eexists. split_and!; [done|done|]. cbn. unfold segment_key. apply HasPrefix_app.
  - intros k Hk. pose proof (collect_is_ok presign k (ListObjects (stream_prefix k))) as Hc. rewrite Hok in Hc.
    destruct (ListRecordings ListObjects presign k) as [l|e] eqn:El.
    + exists l. split; [done|]. apply ListRecordings_Ok in El as [_ Hr]. apply Hr.
      exists (mkObject (segment_key streamKey ms) size t), url. split_and!; [|done|done].
      apply HL. eexists. split_and!; [done|done|]. by apply HasPrefix_segment.
    + exfalso. revert El. unfold ListRecordings. by destruct (collect _ _ _).
  - unfold camera_of. split; [intros <-; apply before_no_sep|]. intros Hc.
    destruct (before_cases Urls.slash streamKey) as [H|[rest H]]; [done|].
    exfalso. clear -Hc H. revert Hc. rewrite H. generalize (before Urls.slash streamKey). intros b Hb.
    induction b as [|a b IH]; cbn in Hb; [done|]. apply orb_false_iff in Hb as [_ Hb]. by apply IH.
Qed.

(** a limited list holds the newest recordings: sorted newest first, every
    recording left out is no newer than any that is returned, and the two totals are
    the numbers of returned and of available recordings. It never panics. *)
Theorem listRecordings_newest objs presign key limit :
  key <> "" ->
  (exists e, listRecordings (Some objs) presign key limit = PlaybackError 500 e) \/
  exists all n, ListRecordings objs presign key = Ok all /\
    listRecordings (Some objs) presign key limit
      = RecordingsAre key (Z.of_nat n) (Z.of_nat (length all)) (take n all) /\
    (n <= length all)%nat /\ StronglySorted newer all /\
    forall a b, a ∈ take n all -> b ∈ drop n all -> LastModified b <= LastModified a.
Proof.
  intros Hk. unfold listRecordings. rewrite bool_decide_false by done.
  destruct (ListRecordings objs presign key) as [all|e] eqn:El; [right|left; eauto].
  destruct (limited_prefix limit all) as (n & -> & Hn & _).
  exists all, n. rewrite length_take_le by done. apply ListRecordings_Ok in El as [Hs _].
  split_and!; [done|done|done|done|]. intros a b Ha Hb'.
  rewrite <- (take_drop n all) in Hs. by apply (StronglySorted_app_1_elem_of _ _ _ _ _ Hs Ha Hb').
Qed.

(** ** Witnesses

    Two segments of a camera's profile, and an older one of another camera. *)

Definition example_stored : list Object :=
  [mkObject "recordings/cam/hd/5000.flv" 10 5; mkObject (segment_key "cam/hd" 7000) 20 7;
   mkObject (segment_key "door" 1000) 30 1].
Definition example_list (p : string) : list (result string Object) :=
  Ok <$> filter (fun o => HasPrefix (o_Key o) p = true) example_stored.
Definition example_presign (key : string) : result string string := Ok ("https://s3/" +:+ key).

Lemma example_list_spec p x :
  x ∈ example_list p <-> exists o, x = Ok o /\ o ∈ example_stored /\ HasPrefix (o_Key o) p = true.
Proof.
  unfold example_list. rewrite list_elem_of_fmap. setoid_rewrite list_elem_of_filter. naive_solver.
Qed.

Lemma recordings_found_again_witness :
  AllStreamKeys example_list = Ok ["cam"; "door"] /\
  exists l, ListRecordings example_list example_presign "cam" = Ok l /\
    mkRecording "recordings/cam/hd/7000.flv" "cam" 20 7 "https://s3/recordings/cam/hd/7000.flv" ∈ l.
Proof.
  split; [vm_compute; reflexivity|].
  destruct (recordings_found_again example_list example_presign example_stored "cam/hd" 7000 20 7
    "https://s3/recordings/cam/hd/7000.flv" example_list_spec) as (_ & H & _).
  - vm_compute. discriminate.
  - apply elem_of_cons; right; apply elem_of_cons; left; reflexivity.
  - vm_compute. reflexivity.
  - exact (H "cam" (or_intror eq_refl)).
Defined.

(** Of the two, the limit leaves the newer. *)
Lemma listRecordings_newest_witness :
  exists all, listRecordings (Some example_list) example_presign "cam" "1"
      = RecordingsAre "cam" 1 (Z.of_nat (length all)) (take 1 all) /\ length all = 2%nat /\
    StronglySorted newer all.
Proof.
  destruct (listRecordings_newest example_list example_presign "cam" "1" ltac:(discriminate))
    as [[e H]|(all & n & HL & H & _ & Hs & _)]; [vm_compute in H; discriminate H|].
  exists all. split; [|split; [|exact Hs]].
  - pose proof (f_equal (fun a => match a with RecordingsAre _ t _ _ => t | _ => 0 end) H) as Hn.
    assert (match listRecordings (Some example_list) example_presign "cam" "1" with
            | RecordingsAre _ t _ _ => t | _ => 0 end = 1) as H1 by (vm_compute; reflexivity).
    cbn beta in Hn. rewrite H1 in Hn. assert (n = 1%nat) as -> by lia. exact H.
  - pose proof (f_equal (fun r => match r with Ok l => length l | Err _ => 0%nat end) HL) as Hn.
    rewrite <- Hn. vm_compute. reflexivity.
Defined.
