(* ===== verification/Onvif.v ===== *)
(** * ONVIF cameras

    [internal/onvif/client.go], [nic.go] and the handlers of [internal/api/onvif.go]:
    which of a camera's profiles become its main and its sub stream, how their URLs
    are fetched and rewritten, snapshots, device information and movement. A camera
    is the answers it gives to the calls of the ONVIF library, decoded; how
    [net/url] splits a URL is the class [URLParser]. *)

From stdpp Require Import pretty.
From S2P Require Import Prelude GoStrings.
From S2P Require Camera.

(** ** Profiles *)

Record cProfile := mkProfile {
  Token : string; Name : string; SourceToken : string; Width : Z; Height : Z; PTZ : bool }.

(** The product of two [int]s. *)
Definition resolution (p : cProfile) : Z := i64 (Width p * Height p).

Definition has_any (s : string) (subs : list string) : bool := existsb (Contains s) subs.
Definition main_named (p : cProfile) : bool := has_any (ToLower (Name p)) ["main"; "primary"; "hd"].
Definition sub_named (p : cProfile) : bool := has_any (ToLower (Name p)) ["sub"; "secondary"; "sd"].

(** An index, or the -1 of the code. *)
Notation index := (option nat).

(** Phase 1 *)
Fixpoint by_keyword (i : nat) (ps : list cProfile) (mainIdx subIdx : index) : index * index :=
  match ps with
  | [] => (mainIdx, subIdx)
  | p :: ps =>
      if bool_decide (mainIdx = None) && main_named p then by_keyword (S i) ps (Some i) subIdx
      else if bool_decide (subIdx = None) && sub_named p then by_keyword (S i) ps mainIdx (Some i)
      else by_keyword (S i) ps mainIdx subIdx
  end.

(** The variables of phase 2. *)
Record Pick := mkPick { mainIdx : index; subIdx : index; maxRes : Z; minRes : Z; usedSrc : gset string }.

Definition max_int : Z := 2 ^ 63 - 1.

Definition pick_one (i : nat) (p : cProfile) (k : Pick) : Pick :=
  if bool_decide (SourceToken p ∈ usedSrc k) then k
  else if bool_decide (mainIdx k = None) && (maxRes k <? resolution p)
  then mkPick (Some i) (subIdx k) (resolution p) (minRes k) ({[SourceToken p]} ∪ usedSrc k)
  else if bool_decide (mainIdx k <> None) && bool_decide (subIdx k = None) && bool_decide (Some i <> mainIdx k)
          && (resolution p <? minRes k)
  then mkPick (mainIdx k) (Some i) (maxRes k) (resolution p) ({[SourceToken p]} ∪ usedSrc k)
  else k.

Fixpoint pick_all (i : nat) (ps : list cProfile) (k : Pick) : Pick :=
  match ps with [] => k | p :: ps => pick_all (S i) ps (pick_one i p k) end.

(** The last loop: the smallest of the others. *)
Fixpoint smallest (i : nat) (ps : list cProfile) (mainIdx : index) (minRes : Z) (subIdx : index) : index :=
  match ps with
  | [] => subIdx
  | p :: ps =>
      if bool_decide (Some i <> mainIdx) && (resolution p <? minRes)
      then smallest (S i) ps mainIdx (resolution p) (Some i)
      else smallest (S i) ps mainIdx minRes subIdx
  end.

Definition classifyProfiles (ps : list cProfile) : index * index :=
  let '(m, s) := by_keyword 0 ps None None in
  if bool_decide (m = None) || bool_decide (s = None) then
    let k := pick_all 0 ps (mkPick m s 0 max_int ∅) in
    if bool_decide (mainIdx k <> None) && bool_decide (subIdx k = None)
    then (mainIdx k, smallest 0 ps (mainIdx k) (minRes k) None)
    else (mainIdx k, subIdx k)
  else (m, s).

(** ** [strings.ReplaceAll] *)

(** [skip] bytes of the match are left. *)
Fixpoint replace_from (skip : nat) (old new s : string) : string :=
  match s with
  | EmptyString => ""
  | String a rest =>
      match skip with
      | S skip => replace_from skip old new rest
      | O => if HasPrefix s old then new +:+ replace_from (String.length old - 1) old new rest
             else String a (replace_from 0 old new rest)
      end
  end.

(** The empty string matches before each rune and at the end; [skip] bytes of the
    current rune are left. *)
Fixpoint interleave (skip : nat) (new s : string) : string :=
  match s with
  | EmptyString => new
  | String a rest =>
      match skip with
      | S skip => String a (interleave skip new rest)
      | O => new +:+ String a (interleave (rune_len a rest - 1) new rest)
      end
  end.

Definition ReplaceAll (s old new : string) : string :=
  if bool_decide (old = new) then s
  else if bool_decide (old = "") then interleave 0 new s else replace_from 0 old new s.

(** ** Cameras *)

Record ParsedURL := mkURL { Hostname : string; Port : string; HasUser : bool }.

(** [net/url]: the parse of a URL, and the URL with credentials put in. *)
Class URLParser := {
  Parse : string -> result string ParsedURL;
  WithUser : string -> string -> string -> string;
}.

Record DeviceInfo := mkInfo {
  Manufacturer : string; Model : string; FirmwareVersion : string; SerialNumber : string; HardwareID : string }.

(** The answers of a camera: of each call, an error or what the body decodes to. *)
Record CameraAnswers := mkAnswers {
  NewDevice : string -> string -> string -> option string;
  GetProfiles : result string (Z * result string (list cProfile));
  GetSnapshotUri : string -> result string (result string string);
  GetStreamUri : string -> result string (result string string);
  GetDeviceInformation : result string (Z * result string DeviceInfo);
  ContinuousMove : string -> option string;
  MoveStop : string -> option string;
  SystemReboot : option string }.

Inductive failure := Fail (e : string) | Panic.

Section Client.
Context `{U : URLParser} (cam : CameraAnswers).

Definition address (u : ParsedURL) : string := Hostname u +:+ ":" +:+ Port u.

Definition normalizeHost (rtspURL deviceHostname : string) : string :=
  match Parse rtspURL with
  | Err _ => rtspURL
  | Ok u => if bool_decide (Hostname u = deviceHostname) then rtspURL
            else ReplaceAll rtspURL (Hostname u) deviceHostname
  end.

Definition fetchStreamURI (token : string) : result string string :=
  match GetStreamUri cam token with
  | Err e => Err ("GetStreamUri: " +:+ e)
  | Ok (Err e) => Err ("parse StreamUri: " +:+ e)
  | Ok (Ok uri) => Ok uri
  end.

(** The loop over the profiles; the result are the main and the sub stream. *)
Fixpoint fetch_streams (i : nat) (ps : list cProfile) (mainIdx subIdx : index) (host : string)
    (streams : string * string) : result string (string * string) :=
  match ps with
  | [] => Ok streams
  | p :: ps =>
      if bool_decide (Some i <> mainIdx) && bool_decide (Some i <> subIdx)
      then fetch_streams (S i) ps mainIdx subIdx host streams
      else match fetchStreamURI (Token p) with
      | Err e => Err e
      | Ok rtsp =>
          let rtsp := normalizeHost rtsp host in
          fetch_streams (S i) ps mainIdx subIdx host
            (if bool_decide (Some i = mainIdx) then (rtsp, snd streams) else (fst streams, rtsp))
      end
  end.

Definition GetStreams (xaddr username password : string) : result failure Camera.StreamInfo :=
  match Parse xaddr with
  | Err e => Err (Fail ("invalid xaddr " +:+ quote xaddr +:+ ": " +:+ e))
  | Ok u =>
  match NewDevice cam (address u) username password with
  | Some e => Err (Fail ("connect to " +:+ xaddr +:+ ": " +:+ e))
  | None =>
  match GetProfiles cam with
  | Err e => Err (Fail ("GetProfiles: " +:+ e))
  | Ok (status, body) =>
  if negb (status =? 200) then Err (Fail ("GetProfiles returned " +:+ pretty status))
  else match body with
  | Err e => Err (Fail ("parse profiles: " +:+ e))
  | Ok [] => Err (Fail "no profiles found on device")
  | Ok profiles =>
      let '(mainIdx, subIdx) := classifyProfiles profiles in
      match mainIdx ≫= (fun i => profiles !! i) with
      | None => Err Panic
      | Some mainProfile =>
          let snapshot := is_ok (GetSnapshotUri cam (Token mainProfile)) in
          match fetch_streams 0 profiles mainIdx subIdx (Hostname u) ("", "") with
          | Err e => Err (Fail e)
          | Ok (main, sub) => Ok (Camera.mkStreamInfo main sub (PTZ mainProfile) snapshot)
          end
      end
  end end end end.

(** The token of the main profile, for the calls that need one. *)
Definition main_token (none : string) (xaddr username password : string) : result failure string :=
  match Parse xaddr with
  | Err e => Err (Fail e)
  | Ok u =>
  match NewDevice cam (address u) username password with
  | Some e => Err (Fail e)
  | None =>
  match GetProfiles cam with
  | Err e => Err (Fail e)
  | Ok (_, Err e) => Err (Fail e)
  | Ok (_, Ok []) => Err (Fail none)
  | Ok (_, Ok profiles) =>
      match fst (classifyProfiles profiles) ≫= (fun i => profiles !! i) with
      | None => Err Panic
      | Some p => Ok (Token p)
      end
  end end end.

Definition GetSnapshotURI (xaddr username password : string) : result failure string :=
  let? token := main_token "no profiles found" xaddr username password in
  match GetSnapshotUri cam token with
  | Err e => Err (Fail e)
  | Ok (Err e) => Err (Fail e)
  | Ok (Ok uri) =>
      if bool_decide (uri = "") then Err (Fail "device did not return a snapshot URI")
      else match Parse uri with
      | Ok u => if negb (HasUser u) then Ok (WithUser uri username password) else Ok uri
      | Err _ => Ok uri
      end
  end.

Definition PTZMove (xaddr username password : string) : option failure :=
  match main_token "no profiles found for ptz" xaddr username password with
  | Err e => Some e
  | Ok token => Fail <$> ContinuousMove cam token
  end.

Definition PTZStop (xaddr username password : string) : option failure :=
  match main_token "no profiles found for ptz" xaddr username password with
  | Err e => Some e
  | Ok token => Fail <$> MoveStop cam token
  end.

Definition GetDeviceInfo (xaddr username password : string) : result string DeviceInfo :=
  match Parse xaddr with
  | Err e => Err ("invalid xaddr " +:+ quote xaddr +:+ ": " +:+ e)
  | Ok u =>
  match NewDevice cam (address u) username password with
  | Some e => Err ("connect to " +:+ xaddr +:+ ": " +:+ e)
  | None =>
  match GetDeviceInformation cam with
  | Err e => Err ("GetDeviceInformation: " +:+ e)
  | Ok (status, body) =>
      if status =? 401 then Err "unauthorized: check username/password"
      else match body with
      | Err e => Err ("parse DeviceInformation: " +:+ e)
      | Ok info => Ok info
      end
  end end end.

Definition Reboot (xaddr username password : string) : option string :=
  match Parse xaddr with
  | Err e => Some e
  | Ok u => match NewDevice cam (address u) username password with
            | Some e => Some e
            | None => SystemReboot cam
            end
  end.

(** [ONVIFAdapter.Resolve] with the call of [onvif.GetStreams] it makes. *)
Definition Resolve (params : Camera.ResolveParams)
  : result failure (result Camera.adapter_error Camera.CameraStream) :=
  if bool_decide (Camera.r_Endpoint params = "") then Ok (Camera.ONVIFAdapter_Resolve (Err "") params)
  else match GetStreams (Camera.r_Endpoint params) (Camera.r_Username params) (Camera.r_Password params) with
  | Err Panic => Err Panic
  | Err (Fail e) => Ok (Camera.ONVIFAdapter_Resolve (Err e) params)
  | Ok info => Ok (Camera.ONVIFAdapter_Resolve (Ok info) params)
  end.

(** ** The handlers *)

Inductive reply :=
  | Error (status : Z)
  | Found (devices : list string)
  | Device (info : DeviceInfo)
  | Stream (stream : Camera.CameraStream)
  | Image (data : string)
  | Done.

(** A panic is answered by [middleware.Recoverer]. *)
Definition recovered (f : failure) : reply := match f with Panic => Error 500 | Fail _ => Error 502 end.

Definition onvifGetInfo (endpoint username password : string) : reply :=
  if bool_decide (endpoint = "") then Error 400
  else match GetDeviceInfo endpoint username password with Err _ => Error 502 | Ok info => Device info end.

Definition onvifResolve (body : option Camera.ResolveParams) : reply :=
  match body with
  | None => Error 400
  | Some params =>
      if bool_decide (Camera.r_Endpoint params = "") then Error 400
      else match Resolve params with
      | Err f => recovered f
      | Ok (Err _) => Error 502
      | Ok (Ok stream) => Stream stream
      end
  end.

(** [Get]: the image at a URL, or the error of [http.Get]. *)
Definition onvifSnapshot (Get : string -> result string string) (endpoint username password : string) : reply :=
  if bool_decide (endpoint = "") then Error 400
  else match GetSnapshotURI endpoint username password with
  | Err f => recovered f
  | Ok uri => match Get uri with Err _ => Error 502 | Ok data => Image data end
  end.

(** The endpoint, the credentials and whether to stop. *)
Definition onvifPTZ (body : option (string * string * string * bool)) : reply :=
  match body with
  | None => Error 400
  | Some (endpoint, username, password, stop) =>
      match (if stop then PTZStop else PTZMove) endpoint username password with
      | Some f => recovered f
      | None => Done
      end
  end.

Definition onvifReboot (body : option (string * string * string)) : reply :=
  match body with
  | None => Error 400
  | Some (endpoint, username, password) =>
      match Reboot endpoint username password with Some _ => Error 502 | None => Done end
  end.

(** The source named by the body, "" if none, and the other parameters. *)
Definition cameraResolve (body : option (string * Camera.ResolveParams)) : reply :=
  match body with
  | None => Error 400
  | Some (source, params) =>
      if bool_decide (source = "onvif") then
        match Resolve params with
        | Err f => recovered f
        | Ok (Err _) => Error 502
        | Ok (Ok stream) => Stream stream
        end
      else if bool_decide (source = "manual") || bool_decide (source = "") then
        match Camera.ManualAdapter_Resolve params with Err _ => Error 502 | Ok stream => Stream stream end
      else Error 400
  end.
End Client.

(** ** Discovery *)

Record Interface := mkInterface { if_Name : string; Loopback : bool; Up : bool }.

Definition listNICNames (ifaces : result string (list Interface)) : result string (list string) :=
  match ifaces with
  | Err e => Err ("list network interfaces: " +:+ e)
  | Ok l => Ok (if_Name <$> filter (fun i => Loopback i = false /\ Up i = true) l)
  end.

(** The endpoints not seen before. *)
Fixpoint new_endpoints (seen : gset string) (found : list string) : list string :=
  match found with
  | [] => []
  | e :: found => if bool_decide (e ∈ seen) then new_endpoints seen found
                  else e :: new_endpoints ({[e]} ∪ seen) found
  end.

(** [probe]: the endpoints that answer on an interface. Interfaces that fail are
    skipped. *)
Definition discoverMulticast (ifaces : result string (list Interface)) (probe : string -> result string (list string))
  : result string (list string) :=
  let? nics := listNICNames ifaces in
  Ok (new_endpoints ∅ (concat ((fun nic => match probe nic with Ok l => l | Err _ => [] end) <$> nics))).

Definition Discover (ifaces : result string (list Interface)) (probe : string -> result string (list string))
    (nicName : string) : result string (list string) :=
  if bool_decide (nicName = "") || bool_decide (nicName = "all") then discoverMulticast ifaces probe
  else match probe nicName with
  | Err e => Err ("discovery on " +:+ nicName +:+ ": " +:+ e)
  | Ok l => Ok l
  end.

Definition onvifDiscover (ifaces : result string (list Interface)) (probe : string -> result string (list string))
    (nic : string) : reply :=
  match Discover ifaces probe nic with Err _ => Error 500 | Ok devices => Found devices end.

(** ** Lemmas *)

(** The first index of a profile with a property. *)
Fixpoint first_index (f : cProfile -> bool) (i : nat) (ps : list cProfile) : index :=
  match ps with [] => None | p :: ps => if f p then Some i else first_index f (S i) ps end.

Lemma first_index_spec f ps : forall i,
  match first_index f i ps with
  | Some n => (i <= n)%nat /\ exists p, ps !! (n - i)%nat = Some p /\ f p = true /\
                forall q, q ∈ take (n - i) ps -> f q = false
  | None => forall p, p ∈ ps -> f p = false
  end.
Proof.
  induction ps as [|p ps IH]; intros i; cbn [first_index]; [by intros p ?%elem_of_nil|].
  destruct (f p) eqn:Ef.
  - split; [lia|]. rewrite Nat.sub_diag. exists p. split_and!; [done|done|by intros q ?%elem_of_nil].
  - specialize (IH (S i)). destruct (first_index f (S i) ps) as [n|].
    + destruct IH as [Hle (q & Hq & Hf & Hb)]. split; [lia|]. replace (n - i)%nat with (S (n - S i)) by lia.
      exists q. split_and!; [done|done|]. cbn [take]. intros x [->|Hx]%elem_of_cons; [done|by apply Hb].
    + intros x [->|Hx]%elem_of_cons; [done|by apply IH].
Qed.

Lemma by_keyword_main ps : forall i m s,
  fst (by_keyword i ps m s) = match m with Some n => Some n | None => first_index main_named i ps end.
Proof.
  induction ps as [|p ps IH]; intros i m s; [by destruct m|]. cbn [by_keyword first_index].
  destruct m as [n|]; cbn [bool_decide andb].
  - rewrite bool_decide_false by done. cbn [andb]. by destruct (_ && _); rewrite IH.
  - rewrite bool_decide_true by done. cbn [andb]. destruct (main_named p); [by rewrite IH|].
    by destruct (_ && _); rewrite IH.
Qed.

(** Phase 2 picks the first profile with a resolution, as long as there is no main one. *)
Lemma pick_all_main ps : forall i k,
  (mainIdx k = None -> maxRes k = 0 /\ usedSrc k = ∅) ->
  mainIdx (pick_all i ps k) =
    match mainIdx k with Some n => Some n | None => first_index (fun p => 0 <? resolution p) i ps end.
Proof.
  induction ps as [|p ps IH]; intros i k Hk; [cbn; by destruct (mainIdx k)|]. cbn [pick_all first_index].
  destruct (mainIdx k) as [n|] eqn:Em.
  - assert (mainIdx (pick_one i p k) = Some n) as Hp.
    { unfold pick_one. rewrite Em. rewrite (bool_decide_false (Some n = None)) by done. cbn [andb]. by repeat case_match. }
    rewrite IH, Hp; [done|]. by rewrite Hp.
  - destruct (Hk eq_refl) as [Hmax Hused]. unfold pick_one at 1. rewrite Hused, Em, Hmax.
    rewrite bool_decide_false by set_solver. rewrite (bool_decide_true (None = None)) by done. cbn [andb].
    destruct (0 <? resolution p) eqn:Er.
    + rewrite IH; [done|done].
    + rewrite (bool_decide_false (None <> None)) by naive_solver. cbn [andb]. rewrite IH, Em; [done|]. by rewrite Em.
Qed.

(** The main profile: the first one named so, else the first with a resolution. *)
Definition main_profile (ps : list cProfile) : index :=
  match first_index main_named 0 ps with
  | Some n => Some n
  | None => first_index (fun p => 0 <? resolution p) 0 ps
  end.

Lemma classify_main ps : fst (classifyProfiles ps) = main_profile ps.
Proof.
  unfold classifyProfiles, main_profile. pose proof (by_keyword_main ps 0 None None) as Hm.
  destruct (by_keyword 0 ps None None) as [m s]. cbn [fst] in Hm. subst m.
  pose proof (pick_all_main ps 0 (mkPick (first_index main_named 0 ps) s 0 max_int ∅)) as Hp. cbn in Hp.
  destruct (bool_decide _ || bool_decide _) eqn:Eb.
  - rewrite <- Hp by done. by destruct (_ && _).
  - cbn. destruct (first_index main_named 0 ps); [done|]. by rewrite bool_decide_true in Eb.
Qed.

Lemma ReplaceAll_empty new : ReplaceAll "" "" new = new.
Proof. unfold ReplaceAll. case_bool_decide; [done|]. by rewrite bool_decide_true. Qed.

Lemma append_nonempty (a b : string) : a <> "" -> a +:+ b <> "".
Proof. by destruct a. Qed.

Lemma ReplaceAll_nonempty s old new : s <> "" -> new <> "" -> ReplaceAll s old new <> "".
Proof.
  intros Hs Hn. unfold ReplaceAll. case_bool_decide; [done|]. destruct s as [|a s]; [done|].
  case_bool_decide; cbn [interleave replace_from]; [by apply append_nonempty|].
  destruct (HasPrefix _ _); [by apply append_nonempty|done].
Qed.

Section Facts.
Context `{U : URLParser} (cam : CameraAnswers).

(** [net/url] parses the empty string, to a URL without host. *)
Definition parses_empty : Prop := exists u, Parse "" = Ok u /\ Hostname u = "".

Lemma normalizeHost_nonempty s host : parses_empty -> host <> "" -> normalizeHost s host <> "".
Proof.
  intros (u & Hu & He) Hh. unfold normalizeHost. destruct (decide (s = "")) as [->|Hs].
  - rewrite Hu, He, bool_decide_false by done. by rewrite ReplaceAll_empty.
  - destruct (Parse s); [|done]. case_bool_decide; [done|]. by apply ReplaceAll_nonempty.
Qed.

(** The main stream is set once its profile is reached, and kept. *)
Lemma fetch_streams_main ps m s host : forall i streams out,
  parses_empty -> host <> "" -> fetch_streams cam i ps (Some m) s host streams = Ok out ->
  fst streams <> "" \/ (i <= m < i + length ps)%nat -> fst out <> "".
Proof.
  induction ps as [|p ps IH]; intros i streams out He Hh; cbn [fetch_streams length].
  { intros [= <-] [|]; [done|lia]. }
  destruct (bool_decide (Some i <> Some m) && bool_decide (Some i <> s)) eqn:Eb.
  { intros Hf Hm. eapply (IH _ _ _ He Hh Hf). destruct Hm as [|Hm]; [by left|right].
    apply andb_true_iff in Eb as [?%bool_decide_eq_true _]. assert (i <> m) by congruence. lia. }
  destruct (fetchStreamURI cam (Token p)) as [rtsp|e]; [|done]. intros Hf Hm.
  eapply (IH _ _ _ He Hh Hf). case_bool_decide as Ei.
  - left. by apply normalizeHost_nonempty.
  - destruct Hm as [|Hm]; [by left|right]. assert (i <> m) by congruence. lia.
Qed.

Lemma main_profile_spec ps :
  match main_profile ps with
  | Some n => exists p, ps !! n = Some p
  | None => forall p, p ∈ ps -> main_named p = false /\ resolution p <= 0
  end.
Proof.
  unfold main_profile. pose proof (first_index_spec main_named ps 0) as H1.
  pose proof (first_index_spec (fun p => 0 <? resolution p) ps 0) as H2.
  destruct (first_index main_named 0 ps) as [n|].
  { destruct H1 as (_ & p & Hp & _). exists p. by rewrite Nat.sub_0_r in Hp. }
  destruct (first_index _ 0 ps) as [n|].
  { destruct H2 as (_ & p & Hp & _). exists p. by rewrite Nat.sub_0_r in Hp. }
  intros p Hp. split; [by apply H1|]. specialize (H2 p Hp). lia.
Qed.
End Facts.

(** ** Properties *)

(** C40: On a camera that answers with a list of profiles, [GetStreams] panics, by
    the index -1, exactly when the list has a profile, none of them is named like a
    main one and none has a positive resolution; the handler then answers 500. In
    every other case it answers with an error or with the streams. *)
Theorem GetStreams_panics `{U : URLParser} (cam : CameraAnswers) xaddr username password u profiles :
  Parse xaddr = Ok u -> NewDevice cam (address u) username password = None ->
  GetProfiles cam = Ok (200, Ok profiles) ->
  GetStreams cam xaddr username password = Err Panic <->
  profiles <> [] /\ (forall p, p ∈ profiles -> main_named p = false /\ resolution p <= 0).
Proof.
  intros Hu Hd Hp. unfold GetStreams. rewrite Hu, Hd, Hp. change (negb (200 =? 200)) with false. cbn iota.
  destruct profiles as [|p ps]; [by split; [|intros []]|]. set (l := p :: ps).
  pose proof (classify_main l) as Hm. destruct (classifyProfiles l) as [m s]. cbn [fst] in Hm. subst m.
  pose proof (main_profile_spec l) as Hs. destruct (main_profile l) as [n|] eqn:En; cbn [mbind option_bind].
  - destruct Hs as [q Hq]. rewrite Hq. split; [by destruct (fetch_streams _ _ _ _ _ _ _) as [[]|]|].
    intros [_ Hall]. unfold main_profile in En.
    pose proof (first_index_spec main_named l 0) as H1.
    destruct (first_index main_named 0 l); simplify_eq.
    { destruct H1 as (_ & x & Hx%list_elem_of_lookup_2 & Hf & _). destruct (Hall _ Hx); congruence. }
    pose proof (first_index_spec (fun p => 0 <? resolution p) l 0) as H2. rewrite En in H2.
    destruct H2 as (_ & x & Hx%list_elem_of_lookup_2 & Hf & _). destruct (Hall _ Hx) as [_ Hle]. lia.
  - split; [done|]. done.
Qed.

(** The streams that [GetStreams] returns always have a main one, even when the
    camera gives no URI for it: the empty URI has the host "", and replacing "" by
    the host of the device gives that host. The check of the ONVIF adapter for a
    missing main stream is thus never reached. *)
Theorem main_stream_never_missing `{U : URLParser} (cam : CameraAnswers) xaddr username password u :
  parses_empty -> Parse xaddr = Ok u -> Hostname u <> "" ->
  match GetStreams cam xaddr username password with
  | Ok info => Camera.o_MainStream info <> "" /\
      (forall params, Camera.ONVIFAdapter_Resolve (Ok info) params <>
                      Err (Camera.NoMainStream (Camera.r_Endpoint params)))
  | Err _ => True
  end.
Proof.
  intros He Hu Hh. unfold GetStreams. rewrite Hu.
  destruct (NewDevice _ _ _ _); [done|]. destruct (GetProfiles cam) as [[st [[|p ps]|]]|]; try done.
  { by destruct (negb _). }
  2: { by destruct (negb _). }
  destruct (negb _); [done|]. set (l := p :: ps). destruct (classifyProfiles l) as [m s].
  destruct m as [m|]; [|done]. cbn [mbind option_bind]. destruct (l !! m) as [q|] eqn:Eq; [|done].
  destruct (fetch_streams cam 0 l (Some m) s (Hostname u) ("", "")) as [[main sub]|] eqn:Ef; [|done].
  assert (main <> "") as Hmain.
  { eapply (fetch_streams_main cam l m s (Hostname u) 0 ("", "") (main, sub)); [done..|].
    apply lookup_lt_Some in Eq. right. lia. }
  split; [done|]. intros params. unfold Camera.ONVIFAdapter_Resolve. cbn [Camera.o_MainStream].
  case_bool_decide; [done|]. by rewrite bool_decide_false.
Qed.

(** The main profile is the first one named like a main one, and if there is
    none the first one with a positive resolution, whatever the resolutions of the
    others: it need not be the highest. *)
Theorem classifyProfiles_main ps :
  match fst (classifyProfiles ps) with
  | Some n => exists p, ps !! n = Some p /\
      (main_named p = true /\ (forall q, q ∈ take n ps -> main_named q = false) \/
       (forall q, q ∈ ps -> main_named q = false) /\
       0 < resolution p /\ (forall q, q ∈ take n ps -> resolution q <= 0))
  | None => forall p, p ∈ ps -> main_named p = false /\ resolution p <= 0
  end.
Proof.
  rewrite classify_main. pose proof (main_profile_spec ps) as Hnone. unfold main_profile in *.
  pose proof (first_index_spec main_named ps 0) as H1.
  pose proof (first_index_spec (fun p => 0 <? resolution p) ps 0) as H2.
  destruct (first_index main_named 0 ps) as [n|].
  - destruct H1 as (_ & p & Hp & Hf & Hb). rewrite Nat.sub_0_r in Hp, Hb. exists p. auto.
  - destruct (first_index _ 0 ps) as [n|]; [|done].
    destruct H2 as (_ & p & Hp & Hf & Hb). rewrite Nat.sub_0_r in Hp, Hb. exists p. split; [done|right].
    split_and!; [done|lia|]. intros q Hq. specialize (Hb q Hq). lia.
Qed.

(** Two profiles with one source: the first is the main stream though the second is larger. *)
Example main_not_the_highest :
  classifyProfiles [mkProfile "a" "p1" "v" 640 360 false; mkProfile "b" "p2" "v" 1920 1080 false]
  = (Some 0%nat, Some 1%nat).
Proof. reflexivity. Qed.

(** A camera whose only profile is named like a sub one has no sub stream. *)
Example main_and_sub_coincide :
  classifyProfiles [mkProfile "a" "sub" "v" 640 360 false] = (Some 0%nat, Some 0%nat).
Proof. reflexivity. Qed.

Lemma new_endpoints_spec found : forall seen,
  NoDup (new_endpoints seen found) /\
  forall e, e ∈ new_endpoints seen found <-> e ∈ found /\ e ∉ seen.
Proof.
  induction found as [|a found IH]; intros seen; cbn [new_endpoints].
  { split; [constructor|]. intros e. split; [by intros ?%elem_of_nil|by intros [?%elem_of_nil _]]. }
  case_bool_decide as Ea.
  - destruct (IH seen) as [Hnd Hin]. split; [done|]. intros e. rewrite Hin, elem_of_cons. naive_solver.
  - destruct (IH ({[a]} ∪ seen)) as [Hnd Hin]. split.
    + constructor; [|done]. rewrite Hin. set_solver.
    + intros e. rewrite !elem_of_cons, Hin. destruct (decide (e = a)); set_solver.
Qed.

(** Discovery over all interfaces reports each endpoint once: the endpoints
    found on some interface that is up, is not the loopback and does not fail. *)
Theorem Discover_all ifaces (probe : string -> result string (list string)) nic :
  nic = "" \/ nic = "all" ->
  match Discover (Ok ifaces) probe nic with
  | Ok l => NoDup l /\ forall e, e ∈ l <->
      exists i found, i ∈ ifaces /\ Loopback i = false /\ Up i = true /\ probe (if_Name i) = Ok found /\ e ∈ found
  | Err _ => False
  end.
Proof.
  intros Hn. unfold Discover.
  replace (bool_decide (nic = "") || bool_decide (nic = "all")) with true
    by (destruct Hn as [->| ->]; by rewrite ?orb_true_r).
  unfold discoverMulticast, listNICNames. cbn iota.
  set (f := fun nic => match probe nic with Ok l => l | Err _ => [] end).
  set (up := filter _ ifaces).
  destruct (new_endpoints_spec (concat (f <$> (if_Name <$> up))) ∅) as [Hnd Hin].
  split; [exact Hnd|]. intros e. rewrite Hin. split.
  - intros [[l [Hl He]]%list_elem_of_In%in_concat _].
    apply list_elem_of_In, list_elem_of_fmap in Hl as (n & -> & (i & -> & Hi)%list_elem_of_fmap).
    apply list_elem_of_filter in Hi as [[Hlo Hu] Hi]. apply list_elem_of_In in He. unfold f in He.
    destruct (probe (if_Name i)) as [found|] eqn:Ep; [|by apply elem_of_nil in He].
    by exists i, found.
  - intros (i & found & Hi & Hlo & Hu & Hp & He). split; [|set_solver].
    apply list_elem_of_In, in_concat. exists found. rewrite <- !list_elem_of_In. split; [|done].
    apply list_elem_of_fmap. exists (if_Name i). split; [by unfold f; rewrite Hp|].
    apply list_elem_of_fmap_2. apply list_elem_of_filter. done.
Qed.

(** ** Witnesses *)

Definition example_parser : URLParser := {|
  Parse := fun s => if bool_decide (s = "") then Ok (mkURL "" "" false) else Ok (mkURL "cam" "80" false);
  WithUser := fun s _ _ => s |}.

(** A camera with some profiles that names no URI for any of them. *)
Definition example_camera (profiles : list cProfile) : CameraAnswers := {|
  NewDevice := fun _ _ _ => None;
  GetProfiles := Ok (200, Ok profiles);
  GetSnapshotUri := fun _ => Err "none";
  GetStreamUri := fun _ => Ok (Ok "");
  GetDeviceInformation := Err "none";
  ContinuousMove := fun _ => None;
  MoveStop := fun _ => None;
  SystemReboot := None |}.

Definition blank : cProfile := mkProfile "t" "profile_1" "v" 0 0 false.

Lemma GetStreams_panics_witness :
  @GetStreams example_parser (example_camera [blank]) "http://cam" "u" "p" = Err Panic.
Proof.
  apply (@GetStreams_panics example_parser (example_camera [blank]) "http://cam" "u" "p" (mkURL "cam" "80" false) [blank]);
    [reflexivity..|].
  split; [done|]. intros p ->%list_elem_of_singleton. by vm_compute.
Defined.

Lemma main_stream_never_missing_witness :
  let U := example_parser in
  let cam := example_camera [mkProfile "t" "main" "v" 640 360 false] in
  GetStreams cam "http://cam" "u" "p" = Ok (Camera.mkStreamInfo "cam" "" false false) /\
  match GetStreams cam "http://cam" "u" "p" with
  | Ok info => Camera.o_MainStream info <> "" /\
      (forall params, Camera.ONVIFAdapter_Resolve (Ok info) params <>
                      Err (Camera.NoMainStream (Camera.r_Endpoint params)))
  | Err _ => True
  end.
Proof.
  intros U cam. split; [by vm_compute|].
  apply (main_stream_never_missing cam "http://cam" "u" "p" (mkURL "cam" "80" false)).
  - by exists (mkURL "" "" false).
  - reflexivity.
  - done.
Defined.

Definition example_ifaces : list Interface := [mkInterface "lo" true true; mkInterface "eth0" false true; mkInterface "wlan0" false true].

Lemma Discover_all_witness :
  match Discover (Ok example_ifaces) (fun _ => Ok ["http://cam"]) "all" with
  | Ok l => NoDup l /\ forall e, e ∈ l <->
      exists i found, i ∈ example_ifaces /\ Loopback i = false /\ Up i = true /\ Ok ["http://cam"] =@{result string _} Ok found /\ e ∈ found
  | Err _ => False
  end.
Proof. apply (Discover_all example_ifaces (fun _ => Ok ["http://cam"]) "all"). by right. Defined.
