(* ===== verification/Playback.v ===== *)
(** * MediaMTX playback

    The recorded segments MediaMTX serves: [ListPlaybackSegments] and the URL of each
    segment ([internal/mediamtx/client.go]), and the handler that lists them
    ([listPlaybackTimespans] of [internal/api/live.go]). Durations are floats, of
    which only the text of [%g] matters: a type and a function of the sections. *)

From stdpp Require Import pretty.
From S2P Require Import Prelude GoStrings.
From S2P Require Urls Streams.

(** ** [url.Values] *)

(** The bytes a query component keeps; a space becomes a plus sign. *)
Definition query_safe (a : ascii) : bool :=
  in_range 97 122 a || in_range 65 90 a || in_range 48 57 a || contains_byte a "-_.~".

Fixpoint QueryEscape (s : string) : string :=
  match s with
  | EmptyString => ""
  | String a s =>
      if bool_decide (a = " "%char) then String "+" (QueryEscape s)
      else if query_safe a then String a (QueryEscape s)
      else String "%" (String (Urls.upper_hex (N_of_ascii a / 16)) (String (Urls.upper_hex (N_of_ascii a mod 16))
             (QueryEscape s)))
  end.

(** The values set under distinct keys. *)
Definition Values := list (string * string).

Definition by_key (a b : string * string) : Prop := String.le (fst a) (fst b).
#[export] Instance by_key_dec a b : Decision (by_key a b) := decide (String.le _ _).

Fixpoint encode_pairs (vs : Values) : string :=
  match vs with
  | [] => ""
  | [kv] => QueryEscape (fst kv) +:+ "=" +:+ QueryEscape (snd kv)
  | kv :: vs => (QueryEscape (fst kv) +:+ "=" +:+ QueryEscape (snd kv)) +:+ "&" +:+ encode_pairs vs
  end.

(** [Encode] sorts by key. *)
Definition Encode (vs : Values) : string := encode_pairs (merge_sort by_key vs).

(** ** The client *)

Section Client.
Context {F : Type} (fmt_g : F -> string).

Record PlaybackConfig := mkPlayback { PlaybackBaseURL : string; PlaybackFormat : string }.

(** [New]: the trimmed base and the default format. *)
Definition New_playback (cfg : PlaybackConfig) : PlaybackConfig :=
  mkPlayback (Urls.trimURL (PlaybackBaseURL cfg))
    (if bool_decide (PlaybackFormat cfg = "") then "mp4" else PlaybackFormat cfg).

Record PlaybackSegment := mkSegment { Start : string; Duration : F; URL : string }.

Definition BuildPlaybackGetURL (c : PlaybackConfig) (streamKey start : string) (duration : F) : string :=
  if bool_decide (PlaybackBaseURL c = "") then ""
  else PlaybackBaseURL c +:+ "/get?" +:+
       Encode [("path", Urls.normalizePath streamKey); ("start", start); ("duration", fmt_g duration);
               ("format", PlaybackFormat c)].

Definition fill_one (c : PlaybackConfig) (streamKey : string) (s : PlaybackSegment) : PlaybackSegment :=
  if bool_decide (URL s = "")
  then mkSegment (Start s) (Duration s) (BuildPlaybackGetURL c streamKey (Start s) (Duration s)) else s.

Definition fillPlaybackURLs (c : PlaybackConfig) (streamKey : string) (segments : list PlaybackSegment)
  : list PlaybackSegment := fill_one c streamKey <$> segments.

(** What the HTTP client gives: an error, or a status, the bytes read, the error that
    ended the reading early, and what the body decodes to as a list and as an object
    with items. *)
Inductive http_answer :=
  | Failed (e : string)
  | Response (status : Z) (body : string) (read : option string) (direct wrapped : option (list PlaybackSegment)).

Definition list_endpoint (c : PlaybackConfig) (streamKey : string) : string :=
  PlaybackBaseURL c +:+ "/list?" +:+ Encode [("path", Urls.normalizePath streamKey)].

(** [Get]: the answer for a URL. *)
Definition ListPlaybackSegments (c : PlaybackConfig) (Get : string -> http_answer) (streamKey : string)
  : result string (list PlaybackSegment) :=
  if bool_decide (PlaybackBaseURL c = "") then Err "mediamtx playback_base_url is empty"
  else
    let key := Urls.normalizePath streamKey in
    match Get (list_endpoint c streamKey) with
    | Failed e => Err e
    | Response status body read direct wrapped =>
        if 400 <=? status
        then Err ("mediamtx playback list: status=" +:+ pretty status +:+ " body=" +:+ body)
        else match read with
        | Some e => Err e
        | None =>
            match direct with
            | Some l => Ok (fillPlaybackURLs c key l)
            | None => match wrapped with
                      | Some l => Ok (fillPlaybackURLs c key l)
                      | None => Err "mediamtx playback list: unexpected response body"
                      end
            end
        end
    end.

(** ** The handler *)

Inductive timespans_answer :=
  | TimespansError (status : Z) (m : string)
  | Timespans (key : string) (total available_total : Z) (l : list PlaybackSegment)
  | TimespansPanic.

Definition listPlaybackTimespans (mtx : option PlaybackConfig) (Get : string -> http_answer) (key limit : string)
  : timespans_answer :=
  match mtx with
  | None => TimespansError 503 "media_mtx is disabled or unavailable"
  | Some c =>
      if bool_decide (key = "") then TimespansError 400 "stream key is required"
      else match ListPlaybackSegments c Get key with
      | Err e => TimespansError 502 e
      | Ok segments =>
          match Streams.limited limit segments with
          | None => TimespansPanic
          | Some l => Timespans key (Z.of_nat (length l)) (Z.of_nat (length segments)) l
          end
      end
  end.
End Client.

(** ** Reading a query back

    What a server makes of a query: pairs between the ampersands, each split at its
    equals sign and unescaped. *)

Fixpoint QueryUnescape (s : string) : string :=
  match s with
  | String "%" (String h (String l s)) => String (ascii_of_N (16 * Urls.unhex h + Urls.unhex l)) (QueryUnescape s)
  | String a s => String (if bool_decide (a = "+"%char) then " "%char else a) (QueryUnescape s)
  | EmptyString => ""
  end.

Definition read_pair (p : string) : option (string * string) :=
  match Split "=" p with
  | [k; v] => Some (QueryUnescape k, QueryUnescape v)
  | _ => None
  end.

Definition read_query (q : string) : option Values := mapM read_pair (Split "&" q).

(** ** Lemmas *)

Lemma query_safe_facts a :
  query_safe a = true -> a <> "%"%char /\ a <> "+"%char /\ a <> "&"%char /\ a <> "="%char.
Proof. by destruct a as [[] [] [] [] [] [] [] []]; vm_compute. Qed.

Lemma QueryUnescape_plain a s :
  a <> "%"%char -> a <> "+"%char -> QueryUnescape (String a s) = String a (QueryUnescape s).
Proof. destruct a as [[] [] [] [] [] [] [] []]; done. Qed.

Lemma QueryUnescape_Escape s : QueryUnescape (QueryEscape s) = s.
Proof.
  induction s as [|a s IH]; [done|]. cbn [QueryEscape]. case_bool_decide as Hs.
  { subst. change (String " " (QueryUnescape (QueryEscape s)) = String " " s). by rewrite IH. }
  destruct (query_safe a) eqn:Ea.
  - apply query_safe_facts in Ea as (? & ? & _). by rewrite QueryUnescape_plain, IH.
  - change (String (ascii_of_N (16 * Urls.unhex (Urls.upper_hex (N_of_ascii a / 16))
             + Urls.unhex (Urls.upper_hex (N_of_ascii a mod 16)))) (QueryUnescape (QueryEscape s)) = String a s).
    by rewrite Urls.unhex_upper, IH.
Qed.

Lemma upper_hex_plain a c :
  c = "&"%char \/ c = "="%char ->
  Urls.upper_hex (N_of_ascii a / 16) <> c /\ Urls.upper_hex (N_of_ascii a mod 16) <> c.
Proof. intros [-> | ->]; by destruct a as [[] [] [] [] [] [] [] []]; vm_compute. Qed.

Lemma QueryEscape_plain c s : c = "&"%char \/ c = "="%char -> contains_byte c (QueryEscape s) = false.
Proof.
  intros Hc. induction s as [|a s IH]; [done|]. cbn [QueryEscape]. case_bool_decide.
  { cbn [contains_byte]. rewrite bool_decide_false, IH; [done|]. by destruct Hc as [-> | ->]. }
  destruct (query_safe a) eqn:Ea; cbn [contains_byte].
  - apply query_safe_facts in Ea as (_ & _ & H1 & H2). rewrite bool_decide_false, IH; [done|].
    by destruct Hc as [-> | ->].
  - destruct (upper_hex_plain a c Hc) as [H1 H2]. rewrite !bool_decide_false, IH; [done..|].
    by destruct Hc as [-> | ->].
Qed.

Lemma contains_byte_app c x y : contains_byte c (x +:+ y) = contains_byte c x || contains_byte c y.
Proof. induction x as [|a x IH]; [done|]. rewrite app_cons_string. cbn [contains_byte]. by rewrite IH, orb_assoc. Qed.

Definition encode_pair (kv : string * string) : string := QueryEscape (fst kv) +:+ "=" +:+ QueryEscape (snd kv).

Lemma encode_pair_plain kv : contains_byte "&" (encode_pair kv) = false.
Proof. unfold encode_pair. rewrite !contains_byte_app, !QueryEscape_plain by auto. done. Qed.

Lemma read_encode_pair kv : read_pair (encode_pair kv) = Some kv.
Proof.
  unfold read_pair, encode_pair. change ("=" +:+ ?x) with (String "=" x).
  rewrite Split_app, Split_no_sep by (apply QueryEscape_plain; auto). rewrite !QueryUnescape_Escape. by destruct kv.
Qed.

Lemma read_encode_pairs kv vs : read_query (encode_pairs (kv :: vs)) = Some (kv :: vs).
Proof.
  unfold read_query. revert kv. induction vs as [|kv2 vs IH]; intros kv.
  - change (encode_pairs [kv]) with (encode_pair kv). rewrite Split_no_sep by apply encode_pair_plain.
    cbn [mapM]. by rewrite read_encode_pair.
  - change (encode_pairs (kv :: kv2 :: vs)) with (encode_pair kv +:+ String "&" (encode_pairs (kv2 :: vs))).
    rewrite Split_app by apply encode_pair_plain. cbn [mapM]. rewrite read_encode_pair, IH. done.
Qed.

Lemma read_Encode vs : vs <> [] -> read_query (Encode vs) = Some (merge_sort by_key vs).
Proof.
  intros Hv. unfold Encode. pose proof (merge_sort_Permutation by_key vs) as Hp.
  destruct (merge_sort by_key vs) as [|kv l]; [by apply Permutation_nil in Hp|]. apply read_encode_pairs.
Qed.

(** ** Properties *)

(** C29: the URL of a segment leads to that segment. Under a configured base, what a
    server reads from the query of the URL is the duration, the format, the path and
    the start given, whatever characters they have; and the query by which the
    segments are listed reads as the normalised path. *)
Theorem playback_url_roundtrip {F} (fmt_g : F -> string) (c : PlaybackConfig) key start duration :
  (PlaybackBaseURL c = "" -> BuildPlaybackGetURL fmt_g c key start duration = "") /\
  (PlaybackBaseURL c <> "" -> exists q,
     BuildPlaybackGetURL fmt_g c key start duration = PlaybackBaseURL c +:+ "/get?" +:+ q /\
     read_query q = Some [("duration", fmt_g duration); ("format", PlaybackFormat c);
                          ("path", Urls.normalizePath key); ("start", start)]) /\
  exists q, list_endpoint c key = PlaybackBaseURL c +:+ "/list?" +:+ q /\
     read_query q = Some [("path", Urls.normalizePath key)].
Proof.
  split_and!.
  - intros Hb. unfold BuildPlaybackGetURL. by rewrite bool_decide_true.
  - intros Hb. unfold BuildPlaybackGetURL. rewrite bool_decide_false by done.
    eexists. split; [reflexivity|]. by rewrite read_Encode.
  - eexists. split; [reflexivity|]. by rewrite read_Encode.
Qed.

(** A key whose slash follows a space is trimmed twice for the URLs, once for the list. *)
Example normalizePath_not_idempotent :
  Urls.normalizePath "cam /" = "cam " /\ Urls.normalizePath (Urls.normalizePath "cam /") = "cam".
Proof. by vm_compute. Qed.

Lemma fill_one_URL {F} (fmt_g : F -> string) c key s :
  PlaybackBaseURL c <> "" -> URL (fill_one fmt_g c key s) <> "".
Proof.
  intros Hb. unfold fill_one. case_bool_decide as Hu; [|done]. cbn [URL]. unfold BuildPlaybackGetURL.
  rewrite bool_decide_false by done. by destruct (PlaybackBaseURL c).
Qed.

(** The segments of an answer of MediaMTX. *)
Definition segments_of {F} (a : http_answer (F := F)) : option (list PlaybackSegment) :=
  match a with
  | Response status _ None direct wrapped =>
      if 400 <=? status then None else match direct with Some l => Some l | None => wrapped end
  | _ => None
  end.

Lemma ListPlaybackSegments_spec {F} (fmt_g : F -> string) c Get key :
  match ListPlaybackSegments fmt_g c Get key with
  | Ok l => PlaybackBaseURL c <> "" /\ exists segs, segments_of (Get (list_endpoint c key)) = Some segs /\
      l = fill_one fmt_g c (Urls.normalizePath key) <$> segs
  | Err _ => PlaybackBaseURL c = "" \/ segments_of (Get (list_endpoint c key)) = None
  end.
Proof.
  unfold ListPlaybackSegments. case_bool_decide as Hb; [by left|].
  destruct (Get _) as [e|status body read direct wrapped]; cbn [segments_of]; [by right|].
  destruct (400 <=? status); [right; by destruct read|].
  destruct read; [by right|]. destruct direct as [l|]; [|destruct wrapped as [l|]]; [eauto..|by right].
Qed.

(** the playback handler never panics and lists what MediaMTX has: a prefix of its
    segments, not empty unless there are none, with the number of all of them, each
    with a URL; it answers an error without a client, without a key, and when
    MediaMTX gives no segments, and only then. *)
Theorem listPlaybackTimespans_spec {F} (fmt_g : F -> string) mtx Get key limit :
  let listed c := segments_of (Get (list_endpoint c key)) in
  match listPlaybackTimespans fmt_g mtx Get key limit with
  | TimespansPanic => False
  | TimespansError status _ =>
      status = 503 /\ mtx = None \/ status = 400 /\ key = "" \/
      status = 502 /\ (forall c, mtx = Some c -> PlaybackBaseURL c = "" \/ listed c = None)
  | Timespans k total available l => exists c segs,
      mtx = Some c /\ listed c = Some segs /\ k = key /\ total = Z.of_nat (length l) /\
      available = Z.of_nat (length segs) /\ total <= available /\ (0 < available -> 0 < total) /\
      l = fill_one fmt_g c (Urls.normalizePath key) <$> take (length l) segs /\
      Forall (fun s => URL s <> "") l
  end.
Proof.
  intros listed. unfold listPlaybackTimespans. destruct mtx as [c|]; [|by left].
  case_bool_decide; [by right; left|].
  pose proof (ListPlaybackSegments_spec fmt_g c Get key) as Hl.
  destruct (ListPlaybackSegments _ _ _ _) as [l|e].
  2: { right. right. split; [done|]. by intros ? [= <-]. }
  destruct Hl as (Hb & segs & Hs & ->). set (fs := fill_one _ _ _ <$> segs).
  assert (length fs = length segs) as Hlen by apply length_fmap.
  pose proof (Streams.limited_prefix limit fs) as (n & -> & Hn & Hpos & _).
  exists c, segs. rewrite !length_take, Hlen, Nat.min_l by lia.
  split_and!; try done; [lia|lia|unfold fs; by rewrite fmap_take|].
  apply Forall_take, Forall_fmap, Forall_true. intros s. by apply fill_one_URL.
Qed.
