(* ===== verification/Priority.v ===== *)
(** * Stream priority

    [internal/stream/priority.go] and the monitor handlers that use it
    ([internal/api/monitor.go]). Scores are binary64 numbers: the operations are
    those of IEEE 754 with rounding to nearest, as the Standard Library specifies
    them on integers, one rounding per operation (no fused ones, as on amd64). The
    texts of [Reasons] are left out. *)

From Stdlib Require Import SpecFloat.
From S2P Require Import Prelude Packet.

(** ** binary64 *)

Notation float64 := spec_float.

Definition fadd : float64 -> float64 -> float64 := SFadd 53 1024.
Definition fmul : float64 -> float64 -> float64 := SFmul 53 1024.
Definition fdiv : float64 -> float64 -> float64 := SFdiv 53 1024.

(** [float64(n)] *)
Definition of_int (n : Z) : float64 := binary_normalize 53 1024 n 0 false.

(** The constant [n/10], rounded once. *)
Definition tenths (n : Z) : float64 := fdiv (of_int n) (of_int 10).

Definition one : float64 := of_int 1.

(** [math.Min] *)
Definition Min (x y : float64) : float64 :=
  match x, y with
  | S754_infinity true, _ | _, S754_infinity true => S754_infinity true
  | S754_nan, _ | _, S754_nan => S754_nan
  | S754_zero sx, S754_zero _ => if sx then x else y
  | _, _ => if SFltb x y then x else y
  end.

(** [Duration.Seconds] *)
Definition Seconds (d : Duration) : float64 :=
  fadd (of_int (Z.quot d Second)) (fdiv (of_int (Z.rem d Second)) (of_int 1000000000)).

(** [time.Since]: the difference, kept within a [Duration]. *)
Definition Since (now t : Time) : Duration := Z.max (- 2 ^ 63) (Z.min (now - t) (2 ^ 63 - 1)).

(** ** Scores *)

Record ScoringWeights := mkWeights {
  ViewerCount : float64; BitrateHealth : float64; Recency : float64; ManualPin : float64; MotionActivity : float64 }.

Definition DefaultWeights : ScoringWeights := mkWeights (tenths 4) (tenths 2) (tenths 1) (tenths 1) (tenths 2).

(** What is read of a stream: its key, its start, the types of its subscribers. *)
Record Scored := mkScored { s_Key : string; s_StartedAt : Time; s_Types : list SubscriberType }.

Record StreamScore := mkScore {
  StreamKey : string; Score : float64; Viewers : Z; AgeSeconds : float64; Pinned : bool; ScoredAt : Time }.

Definition countLivestreamSubs (s : Scored) : Z :=
  Z.of_nat (length (filter (fun t => t = TypeLivestream) (s_Types s))).

Definition maxViewers : float64 := of_int 100.
Definition warmupSeconds : float64 := of_int 30.
Definition expectedBitrateOK : float64 := fdiv (of_int 3) (of_int 4).

Definition ScoreStream (now : Time) (weights : ScoringWeights) (pinnedKeys : gmap string bool) (s : Scored)
  : StreamScore :=
  let viewers := countLivestreamSubs s in
  let age := Seconds (Since now (s_StartedAt s)) in
  let pinned := default false (pinnedKeys !! s_Key s) in
  let viewerScore := fmul (Min (fdiv (of_int viewers) maxViewers) one) (ViewerCount weights) in
  let bitrateScore := fmul expectedBitrateOK (BitrateHealth weights) in
  let recencyScore := fmul (Min (fdiv age warmupSeconds) one) (Recency weights) in
  let pinScore := if pinned then ManualPin weights else of_int 0 in
  let motionScore := fmul (of_int 0) (MotionActivity weights) in
  let total := Min (fadd (fadd (fadd (fadd viewerScore bitrateScore) recencyScore) pinScore) motionScore) one in
  mkScore (s_Key s) total viewers age pinned now.

(** [sort.Slice] by [>]; equal scores come in any order. *)
Definition not_lower (a b : StreamScore) : Prop := SFltb (Score a) (Score b) = false.
#[export] Instance not_lower_dec a b : Decision (not_lower a b) := decide (_ = false).

Definition RankStreams (now : Time) (streams : list Scored) (weights : ScoringWeights) (pinnedKeys : gmap string bool)
  : list StreamScore := merge_sort not_lower (ScoreStream now weights pinnedKeys <$> streams).

(** ** The handlers *)

(** The weights and the scores answered. *)
Definition monitorPriority (now : Time) (streams : list Scored) (weights : ScoringWeights) (pins : gmap string bool)
  : ScoringWeights * list StreamScore := (weights, RankStreams now streams weights pins).

(** The new state, and the status. *)
Definition updateWeights (weights : ScoringWeights) (body : option ScoringWeights) : ScoringWeights * Z :=
  match body with None => (weights, 400) | Some w2 => (w2, 200) end.

(** ** Lemmas on binary64 *)

(** Neither NaN nor below zero; and finite with it. *)
Definition nonneg (x : float64) : Prop :=
  match x with S754_nan => False | S754_zero _ => True | S754_infinity s | S754_finite s _ _ => s = false end.

Definition finite (x : float64) : Prop :=
  match x with S754_zero _ | S754_finite _ _ _ => True | _ => False end.

(** A number of a sign, possibly rounded to zero or infinity. *)
Definition signed (s : bool) (x : float64) : Prop :=
  match x with S754_nan => False | S754_zero t | S754_infinity t | S754_finite t _ _ => t = s end.

Lemma signed_nonneg x : signed false x -> nonneg x.
Proof. by destruct x. Qed.

Lemma shr_1_nonneg r : 0 <= shr_m r -> 0 <= shr_m (shr_1 r).
Proof. destruct r as [[|[p|p|]|p] r s]; cbn; lia. Qed.

Lemma iter_pos_inv {A} (P : A -> Prop) f : (forall x, P x -> P (f x)) -> forall n x, P x -> P (SpecFloat.iter_pos f n x).
Proof. intros Hf n. induction n as [n IH|n IH|]; intros x Hx; cbn; auto. Qed.

Lemma shr_fexp_nonneg m e l : 0 <= m -> 0 <= shr_m (fst (shr_fexp 53 1024 m e l)).
Proof.
  intros Hm. unfold shr_fexp, shr.
  assert (0 <= shr_m (shr_record_of_loc m l)) by (destruct l as [|[]]; exact Hm).
  destruct (_ - e); [done| |done]. by apply (iter_pos_inv (fun r => 0 <= shr_m r)); [apply shr_1_nonneg|].
Qed.

Lemma round_nonneg m l : 0 <= m -> 0 <= round_nearest_even m l.
Proof. destruct l as [|[]]; cbn; [done| |done|lia]. destruct (Z.even m); lia. Qed.

Lemma round_aux_signed s m e l : 0 <= m -> signed s (binary_round_aux 53 1024 s m e l).
Proof.
  intros Hm. unfold binary_round_aux. pose proof (shr_fexp_nonneg m e l Hm) as H1.
  destruct (shr_fexp 53 1024 m e l) as [r1 e1]. cbn [fst] in H1.
  pose proof (shr_fexp_nonneg _ e1 loc_Exact (round_nonneg _ (loc_of_shr_record r1) H1)) as H2.
  destruct (shr_fexp 53 1024 (round_nearest_even _ _) e1 loc_Exact) as [r2 e2]. cbn [fst] in H2.
  destruct (shr_m r2); [done| |lia]. by destruct (_ <=? _).
Qed.

Lemma binary_round_signed s m e : signed s (binary_round 53 1024 s m e).
Proof. unfold binary_round. destruct (shl_align _ _ _). by apply round_aux_signed. Qed.

Lemma of_int_nonneg n : 0 <= n -> nonneg (of_int n).
Proof.
  intros Hn. unfold of_int, binary_normalize. destruct n as [|p|p]; [done| |lia].
  apply signed_nonneg, binary_round_signed.
Qed.

Lemma fmul_nonneg x y : nonneg x -> finite x -> nonneg y -> finite y -> nonneg (fmul x y).
Proof.
  intros Hx Fx Hy Fy. destruct x as [sx| | |sx mx ex], y as [sy| | |sy my ey]; try done.
  cbn in Hx, Hy. subst. apply signed_nonneg, (round_aux_signed false). lia.
Qed.

Lemma fadd_nonneg x y : nonneg x -> nonneg y -> nonneg (fadd x y).
Proof.
  destruct x as [[]|[]| |[] mx ex], y as [[]|[]| |[] my ey]; try done. intros _ _.
  unfold fadd, SFadd, cond_Zopp, binary_normalize. cbn -[binary_round shl_align].
  apply signed_nonneg, binary_round_signed.
Qed.

(** Division by a positive number. *)
Lemma fdiv_nonneg x m e : nonneg x -> nonneg (fdiv x (S754_finite false m e)).
Proof.
  destruct x as [sx|sx| |sx mx ex]; try done; cbn [nonneg]; intros; subst; [done|].
  unfold fdiv, SFdiv. destruct (SFdiv_core_binary _ _ _ _ _ _) as [[q e'] l] eqn:Eq.
  apply signed_nonneg, (round_aux_signed false). unfold SFdiv_core_binary in Eq.
  set (m' := match _ - _ - _ with Zpos _ => _ | Z0 => _ | Zneg _ => _ end) in Eq.
  assert (0 <= m') as Hm'.
  { unfold m'. destruct (_ - _ - _); [lia|apply Z.shiftl_nonneg; lia|lia]. }
  pose proof (Z_div_mod m' (Zpos m) ltac:(lia)) as Hd.
  destruct (Z.div_eucl m' (Zpos m)) as [q' r']. injection Eq as <- _ _. nia.
Qed.

Lemma Min_one x : nonneg x -> nonneg (Min x one) /\ finite (Min x one) /\ SFleb (Min x one) one = true.
Proof.
  assert (one = S754_finite false 4503599627370496 (-52)) as -> by (by vm_compute).
  destruct x as [[]|[]| |[] m e]; try done. intros _. unfold Min.
  destruct (SFltb (S754_finite false m e) _) eqn:El; [|done].
  split_and!; [done|done|]. unfold SFltb, SFleb in *. by destruct (SFcompare _ _) as [[]|].
Qed.

Lemma nonneg_leb x : nonneg x -> SFleb (of_int 0) x = true.
Proof. by destruct x as [[]|[]| |[] m e]. Qed.

(** The order of the numbers, as one of triples of integers. *)
Definition sort_key (x : float64) : Z * Z * Z :=
  match x with
  | S754_infinity s => (if s then -2 else 2, 0, 0)
  | S754_finite s m e => if s then (-1, - e, - Zpos m) else (1, e, Zpos m)
  | _ => (0, 0, 0)
  end.

Definition key_lt (a b : Z * Z * Z) : Prop :=
  let '(a1, a2, a3) := a in let '(b1, b2, b3) := b in
  a1 < b1 \/ a1 = b1 /\ (a2 < b2 \/ a2 = b2 /\ a3 < b3).

Lemma SFltb_key x y : x <> S754_nan -> y <> S754_nan -> SFltb x y = true <-> key_lt (sort_key x) (sort_key y).
Proof.
  intros Hx Hy. unfold SFltb. destruct x as [sx|[]| |[] mx ex], y as [sy|[]| |[] my ey]; try done; cbn;
    try (split; [done|lia]); try (split; [lia|done]).
  - destruct (Z.compare_spec ex ey); try (split; [done|lia]); try (split; [lia|done]).
    change (Pos.compare_cont Eq mx my) with (mx ?= my)%positive.
    destruct (Pos.compare_spec mx my); cbn; try (split; [done|lia]); (split; [lia|done]).
  - destruct (Z.compare_spec ex ey); try (split; [done|lia]); try (split; [lia|done]).
    change (Pos.compare_cont Eq mx my) with (mx ?= my)%positive.
    destruct (Pos.compare_spec mx my); cbn; try (split; [done|lia]); (split; [lia|done]).
Qed.

Lemma key_lt_asym a b : key_lt a b -> ~ key_lt b a.
Proof. destruct a as [[a1 a2] a3], b as [[b1 b2] b3]. cbn. lia. Qed.

Lemma not_key_lt_trans a b c : ~ key_lt a b -> ~ key_lt b c -> ~ key_lt a c.
Proof. destruct a as [[a1 a2] a3], b as [[b1 b2] b3], c as [[c1 c2] c3]. cbn. lia. Qed.

(** ** Lemmas on scores *)

Definition sound_weights (w : ScoringWeights) : Prop :=
  Forall (fun x => nonneg x /\ finite x)
    [ViewerCount w; BitrateHealth w; Recency w; ManualPin w; MotionActivity w].

Lemma default_weights_sound : sound_weights DefaultWeights.
Proof. unfold sound_weights. rewrite !Forall_cons. split_and!; vm_compute; by try constructor. Qed.

Lemma Seconds_nonneg d : 0 <= d -> nonneg (Seconds d).
Proof.
  intros Hd. unfold Seconds. apply fadd_nonneg.
  - apply of_int_nonneg, Z.quot_pos; [done|]. by vm_compute.
  - assert (of_int 1000000000 = S754_finite false 8388608000000000 (-23)) as -> by (by vm_compute).
    apply fdiv_nonneg, of_int_nonneg, Z.rem_nonneg; [|done]. by vm_compute.
Qed.

Lemma Since_nonneg now t : t <= now -> 0 <= Since now t.
Proof. unfold Since. lia. Qed.

Lemma factor_nonneg x m e w :
  nonneg x -> nonneg w -> finite w -> nonneg (fmul (Min (fdiv x (S754_finite false m e)) one) w).
Proof. intros Hx Hw Fw. destruct (Min_one _ (fdiv_nonneg x m e Hx)) as (? & ? & _). by apply fmul_nonneg. Qed.

Lemma Score_range now w pins s :
  sound_weights w -> s_StartedAt s <= now ->
  let x := Score (ScoreStream now w pins s) in nonneg x /\ SFleb (of_int 0) x = true /\ SFleb x one = true.
Proof.
  intros Hw Ht. unfold sound_weights in Hw. rewrite !Forall_cons in Hw.
  destruct Hw as ([??] & [??] & [??] & [??] & [??] & _). cbn [Score ScoreStream].
  set (total := fadd _ (fmul (of_int 0) _)). assert (nonneg total) as Hn.
  { unfold total. repeat apply fadd_nonneg.
    - assert (maxViewers = S754_finite false 7036874417766400 (-46)) as -> by (by vm_compute).
      apply factor_nonneg; [|done|done]. apply of_int_nonneg. unfold countLivestreamSubs. lia.
    - apply fmul_nonneg; by try vm_compute.
    - assert (warmupSeconds = S754_finite false 8444249301319680 (-48)) as -> by (by vm_compute).
      apply factor_nonneg; [|done|done]. by apply Seconds_nonneg, Since_nonneg.
    - by destruct (default _ _).
    - apply fmul_nonneg; by try vm_compute. }
  destruct (Min_one total Hn) as (Hm & _ & Hle). split_and!; [done|by apply nonneg_leb|done].
Qed.

Lemma not_lower_total : Total not_lower.
Proof.
  intros a b. unfold not_lower. destruct (SFltb (Score a) (Score b)) eqn:E; [right|by left].
  assert (Score a <> S754_nan) as Ha by (intros Hn; by rewrite Hn in E).
  assert (Score b <> S754_nan) as Hb by (intros Hn; rewrite Hn in E; by destruct (Score a)).
  apply SFltb_key in E; [|done|done]. destruct (SFltb (Score b) (Score a)) eqn:E2; [|done].
  apply SFltb_key in E2; [|done|done]. by apply key_lt_asym in E.
Qed.

Lemma not_lower_trans a b c : Score a <> S754_nan -> Score b <> S754_nan -> Score c <> S754_nan ->
  not_lower a b -> not_lower b c -> not_lower a c.
Proof.
  unfold not_lower. intros Ha Hb Hc. rewrite <- !not_true_iff_false, !SFltb_key by done. apply not_key_lt_trans.
Qed.

Lemma sorted_scores l :
  Forall (fun s => Score s <> S754_nan) l -> Sorted not_lower l -> StronglySorted not_lower l.
Proof.
  intros Hn. induction 1 as [|a l Hs IH Hh]; [constructor|]. apply Forall_cons in Hn as [Ha Hn].
  specialize (IH Hn). constructor; [done|]. destruct Hh as [|b l Hab]; constructor; [done|].
  apply StronglySorted_inv in IH as [_ Hb]. apply Forall_cons in Hn as [Hnb Hn]. rewrite Forall_forall in *.
  intros c Hc. apply (not_lower_trans a b c); auto.
Qed.

(** ** Properties *)

(** C31: the ranking. With weights that are finite and not negative, as the default ones,
    every score is a number from 0 to 1; the ranking has one score for each stream,
    and no stream is ranked before one with a greater score. *)
Theorem RankStreams_spec now streams weights pins :
  sound_weights weights -> Forall (fun s => s_StartedAt s <= now) streams ->
  let l := RankStreams now streams weights pins in
  l ≡ₚ ScoreStream now weights pins <$> streams /\
  Forall (fun s => SFleb (of_int 0) (Score s) = true /\ SFleb (Score s) one = true) l /\
  (forall i j a b, (i < j)%nat -> l !! i = Some a -> l !! j = Some b -> SFltb (Score a) (Score b) = false).
Proof.
  intros Hw Ht l. assert (l ≡ₚ ScoreStream now weights pins <$> streams) as Hp by apply merge_sort_Permutation.
  assert (Forall (fun s => nonneg (Score s) /\ SFleb (of_int 0) (Score s) = true /\ SFleb (Score s) one = true) l) as Hall.
  { rewrite Hp. apply Forall_fmap. eapply Forall_impl; [exact Ht|]. intros s Hs. by apply Score_range. }
  split_and!; [done|eapply Forall_impl; [exact Hall|naive_solver]|].
  intros i j a b Hij Ha Hb. assert (StronglySorted not_lower l) as Hs.
  { apply sorted_scores; [|apply Sorted_merge_sort, not_lower_total].
    eapply Forall_impl; [exact Hall|]. intros s [Hs _] Hn. by rewrite Hn in Hs. }
  rewrite <- (take_drop j l) in Hs. apply (StronglySorted_app_1_elem_of _ _ _ a b Hs).
  - apply list_elem_of_lookup. exists i. by rewrite lookup_take_lt.
  - apply list_elem_of_lookup. exists 0%nat. by rewrite lookup_drop, Nat.add_0_r.
Qed.

(** ** Witnesses and examples *)

(** An hour-old stream nobody watches, and a new one with a hundred viewers. *)
Definition example_streams : list Scored :=
  [mkScored "lobby" 0 [TypeStorage]; mkScored "gate" (3600 * Second) (replicate 100 TypeLivestream)].

Lemma RankStreams_spec_witness :
  let l := RankStreams (3600 * Second) example_streams DefaultWeights {["lobby" := true]} in
  (StreamKey <$> l) = ["gate"; "lobby"] /\
  l ≡ₚ ScoreStream (3600 * Second) DefaultWeights {["lobby" := true]} <$> example_streams /\
  Forall (fun s => SFleb (of_int 0) (Score s) = true /\ SFleb (Score s) one = true) l /\
  (forall i j a b, (i < j)%nat -> l !! i = Some a -> l !! j = Some b -> SFltb (Score a) (Score b) = false).
Proof.
  intros l. split; [by vm_compute|].
  apply (RankStreams_spec (3600 * Second) example_streams DefaultWeights {["lobby" := true]}).
  - exact default_weights_sound.
  - repeat constructor; by vm_compute.
Defined.

(** The literal 0.4, and the sum of the default weights. *)
Example tenths_are_literals :
  (tenths 4, fadd (fadd (fadd (fadd (tenths 4) (tenths 2)) (tenths 1)) (tenths 1)) (tenths 2))
  = (S754_finite false 7205759403792794 (-54), S754_finite false 4503599627370496 (-52)).
Proof. by vm_compute. Qed.

(** A pinned camera comes after one that is not: the pin weighs a tenth, a hundred
    viewers four. *)
Example pinned_not_first :
  StreamKey <$> RankStreams (3600 * Second) [mkScored "lobby" (3600 * Second) []; mkScored "gate" 0 (replicate 50 TypeLivestream)]
    DefaultWeights {["lobby" := true]} = ["gate"; "lobby"].
Proof. by vm_compute. Qed.

(** Any weights are accepted: with these no score is above zero. *)
Example negative_scores :
  let '(w, status) := updateWeights DefaultWeights
    (Some (mkWeights (of_int (-1)) (of_int (-1)) (of_int (-1)) (of_int 0) (of_int 0))) in
  status = 200 /\ forallb (fun s => SFltb (Score s) (of_int 0)) (snd (monitorPriority (3600 * Second) example_streams w ∅)) = true.
Proof. by vm_compute. Qed.
