(* ===== verification/Paths.v ===== *)
(** * Files on the disk

    Where the gateway writes and which files it serves: the file handlers of
    [internal/api/streams.go], and the directories of the storage and the HLS
    subscriber ([internal/subscriber/storage.go], [hls.go]); with the parts of
    [path/filepath] they use, on Unix. The router is what it matched: the segments
    of the path it routes by. *)

From S2P Require Import Prelude GoStrings.
From S2P Require Urls.

Notation slash := Urls.slash.

(** ** [path/filepath] *)

(** One element of a path; the stack holds what is kept, the last element first. *)
Definition clean_step (rooted : bool) (stack : list string) (c : string) : list string :=
  if bool_decide (c = "") || bool_decide (c = ".") then stack
  else if bool_decide (c = "..") then
    match stack with
    | [] => if rooted then [] else [".."]
    | top :: rest => if bool_decide (top = "..") then ".." :: stack else rest
    end
  else c :: stack.

Definition rooted (s : string) : bool := HasPrefix s "/".

Fixpoint join_slash (l : list string) : string :=
  match l with
  | [] => ""
  | [c] => c
  | c :: l => c +:+ String slash (join_slash l)
  end.

Definition render (root : bool) (l : list string) : string :=
  if root then String slash (join_slash l) else match l with [] => "." | _ => join_slash l end.

(** The elements of a clean path. *)
Definition elems (s : string) : list string := rev (foldl (clean_step (rooted s)) [] (Split slash s)).

Definition Clean (s : string) : string :=
  if bool_decide (s = "") then "." else render (rooted s) (elems s).

(** The empty elements before the first other one are ignored. *)
Fixpoint Join (l : list string) : string :=
  match l with
  | [] => ""
  | c :: rest => if bool_decide (c = "") then Join rest else Clean (join_slash l)
  end.

Definition last_elem (s : string) : string := default "" (last (Split slash s)).

Definition Base (s : string) : string :=
  if bool_decide (s = "") then "."
  else let t := TrimRightByte slash s in
       if bool_decide (t = "") then "/" else last_elem t.

(** ** Serving *)

Record Request := mkRequest { Path : string; RawPath : string }.

(** The path the router matches. *)
Definition route_path (r : Request) : string := if bool_decide (RawPath r = "") then Path r else RawPath r.

Definition backslash : ascii := "092"%char.

(** [http.ServeFile] refuses a path with an element [..]. *)
Definition containsDotDot (s : string) : bool :=
  existsb (fun c => bool_decide (c = ".."))
    (Split slash (map_string (fun a => if bool_decide (a = backslash) then slash else a) s)).

Inductive file_answer := File (path : string) | Refused (status : Z).

Definition ServeFile (r : Request) (path : string) : file_answer :=
  if containsDotDot (Path r) then Refused 400 else File path.

Definition serveHLSSegment (root : string) (r : Request) (key file : string) : file_answer :=
  ServeFile r (Join [root; key; Base file]).

(** [exists_]: is there such a file? *)
Definition serveStorage (root : string) (exists_ : string -> bool) (r : Request) (key file : string) : file_answer :=
  let path := Join [root; key; Base file] in
  if negb (exists_ path) then Refused 404 else ServeFile r path.

(** The fast path of [serveHLSPlaylist]. *)
Definition servePlaylistFile (root : string) (exists_ : string -> bool) (r : Request) (key : string)
  : option file_answer :=
  let localPath := Join [root; key; "index.m3u8"] in
  if exists_ localPath then Some (ServeFile r localPath) else None.

(** ** Writing *)

(** The directory of a stream, for the storage and for the HLS subscriber. *)
Definition stream_dir (root streamKey : string) : string := Join [root; streamKey].

(** ** Lemmas *)

(** A path under a root: its elements, then others, none of which goes up. *)
Definition inside (root p : string) : Prop :=
  exists rest, ".." ∉ rest /\ p = render (rooted root) (elems root ++ rest).

Lemma rooted_app a b : a <> "" -> rooted (a +:+ b) = rooted a.
Proof.
  unfold rooted, HasPrefix. destruct a as [|x a]; [done|]. intros _. rewrite app_cons_string. cbn.
  destruct (bool_decide ("/"%char = x)); [|done]. by rewrite !bool_decide_true by eauto.
Qed.

(** Elements that do not go up are added, less the empty ones and the dots. *)
Definition kept (l : list string) : list string := filter (fun c => c <> "" /\ c <> ".") l.

Lemma clean_steps_down root l : forall stack, ".." ∉ l ->
  rev (foldl (clean_step root) stack l) = rev stack ++ kept l.
Proof.
  induction l as [|c l IH]; intros stack Hl; cbn [foldl]; [by rewrite app_nil_r|].
  apply not_elem_of_cons in Hl as [Hc Hl]. rewrite IH by done. unfold clean_step, kept. rewrite filter_cons.
  destruct (decide (c = "")) as [->|H1]; [done|]. destruct (decide (c = ".")) as [->|H2]; [done|].
  rewrite !bool_decide_false, decide_True by done. cbn [orb rev]. by rewrite <- app_assoc.
Qed.

Lemma elems_app root rest : root <> "" -> ".." ∉ Split slash rest ->
  elems (root +:+ String slash rest) = elems root ++ kept (Split slash rest).
Proof.
  intros Hr Hrest. unfold elems. rewrite rooted_app, Urls.Split_app_sep, foldl_app by done.
  by rewrite clean_steps_down.
Qed.

Lemma kept_down l : ".." ∉ l -> ".." ∉ kept l.
Proof. intros Hl [_ H]%list_elem_of_filter. done. Qed.

Lemma join_root root c l : root <> "" ->
  Join (root :: c :: l) = Clean (root +:+ String slash (join_slash (c :: l))).
Proof. intros Hr. cbn [Join]. by rewrite bool_decide_false. Qed.

Lemma Clean_inside root rest :
  root <> "" -> ".." ∉ Split slash rest -> inside root (Clean (root +:+ String slash rest)).
Proof.
  intros Hr Hrest. exists (kept (Split slash rest)). split; [by apply kept_down|].
  unfold Clean. rewrite bool_decide_false by (by destruct root). by rewrite rooted_app, elems_app.
Qed.

Lemma Split_elem_no_sep sep s c : c ∈ Split sep s -> contains_byte sep c = false.
Proof.
  revert c. induction s as [|a s IH]; intros c; cbn [Split]; [by intros ->%list_elem_of_singleton|].
  case_bool_decide as Ha; [intros [->|Hc]%elem_of_cons; auto|].
  pose proof (Urls.Split_nonempty sep s). destruct (Split sep s) as [|f fs]; [done|].
  intros [->|Hc]%elem_of_cons; [|apply IH; by right]. cbn [contains_byte].
  rewrite bool_decide_false by done. apply IH. by left.
Qed.

(** [Base] of an element is that element, or a dot. *)
Lemma last_elem_no_slash s : contains_byte slash s = false -> last_elem s = s.
Proof. intros Hs. unfold last_elem. by rewrite Split_no_sep. Qed.

Lemma contains_rev_app c s : forall acc, contains_byte c (rev_app s acc) = contains_byte c s || contains_byte c acc.
Proof.
  induction s as [|a s IH]; intros acc; [done|]. cbn [rev_app contains_byte]. rewrite IH. cbn [contains_byte].
  by destruct (contains_byte c s), (bool_decide _).
Qed.

Lemma TrimRight_no_slash s : contains_byte slash s = false -> TrimRightByte slash s = s.
Proof.
  intros Hs. unfold TrimRightByte. rewrite trim_left_none; [apply rev_string_involutive|].
  assert (contains_byte slash (rev_string s) = false) as Hr.
  { unfold rev_string. by rewrite contains_rev_app, Hs. }
  destruct (rev_string s) as [|a r]; [done|]. cbn [contains_byte] in Hr.
  apply orb_false_iff in Hr as [Ha%bool_decide_eq_false _]. cbn. rewrite bool_decide_false; [done|congruence].
Qed.

Lemma Base_elem s : contains_byte slash s = false -> Base s = if bool_decide (s = "") then "." else s.
Proof.
  intros Hs. unfold Base. case_bool_decide; [done|].
  rewrite TrimRight_no_slash, bool_decide_false, last_elem_no_slash by done. done.
Qed.

(** ** The URL and the route

    The raw path is a valid encoding of the path: every percent sign starts an
    escape. *)
Fixpoint well_escaped (s : string) : bool :=
  match s with
  | String "%" (String h (String l s)) => hex_digit h && hex_digit l && well_escaped s
  | String "%" _ => false
  | String _ s => well_escaped s
  | EmptyString => true
  end.

(** What [net/url] guarantees of a parsed URL. *)
Definition parsed (r : Request) : Prop :=
  RawPath r <> "" -> well_escaped (RawPath r) = true /\ Path r = Urls.unescape (RawPath r).

Lemma well_escaped_plain a s : a <> "%"%char -> well_escaped (String a s) = well_escaped s.
Proof. destruct a as [[] [] [] [] [] [] [] []]; done. Qed.

Lemma hex_digit_no_slash : hex_digit slash = false.
Proof. reflexivity. Qed.

(** Escapes do not cross a slash. *)
Lemma unescape_app_slash a b :
  well_escaped (a +:+ String slash b) = true ->
  well_escaped b = true /\
  Urls.unescape (a +:+ String slash b) = Urls.unescape a +:+ String slash (Urls.unescape b).
Proof.
  remember (String.length a) as n eqn:Hn. revert a Hn. induction n as [n IH] using lt_wf_ind. intros a -> Hw.
  destruct a as [|x a]; [by split; [|done]|]. rewrite app_cons_string in *.
  destruct (decide (x = "%"%char)) as [->|Hx].
  - destruct a as [|h [|l a]]; rewrite ?app_cons_string in *.
    + by destruct b as [|? b].
    + change (hex_digit h && false && well_escaped b = true) in Hw. by rewrite andb_false_r in Hw.
    + cbn [well_escaped] in Hw. rewrite !andb_true_iff in Hw. destruct Hw as [_ Hw].
      edestruct (IH (String.length a)) as [Hb Hu]; [cbn; lia|done|exact Hw|]. split; [done|].
      cbn [Urls.unescape]. by rewrite app_cons_string, Hu.
  - rewrite well_escaped_plain in Hw by done.
    edestruct (IH (String.length a)) as [Hb Hu]; [cbn; lia|done|exact Hw|]. split; [done|].
    by rewrite !Urls.unescape_plain, app_cons_string, Hu.
Qed.

Lemma Split_cons_inv sep s a b l :
  Split sep s = a :: b :: l -> exists rest, s = a +:+ String sep rest /\ Split sep rest = b :: l.
Proof.
  revert a b l. induction s as [|x s IH]; intros a b l; cbn [Split]; [done|]. case_bool_decide as Hx.
  - intros [= <- Hs]. exists s. by subst.
  - pose proof (Urls.Split_nonempty sep s). destruct (Split sep s) as [|f fs] eqn:Ef; [done|].
    intros [= <- ->]. destruct (IH f b l eq_refl) as (rest & -> & Hrest). by exists rest.
Qed.

Lemma Split_single sep s a : Split sep s = [a] -> s = a.
Proof.
  revert a. induction s as [|x s IH]; intros a; cbn [Split]; [by intros [=]|]. case_bool_decide.
  - intros [= <- Hs]. by destruct (Urls.Split_nonempty sep s).
  - pose proof (Urls.Split_nonempty sep s). destruct (Split sep s) as [|f fs] eqn:Ef; [done|].
    intros [= <- ->]. by rewrite (IH f eq_refl).
Qed.

(** An element of the raw path, decoded, is a run of elements of the path. *)
Lemma raw_element c raw : well_escaped raw = true -> c ∈ Split slash raw ->
  forall d, d ∈ Split slash (Urls.unescape c) -> d ∈ Split slash (Urls.unescape raw).
Proof.
  remember (Split slash raw) as l eqn:El. revert raw El. induction l as [|a l IH]; intros raw El Hw Hc d Hd; [by apply elem_of_nil in Hc|].
  destruct l as [|b l].
  - symmetry in El. apply Split_single in El as ->. by apply list_elem_of_singleton in Hc as ->.
  - symmetry in El. apply Split_cons_inv in El as (rest & -> & Hrest).
    destruct (unescape_app_slash _ _ Hw) as [Hwr ->]. rewrite Urls.Split_app_sep. apply elem_of_app.
    apply elem_of_cons in Hc as [->|Hc]; [by left|right]. by apply (IH rest).
Qed.

Lemma containsDotDot_elem s : ".." ∈ Split slash s -> containsDotDot s = true.
Proof.
  set (f := fun a => if bool_decide (a = backslash) then slash else a).
  assert (forall l s, Split slash s = l -> ".." ∈ l -> ".." ∈ Split slash (map_string f s)) as H.
  { clear s. induction l as [|a l IH]; intros s El Hc; [by apply elem_of_nil in Hc|]. destruct l as [|b l].
    - apply Split_single in El as ->. apply list_elem_of_singleton in Hc as <-. by left.
    - apply Split_cons_inv in El as (rest & -> & Hrest). rewrite map_string_app.
      change (map_string f (String slash rest)) with (String slash (map_string f rest)).
      rewrite Urls.Split_app_sep. apply elem_of_app.
      apply elem_of_cons in Hc as [<-|Hc]; [by left; left|right; by apply IH]. }
  intros Hs. unfold containsDotDot. apply existsb_exists. exists "..". split; [|done].
  apply list_elem_of_In. by apply (H (Split slash s)).
Qed.

(** Clean elements. *)
Definition plain (c : string) : Prop := contains_byte slash c = false /\ c <> "" /\ c <> ".".

Lemma clean_steps_plain root l : Forall (fun c => contains_byte slash c = false) l -> forall stack,
  Forall plain stack -> Forall plain (foldl (clean_step root) stack l).
Proof.
  induction 1 as [|c l Hc _ IH]; intros stack Hs; cbn [foldl]; [done|]. apply IH. unfold clean_step.
  case_bool_decide as H1; [done|]. case_bool_decide as H2; [done|]. cbn [orb]. case_bool_decide; [|by constructor].
  assert (plain "..") as Hd by done.
  destruct stack as [|top rest]; [by destruct root; [|by constructor]|].
  case_bool_decide; [by constructor|]. by apply Forall_cons in Hs as [_ ?].
Qed.

Lemma Split_no_slash s : Forall (fun c => contains_byte slash c = false) (Split slash s).
Proof. apply Forall_forall. intros c Hc. by apply Split_elem_no_sep in Hc. Qed.

Lemma elems_plain s : Forall plain (elems s).
Proof. apply Forall_rev, clean_steps_plain; [apply Split_no_slash|constructor]. Qed.

Lemma kept_plain s : Forall plain (kept (Split slash s)).
Proof.
  apply Forall_forall. intros c [[??] Hc]%list_elem_of_filter. split_and!; [by apply Split_elem_no_sep in Hc|done|done].
Qed.

Lemma Split_join_slash l : l <> [] -> Forall plain l -> Split slash (join_slash l) = l.
Proof.
  induction l as [|c l IH]; [done|]. intros _ [[Hc _] Hl]%Forall_cons. destruct l as [|d l].
  - cbn [join_slash]. by rewrite Split_no_sep.
  - change (join_slash (c :: d :: l)) with (c +:+ String slash (join_slash (d :: l))).
    by rewrite Split_app, IH.
Qed.

Lemma join_inj l1 l2 : Forall plain l1 -> Forall plain l2 -> join_slash l1 = join_slash l2 -> l1 = l2.
Proof.
  intros H1 H2 He. assert (forall l, Forall plain l -> join_slash l = "" -> l = []) as Hnil.
  { intros l Hl Hj. destruct l as [|c l]; [done|]. pose proof (Split_join_slash (c :: l)) as Hs. rewrite Hj in Hs.
    specialize (Hs ltac:(done) Hl). injection Hs as <- <-. apply Forall_cons in Hl as [[_ [? _]] _]. done. }
  destruct (decide (l1 = [])) as [->|N1]; [symmetry; by apply Hnil|].
  destruct (decide (l2 = [])) as [->|N2]; [by apply Hnil|].
  by rewrite <- (Split_join_slash l1), He, Split_join_slash.
Qed.

Lemma render_inj b l1 l2 : Forall plain l1 -> Forall plain l2 -> render b l1 = render b l2 -> l1 = l2.
Proof.
  intros H1 H2. destruct b; cbn [render]; [intros [= He]; by apply join_inj|].
  assert (forall l, Forall plain l -> l <> [] -> join_slash l <> ".") as Hdot.
  { intros l Hl Hne Hj. pose proof (Split_join_slash l Hne Hl) as Hs. rewrite Hj in Hs. subst l.
    apply Forall_cons in Hl as [[_ [_ ?]] _]. done. }
  destruct (decide (l1 = [])) as [->|N1], (decide (l2 = [])) as [->|N2]; [done| | |].
  - intros He. destruct l2; [done|]. by destruct (Hdot _ H2 N2).
  - intros He. destruct l1; [done|]. by destruct (Hdot _ H1 N1).
  - destruct l1, l2; try done. by apply join_inj.
Qed.

(** ** Properties *)


(** the directory of a stream. A key none of whose elements goes up has its directory
    under the root, and two such keys share a directory exactly when they have the same
    elements, empty ones and dots aside. *)
Theorem stream_dirs root k1 k2 :
  root <> "" -> ".." ∉ Split slash k1 -> ".." ∉ Split slash k2 ->
  inside root (stream_dir root k1) /\
  (stream_dir root k1 = stream_dir root k2 <-> kept (Split slash k1) = kept (Split slash k2)).
Proof.
  intros Hr H1 H2. assert (forall k, ".." ∉ Split slash k ->
    stream_dir root k = render (rooted root) (elems root ++ kept (Split slash k))) as Hdir.
  { intros k Hk. unfold stream_dir. rewrite join_root by done. unfold Clean.
    rewrite bool_decide_false by (by destruct root). by rewrite rooted_app, elems_app. }
  rewrite !Hdir by done. split; [by exists (kept (Split slash k1)); split; [apply kept_down|]|].
  split; [|by intros ->]. intros He%render_inj; [by apply app_inv_head in He| |];
    apply Forall_app; split; apply elems_plain || apply kept_plain.
Qed.

(** The key that the publish hook passes on may go up, and the files are written there. *)
Example key_escapes_root : stream_dir "./data/storage" "../../etc/cam" = "etc/cam".
Proof. by vm_compute. Qed.

Example clean_examples :
  (Clean "", Clean "/..", Clean "a/../..//b/.", Join [""; "x"; "y"], Base "a/b/", Base "/", Base "..")
  = (".", "/", "../b", "x/y", "b", "/", "..").
Proof. by vm_compute. Qed.

(** ** Witnesses *)

Definition example_request : Request := mkRequest "/hls/cam 1/seg_0.flv" "/hls/cam%201/seg_0.flv".


Lemma stream_dirs_witness :
  stream_dir "./data/hls" "cam/hd" = "data/hls/cam/hd" /\
  inside "./data/hls" (stream_dir "./data/hls" "cam/hd") /\
  (stream_dir "./data/hls" "cam/hd" = stream_dir "./data/hls" "cam//./hd" <->
   kept (Split slash "cam/hd") = kept (Split slash "cam//./hd")).
Proof.
  split; [by vm_compute|]. apply (stream_dirs "./data/hls" "cam/hd" "cam//./hd"); [done| |]; vm_compute; set_solver.
Defined.
