(* ===== verification/Ingest.v ===== *)
(** * From a source to a live stream

    The body of [ingest] ([internal/rtsp/ingester.go]) between its goroutine's start
    and its end, which Pull.v has as steps: what it does with the answers of the RTSP
    library, in order, the deferred calls included; and the stream it prepares, with
    the subscribers of [internal/subscriber/factory.go] and the sequence headers of
    Rtsp.v. *)

From S2P Require Import Prelude Packet Flv Subscriber Stream.
From S2P Require Rtsp.

(** ** The factory *)

(** [minio]: is there a client? [NewMinIO] returns nil without one. *)
Definition NewMinIO (minio : bool) (streamKey : string) : option QueueSub :=
  if minio then Some (NewMinIOSubscriber streamKey) else None.

Definition PublishSubscribers (minio : bool) (streamKey : string) : list Subscriber :=
  Queue <$> [NewStorageSubscriber streamKey; NewHLSSubscriber streamKey] ++
    match NewMinIO minio streamKey with Some s => [s] | None => [] end.

Definition RelaySubscribers (streamKey : string) : list Subscriber :=
  Queue <$> [NewStorageSubscriber streamKey; NewHLSSubscriber streamKey].

(** The seconds of a MinIO segment: [NewFactory], [NewMinIO] and the constructor
    each replace what is not positive. *)
Definition minioSegmentDuration (configured : Z) : Z := if configured <=? 0 then 10 else configured.

(** ** The stream *)

(** The configuration of an AAC format: its encoding, or the error, and its rate. *)
Record AudioConfig := mkAudioConfig { Marshal : result string (list byte); SampleRate : Z }.

(** The formats of the description: for H.264 the parameter sets, which may be
    empty, for AAC the configuration, which may be missing. *)
Record Description := mkDescription {
  h264fmt : option (list byte * list byte); aacFmt : option (option AudioConfig) }.

(** [for _, sub := range … { liveStream.AddSubscriber(sub) }] *)
Definition attach (l : list Subscriber) (s : liveStream) : liveStream :=
  foldl (fun s sub => fst (AddSubscriber sub s)) s l.

Definition video_header (pick : option nat) (d : Description) (s : liveStream) (m : Mem) : liveStream * Mem :=
  match h264fmt d with
  | Some (sps, pps) =>
      if (4 <=? length sps)%nat && (0 <? length pps)%nat then
        match Rtsp.buildVideoSeqHeader pick sps pps m with
        | Some (pkt, m) => (fst (Ingest pkt s m), m)
        | None => (s, m)
        end
      else (s, m)
  | None => (s, m)
  end.

Definition audio_header (pick : option nat) (d : Description) (s : liveStream) (m : Mem) : liveStream * Mem :=
  match aacFmt d with
  | Some (Some cfg) =>
      match Marshal cfg with
      | Ok configBytes =>
          if (0 <? length configBytes)%nat
          then let '(pkt, m) := Rtsp.buildAudioSeqHeader pick configBytes m in (fst (Ingest pkt s m), m)
          else (s, m)
      | Err _ => (s, m)
      end
  | _ => (s, m)
  end.

(** The sample rate the audio callback divides by. *)
Definition sampleRate (d : Description) : Z :=
  match aacFmt d with
  | Some (Some cfg) => if 0 <? SampleRate cfg then SampleRate cfg else 44100
  | _ => 44100
  end.

(** From [Register] to the callbacks, as if nothing else ran in between: the pump
    and the consumers only take from the queues. *)
Definition prepare (minio : bool) (node streamKey : string) (pick1 pick2 : option nat) (d : Description) (m : Mem)
  : liveStream * Mem :=
  let s := attach (PublishSubscribers minio streamKey) (newLiveStream streamKey node) in
  let '(s, m) := video_header pick1 d s m in
  audio_header pick2 d s m.

(** ** The goroutine *)

Inductive action :=
  | Connect | Register_ok | Attach | Headers | OnVideo | OnAudio | Play | Wait
  | CloseClient | Remove | UnregisterKey.

#[export] Instance action_eq_dec : EqDecision action.
Proof. solve_decision. Defined.

(** What the libraries and [Register] answer: errors, or [None]. *)
Record Answers := mkAnswers {
  ParseURL : string -> option string;
  StartClient : option string;
  Describe : result string Description;
  SetupAll : option string;
  RegisterStream : option string;
  VideoDecoder : option string;
  AudioDecoder : option string;
  PlayStream : option string }.

(** [if err != nil { return }], after some actions. *)
Definition then_ (acts : list action) (err : option string) (next : list action) : list action :=
  match err with Some _ => [] | None => acts ++ next end.

(** The body after [client.Describe]. *)
Definition stream_body (a : Answers) (d : Description) : list action :=
  if bool_decide (h264fmt d = None) && bool_decide (aacFmt d = None) then []
  else
    then_ [] (SetupAll a) (
    then_ [Register_ok; Attach; Headers] (RegisterStream a) (
    then_ (if bool_decide (h264fmt d = None) then [] else [OnVideo])
          (if bool_decide (h264fmt d = None) then None else VideoDecoder a) (
    then_ (if bool_decide (aacFmt d = None) then [] else [OnAudio])
          (if bool_decide (aacFmt d = None) then None else AudioDecoder a) (
    then_ [Play; Wait] (PlayStream a) [])))).

(** The whole body; the deferred calls run last, the latest first. *)
Definition ingest_body (a : Answers) (RTSPBaseURL streamKey : string) : list action :=
  match ParseURL a (RTSPBaseURL +:+ "/" +:+ streamKey) with
  | Some _ => []
  | None =>
      match StartClient a with
      | Some _ => []
      | None => Connect :: match Describe a with Err _ => [] | Ok d => stream_body a d end ++ [CloseClient]
      end
  end ++ [Remove; UnregisterKey].

(** ** Lemmas *)

Lemma PublishSubscribers_ids minio key : NoDup (ID <$> PublishSubscribers minio key).
Proof.
  destruct minio; cbn; repeat constructor; set_solver.
Qed.

Lemma attach_spec l : forall s, NoDup (ID <$> l) ->
  key (attach l s) = key s /\ ingest (attach l s) = ingest s /\ accepted (attach l s) = accepted s /\
  closed (attach l s) = closed s /\
  (forall sub, sub ∈ l -> subs (attach l s) !! ID sub = Some sub) /\
  (forall id, id ∉ ID <$> l -> subs (attach l s) !! id = subs s !! id).
Proof.
  induction l as [|x l IH]; intros s Hnd; cbn [attach foldl]; [by split_and!; [..|intros ? ?%elem_of_nil|]|].
  apply NoDup_cons in Hnd as [Hx Hnd].
  destruct (IH (fst (AddSubscriber x s)) Hnd) as (Hk & Hi & Ha & Hc & Hin & Hout).
  change (foldl _ ?s l) with (attach l s). split_and!; try done.
  - intros sub [->|Hsub]%elem_of_cons; [|by apply Hin]. rewrite Hout by done. apply lookup_insert_eq.
  - intros id Hid. change (ID <$> x :: l) with (ID x :: (ID <$> l)) in Hid.
    apply not_elem_of_cons in Hid as [Hne Hid]. rewrite Hout by done. by apply lookup_insert_ne.
Qed.

(** What the headers do to a stream: some packets are enqueued, the rest is kept. *)
Definition enqueued (l : list (nat * content)) (s s' : liveStream) : Prop :=
  subs s' = subs s /\ closed s' = closed s /\ key s' = key s /\
  ingest s' = ingest s ++ l.*1 /\ accepted s' = accepted s ++ l.*2.

Lemma enqueued_nil s : enqueued [] s s.
Proof. unfold enqueued. by rewrite !app_nil_r. Qed.

Lemma enqueued_one a s m : closed s = false -> (length (ingest s) < ingestBufSize)%nat ->
  enqueued [(a, content_of (deref a m))] s (fst (Ingest a s m)).
Proof.
  intros Hc Hl. unfold Ingest, ingest_send. rewrite Hc. apply Nat.ltb_lt in Hl. rewrite Hl. done.
Qed.

Lemma enqueued_app l1 l2 s1 s2 s3 : enqueued l1 s1 s2 -> enqueued l2 s2 s3 -> enqueued (l1 ++ l2) s1 s3.
Proof.
  intros (? & ? & ? & Hi & Ha) (? & ? & ? & Hi2 & Ha2). unfold enqueued.
  rewrite Hi2, Ha2, Hi, Ha, !fmap_app, !app_assoc. split_and!; congruence.
Qed.

Lemma buildAudioSeqHeader_spec pick cfg m :
  mem_wf m -> let '(a, m') := Rtsp.buildAudioSeqHeader pick cfg m in
  fresh_packet (2 + length cfg) a m m' /\ content_of (deref a m') = mkContent PacketAudio 0 false ([xaf; x00] ++ cfg).
Proof.
  intros Hwf. unfold Rtsp.buildAudioSeqHeader.
  destruct (NewAVPacket pick (2 + length cfg) m) as [a m0] eqn:E.
  pose proof (NewAVPacket_fresh _ _ _ _ _ Hwf E) as Hf.
  destruct (NewAVPacket_flags _ _ _ _ _ Hwf E) as (_ & _ & Hk0).
  set (m1 := update a (set_Timestamp 0) (update a (set_Type PacketAudio) m0)).
  assert (fresh_packet (2 + length cfg) a m m1) as Hf1 by (unfold m1; auto with packet).
  destruct (Rtsp.build_layout _ a m m1 xaf x00 2 cfg Hf1) as [Hf4 HD]; [lia|done|].
  cbv zeta in Hf4, HD. split; [exact Hf4|]. unfold content_of. rewrite HD. cbn [take Nat.sub app].
  unfold m1. rewrite !deref_update_eq by (rewrite ?update_is_Some; apply Hf). cbn. by rewrite Hk0.
Qed.

Definition has_params (d : Description) : option (list byte * list byte) :=
  match h264fmt d with
  | Some (sps, pps) => if (4 <=? length sps)%nat && (0 <? length pps)%nat then Some (sps, pps) else None
  | None => None
  end.

Definition has_config (d : Description) : option (list byte) :=
  match aacFmt d with
  | Some (Some cfg) => match Marshal cfg with
                       | Ok bs => if (0 <? length bs)%nat then Some bs else None
                       | Err _ => None
                       end
  | _ => None
  end.

(** The entry of a video header, and of an audio header. *)
Definition is_video_header (sps pps : list byte) (c : content) : Prop :=
  c_type c = PacketVideo /\ c_key c = true /\ Rtsp.parseAVCConfigRecord (drop 5 (c_data c)) = Some (sps, pps).

Lemma video_header_spec pick d s m :
  mem_wf m -> closed s = false -> (length (ingest s) < ingestBufSize)%nat ->
  (forall sps pps, h264fmt d = Some (sps, pps) -> Z.of_nat (length sps) < 65536 /\ Z.of_nat (length pps) < 65536) ->
  let '(s', m') := video_header pick d s m in
  exists l, enqueued l s s' /\ Rtsp.built l.*1 m m' /\
    match has_params d with
    | Some (sps, pps) => exists a c, l = [(a, c)] /\ is_video_header sps pps c
    | None => l = []
    end.
Proof.
  intros Hwf Hc Hl Hsz. unfold video_header, has_params.
  assert (exists l, enqueued l s s /\ Rtsp.built l.*1 m m /\ l = []) as Hnone
    by (exists []; split_and!; [apply enqueued_nil|by apply Rtsp.built_nil|done]).
  destruct (h264fmt d) as [[sps pps]|]; [|done]. destruct (Hsz sps pps eq_refl) as [Hs Hp].
  destruct ((4 <=? length sps)%nat && _) eqn:Eg; [|done]. apply andb_true_iff in Eg as [Eg%Nat.leb_le _].
  destruct (Rtsp.buildVideoSeqHeader_spec pick sps pps m Hwf Eg) as (rec & a & m' & Er & -> & Hf & HT & HK & HD).
  exists [(a, content_of (deref a m'))]. split_and!; [by apply enqueued_one|by eapply Rtsp.built_one|].
  exists a, (content_of (deref a m')). split; [done|]. split_and!; [done|done|].
  cbn [c_data content_of]. rewrite HD. by apply Rtsp.parse_buildAVCConfigRecord.
Qed.

Lemma audio_header_spec pick d s m :
  mem_wf m -> closed s = false -> (length (ingest s) < ingestBufSize)%nat ->
  let '(s', m') := audio_header pick d s m in
  exists l, enqueued l s s' /\ Rtsp.built l.*1 m m' /\
    match has_config d with
    | Some bs => exists a, l = [(a, mkContent PacketAudio 0 false ([xaf; x00] ++ bs))]
    | None => l = []
    end.
Proof.
  intros Hwf Hc Hl. unfold audio_header, has_config.
  assert (exists l, enqueued l s s /\ Rtsp.built l.*1 m m /\ l = []) as Hnone
    by (exists []; split_and!; [apply enqueued_nil|by apply Rtsp.built_nil|done]).
  destruct (aacFmt d) as [[cfg|]|]; [|done..]. destruct (Marshal cfg) as [bs|]; [|done].
  destruct (0 <? length bs)%nat; [|done]. pose proof (buildAudioSeqHeader_spec pick bs m Hwf) as Hb.
  destruct (Rtsp.buildAudioSeqHeader pick bs m) as [a m']. destruct Hb as [Hf Hco].
  exists [(a, content_of (deref a m'))]. split_and!; [by apply enqueued_one|by eapply Rtsp.built_one|].
  exists a. by rewrite Hco.
Qed.

(** ** Properties *)


(** The order of the actions when nothing fails. *)
Definition whole_run : list action :=
  [Connect; Register_ok; Attach; Headers; OnVideo; OnAudio; Play; Wait; CloseClient; Remove; UnregisterKey].

(** Does the run register its stream? *)
Definition registers (a : Answers) (url : string) : bool :=
  bool_decide (ParseURL a url = None) && bool_decide (StartClient a = None) &&
  match Describe a with
  | Ok d => negb (bool_decide (h264fmt d = None) && bool_decide (aacFmt d = None)) &&
            bool_decide (SetupAll a = None) && bool_decide (RegisterStream a = None)
  | Err _ => false
  end.

(** A run, by how far it got. *)
Definition run_of (connected registered video audio played : bool) : list action :=
  (if connected then [Connect] else []) ++ (if registered then [Register_ok; Attach; Headers] else []) ++
  (if video then [OnVideo] else []) ++ (if audio then [OnAudio] else []) ++
  (if played then [Play; Wait] else []) ++ (if connected then [CloseClient] else []) ++ [Remove; UnregisterKey].

Lemma ingest_body_run a base streamKey : exists connected video audio played,
  let registered := registers a (base +:+ "/" +:+ streamKey) in
  ingest_body a base streamKey = run_of connected registered video audio played /\
  (played = true -> registered = true).
Proof.
  unfold ingest_body, registers, stream_body, then_.
  assert (forall (x : option string), bool_decide (x = None) = match x with None => true | _ => false end) as Hb
    by (by intros []).
  destruct (ParseURL a _); [by exists false, false, false, false|].
  destruct (StartClient a); [by exists false, false, false, false|].
  destruct (Describe a) as [d|]; [|by exists true, false, false, false]. rewrite !Hb.
  set (v := bool_decide (h264fmt d = None)). set (u := bool_decide (aacFmt d = None)).
  destruct (v && u) eqn:E; [by exists true, false, false, false|].
  destruct (SetupAll a); [by exists true, false, false, false|].
  destruct (RegisterStream a); [by exists true, false, false, false|].
  destruct (if v then None else VideoDecoder a); [by exists true, false, false, false|].
  destruct (if u then None else AudioDecoder a); [exists true, (negb v), false, false; by destruct v|].
  destruct (PlayStream a); [exists true, (negb v), (negb u), false|exists true, (negb v), (negb u), true];
    by destruct v, u.
Qed.

(** the life of an ingest goroutine. Whatever the libraries answer, its actions come
    in one order, each at most once: headers after the subscribers and before the
    source plays, so no frame overtakes them. The client is closed exactly when it was
    connected; the session is removed and the key unregistered at the end of every run,
    also of one that registered nothing. *)
Theorem ingest_order a base streamKey :
  let acts := ingest_body a base streamKey in
  acts = filter (fun x => x ∈ acts) whole_run /\
  (Connect ∈ acts <-> CloseClient ∈ acts) /\ (Attach ∈ acts <-> Register_ok ∈ acts) /\
  (Headers ∈ acts <-> Register_ok ∈ acts) /\ (Play ∈ acts -> Headers ∈ acts) /\
  (exists pre, acts = pre ++ [Remove; UnregisterKey]) /\
  (Register_ok ∈ acts <-> registers a (base +:+ "/" +:+ streamKey) = true).
Proof.
  intros acts. destruct (ingest_body_run a base streamKey) as (b1 & b3 & b4 & b5 & Hrun & H52).
  unfold acts. rewrite Hrun. destruct (registers _ _), b1, b3, b4, b5; try (by specialize (H52 eq_refl)).
  all: split_and!; try (apply (bool_decide_unpack _); vm_compute; exact I).
  all: unfold run_of; rewrite !app_assoc; by eexists.
Qed.

(** ** Witnesses *)

Definition example_description : Description :=
  mkDescription (Some (Rtsp.demo_sps, Rtsp.demo_pps)) (Some (Some (mkAudioConfig (Ok [x12; x10]) 44100))).

