(* ===== verification/Logging.v ===== *)
(** * Logging

    [internal/logging/logging.go]: the hook that splits entries over four files, the
    telemetry hook with its bounded queue and worker, and the opening and closing of the
    files. Formatting, HTTP and the log library are arguments; the files are lists of
    lines. *)

From S2P Require Import Prelude GoStrings.
From S2P Require Paths.

(** ** Entries *)

Inductive Level := PanicLevel | FatalLevel | ErrorLevel | WarnLevel | InfoLevel | DebugLevel | TraceLevel.

Definition level_num (l : Level) : Z :=
  match l with
  | PanicLevel => 0 | FatalLevel => 1 | ErrorLevel => 2 | WarnLevel => 3 | InfoLevel => 4 | DebugLevel => 5
  | TraceLevel => 6
  end.

(** The channel field, if it is a string, and the formatted line, or the error. *)
Record Entry := mkEntry { e_level : Level; e_channel : option string; e_line : result string string }.

Inductive logfile := InfoFile | ErrorFile | StatFile | SlowFile.

#[export] Instance logfile_eq_dec : EqDecision logfile.
Proof. solve_decision. Defined.

(** What was written to each file. *)
Definition Files := logfile -> list string.

(** [err f]: the error of a write to [f]. *)
Definition write_line (err : logfile -> option string) (f : logfile) (line : string) (fs : Files) : Files * option string :=
  match err f with
  | Some e => (fs, Some e)
  | None => (fun g => if bool_decide (g = f) then fs g ++ [line] else fs g, None)
  end.

(** [splitFileHook.Fire] *)
Definition split_Fire (err : logfile -> option string) (e : Entry) (fs : Files) : Files * option string :=
  match e_line e with
  | Err x => (fs, Some x)
  | Ok line =>
      if bool_decide (e_channel e = Some "stat") then write_line err StatFile line fs
      else if bool_decide (e_channel e = Some "slow") then write_line err SlowFile line fs
      else
        let '(fs, x) := if level_num (e_level e) <=? level_num WarnLevel then write_line err ErrorFile line fs
                        else (fs, None) in
        match x with
        | Some x => (fs, Some x)
        | None => if level_num InfoLevel <=? level_num (e_level e) then write_line err InfoFile line fs else (fs, None)
        end
  end.

(** [Stat] and [Slow] *)
Definition Stat (line : result string string) : Entry := mkEntry InfoLevel (Some "stat") line.
Definition Slow (line : result string string) : Entry := mkEntry WarnLevel (Some "slow") line.

(** [slowThresholdMs] holds [ms]. *)
Definition SlowThreshold (ms : Z) : Duration := i64 ((if ms <=? 0 then 1000 else ms) * Millisecond).

Definition SlowIfExceeds (ms : Z) (elapsed : Duration) (line : result string string) : option Entry :=
  if elapsed <? SlowThreshold ms then None else Some (Slow line).

(** ** Setup *)

Record LoggingConfig := mkLogging {
  l_Dir : string; l_InfoFile : string; l_ErrorFile : string; l_StatFile : string; l_SlowFile : string;
  l_SlowThresholdMs : Z }.

Definition or_default (s d : string) : string := if bool_decide (s = "") then d else s.

Definition log_dir (cfg : LoggingConfig) : string := or_default (l_Dir cfg) "./logs".

(** The names of the files, in the order they are opened. *)
Definition log_names (cfg : LoggingConfig) : list (logfile * string) :=
  [(InfoFile, or_default (l_InfoFile cfg) "info.log"); (ErrorFile, or_default (l_ErrorFile cfg) "error.log");
   (StatFile, or_default (l_StatFile cfg) "stat.log"); (SlowFile, or_default (l_SlowFile cfg) "slow.log")].

(** The files that are open, after one is closed. *)
Definition close_file (f : logfile) (opened : list logfile) : list logfile := filter (fun g => g <> f) opened.

Definition file_name (cfg : LoggingConfig) (f : logfile) : string :=
  default "" (snd <$> head (filter (fun n => fst n = f) (log_names cfg))).

(** [Setup]: the files left open, the threshold stored, and the error. Each failure
    closes the files opened before it. *)
Definition Setup (mkdir : string -> option string) (open : string -> option string) (cfg : LoggingConfig)
  : list logfile * Z * option string :=
  let path f := Paths.Join [log_dir cfg; file_name cfg f] in
  match mkdir (log_dir cfg) with
  | Some e => ([], 0, Some e)
  | None =>
  match open (path InfoFile) with
  | Some e => ([], 0, Some e)
  | None =>
  let o := [InfoFile] in
  match open (path ErrorFile) with
  | Some e => (close_file InfoFile o, 0, Some e)
  | None =>
  let o := o ++ [ErrorFile] in
  match open (path StatFile) with
  | Some e => (close_file ErrorFile (close_file InfoFile o), 0, Some e)
  | None =>
  let o := o ++ [StatFile] in
  match open (path SlowFile) with
  | Some e => (close_file StatFile (close_file ErrorFile (close_file InfoFile o)), 0, Some e)
  | None => (o ++ [SlowFile], (if l_SlowThresholdMs cfg <=? 0 then 1000 else l_SlowThresholdMs cfg), None)
  end end end end end.

(** The cleanup closes the files in the reverse order. *)
Definition cleanup (o : list logfile) : list logfile :=
  close_file InfoFile (close_file ErrorFile (close_file StatFile (close_file SlowFile o))).

(** ** Telemetry *)

Record TelemetryConfig := mkTelemetry { t_Enabled : bool; t_Endpoint : string; t_TimeoutMs : Z; t_QueueSize : Z }.

Inductive worker := Running | Draining | Gone.

#[export] Instance worker_eq_dec : EqDecision worker.
Proof. solve_decision. Defined.

(** [h_accepted] is the history of what [Fire] enqueued, [h_before] what it had enqueued
    when [Close] was called. *)
Record Hook := mkHook {
  h_cap : nat; h_queue : list string; h_stop : bool; h_worker : worker; h_sent : list string;
  h_accepted : list string; h_before : list string }.

Definition newTelemetryHook (cfg : TelemetryConfig) : option Hook :=
  if negb (t_Enabled cfg) || bool_decide (t_Endpoint cfg = "") then None
  else
    let queueSize := if t_QueueSize cfg <=? 0 then 2048 else t_QueueSize cfg in
    Some (mkHook (Z.to_nat queueSize) [] false Running [] [] []).

(** [Fire] on a payload; a full queue drops it. *)
Definition hook_Fire (payload : string) (h : Hook) : Hook :=
  if (length (h_queue h) <? h_cap h)%nat
  then mkHook (h_cap h) (h_queue h ++ [payload]) (h_stop h) (h_worker h) (h_sent h)
         (h_accepted h ++ [payload]) (h_before h)
  else h.

(** [Close] up to the wait; a second call returns at once. *)
Definition hook_Close (h : Hook) : Hook :=
  if h_stop h then h
  else mkHook (h_cap h) (h_queue h) true (h_worker h) (h_sent h) (h_accepted h) (h_accepted h).

(** A payload taken and sent; the loop it is in goes on. *)
Definition send_one (h : Hook) : option Hook :=
  match h_worker h, h_queue h with
  | Gone, _ | _, [] => None
  | _, p :: rest => Some (mkHook (h_cap h) rest (h_stop h) (h_worker h) (h_sent h ++ [p]) (h_accepted h) (h_before h))
  end.

Definition at_worker (w : worker) (h : Hook) : Hook :=
  mkHook (h_cap h) (h_queue h) (h_stop h) w (h_sent h) (h_accepted h) (h_before h).

(** The worker's steps: a payload, the stop channel, the end of the drain. *)
Inductive worker_step (h : Hook) : Hook -> Prop :=
  | step_send h' : send_one h = Some h' -> worker_step h h'
  | step_stop : h_worker h = Running -> h_stop h = true -> worker_step h (at_worker Draining h)
  | step_drained : h_worker h = Draining -> h_queue h = [] -> worker_step h (at_worker Gone h).

Inductive hook_step (h : Hook) : Hook -> Prop :=
  | step_worker h' : worker_step h h' -> hook_step h h'
  | step_fire p : hook_step h (hook_Fire p h)
  | step_close : hook_step h (hook_Close h).

(** ** Lemmas *)

Record hook_inv (cap : nat) (h : Hook) : Prop := {
  hi_cap : h_cap h = cap;
  hi_len : (length (h_queue h) <= cap)%nat;
  hi_log : h_sent h ++ h_queue h = h_accepted h;
  hi_before : h_before h `prefix_of` h_accepted h;
  hi_stop : h_worker h <> Running -> h_stop h = true;
  hi_gone : h_worker h = Gone -> h_before h `prefix_of` h_sent h;
}.

Lemma hook_inv_fire cap p h : hook_inv cap h -> hook_inv cap (hook_Fire p h).
Proof.
  intros [H1 H2 H3 H4 H5 H6]. unfold hook_Fire. destruct (Nat.ltb_spec (length (h_queue h)) (h_cap h)); [|done].
  split; cbn; try done.
  - rewrite length_app. cbn. lia.
  - by rewrite app_assoc, H3.
  - by apply prefix_app_r.
Qed.

Lemma hook_inv_close cap h : hook_inv cap h -> hook_inv cap (hook_Close h).
Proof.
  intros [H1 H2 H3 H4 H5 H6]. unfold hook_Close. destruct (h_stop h) eqn:Es; [done|].
  split; cbn; try done. intros Hg. by specialize (H5 ltac:(by rewrite Hg)).
Qed.

Lemma hook_inv_worker cap h h' : hook_inv cap h -> worker_step h h' -> hook_inv cap h'.
Proof.
  intros [H1 H2 H3 H4 H5 H6] [h2 Hs|Hw Hs|Hw Hq].
  - unfold send_one in Hs. destruct (h_worker h) eqn:Ew, (h_queue h) as [|p q] eqn:Eq; simplify_eq;
      split; cbn in *; rewrite ?Ew; try done; try lia; by rewrite <- app_assoc.
  - by split.
  - split; try done; cbn; intros _; [apply H5; by rewrite Hw|]. by rewrite <- H3, Hq, app_nil_r in H4.
Qed.

Lemma hook_inv_reachable cfg h0 h : newTelemetryHook cfg = Some h0 -> rtc hook_step h0 h -> hook_inv (h_cap h0) h.
Proof.
  intros H0 Hr. assert (hook_inv (h_cap h0) h0) as Hi.
  { unfold newTelemetryHook in H0. destruct (negb _ || _); [done|]. injection H0 as <-. split; cbn; try done; lia. }
  generalize dependent (h_cap h0). intros cap Hi. clear H0. revert Hi.
  induction Hr as [|a b c Hab _ IH]; [done|]. intros Hi. apply IH. destruct Hab as [? Hw|p|].
  - by eapply hook_inv_worker.
  - by apply hook_inv_fire.
  - by apply hook_inv_close.
Qed.

(** How many steps a stopped worker can still make. *)
Definition work_left (h : Hook) : nat :=
  (length (h_queue h) + match h_worker h with Running => 2 | Draining => 1 | Gone => 0 end)%nat.

Lemma worker_step_less h h' : worker_step h h' -> (work_left h' < work_left h)%nat /\ h_stop h' = h_stop h.
Proof.
  unfold work_left. intros [h2 Hs|Hw Hs|Hw Hq]; cbn.
  - unfold send_one in Hs. destruct (h_worker h) eqn:Ew, (h_queue h) eqn:Eq; simplify_eq; cbn; rewrite ?Ew; split; (done || lia).
  - rewrite Hw. split; [lia|done].
  - rewrite Hw. split; [lia|done].
Qed.

Lemma worker_progress h : h_stop h = true -> h_worker h <> Gone -> exists h', worker_step h h'.
Proof.
  intros Hs Hw. destruct (h_worker h) eqn:Ew; [| |done].
  - eexists. by apply step_stop.
  - destruct (h_queue h) as [|p q] eqn:Eq; [eexists; by apply step_drained|].
    eexists. apply step_send. unfold send_one. by rewrite Ew, Eq.
Qed.

(** ** Properties *)

(** The file of an entry. *)
Definition file_of (e : Entry) : logfile :=
  if bool_decide (e_channel e = Some "stat") then StatFile
  else if bool_decide (e_channel e = Some "slow") then SlowFile
  else if level_num (e_level e) <=? 3 then ErrorFile else InfoFile.

(** each entry is in exactly one file. When writes succeed, an entry is appended to
    the file of its channel, or else of its level, and to no other; so each file holds
    the lines of its entries, in order. An entry that cannot be formatted, or whose
    file cannot be written, changes nothing. *)
Theorem split_by_channel_and_level err e fs :
  split_Fire err e fs =
    match e_line e with
    | Err x => (fs, Some x)
    | Ok line => match err (file_of e) with
                 | Some x => (fs, Some x)
                 | None => (fun f => if bool_decide (f = file_of e) then fs f ++ [line] else fs f, None)
                 end
    end.
Proof.
  unfold split_Fire, file_of. destruct (e_line e) as [line|]; [|done].
  case_bool_decide; [done|]. case_bool_decide; [done|]. unfold write_line.
  destruct (e_level e); cbn; destruct (err _); reflexivity.
Qed.


(** [Setup] opens all or nothing. It fails exactly when the directory cannot be made or
    a file cannot be opened, and then no file is left open; otherwise all four are, the
    cleanup closes them, and the threshold is positive. *)
Theorem Setup_all_or_nothing mkdir open cfg :
  let ok := mkdir (log_dir cfg) = None /\ forall f, open (Paths.Join [log_dir cfg; file_name cfg f]) = None in
  match Setup mkdir open cfg with
  | (l, _, Some _) => l = [] /\ ~ ok
  | (l, ms, None) => l = [InfoFile; ErrorFile; StatFile; SlowFile] /\ cleanup l = [] /\ 0 < ms /\ ok
  end.
Proof.
  intros ok. unfold Setup. destruct (mkdir _) eqn:Em; [split; [done|intros [? _]; congruence]|].
  destruct (open (Paths.Join [_; file_name cfg InfoFile])) eqn:E1; [split; [done|intros [_ H]; by rewrite H in E1]|].
  destruct (open (Paths.Join [_; file_name cfg ErrorFile])) eqn:E2; [split; [done|intros [_ H]; by rewrite H in E2]|].
  destruct (open (Paths.Join [_; file_name cfg StatFile])) eqn:E3; [split; [done|intros [_ H]; by rewrite H in E3]|].
  destruct (open (Paths.Join [_; file_name cfg SlowFile])) eqn:E4; [split; [done|intros [_ H]; by rewrite H in E4]|].
  split_and!; [done|done| |split; [done|by intros []]]. destruct (Z.leb_spec (l_SlowThresholdMs cfg) 0); lia.
Qed.

(** ** Witnesses and examples *)

Definition example_telemetry : TelemetryConfig := mkTelemetry true "https://t" 0 1.

(** One payload is accepted, a second one dropped; then the hook is closed. *)
Definition example_hook : Hook :=
  hook_Close (hook_Fire "b" (hook_Fire "a" (mkHook 1 [] false Running [] [] []))).


(** What is accepted after the drain has ended stays in the queue. *)
Example accepted_too_late :
  exists h, rtc hook_step example_hook h /\ h_worker h = Gone /\ h_queue h = ["c"] /\ h_sent h = ["a"].
Proof.
  eexists. split; [|split; [|split]].
  - eapply rtc_l; [apply step_worker, step_stop; reflexivity|].
    eapply rtc_l; [apply step_worker, step_send; reflexivity|].
    eapply rtc_l; [apply step_worker, step_drained; reflexivity|]. apply rtc_once, (step_fire _ "c").
  - reflexivity.
  - reflexivity.
  - reflexivity.
Qed.
