(* ===== verification/Server.v ===== *)
(** * The server around the handlers

    The response writer the middleware hands to the handlers
    ([internal/api/middleware.go]); the health, MediaMTX, SLO and node endpoints
    ([control.go], [nodes.go]) over the dependencies [NewServer] watches
    ([server.go]); and the two endpoints that attach a subscriber to a stream: the
    relay for other nodes ([relay.go]) and the viewer's WebSocket ([live.go]).
    The server library is a connection that may offer flushing and hijacking. *)

From Stdlib Require Import SpecFloat.
From S2P Require Import Prelude Packet Flv Ownership Subscriber Stream.
From S2P Require Logging Health Streams Node Priority.

(** ** Writers *)

(** A connection of the server library: what it offers besides
    [http.ResponseWriter], the status sent, and what was written. The first status
    counts, and a write sends 200 if none was sent. *)
Record Connection := mkConnection {
  c_Flusher : bool; c_Hijacker : bool; c_status : option Z; c_body : list string }.

Definition send_status (code : Z) (c : Connection) : Connection :=
  mkConnection (c_Flusher c) (c_Hijacker c) (Some (default code (c_status c))) (c_body c).

Definition send_body (b : string) (c : Connection) : Connection :=
  let c := send_status 200 c in mkConnection (c_Flusher c) (c_Hijacker c) (c_status c) (c_body c ++ [b]).

(** It embeds the interface [http.ResponseWriter], and nothing else of the connection. *)
Record statusWriter := mkStatusWriter { inner : Connection; status : Z }.

Definition WriteHeader (code : Z) (w : statusWriter) : statusWriter :=
  mkStatusWriter (send_status code (inner w)) code.

(** [Write] is the embedded one. *)
Definition Write (b : string) (w : statusWriter) : statusWriter :=
  mkStatusWriter (send_body b (inner w)) (status w).

(** What a handler does with its writer. *)
Inductive reply := Header (code : Z) | Body (b : string).

Definition do_reply (w : statusWriter) (r : reply) : statusWriter :=
  match r with Header code => WriteHeader code w | Body b => Write b w end.

(** [w.(http.Flusher)] and [w.(http.Hijacker)]: whether the assertion holds. *)
Inductive ResponseWriter := Direct (c : Connection) | Wrapped (w : statusWriter).

Definition is_Flusher (w : ResponseWriter) : bool :=
  match w with Direct c => c_Flusher c | Wrapped _ => false end.

Definition is_Hijacker (w : ResponseWriter) : bool :=
  match w with Direct c => c_Hijacker c | Wrapped _ => false end.

(** [slowRequestMiddleware]: the connection afterwards, the status and the
    milliseconds it logs, and the slow entry. [next]: what the handler replies. *)
Definition slowRequestMiddleware (ms : Z) (elapsed : Duration) (line : result string string) (c : Connection)
    (next : ResponseWriter -> list reply) : Connection * (Z * Z) * option Logging.Entry :=
  let sw := mkStatusWriter c 200 in
  let sw := foldl do_reply sw (next (Wrapped sw)) in
  (inner sw, (status sw, Health.Milliseconds elapsed), Logging.SlowIfExceeds ms elapsed line).

(** ** Control *)

(** A dependency that is present is its check: the error, and the times around it. *)
Definition health_probe : Type := option string * Time * Time.

Definition buildDependencies (rdb mtx minioClient : option health_probe) : list Health.Dependency :=
  let out := [] in
  let out := match rdb with Some c => out ++ [Health.mkDependency "redis" true (Some c)] | None => out end in
  let out := match mtx with Some c => out ++ [Health.mkDependency "media_mtx" true (Some c)] | None => out end in
  match minioClient with Some c => out ++ [Health.mkDependency "minio" false (Some c)] | None => out end.

Record Topology := mkTopology { t_node_id : string; t_region : string; t_az : string }.

Definition controlHealth (deps : list Health.Dependency) (now : Time) (order : list nat) (topology : Topology)
  : Z * (Health.Snapshot * Topology) := (200, (Health.TakeSnapshot deps now order, topology)).

(** The answer of an endpoint: the value, or the error with its status. *)
Definition json_answer (A : Type) : Type := Z * result string A.

(** [summary]: what [Summary] returns, when there is a client. *)
Definition controlMediaMTX (APIBaseURL PlaybackBaseURL : string)
    (summary : option (result string Streams.Summary)) : json_answer (Streams.Summary * string * string) :=
  match summary with
  | None => (503, Err "media_mtx is disabled or unavailable")
  | Some (Err e) => (502, Err e)
  | Some (Ok s) => (200, Ok (s, APIBaseURL, PlaybackBaseURL))
  end.

(** [registry]: what [AllNodes] returns, when there is a registry. *)
Definition listNodes (registry : option (result string (list Node.NodeInfo)))
  : json_answer (list Node.NodeInfo * option string) :=
  match registry with
  | None => (200, Ok ([], Some "Redis not configured — single-node mode"))
  | Some (Err e) => (500, Err e)
  | Some (Ok nodes) => (200, Ok (nodes, None))
  end.

Definition fsub : Priority.float64 -> Priority.float64 -> Priority.float64 := SFsub 53 1024.

(** [math.Round]: to the nearest integer, halves away from zero. *)
Definition Round (x : Priority.float64) : Priority.float64 :=
  match x with
  | S754_finite s m e =>
      if 0 <=? e then x
      else let n := Z.shiftr (Zpos m + Z.shiftl 1 (- e - 1)) (- e) in
           if n =? 0 then S754_zero s else binary_normalize 53 1024 (if s then - n else n) 0 s
  | _ => x
  end.

Definition hundred : Priority.float64 := Priority.of_int 100.

Definition round2 (v : Priority.float64) : Priority.float64 :=
  Priority.fdiv (Round (Priority.fmul v hundred)) hundred.

Record SLOConfig := mkSLO {
  APIAvailabilityTarget : Priority.float64; StreamStartSuccessTarget : Priority.float64;
  FirstFrameP95MsTarget : Z; ReconnectSuccessTarget : Priority.float64 }.

(** The targets and, for each percentage, the failure budget. *)
Definition controlSLO (cfg : SLOConfig) : SLOConfig * list Priority.float64 :=
  let budget target := round2 (fsub hundred target) in
  (cfg, [budget (APIAvailabilityTarget cfg); budget (StreamStartSuccessTarget cfg); budget (ReconnectSuccessTarget cfg)]).

(** ** The relay endpoint *)

Inductive relay_outcome :=
  | NoStream (reply : list reply)
  | NoFileHeader
  | Attached (sid : nat) (flushed : bool).

(** [serveRelay] up to the wait: the stream looked up, the file header written,
    [header_err] its error, and a subscriber added. *)
Definition attachRelay (key : string) (header_err : option string) (rw : ResponseWriter) (w : World)
  : World * relay_outcome :=
  match Get key w with
  | None => (w, NoStream [Header 404; Body "stream not found"])
  | Some sid =>
      match header_err, heap w !! sid with
      | Some _, _ | _, None => (w, NoFileHeader)
      | None, Some s =>
          let '(s, old) := AddSubscriber (Queue (NewRelaySubscriber key)) s in
          (put sid s (option_list old) (mem w) w, Attached sid (is_Flusher rw))
      end
  end.

(** [serveRelay] when the request's context ended: the deferred [RemoveSubscriber]. *)
Definition endRelay (key : string) (sid : nat) (w : World) : World :=
  match heap w !! sid with
  | None => w
  | Some s => let '(s, gone, m) := RemoveSubscriber ("relay-" +:+ key) s (mem w) in
              put sid s (option_list gone) m w
  end.

(** ** The viewer's WebSocket *)

Inductive ws_outcome := WsRefused (reply : list reply) | WsUpgrade (sid : nat).

(** [liveWebsocket] up to the upgrade. *)
Definition liveWebsocket (key : string) (w : World) : ws_outcome :=
  if bool_decide (key = "") then WsRefused [Header 400; Body "stream key is required"]
  else match Get key w with
  | None => WsRefused [Header 404; Body "stream not found"]
  | Some sid => WsUpgrade sid
  end.

Section Viewer.
Variable onPkt : string -> content -> bool.

(** [OnOpen]. Between adding the subscriber and [SendGOP] the pump may deliver:
    [pkts] is what it delivers. The subscriber, the memory, what the viewer was sent
    by [Deliver], and by [SendGOP]. *)
Fixpoint viewer_deliver (pkts : list nat) (s : LivestreamSubscriber) (m : Mem)
  : LivestreamSubscriber * Mem * list content :=
  match pkts with
  | [] => (s, m, [])
  | a :: pkts =>
      let '(s, m) := live_Deliver onPkt a s (Retain a m) in
      let '(s2, m2, sent) := viewer_deliver pkts s m in
      (s2, m2, content_of (deref a m) :: sent)
  end.

Definition OnOpen (viewerID : string) (pkts : list nat) (m : Mem)
  : LivestreamSubscriber * Mem * list content * list content :=
  let '(s, m, sent) := viewer_deliver pkts (NewLivestreamSubscriber viewerID) m in
  (s, m, sent, SendGOP onPkt (l_id s) (gopCache s) m).

(** [OnClose]: the subscriber is removed, and closed again. [own] is the session's
    subscriber when the stream no longer has it. *)
Definition OnClose (own : LivestreamSubscriber) (s : liveStream) (m : Mem) : liveStream * Subscriber * Mem :=
  let '(s, gone, m) := RemoveSubscriber (l_id own) s m in
  let '(sub, m) := Close (default (Livestream own) gone) m in (s, sub, m).
End Viewer.

(** ** Specification side *)

(** What was logged and what was sent, from the replies. *)
Definition first_status (l : list reply) : option Z :=
  match l with [] => None | Header code :: _ => Some code | Body _ :: _ => Some 200 end.

Definition headers (l : list reply) : list Z := omap (fun r => match r with Header code => Some code | Body _ => None end) l.

Definition bodies (l : list reply) : list string := omap (fun r => match r with Body b => Some b | Header _ => None end) l.

Definition failing (d : option health_probe) : Prop := exists e t1 t2, d = Some (Some e, t1, t2).

(** The requests for a relay of a stream, in the order in which they attach ([true])
    and end ([false]), with any other steps of the pipeline between that leave the
    registry and the ids of the stream's subscribers alone. *)
Inductive relay_history (onPkt : string -> content -> bool) (key : string) (sid : nat) : World -> list bool -> World -> Prop :=
  | run_start w : relay_history onPkt key sid w [] w
  | run_attach rw w evs w1 w2 f :
      relay_history onPkt key sid w evs w1 -> attachRelay key None rw w1 = (w2, Attached sid f) ->
      relay_history onPkt key sid w (evs ++ [true]) w2
  | run_end w evs w1 :
      relay_history onPkt key sid w evs w1 -> relay_history onPkt key sid w (evs ++ [false]) (endRelay key sid w1)
  | run_other w evs w1 w2 :
      relay_history onPkt key sid w evs w1 -> step onPkt w1 w2 ->
      (forall s1, heap w1 !! sid = Some s1 -> exists s2, heap w2 !! sid = Some s2 /\ dom (subs s2) = dom (subs s1)) ->
      relay_history onPkt key sid w evs w2.

(** ** Lemmas *)

Lemma do_replies l : forall w,
  let w' := foldl do_reply w l in
  c_status (inner w') = match c_status (inner w) with Some c => Some c | None => first_status l end /\
  status w' = default (status w) (last (headers l)) /\
  c_body (inner w') = c_body (inner w) ++ bodies l.
Proof.
  induction l as [|r l IH]; intros w.
  - cbn. rewrite app_nil_r. by destruct (c_status (inner w)).
  - cbn [foldl]. destruct (IH (do_reply w r)) as (E1 & E2 & E3). cbv zeta. rewrite E1, E2, E3.
    destruct r as [code|b]; cbn; (split; [by destruct (c_status (inner w))|]); split.
    + rewrite last_cons. by destruct (last _).
    + done.
    + done.
    + by rewrite <- app_assoc.
Qed.

Lemma heap_put_eq sid s gone m w : heap (put sid s gone m w) !! sid = Some s.
Proof. apply lookup_insert_eq. Qed.

Lemma gop_next_suffix a c l : gop_next a c l `suffix_of` l ++ [a].
Proof.
  assert (forall n (k : list nat), drop n k `suffix_of` k) as Hd.
  { intros n k. exists (take n k). by rewrite take_drop. }
  unfold gop_next. etrans; [apply Hd|]. destruct (starts_gop c); [by exists l|done].
Qed.

Lemma viewer_deliver_spec onPkt pkts : forall s m s' m' sent,
  viewer_deliver onPkt pkts s m = (s', m', sent) ->
  content_eq m m' /\ sent = contents m pkts /\ l_id s' = l_id s /\ gopCache s' `suffix_of` gopCache s ++ pkts.
Proof.
  induction pkts as [|a pkts IH]; intros s m s' m' sent H; cbn [viewer_deliver] in H.
  - injection H as <- <- <-. split_and!; try done. by rewrite app_nil_r.
  - pose proof (content_Deliver onPkt a (Livestream s) (Retain a m)) as Hc.
    pose proof (Deliver_fan_one onPkt a (Livestream s) (Retain a m)) as Hf. cbn [Deliver fan_one] in *.
    destruct (live_Deliver onPkt a s (Retain a m)) as [s1 m1]. cbn [fst snd] in *.
    destruct (viewer_deliver onPkt pkts s1 m1) as [[s2 m2] sent2] eqn:E. injection H as <- <- <-.
    pose proof (content_eq_trans _ _ _ (content_add_refs a 1 m) Hc) as Hm1.
    apply IH in E as (E1 & -> & E2 & E3). injection Hf as ->. split_and!; cbn in *.
    + by eapply content_eq_trans.
    + unfold contents. cbn. rewrite Hm1. f_equal. apply contents_ext. intros b _. apply Hm1.
    + done.
    + etrans; [exact E3|]. rewrite cons_middle, app_assoc.
      destruct (gop_next_suffix a (content_of (deref a (Retain a m))) (gopCache s)) as [k ->].
      exists k. by rewrite <- app_assoc.
Qed.

Lemma SendGOP_prefix onPkt id gop m : SendGOP onPkt id gop m `prefix_of` contents m gop.
Proof.
  induction gop as [|a gop IH]; cbn [SendGOP contents]; [done|].
  unfold contents in *. cbn. apply prefix_cons. case_match; [apply prefix_nil|done].
Qed.

Lemma RemoveSubscriber_subs id s m :
  let '(s', gone, m') := RemoveSubscriber id s m in
  subs s' = delete id (subs s) /\ gone = (fun sub => fst (Close sub m)) <$> subs s !! id.
Proof.
  unfold RemoveSubscriber. destruct (subs s !! id) as [sub|] eqn:E.
  - destruct (Close sub m) as [sub' m'] eqn:Ec. cbn. by rewrite Ec.
  - by rewrite delete_id.
Qed.

(** Whether the stream has a relay subscriber. *)
Definition relayed (key : string) (sid : nat) (w : World) : Prop :=
  exists s, heap w !! sid = Some s /\ is_Some (subs s !! ("relay-" +:+ key)).

Lemma relay_history_last onPkt key sid w evs w' :
  relay_history onPkt key sid w evs w' -> is_Some (heap w !! sid) -> ~ relayed key sid w ->
  is_Some (heap w' !! sid) /\ (relayed key sid w' <-> last evs = Some true).
Proof.
  intros Hr Hw Hn. induction Hr as [w|rw w evs w1 w2 f Hr IH Ha|w evs w1 Hr IH|w evs w1 w2 Hr IH Hs Hd].
  - done.
  - destruct IH as [IH _]; [done|done|]. rewrite last_snoc. unfold attachRelay in Ha.
    destruct (Get key w1) as [sid'|]; [|done]. destruct (heap w1 !! sid') as [s|] eqn:Es; [|done].
    cbn [AddSubscriber] in Ha. injection Ha as <- <- _. unfold relayed. rewrite heap_put_eq.
    split; [done|]. split; [done|]. intros _. eexists. split; [done|]. cbn. by rewrite lookup_insert_eq.
  - destruct IH as [[s Es] _]; [done|done|]. rewrite last_snoc. unfold endRelay, relayed. rewrite Es.
    pose proof (RemoveSubscriber_subs ("relay-" +:+ key) s (mem w1)) as H.
    destruct (RemoveSubscriber _ s (mem w1)) as [[s' gone] m']. destruct H as [H _]. rewrite heap_put_eq.
    split; [done|]. split; [|done]. intros (s2 & [= <-] & [sub Hsub]). by rewrite H, lookup_delete_eq in Hsub.
  - destruct IH as [[s Es] IH]; [done|done|]. destruct (Hd _ Es) as (s2 & Es2 & Hdom). split; [done|].
    rewrite <- IH. unfold relayed. rewrite Es, Es2.
    split; intros (s3 & [= <-] & H); eexists; (split; [done|]); by rewrite <- elem_of_dom, ?Hdom, <- ?Hdom, elem_of_dom in *.
Qed.

(** ** Properties *)


(** a viewer starts without the cached group of pictures. Whatever the pump delivers
    between adding the viewer and [SendGOP], the viewer is handed exactly these packets,
    and then by [SendGOP] a prefix of the last of them once more: nothing that was
    ingested before it joined, and nothing at all if nothing was delivered. *)
Theorem viewer_gets_no_earlier_packet onPkt viewerID pkts m :
  let '(s, m', sent, again) := OnOpen onPkt viewerID pkts m in
  sent = contents m pkts /\ gopCache s `suffix_of` pkts /\ again `prefix_of` contents m (gopCache s) /\
  (pkts = [] -> again = []).
Proof.
  unfold OnOpen. destruct (viewer_deliver onPkt pkts (NewLivestreamSubscriber viewerID) m) as [[s m'] sent] eqn:E.
  apply viewer_deliver_spec in E as (Hm & -> & _ & Hs). cbn [app] in Hs. split_and!; [done|done| |].
  - rewrite <- (contents_ext m m') by (intros a _; apply Hm). apply SendGOP_prefix.
  - intros ->. apply suffix_nil_inv in Hs. by rewrite Hs.
Qed.

(** what is sent and what is logged. The client gets the status the handler gave first,
    200 if it wrote a body before, and every body in order; the log has the status it
    gave last, 200 if none: they agree when the handler gives one status at most, before
    the body. Behind this writer a handler can neither flush nor take the connection
    over, whatever the server's connection offers. *)
Theorem logged_and_sent ms elapsed line c next :
  c_status c = None ->
  let '(c', (logged, _), slow) := slowRequestMiddleware ms elapsed line c next in
  exists rw, let l := next rw in
    c_status c' = first_status l /\ c_body c' = c_body c ++ bodies l /\ logged = default 200 (last (headers l)) /\
    (forall code, headers l = [code] -> head l = Some (Header code) -> c_status c' = Some logged) /\
    is_Flusher rw = false /\ is_Hijacker rw = false /\
    (is_Some slow <-> Logging.SlowThreshold ms <= elapsed).
Proof.
  intros Hc. unfold slowRequestMiddleware. exists (Wrapped (mkStatusWriter c 200)).
  destruct (do_replies (next (Wrapped (mkStatusWriter c 200))) (mkStatusWriter c 200)) as (E1 & E2 & E3).
  rewrite E1, E2, E3. cbn [inner status]. rewrite Hc. split_and!; try done.
  - intros code Hh Hl. rewrite Hh. destruct (next _) as [|[]]; cbn in Hl |- *; congruence.
  - unfold Logging.SlowIfExceeds. destruct (Z.ltb_spec elapsed (Logging.SlowThreshold ms)); split.
    + by intros [].
    + lia.
    + done.
    + eauto.
Qed.

(** what the health endpoint reports. It answers 200 with one result per dependency
    that is configured, Redis, MediaMTX, MinIO in this order whatever the race between
    the checks, and the control plane is degraded exactly when the check of Redis or of
    MediaMTX failed: MinIO never degrades it, nor does what is not configured. *)
Theorem health_of_the_dependencies rdb mtx minioClient now order topology :
  let deps := buildDependencies rdb mtx minioClient in
  order ≡ₚ seq 0 (length deps) ->
  let '(code, (snap, _)) := controlHealth deps now order topology in
  code = 200 /\
  Health.r_Name <$> Health.Dependencies snap =
    (if rdb then ["redis"] else []) ++ (if mtx then ["media_mtx"] else []) ++ (if minioClient then ["minio"] else []) /\
  (Health.Mode snap = Health.ModeDegradedControlPlane <-> failing rdb \/ failing mtx) /\
  (Health.Status snap = "healthy" <-> Health.Mode snap = Health.ModeNormal).
Proof.
  intros deps Ho. cbn [controlHealth]. rewrite (Health.TakeSnapshot_results _ _ _ Ho). cbn zeta.
  cbn [Health.Dependencies Health.Mode Health.Status]. subst deps. unfold failing.
  split; [done|].
  destruct rdb as [[[[]]]|], mtx as [[[[]]]|], minioClient as [[[[]]]|]; cbn; (split; [done|]);
    (split; [|done]); (split; [intros H; first [discriminate H|eauto 6]|]); intros [(?&?&?&?)|(?&?&?&?)]; done.
Qed.

(** the end of a relay request does not wait for its subscriber: packets that are queued
    are still written to the response the request no longer has, one after the other. *)
Theorem relay_writes_after_return key sid w s q a ch m2 q2 :
  heap w !! sid = Some s -> subs s !! ("relay-" +:+ key) = Some (Queue q) ->
  queue_consume true q (mem w) = Some (q2, m2) -> q_ch q = a :: ch ->
  let w' := endRelay key sid w in
  exists orphan q', orphans w' = Queue orphan :: orphans w /\ q_done orphan = true /\
    queue_consume true orphan (mem w') = Some (q', m2) /\
    q_written q' = q_written q ++ [content_of (deref a (mem w))].
Proof.
  intros Hs Hq Hc Hch. cbv zeta. unfold endRelay, RemoveSubscriber. rewrite Hs, Hq. cbn.
  exists (queue_Close q). unfold queue_consume in *. cbn. rewrite Hch in *.
  destruct (q_run q); [|done|done]. injection Hc as _ <-. eexists. by split_and!.
Qed.

(** ** Witnesses and examples *)

Definition example_quiet : string -> content -> bool := fun _ _ => false.

Definition example_world : World :=
  match Register "cam" "node-a" new_world with Ok (_, w) => w | Err _ => new_world end.

Definition example_conn : Connection := mkConnection true true None [].
Definition example_writer : ResponseWriter := Wrapped (mkStatusWriter example_conn 200).

Definition attached (w : World) : World := fst (attachRelay "cam" None example_writer w).


Lemma logged_and_sent_witness :
  let '(c', (logged, _), slow) :=
    slowRequestMiddleware 0 (2 * Second) (Ok "http.request") example_conn (fun _ => [Header 404; Body "stream not found"]) in
  exists rw : ResponseWriter, let l := [Header 404; Body "stream not found"] in
    c_status c' = first_status l /\ c_body c' = [] ++ bodies l /\ logged = default 200 (last (headers l)) /\
    (forall code, headers l = [code] -> head l = Some (Header code) -> c_status c' = Some logged) /\
    is_Flusher rw = false /\ is_Hijacker rw = false /\ (is_Some slow <-> Logging.SlowThreshold 0 <= 2 * Second).
Proof.
  apply (logged_and_sent 0 (2 * Second) (Ok "http.request") example_conn (fun _ => [Header 404; Body "stream not found"])).
  reflexivity.
Defined.

(** A handler that panics in its body: the client got 200, the log says 500. *)
Example panic_in_the_body :
  let '(c, (logged, _), _) := slowRequestMiddleware 0 0 (Ok "") example_conn (fun _ => [Body "half"; Header 500]) in
  c_status c = Some 200 /\ logged = 500.
Proof. done. Qed.

Lemma health_of_the_dependencies_witness :
  let deps := buildDependencies (Some (None, 0, 5)) None (Some (Some "no bucket", 0, 7)) in
  let '(code, (snap, _)) := controlHealth deps 9 [1%nat; 0%nat] (mkTopology "n" "r" "a") in
  code = 200 /\ Health.r_Name <$> Health.Dependencies snap = ["redis"] ++ [] ++ ["minio"] /\
  (Health.Mode snap = Health.ModeDegradedControlPlane <-> failing (Some (None, 0, 5)) \/ failing None) /\
  (Health.Status snap = "healthy" <-> Health.Mode snap = Health.ModeNormal).
Proof.
  apply (health_of_the_dependencies (Some (None, 0, 5)) None (Some (Some "no bucket", 0, 7)) 9 [1%nat; 0%nat]).
  apply perm_swap.
Defined.

Definition example_queue : QueueSub :=
  mkQueueSub "relay-cam" TypeRelay relayBufSize [0%nat] 0 false Running [].

Definition example_queued : World :=
  put 0 (set_subs {["relay-cam" := Queue example_queue]} (newLiveStream "cam" "node-a")) [] empty_mem example_world.

Lemma relay_writes_after_return_witness :
  let w' := endRelay "cam" 0 example_queued in
  exists orphan q', orphans w' = Queue orphan :: [] /\ q_done orphan = true /\
    queue_consume true orphan (mem w') = Some (q', Release 0 empty_mem) /\
    q_written q' = [] ++ [content_of (deref 0 empty_mem)].
Proof.
  eapply (relay_writes_after_return "cam" 0 example_queued _ example_queue 0 [] (Release 0 empty_mem)); reflexivity.
Defined.

(** The failure budgets of the default targets, 99.95, 99.9 and 99.9: the numbers nearest
    to 0.05 and 0.1. *)
Example default_budgets :
  let pct n := Priority.fdiv (Priority.of_int n) hundred in
  snd (controlSLO (mkSLO (pct 9995) (pct 9990) 2500 (pct 9990))) = [pct 5; pct 10; pct 10].
Proof. vm_compute. reflexivity. Qed.

Example round_halves : Round (Priority.fdiv (Priority.of_int (-5)) (Priority.of_int 2)) = Priority.of_int (-3) /\
  Round (Priority.fdiv (Priority.of_int 49) hundred) = S754_zero false /\ Round (Priority.of_int 7) = Priority.of_int 7.
Proof. vm_compute. done. Qed.
