(* ===== verification/Startup.v ===== *)
(** * Configuration and start-up

    [config/config.go], [cmd/server/main.go], and what [NewServer] of
    [internal/api/server.go] and the [New] functions of the clients make of the
    configuration. The process is its trace: which parts it starts, and which of
    its deferred calls run. YAML, PEM and key parsing, and the outcomes of the other
    components, are arguments. *)

From Stdlib Require Import SpecFloat.
From S2P Require Import Prelude.
From S2P Require GoStrings Stream Engine Idempotency Lease Health Urls Supervisor Pion Playback Priority Logging Server.

(** ** Configuration *)

Record RTMPConfig := mkRTMP { rtmp_Enabled : bool; rtmp_Addr : string }.
Record RedisConfig := mkRedis { redis_Addr : string; redis_Password : string; redis_DB : Z }.
Record NodeConfig := mkNodeConfig {
  node_ID : string; node_HTTPAddr : string; node_Role : string; HeartbeatInterval : Duration }.
Record TopologyConfig := mkTopologyConfig { Region : string; AZ : string }.
Record HAConfig := mkHA {
  DependencyTimeoutMs : Z; LeaseTTLSeconds : Z; LeaseClockSkewSeconds : Z; LeaseTokenSecret : string;
  IdempotencyTTLSeconds : Z; IdempotencyMaxKeys : Z }.
Record HLSConfig := mkHLS { hls_RootPath : string; hls_SegmentDuration : Z; MaxSegments : Z }.
Record MinIOConfig := mkMinIO {
  Endpoint : string; AccessKey : string; SecretKey : string; Bucket : string; UseSSL : bool;
  minio_SegmentDuration : Z; PresignExpiry : Z; minio_Enabled : bool }.
Record MediaMTXConfig := mkMTX {
  mtx_Enabled : bool; APIBaseURL : string; HLSBaseURL : string; WebRTCBaseURL : string; RTSPBaseURL : string;
  RTMPBaseURL : string; PlaybackBaseURL : string; PlaybackFormat : string }.
Record MediaMTXProcConfig := mkProc {
  proc_Enabled : bool; BinaryPath : string; ConfigPath : string; ReadyTimeout : Z }.
Record PionWebRTCConfig := mkPionConfig {
  pion_Enabled : bool; PublicBaseURL : string; SourceRTSPBaseURL : string; ICEServers : list string;
  SessionTTLSeconds : Z }.
Record LoggingConfig := mkLoggingConfig {
  Level : string; files : Logging.LoggingConfig; StatIntervalSec : Z; Telemetry : Logging.TelemetryConfig }.
Record AuthConfig := mkAuth {
  RSAPrivateKeyPath : string; RSAPrivateKeyPEM : string; TokenTTLHours : Z; SeedAdminUser : string;
  SeedAdminPass : string; RateLimitBurst : Z }.
Record RelayConfig := mkRelay { relay_Secret : string; BaseURL : string; IdleTimeout : Z }.

(** [http_Addr] and [storage_RootPath] are the one field of their structs. *)
Record Config := mkConfig {
  RTMP : RTMPConfig; http_Addr : string; Redis : RedisConfig; Node : NodeConfig; Topology : TopologyConfig;
  HA : HAConfig; SLO : Server.SLOConfig; HLS : HLSConfig; storage_RootPath : string; MinIO : MinIOConfig;
  MediaMTX : MediaMTXConfig; MediaMTXProc : MediaMTXProcConfig; PionWebRTC : PionWebRTCConfig;
  LogConfig : LoggingConfig; Auth : AuthConfig; Relay : RelayConfig }.

(** A decimal with two places, as the constant of a [float64]. *)
Definition hundredths (n : Z) : Priority.float64 := Priority.fdiv (Priority.of_int n) (Priority.of_int 100).

Definition defaults : Config := {|
  RTMP := mkRTMP true ":1935";
  http_Addr := ":8080";
  Redis := mkRedis "localhost:6379" "" 0;
  Node := mkNodeConfig "node-1" "localhost:8080" "master" (5 * Second);
  Topology := mkTopologyConfig "local-dev" "az1";
  HA := mkHA 1200 90 15 "dev-only-change-me" 180 20000;
  SLO := Server.mkSLO (hundredths 9995) (hundredths 9990) 2500 (hundredths 9990);
  HLS := mkHLS "./data/hls" 2 5;
  storage_RootPath := "./data/storage";
  MinIO := mkMinIO "localhost:9000" "minioadmin" "minioadmin" "recordings" false 10 60 false;
  MediaMTXProc := mkProc false "./mediamtx" "./mediamtx.yml" 15;
  MediaMTX := mkMTX false "http://localhost:9997" "http://localhost:8888" "http://localhost:8889"
    "rtsp://localhost:8554" "rtmp://localhost:1935" "http://localhost:9996" "mp4";
  PionWebRTC := mkPionConfig false "http://localhost:8080" "rtsp://localhost:8554"
    ["stun:stun.l.google.com:19302"] 120;
  LogConfig := mkLoggingConfig "info"
    (Logging.mkLogging "./data/logs" "info.log" "error.log" "stat.log" "slow.log" 1000) 30
    (Logging.mkTelemetry false "" 1500 2048);
  Auth := mkAuth "" "" 8 "admin" "" 10;
  Relay := mkRelay "dev-relay-secret-change-me" "http://localhost:8080" 60;
|}.

(** [os.Open] *)
Inductive opened := Opened (content : string) | NotExist | OpenFailed (e : string).

(** [Load]: the configuration, if any, and the error. [decode] fills in what the file
    gives, over what is there. *)
Definition Load (decode : string -> Config -> Config * option string) (f : opened) : option Config * option string :=
  match f with
  | NotExist => (Some defaults, None)
  | OpenFailed e => (None, Some e)
  | Opened content => let '(cfg, err) := decode content defaults in (Some cfg, err)
  end.

(** ** The signing key *)

Section Key.
(** RSA keys, [pem.Decode] (the type and the bytes of the first block), the parsers
    ([None] of PKCS#8 is a key that is not RSA) and the generator. *)
Context {Key : Type} (pem_Decode : string -> option (string * string))
  (ParsePKCS1 : string -> result string Key) (ParsePKCS8 : string -> result string (option Key))
  (GenerateRSAKey : result string Key).

(** [Err] is a fatal exit. [ReadFile] is the file of the path configured. *)
Definition loadRSAKey (cfg : AuthConfig) (ReadFile : result string string) : result string Key :=
  let parse pemBytes :=
    match pem_Decode pemBytes with
    | None => Err "auth: RSA key PEM is empty or malformed"
    | Some (type, bytes) =>
        if bool_decide (type = "RSA PRIVATE KEY") then
          match ParsePKCS1 bytes with Ok key => Ok key | Err e => Err ("auth: parse RSA key: " +:+ e) end
        else if bool_decide (type = "PRIVATE KEY") then
          match ParsePKCS8 bytes with
          | Err e => Err ("auth: parse PKCS#8 key: " +:+ e)
          | Ok None => Err "auth: PKCS#8 key is not an RSA key"
          | Ok (Some key) => Ok key
          end
        else Err "auth: unsupported PEM block type"
    end in
  if bool_decide (RSAPrivateKeyPath cfg <> "") then
    match ReadFile with Err e => Err ("auth: read RSA key file: " +:+ e) | Ok b => parse b end
  else if bool_decide (RSAPrivateKeyPEM cfg <> "") then parse (RSAPrivateKeyPEM cfg)
  else match GenerateRSAKey with
       | Err e => Err ("auth: generate ephemeral RSA key: " +:+ e)
       | Ok key => Ok key
       end.
End Key.

(** ** The process *)

(** What is started and stopped again. *)
Inductive part := Logs | Context | MediaMTXProcess | StatsEmitter | Pion | Registry.

#[export] Instance part_eq_dec : EqDecision part.
Proof. solve_decision. Defined.

(** The calls of [logrus.Fatalf]. *)
Inductive cause :=
  | BadConfig (e : string) | BadLogging (e : string) | NoMediaMTX (e : Supervisor.start_error) | BadKey (e : string)
  | NoSeedRBAC (e : string) | NoSeedAdmin (e : string) | NoTenant (e : string) | ServerEnded (e : string).

Inductive action := Begin (p : part) | End (p : part) | Reaper | Serve | Deregister | ShutdownRedis | Fatal (c : cause).

(** The actions so far and the deferred calls, the last one first; or the actions of a
    process that has exited: [logrus.Fatalf] exits at once. *)
Inductive run (A : Type) := Go (a : A) (trace : list action) (defers : list part) | Dead (trace : list action).
Arguments Go {A} a trace defers.
Arguments Dead {A} trace.

Definition main_monad (A : Type) : Type := list action -> list part -> run A.

Definition ret {A} (a : A) : main_monad A := fun t d => Go a t d.
Definition bind {A B} (c : main_monad A) (k : A -> main_monad B) : main_monad B :=
  fun t d => match c t d with Go a t d => k a t d | Dead t => Dead t end.
Notation "x <- c ;; k" := (bind c (fun x => k)) (at level 100, c at next level, right associativity).
Notation "c ;; k" := (bind c (fun _ => k)) (at level 100, right associativity).

Definition act (a : action) : main_monad unit := fun t d => Go tt (t ++ [a]) d.
Definition fatal {A} (c : cause) : main_monad A := fun t _ => Dead (t ++ [Fatal c]).

(** A part is started and the call that stops it deferred. *)
Definition begin_part (p : part) : main_monad unit := fun t d => Go tt (t ++ [Begin p]) (p :: d).
Definition on_condition (b : bool) (c : main_monad unit) : main_monad unit := if b then c else ret tt.

Definition check {E} (c : E -> cause) (err : option E) : main_monad unit :=
  match err with Some e => fatal (c e) | None => ret tt end.

Definition check_result {A} (c : string -> cause) (r : result string A) : main_monad A :=
  match r with Ok a => ret a | Err e => fatal (c e) end.

(** What the outside and the other components answer. [shutdown]: the signal, or the
    error of the server. *)
Record Outside (Key : Type) := mkOutside {
  o_file : opened; o_decode : string -> Config -> Config * option string; o_logging : option string;
  o_launch : option string; o_ready : option Supervisor.ready_error;
  o_minio : bool; o_ping : option string; o_ingest_start : option string;
  o_key : result string Key; o_seed_rbac : option string; o_seed_admin : option string;
  o_uuid : option string; o_listen : option string }.
Arguments o_file {Key}. Arguments o_decode {Key}. Arguments o_logging {Key}. Arguments o_launch {Key}. Arguments o_ready {Key}.
Arguments o_minio {Key}. Arguments o_ping {Key}. Arguments o_ingest_start {Key}. Arguments o_key {Key}.
Arguments o_seed_rbac {Key}. Arguments o_seed_admin {Key}. Arguments o_uuid {Key}. Arguments o_listen {Key}.

(** The components [main] makes, as far as the others tell them apart by being there:
    the ingest the engine was given, and the clients. *)
Record Parts := mkParts {
  cfg_ : Config; ingest : Engine.IngestStarter; mtx : option Urls.MediaMTXConfig; pion : option Pion.PionConfig;
  minio : bool; rdb : bool; registry : bool }.

(** [New] of the MediaMTX client, its URL bases *)
Definition New_mediamtx (c : MediaMTXConfig) : option Urls.MediaMTXConfig :=
  if negb (mtx_Enabled c) then None
  else Some (Urls.New_bases (Urls.mkMediaMTX (HLSBaseURL c) (WebRTCBaseURL c) (RTSPBaseURL c) (RTMPBaseURL c))).

Definition pion_config (c : PionWebRTCConfig) : Pion.PionConfig :=
  Pion.mkPion (pion_Enabled c) (PublicBaseURL c) (SourceRTSPBaseURL c) (SessionTTLSeconds c).

(** [New] of the MinIO client: [ok] if the bucket could be reached or made. *)
Definition New_minio (c : MinIOConfig) (ok : bool) : bool := minio_Enabled c && ok.

(** [NewClient] of Redis: a client exactly when the ping succeeds. *)
Definition NewClient (ping : option string) : bool := if ping then false else true.

(** [main] up to the wait. [Load] returns a configuration or an error. *)
Definition setup {Key} (o : Outside Key) : main_monad (Parts * Key) :=
  cfg <- (match Load (o_decode o) (o_file o) with
          | (Some cfg, None) => ret cfg
          | (_, Some e) => fatal (BadConfig e)
          | (None, None) => ret defaults
          end) ;;
  check BadLogging (o_logging o) ;;
  begin_part Logs ;;
  begin_part Context ;;
  on_condition (proc_Enabled (MediaMTXProc cfg))
    (check NoMediaMTX (snd (Supervisor.Start (o_launch o) (o_ready o))) ;;
     begin_part MediaMTXProcess) ;;
  begin_part StatsEmitter ;;
  let pionService := Pion.New (pion_config (PionWebRTC cfg)) in
  on_condition (if pionService then true else false) (begin_part Pion) ;;
  let client := NewClient (o_ping o) in
  on_condition client (begin_part Registry) ;;
  key <- check_result BadKey (o_key o) ;;
  check NoSeedRBAC (o_seed_rbac o) ;;
  check NoSeedAdmin (o_seed_admin o) ;;
  check NoTenant (o_uuid o) ;;
  act Reaper ;;
  act Serve ;;
  ret (mkParts cfg
         (if mtx_Enabled (MediaMTX cfg) then Engine.Starter (o_ingest_start o) else Engine.NilPointer)
         (New_mediamtx (MediaMTX cfg)) pionService (New_minio (MinIO cfg) (o_minio o)) client client, key).

(** The rest of [main]: the signal, or the end of the server; then the explicit
    clean-up. *)
Definition finish {Key} (o : Outside Key) (parts : Parts) : main_monad unit :=
  check ServerEnded (o_listen o) ;;
  on_condition (registry parts) (act Deregister ;; act ShutdownRedis).

(** [main]: what the process did, its deferred calls included, which a fatal exit
    skips. *)
Definition main {Key} (o : Outside Key) : list action :=
  match (made <- setup o ;; finish o (fst made)) [] [] with
  | Go _ t d => t ++ (End <$> d)
  | Dead t => t
  end.

(** ** The server *)

(** What [NewServer] makes of the configuration. *)
Record Wiring := mkWiring {
  relay : bool; healthTimeout : Duration; idempotency : Idempotency.IdempotencyStore;
  leaseService : Lease.LeaseService; healthDeps : list Health.Dependency }.

(** [probes]: the checks of the clients, used for those that are there. *)
Definition NewServer (parts : Parts) (redis_check mtx_check minio_check : Server.health_probe) : Wiring :=
  let ha := HA (cfg_ parts) in
  let dependencyTimeout := i64 (DependencyTimeoutMs ha * Millisecond) in
  let idempotencyTTL := i64 (IdempotencyTTLSeconds ha * Second) in
  let leaseTTL := i64 (LeaseTTLSeconds ha * Second) in
  let leaseSkew := i64 (LeaseClockSkewSeconds ha * Second) in
  mkWiring (registry parts) (Health.NewMonitor_timeout dependencyTimeout)
    (Idempotency.NewIdempotencyStore idempotencyTTL (IdempotencyMaxKeys ha))
    (Lease.NewLeaseService (rdb parts) leaseTTL leaseSkew (LeaseTokenSecret ha))
    (Server.buildDependencies (if rdb parts then Some redis_check else None)
       (if mtx parts then Some mtx_check else None) (if minio parts then Some minio_check else None)).

(** ** Statistics *)

Definition stats_interval (intervalSec : Z) : Duration :=
  i64 ((if intervalSec <=? 0 then 30 else intervalSec) * Second).

(** One tick: how many streams, and subscribers in all. *)
Definition runtime_stats (w : Stream.World) : nat * nat :=
  let streams := omap (fun sid => Stream.heap w !! sid) (Stream.All w) in
  (length (Stream.All w), foldl (fun total st => (total + fst (Stream.Stats st))%nat) 0%nat streams).

(** ** Specification side *)

Definition begun (t : list action) : list part := omap (fun a => match a with Begin p => Some p | _ => None end) t.
Definition ended (t : list action) : list part := omap (fun a => match a with End p => Some p | _ => None end) t.
Definition is_fatal (a : action) : bool := match a with Fatal _ => true | _ => false end.

(** The state of a run: the deferred calls are the parts begun, the last one first, none
    ended; and a process that exited did so by its last action, having ended nothing. *)
Definition pending (t : list action) (d : list part) : Prop :=
  d = rev (begun t) /\ ended t = [] /\ existsb is_fatal t = false.

Definition exited (t : list action) : Prop := exists c t0, t = t0 ++ [Fatal c] /\ ended t = [] /\ existsb is_fatal t0 = false.

Definition tracks {A} (c : main_monad A) : Prop :=
  forall t d, pending t d -> match c t d with Go _ t d => pending t d | Dead t => exited t end.

(** The parts made of a configuration, and what it takes to get there. *)
Definition parts_of {Key} (o : Outside Key) (cfg : Config) : Parts :=
  mkParts cfg (if mtx_Enabled (MediaMTX cfg) then Engine.Starter (o_ingest_start o) else Engine.NilPointer)
    (New_mediamtx (MediaMTX cfg)) (Pion.New (pion_config (PionWebRTC cfg))) (New_minio (MinIO cfg) (o_minio o))
    (NewClient (o_ping o)) (NewClient (o_ping o)).

Definition ready {Key} (o : Outside Key) (cfg : Config) (key : Key) : Prop :=
  Load (o_decode o) (o_file o) = (Some cfg, None) /\ o_logging o = None /\
  (proc_Enabled (MediaMTXProc cfg) = true -> o_launch o = None /\ o_ready o = None) /\
  o_key o = Ok key /\ o_seed_rbac o = None /\ o_seed_admin o = None /\ o_uuid o = None.

(** Nothing ends the process but a signal. *)
Definition all_well {Key} (o : Outside Key) : Prop := (exists cfg key, ready o cfg key) /\ o_listen o = None.

(** ** Lemmas *)

Create HintDb tracks.

Lemma pending_snoc t d a : pending t d -> (forall p, a <> Begin p) -> (forall p, a <> End p) -> is_fatal a = false ->
  pending (t ++ [a]) d.
Proof.
  intros (-> & H2 & H3) Hb He Hf. unfold pending, begun, ended in *. rewrite !omap_app, H2, existsb_app, H3. cbn.
  rewrite Hf. destruct a as [p|p| | | | |c]; try done; [by destruct (Hb p)|by destruct (He p)|..]; by rewrite app_nil_r.
Qed.

Lemma tracks_ret {A} (a : A) : tracks (ret a).
Proof. by intros t d H. Qed.

Lemma tracks_bind {A B} (c : main_monad A) (k : A -> main_monad B) :
  tracks c -> (forall a, tracks (k a)) -> tracks (bind c k).
Proof.
  intros Hc Hk t d H. specialize (Hc t d H). unfold bind. destruct (c t d); [by apply Hk|done].
Qed.

Lemma tracks_fatal {A} c : tracks (@fatal A c).
Proof.
  intros t d (H1 & H2 & H3). exists c, t. split; [done|]. split; [|done]. unfold ended in *. by rewrite omap_app, H2.
Qed.

Lemma tracks_begin p : tracks (begin_part p).
Proof.
  intros t d (-> & H2 & H3). unfold pending, begun, ended in *. cbn.
  rewrite !omap_app, rev_app_distr, H2, existsb_app, H3. done.
Qed.

Lemma tracks_act a : (forall p, a <> Begin p) -> (forall p, a <> End p) -> is_fatal a = false -> tracks (act a).
Proof. intros H1 H2 H3 t d H. by apply pending_snoc. Qed.

Lemma tracks_when b c : tracks c -> tracks (on_condition b c).
Proof. destruct b; [done|]. intros _. apply tracks_ret. Qed.

Lemma tracks_check {E} (c : E -> cause) err : tracks (check c err).
Proof. destruct err; [apply tracks_fatal|apply tracks_ret]. Qed.

Lemma tracks_check_result {A} c (r : result string A) : tracks (check_result c r).
Proof. destruct r; [apply tracks_ret|apply tracks_fatal]. Qed.

#[export] Hint Resolve tracks_ret tracks_bind tracks_fatal tracks_begin tracks_when tracks_check tracks_check_result : tracks.
#[export] Hint Extern 2 (tracks (act _)) => apply tracks_act : tracks.

Lemma tracks_setup {Key} (o : Outside Key) : tracks (setup o).
Proof.
  unfold setup. apply tracks_bind.
  - destruct (Load _ _) as [[cfg|] [e|]]; auto with tracks.
  - intros cfg. auto 40 with tracks.
Qed.

Lemma tracks_finish {Key} (o : Outside Key) parts : tracks (finish o parts).
Proof. unfold finish. auto 10 with tracks. Qed.

Lemma trace_of_defers (d : list part) : ended (End <$> d) = d /\ begun (End <$> d) = [] /\ existsb is_fatal (End <$> d) = false.
Proof.
  unfold ended, begun. induction d as [|p d (IH1 & IH2 & IH3)]; [done|]. cbn. split_and!; [by f_equal|done|done].
Qed.

(** What a computation returns, whatever happened before: [None] if the process exits. *)
Definition yields {A} (c : main_monad A) (r : option A) : Prop :=
  forall t d, match c t d with Go a _ _ => r = Some a | Dead _ => r = None end.

Lemma yields_ret {A} (a : A) : yields (ret a) (Some a).
Proof. done. Qed.

Lemma yields_bind {A B} (c : main_monad A) (k : A -> main_monad B) r f :
  yields c r -> (forall a, yields (k a) (f a)) -> yields (bind c k) (r ≫= f).
Proof.
  intros Hc Hk t d. specialize (Hc t d). unfold bind. destruct (c t d) as [a t2 d2|t2]; rewrite Hc; [apply Hk|done].
Qed.

Lemma yields_check {E} (c : E -> cause) err : yields (check c err) (match err with Some _ => None | None => Some tt end).
Proof. by destruct err. Qed.

Lemma yields_check_result {A} c (r : result string A) :
  yields (check_result c r) (match r with Ok a => Some a | Err _ => None end).
Proof. by destruct r. Qed.

Lemma yields_when b c r : yields c r -> yields (on_condition b c) (if b then r else Some tt).
Proof. by destruct b. Qed.

Lemma yields_fatal {A} c : yields (@fatal A c) None.
Proof. done. Qed.

Lemma yields_begin p : yields (begin_part p) (Some tt).
Proof. done. Qed.

Lemma yields_when_begin b p : yields (on_condition b (begin_part p)) (Some tt).
Proof. by destruct b. Qed.

Lemma yields_act a : yields (act a) (Some tt).
Proof. done. Qed.

Ltac yields_tac :=
  repeat first [eapply yields_bind; [|intros ?] | apply yields_check | apply yields_check_result | apply yields_when_begin | apply yields_when
               | apply yields_begin | apply yields_act | apply yields_ret].

Lemma Load_result decode f : match Load decode f with (None, None) => False | _ => True end.
Proof. unfold Load. destruct f as [content| |e]; [|done..]. destruct (decode content defaults) as [? [?|]]; done. Qed.

Lemma setup_yields {Key} (o : Outside Key) :
  exists r, yields (setup o) r /\ forall made, r = Some made <-> exists cfg key, ready o cfg key /\ made = (parts_of o cfg, key).
Proof.
  eexists. split.
  - unfold setup. eapply yields_bind.
    + instantiate (1 := match Load (o_decode o) (o_file o) with (Some cfg, None) => Some cfg | (_, Some _) => None
                        | _ => Some defaults end).
      destruct (Load _ _) as [[cfg|] [e|]]; done.
    + intros cfg. yields_tac.
  - intros made. cbn beta. pose proof (Load_result (o_decode o) (o_file o)) as Hl. unfold ready.
    destruct (Load (o_decode o) (o_file o)) as [[cfg|] [e|]]; [| | |done]; cbn [mbind option_bind].
    1, 3: split; [done|]; intros (cfg0 & key & [H _] & _); congruence.
    cbn [mbind option_bind]. split.
    + intros H. exists cfg.
      assert (proc_Enabled (MediaMTXProc cfg) = true -> snd (Supervisor.Start (o_launch o) (o_ready o)) = None ->
              o_launch o = None /\ o_ready o = None) as Hs by (by destruct (o_launch o), (o_ready o)).
      destruct (proc_Enabled (MediaMTXProc cfg)), (snd (Supervisor.Start _ _)), (o_logging o), (o_key o) as [key|],
        (o_seed_rbac o), (o_seed_admin o), (o_uuid o); cbn in H; try discriminate H; injection H as <-;
        exists key; (split; [|done]); split_and!; auto; done.
    + intros (cfg0 & key & (H1 & -> & Hp & -> & -> & -> & ->) & ->). injection H1 as <-. cbn.
      destruct (proc_Enabled (MediaMTXProc cfg)); [|done]. by destruct Hp as [-> ->].
Qed.

Lemma main_outcome {Key} (o : Outside Key) :
  (all_well o /\ ended (main o) = rev (begun (main o)) /\ existsb is_fatal (main o) = false) \/
  (~ all_well o /\ exited (main o)).
Proof.
  destruct (setup_yields o) as (r & Hr & Hmade).
  assert (yields (bind (setup o) (fun made => finish o (fst made)))
            (r ≫= fun _ => match o_listen o with Some _ => None | None => Some tt end)) as Hy.
  { eapply yields_bind; [done|]. intros made t d. unfold finish, bind. destruct (o_listen o); cbn; [done|].
    by destruct (registry _). }
  assert (tracks (bind (setup o) (fun made => finish o (fst made)))) as Ht.
  { apply tracks_bind; [apply tracks_setup|intros; apply tracks_finish]. }
  assert (all_well o <-> r <> None /\ o_listen o = None) as Haw.
  { unfold all_well. split; intros [H Hl]; (split; [|done]).
    - destruct H as (cfg & key & H). intros ->. by assert (None = Some (parts_of o cfg, key)) by (apply Hmade; eauto).
    - destruct r as [made|]; [|done]. destruct (proj1 (Hmade made) eq_refl) as (cfg & key & H' & _). eauto. }
  rewrite Haw. specialize (Hy [] []). specialize (Ht [] []). unfold main.
  destruct (bind _ _ [] []) as [u t d|t].
  - left. destruct r as [made|]; [|done]. cbn in Hy. destruct (o_listen o); [done|]. split; [done|].
    destruct Ht as (-> & H2 & H3); [done|]. destruct (trace_of_defers (rev (begun t))) as (E1 & E2 & E3).
    unfold begun, ended in *. by rewrite !omap_app, H2, E1, E2, existsb_app, H3, E3, app_nil_r.
  - right. split; [|by apply Ht]. intros [Hn Hl]. destruct r; [|done]. cbn in Hy. by rewrite Hl in Hy.
Qed.

(** ** Properties *)


Lemma setup_parts {Key} (o : Outside Key) parts key t d :
  setup o [] [] = Go (parts, key) t d -> exists cfg, ready o cfg key /\ parts = parts_of o cfg.
Proof.
  intros H. destruct (setup_yields o) as (r & Hr & Hmade). specialize (Hr [] []). rewrite H in Hr.
  apply Hmade in Hr as (cfg & key' & Hready & [= -> ->]). eauto.
Qed.

Lemma EnsureStream_panics {S} i k uuid now clock get e :
  Engine.IsZero k = false -> e !! Engine.StreamKey_String k = None -> i <> Engine.NilInterface ->
  (exists e', Engine.EnsureStream (S := S) i k uuid now None clock get e = Some (Engine.Panics, e')) <->
  i = Engine.NilPointer.
Proof.
  intros Hk He Hi. unfold Engine.EnsureStream, Engine.start_stream. rewrite Hk, He.
  destruct i as [| |[err|]]; cbn [Engine.is_nil Engine.ingest_Start]; [done|by split; eauto|by split; [intros (? & ?)|]|].
  cbv zeta. destruct (Engine.wait_live _ clock get _ 0) as [[]|]; (split; [|done]); by intros (e' & H).
Qed.

(** what the configuration makes of the process. Once [main] has set up, the
    configuration is the one that was loaded, the defaults when there is no file; a
    client of MediaMTX, of Pion, of MinIO, a registry and a Redis client exist exactly
    when they are enabled and answer; and asking the engine for a stream that is not
    running panics exactly when MediaMTX is disabled, as it is by default. *)
Theorem parts_of_the_configuration {Key S} (o : Outside Key) parts key t d :
  setup o [] [] = Go (parts, key) t d ->
  let cfg := cfg_ parts in
  Load (o_decode o) (o_file o) = (Some cfg, None) /\ (o_file o = NotExist -> cfg = defaults) /\
  (mtx parts = None <-> mtx_Enabled (MediaMTX cfg) = false) /\
  (pion parts = None <-> pion_Enabled (PionWebRTC cfg) = false) /\
  (minio parts = true <-> minio_Enabled (MinIO cfg) = true /\ o_minio o = true) /\
  (registry parts = true <-> o_ping o = None) /\ rdb parts = registry parts /\
  forall k uuid now clock get e, Engine.IsZero k = false -> e !! Engine.StreamKey_String k = None ->
    (exists e', Engine.EnsureStream (S := S) (ingest parts) k uuid now None clock get e = Some (Engine.Panics, e')) <->
    mtx_Enabled (MediaMTX cfg) = false.
Proof.
  intros H. apply setup_parts in H as (cfg & Hr & ->). cbn. destruct Hr as (Hl & _). split_and!.
  - done.
  - intros Hn. rewrite Hn in Hl. by injection Hl.
  - unfold New_mediamtx. by destruct (mtx_Enabled (MediaMTX cfg)).
  - unfold Pion.New. cbn. by destruct (pion_Enabled (PionWebRTC cfg)).
  - unfold New_minio. apply andb_true_iff.
  - unfold NewClient. by destruct (o_ping o).
  - done.
  - intros k uuid now clock get e Hk He.
    destruct (mtx_Enabled (MediaMTX cfg)); rewrite EnsureStream_panics; done.
Qed.

(** The value of a duration in a unit, when it can be one. *)
Definition fits (n unit : Z) : Prop := 0 < n * unit < 2 ^ 63.

Lemma i64_fits n unit : fits n unit -> i64 (n * unit) = n * unit.
Proof. intros H. apply i64_small. unfold fits in H. lia. Qed.

(** the server's bounds. Whatever the configuration says, zero, negative or so large
    that the conversion to a duration wraps around, the timeout of the health checks, the
    idempotency window and its number of keys and the lifetime of a lease are positive,
    the clock skew is not negative and the lease secret not empty; a number that fits is
    used as it is. *)
Theorem NewServer_bounds parts r m o :
  let s := NewServer parts r m o in let ha := HA (cfg_ parts) in
  (0 < healthTimeout s /\ 0 < Idempotency.ttl (idempotency s) /\ (0 < Idempotency.maxKeys (idempotency s))%nat /\
   0 < Lease.ttl (leaseService s) /\ 0 <= Lease.skew (leaseService s) /\ Lease.secret (leaseService s) <> "") /\
  (fits (DependencyTimeoutMs ha) Millisecond -> healthTimeout s = DependencyTimeoutMs ha * Millisecond) /\
  (fits (IdempotencyTTLSeconds ha) Second -> Idempotency.ttl (idempotency s) = IdempotencyTTLSeconds ha * Second) /\
  (fits (LeaseTTLSeconds ha) Second -> Lease.ttl (leaseService s) = LeaseTTLSeconds ha * Second).
Proof.
  cbn. unfold Health.NewMonitor_timeout.
  assert (forall x d, 0 < d -> 0 < (if x <=? 0 then d else x)) as Hpos.
  { intros x d Hd. destruct (Z.leb_spec x 0); lia. }
  assert (forall n unit d, fits n unit -> (if i64 (n * unit) <=? 0 then d else i64 (n * unit)) = n * unit) as Hfit.
  { intros n unit d Hf. rewrite i64_fits by done. unfold fits in Hf. destruct (Z.leb_spec (n * unit) 0); lia. }
  split; [|split_and!; apply Hfit]. split_and!.
  - by apply Hpos.
  - by apply Hpos.
  - pose proof (Hpos (IdempotencyMaxKeys (HA (cfg_ parts))) 20000 ltac:(lia)). lia.
  - by apply Hpos.
  - destruct (Z.ltb_spec (i64 (LeaseClockSkewSeconds (HA (cfg_ parts)) * Second)) 0); lia.
  - by case_bool_decide.
Qed.

(** ** Witnesses and examples *)

(** No configuration file, Redis answers, nothing fails, a signal comes. *)
Definition example_outside : Outside unit :=
  mkOutside unit NotExist (fun _ cfg => (cfg, None)) None None None false None None (Ok tt) None None None None.

Definition example_setup : run (Parts * unit) := setup example_outside [] [].

Example example_main : main example_outside =
  [Begin Logs; Begin Context; Begin StatsEmitter; Begin Registry; Reaper; Serve; Deregister; ShutdownRedis;
   End Registry; End StatsEmitter; End Context; End Logs].
Proof. reflexivity. Qed.

Lemma example_well : all_well example_outside.
Proof. split; [|done]. exists defaults, tt. by repeat split. Qed.

(** MediaMTX is started as a child, and the server cannot listen: it is left running. *)
Definition example_listen_fails : Outside unit :=
  mkOutside unit (Opened "media_mtx_proc: {enabled: true}")
    (fun _ cfg => (mkConfig (RTMP cfg) (http_Addr cfg) (Redis cfg) (Node cfg) (Topology cfg) (HA cfg) (SLO cfg)
       (HLS cfg) (storage_RootPath cfg) (MinIO cfg) (MediaMTX cfg) (mkProc true "./mediamtx" "./mediamtx.yml" 15)
       (PionWebRTC cfg) (LogConfig cfg) (Auth cfg) (Relay cfg), None))
    None None None false (Some "refused") None (Ok tt) None None None (Some "address already in use").

Example listen_fails_mediamtx_runs :
  main example_listen_fails =
    [Begin Logs; Begin Context; Begin MediaMTXProcess; Begin StatsEmitter; Reaper; Serve;
     Fatal (ServerEnded "address already in use")] /\
  Supervisor.live (fst (Supervisor.Start (o_launch example_listen_fails) (o_ready example_listen_fails))) <> ∅.
Proof.
  split; [reflexivity|]. cbn. intros H. assert (0%nat ∈ (∅ : gset nat)) as Hin; [|by apply elem_of_empty in Hin].
  rewrite <- H. set_solver.
Qed.

Lemma parts_of_the_configuration_witness :
  let parts := parts_of example_outside defaults in
  setup example_outside [] [] = Go (parts, tt)
    [Begin Logs; Begin Context; Begin StatsEmitter; Begin Registry; Reaper; Serve]
    [Registry; StatsEmitter; Context; Logs] /\
  (exists e', Engine.EnsureStream (S := unit) (ingest parts) (Engine.mkKey "cam-1" "hd") "id" 0 None (fun _ => 0)
     (fun _ => None) Engine.NewEngine = Some (Engine.Panics, e')).
Proof.
  split; [reflexivity|].
  pose proof (parts_of_the_configuration (S := unit) example_outside (parts_of example_outside defaults) tt
    [Begin Logs; Begin Context; Begin StatsEmitter; Begin Registry; Reaper; Serve]
    [Registry; StatsEmitter; Context; Logs] eq_refl) as (_ & _ & _ & _ & _ & _ & _ & H).
  apply H; reflexivity.
Defined.

(** A lease lifetime that wraps around is the default one; 10 billion seconds do. *)
Example wrapped_ttl : fits 90 Second /\ ~ fits 10000000000 Second /\
  Lease.ttl (Lease.NewLeaseService false (i64 (10000000000 * Second)) 0 "") = 90 * Second.
Proof. split_and!; [done|intros [? H]; vm_compute in H; discriminate|reflexivity]. Qed.
