(* ===== verification/Creation.v ===== *)
(** * Creating sessions, idempotently

    [createLiveSession] ([internal/api/session.go]) as concurrent requests: each is
    admitted (Session.v), runs through the idempotency store (Idempotency.v), whose
    producer issues a session over the lease store, and answers what it gets back.
    The JSON of a session is an argument. *)

From S2P Require Import Prelude GoStrings.
From S2P Require Idempotency Lease Session.

Section Creation.
Context `{HE : Lease.LeaseEnv} {St} `{HSt : !Lease.LeaseStore St}.
(** [json.Marshal] *)
Context (Marshal : Session.sessionResponse -> result string (list Byte.byte)).

(** ** The handler *)

(** What the producer gives to [Do], from the result of [issueSession]. *)
Definition producer (r : result Lease.lease_error Session.sessionResponse)
  : Idempotency.CachedResponse * option string :=
  match r with
  | Err e => (Idempotency.no_response, Some (Session.lease_error_text e))
  | Ok payload =>
      match Marshal payload with
      | Err e => (Idempotency.no_response, Some e)
      | Ok raw => (Idempotency.mkResponse 201 "application/json" raw, None)
      end
  end.

(** The answer: the status, the headers it sets and the body; or the error. *)
Inductive creation_answer :=
  | Created (status : Z) (replayed_header : bool) (contentType : string) (body : list Byte.byte)
  | CreationFailed (status : Z) (message : string).

(** [ctx_err]: the error of the request's context, if waiting was cancelled. *)
Definition answer_of (ctx_err : string) (r : Idempotency.result_of_Do) : creation_answer :=
  match r with
  | Idempotency.Cancelled => CreationFailed 500 ("create session failed: " +:+ ctx_err)
  | Idempotency.Responded _ _ (Some e) => CreationFailed 500 ("create session failed: " +:+ e)
  | Idempotency.Responded resp replayed None =>
      Created (Idempotency.StatusCode resp) replayed (Idempotency.ContentType resp) (Idempotency.Body resp)
  end.

(** ** Concurrent requests *)

(** A request that was admitted: the stream key, the normalised request, the cache key. *)
Record AdmittedRequest := mkAdmittedRequest { a_key : string; a_req : Session.createSessionRequest; a_cache : string }.

(** [direct]: the results of requests without an idempotency key, which go past the
    store; [issued]: the sessions issued so far, by request. *)
Record State := mkState {
  sys : Idempotency.Sys; leases : St; requests : gmap nat AdmittedRequest;
  direct : gmap nat Idempotency.result_of_Do; issued : list (nat * Session.sessionResponse) }.

(** What a request that runs the producer leaves of the lease store, what it hands
    back, and the session if one was issued. *)
Definition run_producer (srv : Session.Server) (a : AdmittedRequest) (st : St) (th now ts : Time) (order : list nat) (id : string)
  : St * (Idempotency.CachedResponse * option string) * option Session.sessionResponse :=
  let '(st, r) := Session.issueSession srv st th now ts order id (a_key a) (a_req a) "live" in
  (st, producer r, match r with Ok payload => Some payload | Err _ => None end).

Definition record_issue (c : nat) (p : option Session.sessionResponse) (l : list (nat * Session.sessionResponse)) :=
  match p with Some payload => (c, payload) :: l | None => l end.

Inductive creation_step (srv : Session.Server) : State -> State -> Prop :=
  | creation_admit c key derr ik body ready k req ck s :
      Session.createLiveSession_admit key derr ik body ready = inr (k, req, ck) -> ck <> "" ->
      requests s !! c = None -> Idempotency.calls (sys s) !! c = None ->
      creation_step srv s
        (mkState (Idempotency.mkSys (Idempotency.store (sys s)) (Idempotency.clock (sys s))
                    (<[c := Idempotency.Looping ck]> (Idempotency.calls (sys s))) (Idempotency.executed (sys s)))
           (leases s) (<[c := mkAdmittedRequest k req ck]> (requests s)) (direct s) (issued s))
  | creation_without_key c key derr ik body ready k req th now ts order id st resp err p s :
      Session.createLiveSession_admit key derr ik body ready = inr (k, req, "") ->
      requests s !! c = None -> direct s !! c = None ->
      run_producer srv (mkAdmittedRequest k req "") (leases s) th now ts order id = (st, (resp, err), p) ->
      creation_step srv s
        (mkState (sys s) st (<[c := mkAdmittedRequest k req ""]> (requests s))
           (<[c := Idempotency.Responded resp false err]> (direct s)) (record_issue c p (issued s)))
  | creation_produce c ck pe a th now ts order id st resp err p s :
      Idempotency.calls (sys s) !! c = Some (Idempotency.Producing ck pe) -> requests s !! c = Some a ->
      run_producer srv a (leases s) th now ts order id = (st, (resp, err), p) ->
      creation_step srv s
        (mkState (Idempotency.mkSys (Idempotency.finalizeEntry ck pe resp err (Idempotency.clock (sys s)) (Idempotency.store (sys s)))
                    (Idempotency.clock (sys s)) (<[c := Idempotency.Returned (Idempotency.Responded resp false err)]> (Idempotency.calls (sys s)))
                    ((ck, resp, err, Idempotency.clock (sys s)) :: Idempotency.executed (sys s)))
           st (requests s) (direct s) (record_issue c p (issued s)))
  | creation_idempotency y s :
      (* a round of the loop, a wake-up, a cancellation, or time *)
      Idempotency.step (sys s) y -> Idempotency.executed y = Idempotency.executed (sys s) ->
      dom (Idempotency.calls y) = dom (Idempotency.calls (sys s)) ->
      creation_step srv s (mkState y (leases s) (requests s) (direct s) (issued s))
  | creation_leases st s :
      (* whatever other requests do to the lease store *)
      creation_step srv s (mkState (sys s) st (requests s) (direct s) (issued s)).

Definition creation_start (ttl maxKeys : Z) (t0 : Time) (st : St) : State :=
  mkState (Idempotency.start ttl maxKeys t0) st ∅ ∅ [].

(** The result of a request. *)
Definition result_for (c : nat) (s : State) : option Idempotency.result_of_Do :=
  match direct s !! c with
  | Some r => Some r
  | None => match Idempotency.calls (sys s) !! c with Some (Idempotency.Returned r) => Some r | _ => None end
  end.

(** ** Specification side *)

(** The key under which the results of a request are kept. *)
Definition cache_key (key ik : string) : string :=
  if bool_decide (ik = "") then "" else "live-session:" +:+ key +:+ ":" +:+ ik.

(** A session issued for request [c], whose results are kept under [ck], and the response
    it became. *)
Definition made (s : State) (c : nat) (ck : string) (resp : Idempotency.CachedResponse) : Prop :=
  exists a payload raw, requests s !! c = Some a /\ a_cache a = ck /\ (c, payload) ∈ issued s /\
    Marshal payload = Ok raw /\ resp = Idempotency.mkResponse 201 "application/json" raw /\
    Session.s_StreamKey payload = TrimSpace (a_key a).

Definition call_key (c : Idempotency.Call) : option string :=
  match c with
  | Idempotency.Looping k | Idempotency.Waiting k _ | Idempotency.Producing k _ => Some k
  | Idempotency.Returned _ => None
  end.

(** What a result says of the sessions. *)
Definition result_ok (s : State) (c : nat) (ck : string) (r : Idempotency.result_of_Do) : Prop :=
  match r with
  | Idempotency.Responded resp replayed None =>
      exists c2, made s c2 ck resp /\ (replayed = false -> c2 = c)
  | _ => True
  end.

Record creation_inv (t k : Z) (t0 : Time) (s : State) : Prop := {
  ci_reach : Idempotency.reachable t k t0 (sys s);
  ci_exec : forall ck resp tm, (ck, resp, None, tm) ∈ Idempotency.executed (sys s) -> exists c, made s c ck resp;
  ci_calls : forall c call, Idempotency.calls (sys s) !! c = Some call ->
    exists a, requests s !! c = Some a /\
      match call_key call with Some ck => ck = a_cache a | None => True end /\
      match call with Idempotency.Returned r => result_ok s c (a_cache a) r | _ => True end;
  ci_direct : forall c r, direct s !! c = Some r -> exists a, requests s !! c = Some a /\ result_ok s c (a_cache a) r;
  ci_cache : forall c a, requests s !! c = Some a -> exists ik, a_cache a = cache_key (a_key a) ik;
}.

(** ** Lemmas *)

Lemma admitted_cache key derr ik body ready k req ck :
  Session.createLiveSession_admit key derr ik body ready = inr (k, req, ck) -> exists ik, ck = cache_key k ik.
Proof.
  unfold Session.createLiveSession_admit. case_bool_decide; [done|]. destruct body; [|done].
  destruct (ready _) as [[]|]; try done. intros [= <- <- <-]. by exists (TrimSpace ik).
Qed.

Lemma run_producer_made srv a st th now ts order id st' resp p :
  run_producer srv a st th now ts order id = (st', (resp, None), p) ->
  exists payload raw, p = Some payload /\ Marshal payload = Ok raw /\
    resp = Idempotency.mkResponse 201 "application/json" raw /\ Session.s_StreamKey payload = TrimSpace (a_key a).
Proof.
  unfold run_producer, Session.issueSession, Lease.Issue, Lease.save_and_sign, producer.
  destruct (Lease.store_Save _ _ _ _) as [st2|e]; [|done].
  destruct (Lease.signToken _ _) as [token|]; [|done].
  destruct (Marshal _) as [raw|e] eqn:Em; intros [= <- <- <-]. eexists _, _. by split_and!.
Qed.

(** What is recorded stays. *)
Lemma made_mono s s' c ck resp :
  (forall c a, requests s !! c = Some a -> requests s' !! c = Some a) ->
  (forall x, x ∈ issued s -> x ∈ issued s') -> made s c ck resp -> made s' c ck resp.
Proof. intros Hr Hi (a & p & raw & H1 & H2 & H3 & H4). exists a, p, raw. auto. Qed.

Lemma result_ok_mono s s' c ck r :
  (forall c a, requests s !! c = Some a -> requests s' !! c = Some a) ->
  (forall x, x ∈ issued s -> x ∈ issued s') -> result_ok s c ck r -> result_ok s' c ck r.
Proof.
  intros Hr Hi. destruct r as [resp replayed [e|]|]; [done| |done]. intros (c2 & Hm & Hc). exists c2. split; [|done].
  by eapply made_mono.
Qed.

Lemma record_issue_mono c p l x : x ∈ l -> x ∈ record_issue c p l.
Proof. intros H. destruct p; [by right|done]. Qed.

(** What holds of a call whose request is [a]. *)
Definition call_ok (s : State) (c : nat) (call : Idempotency.Call) : Prop :=
  exists a, requests s !! c = Some a /\
    match call_key call with Some ck => ck = a_cache a | None => True end /\
    match call with Idempotency.Returned r => result_ok s c (a_cache a) r | _ => True end.

(** The invariant after a step: what is recorded stays, and what is new is in order. *)
Lemma creation_inv_step t k t0 s s' :
  creation_inv t k t0 s -> Idempotency.reachable t k t0 (sys s') ->
  (forall c a, requests s !! c = Some a -> requests s' !! c = Some a) ->
  (forall x, x ∈ issued s -> x ∈ issued s') ->
  (forall ck resp tm, (ck, resp, None, tm) ∈ Idempotency.executed (sys s') ->
     (ck, resp, None, tm) ∈ Idempotency.executed (sys s) \/ exists c, made s' c ck resp) ->
  (forall c call, Idempotency.calls (sys s') !! c = Some call ->
     Idempotency.calls (sys s) !! c = Some call \/ call_ok s' c call) ->
  (forall c r, direct s' !! c = Some r ->
     direct s !! c = Some r \/ exists a, requests s' !! c = Some a /\ result_ok s' c (a_cache a) r) ->
  (forall c a, requests s' !! c = Some a -> requests s !! c = Some a \/ exists ik, a_cache a = cache_key (a_key a) ik) ->
  creation_inv t k t0 s'.
Proof.
  intros [I1 I2 I3 I4 I5] Hr Hreq Hiss He Hc Hd Hk. split; [done|..].
  - intros ck resp tm Hin. destruct (He _ _ _ Hin) as [Ho|Ho]; [|done]. destruct (I2 _ _ _ Ho) as [c Hm].
    exists c. by eapply made_mono.
  - intros c call Hin. destruct (Hc _ _ Hin) as [Ho|Ho]; [|done]. destruct (I3 _ _ Ho) as (a & Ha & H1 & H2).
    exists a. split_and!; [by apply Hreq|done|]. destruct call; try done. by eapply result_ok_mono.
  - intros c r Hin. destruct (Hd _ _ Hin) as [Ho|Ho]; [|done]. destruct (I4 _ _ Ho) as (a & Ha & H1).
    exists a. split; [by apply Hreq|]. by eapply result_ok_mono.
  - intros c a Hin. destruct (Hk _ _ Hin) as [Ho|Ho]; [|done]. by apply (I5 c).
Qed.

Lemma lookup_insert_cases {A} (m : gmap nat A) i j x y : <[i:=x]> m !! j = Some y -> m !! j = Some y \/ (j = i /\ y = x).
Proof. intros [[-> ->]|[_ H]]%lookup_insert_Some; auto. Qed.

(** A round of the loop: a response it replays is that of a session made. *)
Lemma round_call_ok t k t0 s c key call st2 :
  creation_inv t k t0 s -> Idempotency.calls (sys s) !! c = Some (Idempotency.Looping key) ->
  Idempotency.loop_round key (Idempotency.clock (sys s)) (Idempotency.store (sys s)) = (call, st2) -> call_ok s c call.
Proof.
  intros I Hc Hl. destruct (ci_calls _ _ _ _ I _ _ Hc) as (a & Ha & Hk & _). cbn in Hk. exists a. split; [done|].
  pose proof Hl as Hl2. unfold Idempotency.loop_round in Hl2.
  destruct (Idempotency.prepareEntry _ _ _) as [[p resp|p|p] s2]; injection Hl2 as <- <-; [|done|done].
  split; [done|]. cbn. destruct (Idempotency.idempotency_replays_success _ _ _ _ _ _ _ _ (ci_reach _ _ _ _ I) Hl)
    as (-> & tm & Hin & _). subst key. destruct (ci_exec _ _ _ _ I _ _ _ Hin) as [c2 Hm]. by exists c2.
Qed.

(** The calls after a step of the idempotency store that neither adds a call nor runs a
    producer. *)
Lemma round_calls t k t0 s y :
  creation_inv t k t0 s -> Idempotency.step (sys s) y -> Idempotency.executed y = Idempotency.executed (sys s) ->
  dom (Idempotency.calls y) = dom (Idempotency.calls (sys s)) ->
  forall c call, Idempotency.calls y !! c = Some call -> Idempotency.calls (sys s) !! c = Some call \/ call_ok s c call.
Proof.
  intros I Hs He Hd c call Hin.
  assert (forall c' call' new, Idempotency.calls (sys s) !! c' = Some call' -> call_ok s c' new ->
    <[c':=new]> (Idempotency.calls (sys s)) !! c = Some call ->
    Idempotency.calls (sys s) !! c = Some call \/ call_ok s c call) as Hins.
  { intros c' call' new _ Hok [H|[-> ->]]%lookup_insert_cases; auto. }
  inversion Hs as [c' key' y0 Hc Hk E|c' key' call' st2 y0 Hc Hl E|c' key' p e y0 Hc Hh Hdone E
      |c' key' p y0 Hc E|c' key' p resp err y0 Hc E|d y0 Hdd E]; subst y; cbn in *.
  - exfalso. apply not_elem_of_dom in Hc. apply Hc. rewrite <- Hd, dom_insert_L. set_solver.
  - eapply Hins; [exact Hc| |exact Hin]. by eapply round_call_ok.
  - eapply Hins; [exact Hc| |exact Hin]. destruct (ci_calls _ _ _ _ I _ _ Hc) as (a & Ha & Hk & _). by exists a.
  - eapply Hins; [exact Hc| |exact Hin]. destruct (ci_calls _ _ _ _ I _ _ Hc) as (a & Ha & _ & _). by exists a.
  - exfalso. apply (f_equal length) in He. cbn in He. lia.
  - by left.
Qed.

Lemma creation_inv_idempotency t k t0 s y :
  creation_inv t k t0 s -> Idempotency.step (sys s) y -> Idempotency.executed y = Idempotency.executed (sys s) ->
  dom (Idempotency.calls y) = dom (Idempotency.calls (sys s)) ->
  creation_inv t k t0 (mkState y (leases s) (requests s) (direct s) (issued s)).
Proof.
  intros I Hs He Hd. eapply creation_inv_step; [exact I|..]; cbn; try (by auto).
  - eapply rtc_r; [apply (ci_reach _ _ _ _ I)|done].
  - intros ck resp tm Hin. left. by rewrite He in Hin.
  - exact (round_calls _ _ _ s y I Hs He Hd).
Qed.

(** A request is admitted: new in the table, its calls are as they should be. *)
Lemma creation_inv_produce srv t k t0 s c ck pe a th now ts order id st resp err p :
  creation_inv t k t0 s ->
  Idempotency.calls (sys s) !! c = Some (Idempotency.Producing ck pe) -> requests s !! c = Some a ->
  run_producer srv a (leases s) th now ts order id = (st, (resp, err), p) ->
  creation_inv t k t0
    (mkState (Idempotency.mkSys (Idempotency.finalizeEntry ck pe resp err (Idempotency.clock (sys s)) (Idempotency.store (sys s)))
                (Idempotency.clock (sys s)) (<[c := Idempotency.Returned (Idempotency.Responded resp false err)]> (Idempotency.calls (sys s)))
                ((ck, resp, err, Idempotency.clock (sys s)) :: Idempotency.executed (sys s)))
       st (requests s) (direct s) (record_issue c p (issued s))).
Proof.
  intros I Hc Ha Hp. destruct (ci_calls _ _ _ _ I _ _ Hc) as (a' & Ha' & Hk & _). cbn in Hk.
  assert (a' = a) as -> by congruence. subst ck.
  set (s' := mkState _ _ _ _ _).
  assert (err = None -> made s' c (a_cache a) resp) as Hm.
  { intros ->. apply run_producer_made in Hp as (payload & raw & -> & H2 & H3 & H4).
    exists a, payload, raw. split_and!; try done. by left. }
  eapply creation_inv_step; [exact I|..]; cbn; auto.
  - eapply rtc_r; [apply (ci_reach _ _ _ _ I)|]. by apply Idempotency.step_produced.
  - intros x. apply record_issue_mono.
  - intros ck resp2 tm [[= -> -> <- ->]|Hin]%elem_of_cons; [right; eauto|by left].
  - intros c2 call [Hin|[-> ->]]%lookup_insert_cases; [by left|]. right. exists a. split_and!; [done|done|].
    cbn. destruct err; [done|]. exists c. eauto.
Qed.

Lemma creation_inv_reachable srv ttl k t0 st s :
  rtc (creation_step srv) (creation_start ttl k t0 st) s -> creation_inv ttl k t0 s.
Proof.
  assert (creation_inv ttl k t0 (creation_start ttl k t0 st)) as H0.
  { split; cbn; try (intros *; rewrite ?lookup_empty; done); [apply rtc_refl|by intros ? ? ? ?%elem_of_nil]. }
  intros Hr. revert H0. generalize dependent s. intros s Hr. induction Hr as [|x y z Hxy _ IH]; [done|]. intros I. apply IH. clear IH z.
  destruct Hxy as [c key derr ik body ready kk req ck s Had Hne Hr Hc
    |c key derr ik body ready kk req th now ts order id st1 resp err p s Had Hr Hd Hp
    |c ck pe a th now ts order id st1 resp err p s Hc Ha Hp|y s Hs He Hd|st1 s].
  - apply admitted_cache in Had. eapply creation_inv_step; [exact I|..]; cbn; auto.
    + eapply rtc_r; [apply (ci_reach _ _ _ _ I)|]. by apply Idempotency.step_call.
    + intros c' a Hin. rewrite lookup_insert_ne; [done|]. intros <-. congruence.
    + intros c' call [Hin|[-> ->]]%lookup_insert_cases; [by left|]. right. eexists. cbn. by rewrite lookup_insert_eq.
    + intros c' a [Hin|[-> ->]]%lookup_insert_cases; auto.
  - apply admitted_cache in Had. eapply creation_inv_step; [exact I|..]; cbn; auto.
    + apply (ci_reach _ _ _ _ I).
    + intros c' a Hin. rewrite lookup_insert_ne; [done|]. intros <-. congruence.
    + intros x. apply record_issue_mono.
    + intros c' r [Hin|[-> ->]]%lookup_insert_cases; [by left|]. right. eexists. rewrite lookup_insert_eq. split; [done|].
      cbn. destruct err as [e|]; [done|]. apply run_producer_made in Hp as (payload & raw & -> & H2 & H3 & H4).
      exists c. split; [|done]. eexists _, payload, raw. cbn. rewrite lookup_insert_eq. split_and!; try done. by left.
    + intros c' a [Hin|[-> ->]]%lookup_insert_cases; auto.
  - by eapply creation_inv_produce.
  - by apply creation_inv_idempotency.
  - eapply creation_inv_step; [exact I|..]; cbn; auto. apply (ci_reach _ _ _ _ I).
Qed.

Lemma cache_key_inj k1 i1 k2 i2 :
  contains_byte ":"%char k1 = false -> contains_byte ":"%char k2 = false ->
  cache_key k1 i1 <> "" -> cache_key k1 i1 = cache_key k2 i2 -> k1 = k2.
Proof.
  intros H1 H2. unfold cache_key. case_bool_decide; [done|]. intros _. case_bool_decide; [done|]. intros Heq.
  assert (k1 +:+ String ":"%char i1 = k2 +:+ String ":"%char i2) as Heq2.
  { revert Heq. rewrite !app_cons_string. cbn. by intros [= ?]. }
  apply (f_equal (Split ":"%char)) in Heq2. rewrite !Split_app in Heq2 by done. by injection Heq2.
Qed.

(** ** Properties *)

(** C7: an answer of 201 is a session. Whatever the requests do at the same time, a request
    that is answered 201 gets the JSON of a session that was issued, for itself unless
    the answer is marked as a replay, and otherwise for a request whose results are kept
    under the same key; if stream keys have no colon, for the stream it asks for. *)
Theorem created_sessions srv ttl maxKeys t0 st s c a r e status replayed ctype body :
  rtc (creation_step srv) (creation_start ttl maxKeys t0 st) s -> requests s !! c = Some a ->
  result_for c s = Some r -> answer_of e r = Created status replayed ctype body ->
  status = 201 /\ ctype = "application/json" /\
  exists c2 a2 payload, requests s !! c2 = Some a2 /\ (c2, payload) ∈ issued s /\ Marshal payload = Ok body /\
    Session.s_StreamKey payload = TrimSpace (a_key a2) /\ a_cache a2 = a_cache a /\ (replayed = false -> c2 = c) /\
    (contains_byte ":"%char (a_key a) = false -> contains_byte ":"%char (a_key a2) = false -> a_cache a <> "" ->
     a_key a2 = a_key a).
Proof.
  intros Hr%creation_inv_reachable Ha Hc Hans.
  assert (result_ok s c (a_cache a) r) as Hok.
  { unfold result_for in Hc. destruct (direct s !! c) as [r'|] eqn:Ed.
    - injection Hc as ->. destruct (ci_direct _ _ _ _ Hr _ _ Ed) as (a' & Ha' & H). congruence.
    - destruct (Idempotency.calls (sys s) !! c) as [[| | |r']|] eqn:Ec; try done. injection Hc as ->.
      destruct (ci_calls _ _ _ _ Hr _ _ Ec) as (a' & Ha' & _ & H). congruence. }
  destruct r as [resp rep [err|]|]; try done. injection Hans as <- <- <- <-.
  destruct Hok as (c2 & (a2 & payload & raw & Ha2 & Hk & Hin & Hm & -> & Hs) & Hrep). cbn. split_and!; [done|done|].
  exists c2, a2, payload. split_and!; try done. intros N1 N2 Hne.
  destruct (ci_cache _ _ _ _ Hr _ _ Ha) as [i1 E1], (ci_cache _ _ _ _ Hr _ _ Ha2) as [i2 E2].
  rewrite E1 in Hne. symmetry. apply (cache_key_inj _ i1 _ i2); try done. congruence.
Qed.
End Creation.

(** ** Witness *)

Section Example.
#[local] Existing Instance Lease.example_env.
#[local] Existing Instance Lease.memory_store.

Definition example_marshal (p : Session.sessionResponse) : result string (list Byte.byte) := Ok [].

Definition example_a : AdmittedRequest :=
  mkAdmittedRequest "cam" (Session.normalizeCreateSessionRequest (Session.mkCreate "" "" "" "" "") "cam") "live-session:cam:retry-1".

Notation State := (State (St := Lease.memoryLeaseStore)).

Definition example_admit (c : nat) (s : State) : State :=
  mkState (Idempotency.mkSys (Idempotency.store (sys s)) (Idempotency.clock (sys s))
             (<[c := Idempotency.Looping (a_cache example_a)]> (Idempotency.calls (sys s))) (Idempotency.executed (sys s)))
    (leases s) (<[c := example_a]> (requests s)) (direct s) (issued s).

Definition example_round (c : nat) (s : State) : State :=
  let '(call, st) := Idempotency.loop_round (a_cache example_a) (Idempotency.clock (sys s)) (Idempotency.store (sys s)) in
  mkState (Idempotency.mkSys st (Idempotency.clock (sys s)) (<[c := call]> (Idempotency.calls (sys s)))
             (Idempotency.executed (sys s))) (leases s) (requests s) (direct s) (issued s).

Definition example_produce (c pe : nat) (s : State) : State :=
  let '(st, (resp, err), p) := run_producer example_marshal Session.example_srv example_a (leases s) 0 0 0 [0%nat] "id" in
  mkState (Idempotency.mkSys (Idempotency.finalizeEntry (a_cache example_a) pe resp err (Idempotency.clock (sys s)) (Idempotency.store (sys s)))
             (Idempotency.clock (sys s)) (<[c := Idempotency.Returned (Idempotency.Responded resp false err)]> (Idempotency.calls (sys s)))
             ((a_cache example_a, resp, err, Idempotency.clock (sys s)) :: Idempotency.executed (sys s)))
    st (requests s) (direct s) (record_issue c p (issued s)).

Definition example_s0 : State := creation_start (180 * Second) 10 0 Lease.newMemoryLeaseStore.
Definition example_s1 : State := example_round 0 (example_admit 0 example_s0).
Definition example_s2 : State := example_produce 0 0 example_s1.
Definition example_s3 : State := example_admit 1 example_s2.
Definition example_s4 : State := example_round 1 example_s3.

Lemma creation_example_run : rtc (creation_step example_marshal Session.example_srv) example_s0 example_s4.
Proof.
  eapply rtc_l.
  { apply (creation_admit _ _ 0 "cam" "" "retry-1" (Some (Session.mkCreate "" "" "" "" "")) (fun _ => None) "cam");
      [vm_compute; reflexivity|done|reflexivity|reflexivity]. }
  eapply rtc_l.
  { apply creation_idempotency; [eapply (Idempotency.step_round 0); [reflexivity|vm_compute; reflexivity]|reflexivity|].
    vm_compute. reflexivity. }
  eapply rtc_l.
  { eapply (creation_produce _ _ 0 _ 0 example_a 0 0 0 [0%nat] "id"); [reflexivity|reflexivity|vm_compute; reflexivity]. }
  eapply rtc_l.
  { apply (creation_admit _ _ 1 "cam" "" "retry-1" (Some (Session.mkCreate "" "" "" "" "")) (fun _ => None) "cam");
      [vm_compute; reflexivity|done|reflexivity|reflexivity]. }
  apply rtc_once.
  apply creation_idempotency; [eapply (Idempotency.step_round 1); [reflexivity|vm_compute; reflexivity]|reflexivity|].
  vm_compute. reflexivity.
Qed.

Lemma created_sessions_witness :
  (201 = 201 /\ "application/json" = "application/json" /\
   exists c2 a2 payload, requests example_s4 !! c2 = Some a2 /\ (c2, payload) ∈ issued example_s4 /\
     example_marshal payload = Ok [] /\ Session.s_StreamKey payload = TrimSpace (a_key a2) /\
     a_cache a2 = a_cache example_a /\ (true = false -> c2 = 1%nat) /\
     (contains_byte ":"%char (a_key example_a) = false -> contains_byte ":"%char (a_key a2) = false ->
      a_cache example_a <> "" -> a_key a2 = a_key example_a)).
Proof.
  apply (created_sessions example_marshal Session.example_srv (180 * Second) 10 0 Lease.newMemoryLeaseStore example_s4
    1 example_a (Idempotency.Responded (Idempotency.mkResponse 201 "application/json" []) true None) "").
  - exact creation_example_run.
  - vm_compute. reflexivity.
  - vm_compute. reflexivity.
  - reflexivity.
Defined.
End Example.
